(** * libavstor: a shallow embedding of the storage engine (avstor.c)

    The development follows the layering of the C source, built in its
    default configuration (32-bit file offsets, little-endian host):

    - [Checksum]: the Adler-32 page checksum ([compute_page_checksum],
      [update_page_checksum]) over the bytes of a page frame.
    - [AVL], [AVLRep]: the AVL trees of nodes ([find_node_with_backtrace],
      [insert_node], [remove_node], the rotations) over a store of nodes,
      and the trees that the stores represent.
    - [Inorder]: the cursor ([avstor_inorder_first], [avstor_inorder_next]).
    - [API], [Delete]: the create, find and delete operations with their
      guard; [delete_backlink].
    - [Cache]: the page cache, [avstor_commit] and [rollback].
    - [Page]: nodes inside their page ([resize_node], [update_var_value],
      [get_var_value]).
    - [Sizing], [Names]: the size of the cache ([avstor_open],
      [cache_get_row]); [offset_comparer] and [strlen_l].
    - [AVLFacts]: the height of the trees and the back-trace; what the
      rebalancing keeps.
    - [Links]: links and the back-link tree ([create_backlink],
      [exists_link_to_node], [avstor_delete] of links and of their
      targets).
    - [CacheIO]: [read_page] against [write_page], commit and rollback
      taken twice.
    - [Values]: the values of fixed size and the typed getters.
    - [Slots]: the slots and the free space of a page ([alloc_node],
      [free_node], [create_page]).
    - [Lookup]: a row of the cache ([cache_lookup], [cache_evict]).
    - [Handles]: handles of nodes ([get_ofs]) and the header word
      ([set_bf]).

    Page frames are modelled as byte memories indexed by the offset inside
    the page; machine integers are [Z] with the wrap-around written out. *)

From Stdlib Require Import ZArith List Lia Bool.
From stdpp Require Import base option list gmap.

Local Open Scope Z_scope.
Set Warnings "-clear-no-such-hyp".

(** ** Constants of the source (avstor.h, avstor.c) *)

Definition PAGE_SIZE : Z := 4096.
Definition AVSTOR_AVL_HEIGHT : nat := 64.
Definition MAX_KEY_LEN : Z := 240.
Definition MAX_BINARY_LEN : Z := 250.
Definition MAX_STRING_LEN : Z := 250.
Definition PAGE_DIRTY : Z := 128.          (* 0x80 *)
Definition INVALID_INDEX : Z := 0.

(** The error codes of the public enum. *)
Inductive avstor_err : Type :=
| AVSTOR_OK | AVSTOR_PARAM | AVSTOR_MISMATCH | AVSTOR_NOMEM | AVSTOR_NOTFOUND
| AVSTOR_EXISTS | AVSTOR_IOERR | AVSTOR_CORRUPT | AVSTOR_INVOPER
| AVSTOR_INTERNAL | AVSTOR_ABORT.

#[global] Instance avstor_err_eq_dec : EqDecision avstor_err.
Proof. solve_decision. Defined.

(** Wrap-around of the unsigned C types. *)
Definition u8 (x : Z) : Z := x mod 2 ^ 8.
Definition u16 (x : Z) : Z := x mod 2 ^ 16.
Definition u32 (x : Z) : Z := x mod 2 ^ 32.

(** ** Page frames as byte memories *)

(** A page frame: the byte stored at each offset [0 <= i < PAGE_SIZE]. *)
Definition AvPage : Type := Z -> Z.

Definition is_bytes (page : AvPage) : Prop := forall i, 0 <= page i < 256.

Definition store_u8 (ofs v : Z) (page : AvPage) : AvPage :=
  fun i => if i =? ofs then u8 v else page i.

Definition load_u16 (page : AvPage) (ofs : Z) : Z :=
  page ofs + 256 * page (ofs + 1).

Definition store_u16 (ofs v : Z) (page : AvPage) : AvPage :=
  fun i => if i =? ofs then v mod 256
           else if i =? ofs + 1 then (v / 256) mod 256
           else page i.

Definition load_u32 (page : AvPage) (ofs : Z) : Z :=
  page ofs + 256 * page (ofs + 1) + 65536 * page (ofs + 2)
  + 16777216 * page (ofs + 3).

Definition store_u32 (ofs v : Z) (page : AvPage) : AvPage :=
  fun i => if i =? ofs then v mod 256
           else if i =? ofs + 1 then (v / 256) mod 256
           else if i =? ofs + 2 then (v / 65536) mod 256
           else if i =? ofs + 3 then (v / 16777216) mod 256
           else page i.

(** The bytes of a frame, in address order. *)
Definition page_bytes (page : AvPage) : list Z :=
  List.map (fun n => page (Z.of_nat n)) (List.seq 0 (Z.to_nat PAGE_SIZE)).

(** Field offsets of [struct AvPage] (32-bit offsets). *)
Definition OFS_checksum : Z := 0.
Definition OFS_lock_count : Z := 4.
Definition OFS_page_offset : Z := 8.
Definition OFS_status : Z := 16.
Definition OFS_type : Z := 17.

Module Checksum.

Definition MOD_ADLER : Z := 65521.

(** The [while (cnt--)] loop of [compute_page_checksum]: [cp] walks the
    frame, [a] and [b] are [uint32_t] accumulators. *)
Fixpoint checksum_loop (page : AvPage) (cnt : nat) (cp a b : Z) : Z * Z :=
  match cnt with
  | O => (a, b)
  | S cnt' =>
      let a' := u32 (a + page cp) in
      let b' := u32 (b + a') in
      checksum_loop page cnt' (cp + 1) a' b'
  end.

Definition compute_page_checksum (page : AvPage) : Z :=
  let '(a, b) := checksum_loop page (Z.to_nat PAGE_SIZE) 0 1 0 in
  let a := a mod MOD_ADLER in
  let b := b mod MOD_ADLER in
  Z.lor (u32 (Z.shiftl b 16)) a.

(** [page->checksum = 0; page->checksum = compute_page_checksum(page);] *)
Definition update_page_checksum (page : AvPage) : AvPage :=
  let page0 := store_u32 OFS_checksum 0 page in
  store_u32 OFS_checksum (compute_page_checksum page0) page0.

(** Adler-32 as the glossary defines it: running sums [a] and [b] of the
    bytes, each reduced modulo 65521 at every byte; the value is
    [(b << 16) | a]. *)
Fixpoint adler32_sums (bs : list Z) (a b : Z) : Z * Z :=
  match bs with
  | [] => (a, b)
  | c :: bs' =>
      let a' := (a + c) mod MOD_ADLER in
      let b' := (b + a') mod MOD_ADLER in
      adler32_sums bs' a' b'
  end.

Definition adler32 (bs : list Z) : Z :=
  let '(a, b) := adler32_sums bs 1 0 in Z.lor (Z.shiftl b 16) a.

(** The sums without any reduction, used to relate the two. *)
Fixpoint raw_sums (bs : list Z) (a b : Z) : Z * Z :=
  match bs with
  | [] => (a, b)
  | c :: bs' => raw_sums bs' (a + c) (b + (a + c))
  end.

(** The same loop over the list of bytes it reads. *)
Fixpoint wrapped_sums (bs : list Z) (a b : Z) : Z * Z :=
  match bs with
  | [] => (a, b)
  | c :: bs' => wrapped_sums bs' (u32 (a + c)) (u32 (b + u32 (a + c)))
  end.

Lemma checksum_loop_bytes page cnt cp a b :
  0 <= cp ->
  checksum_loop page cnt cp a b =
  wrapped_sums
    (List.map (fun n => page (Z.of_nat n)) (List.seq (Z.to_nat cp) cnt)) a b.
Proof.
  revert cp a b. induction cnt as [|cnt IH]; intros cp a b Hcp; simpl; [done|].
  rewrite Z2Nat.id by lia. rewrite IH by lia.
  replace (Z.to_nat (cp + 1)) with (S (Z.to_nat cp)) by lia. done.
Qed.

(** No 32-bit overflow: with [n] bytes left, [a] can still grow by
    [255 n] and [b] by [n a + 255 n (n+1) / 2]. *)
Lemma wrapped_is_raw bs : forall a b,
  Forall (fun c => 0 <= c < 256) bs ->
  0 <= a -> 0 <= b ->
  a + 255 * Z.of_nat (length bs) < 2 ^ 32 ->
  2 * b + 2 * Z.of_nat (length bs) * a
    + 255 * Z.of_nat (length bs) * (Z.of_nat (length bs) + 1) < 2 ^ 33 ->
  wrapped_sums bs a b = raw_sums bs a b.
Proof.
  induction bs as [|c bs IH]; intros a b Hbs Ha Hb Hbound_a Hbound_b; [done|].
  apply Forall_cons in Hbs as [Hc Hbs].
  cbn [raw_sums wrapped_sums]. cbn [length] in Hbound_a, Hbound_b.
  rewrite Nat2Z.inj_succ in Hbound_a, Hbound_b.
  set (n := Z.of_nat (length bs)) in *.
  assert (0 <= n) by (subst n; lia).
  assert (Ha' : u32 (a + c) = a + c).
  { unfold u32. apply Z.mod_small. lia. }
  assert (Hb' : u32 (b + (a + c)) = b + (a + c)).
  { unfold u32. apply Z.mod_small. split; [lia|].
    assert (2 * (b + (a + c)) < 2 ^ 33); [nia|lia]. }
  rewrite Ha', Hb'. apply IH; try done; try lia.
  fold n. nia.
Qed.

Lemma raw_sums_mod bs : forall a b,
  adler32_sums bs (a mod MOD_ADLER) (b mod MOD_ADLER) =
  ((raw_sums bs a b).1 mod MOD_ADLER, (raw_sums bs a b).2 mod MOD_ADLER).
Proof.
  induction bs as [|c bs IH]; intros a b; [done|].
  cbn [adler32_sums raw_sums]. rewrite <- IH. f_equal.
  - rewrite Z.add_mod_idemp_l by done. done.
  - rewrite Z.add_mod_idemp_l by done.
    rewrite Z.add_mod_idemp_l by done.
    rewrite Z.add_mod_idemp_r by done. done.
Qed.

Lemma page_bytes_range page :
  is_bytes page -> Forall (fun c => 0 <= c < 256) (page_bytes page).
Proof.
  intros Hp. unfold page_bytes. apply List.Forall_forall. intros c Hc.
  apply List.in_map_iff in Hc as (n & <- & _). apply Hp.
Qed.

Lemma page_bytes_length page :
  Z.of_nat (length (page_bytes page)) = PAGE_SIZE.
Proof.
  unfold page_bytes. rewrite length_map, length_seq.
  rewrite Z2Nat.id; [done|]. unfold PAGE_SIZE. lia.
Qed.

Lemma lor_shiftl_16 a b :
  0 <= a < 2 ^ 16 -> 0 <= b ->
  Z.lor (Z.shiftl b 16) a = b * 2 ^ 16 + a.
Proof.
  intros Ha Hb. rewrite <- Z.shiftl_mul_pow2 by lia.
  assert (Hdisj : Z.land (Z.shiftl b 16) a = 0).
  { apply Z.bits_inj'. intros n Hn. rewrite Z.land_spec, Z.bits_0.
    destruct (Z.lt_ge_cases n 16) as [Hlt|Hge].
    - rewrite Z.shiftl_spec_low by done. done.
    - destruct (Z.eq_dec a 0) as [->|Hne].
      + rewrite Z.bits_0. apply andb_false_r.
      + rewrite (Z.bits_above_log2 a n); [apply andb_false_r|lia|].
        apply Z.lt_le_trans with 16; [|done].
        apply Z.log2_lt_pow2; lia. }
  rewrite <- Z.lxor_lor by done. symmetry. by apply Z.add_nocarry_lxor.
Qed.

Lemma raw_sums_page page :
  is_bytes page ->
  checksum_loop page (Z.to_nat PAGE_SIZE) 0 1 0
  = raw_sums (page_bytes page) 1 0.
Proof.
  intros Hp. rewrite checksum_loop_bytes by lia.
  unfold page_bytes at 1. change (Z.to_nat 0) with 0%nat.
  change (wrapped_sums (page_bytes page) 1 0 = raw_sums (page_bytes page) 1 0).
  pose proof (page_bytes_length page) as Hlen. unfold PAGE_SIZE in Hlen.
  apply wrapped_is_raw; [by apply page_bytes_range|lia|lia| |];
    rewrite Hlen; lia.
Qed.

Lemma compute_page_checksum_adler32 page :
  is_bytes page -> compute_page_checksum page = adler32 (page_bytes page).
Proof.
  intros Hp. unfold compute_page_checksum, adler32.
  rewrite raw_sums_page by done.
  pose proof (raw_sums_mod (page_bytes page) 1 0) as Hmod.
  change (1 mod MOD_ADLER) with 1 in Hmod.
  change (0 mod MOD_ADLER) with 0 in Hmod.
  rewrite Hmod. destruct (raw_sums (page_bytes page) 1 0) as [a b].
  cbn [fst snd]. f_equal. unfold u32. apply Z.mod_small.
  pose proof (Z.mod_pos_bound b MOD_ADLER eq_refl) as Hb.
  rewrite Z.shiftl_mul_pow2 by lia. unfold MOD_ADLER in *. lia.
Qed.

Lemma adler32_range bs : 0 <= adler32 bs < 2 ^ 32.
Proof.
  unfold adler32.
  pose proof (raw_sums_mod bs 1 0) as Hmod.
  change (1 mod MOD_ADLER) with 1 in Hmod.
  change (0 mod MOD_ADLER) with 0 in Hmod. rewrite Hmod.
  destruct (raw_sums bs 1 0) as [a b]. cbn [fst snd].
  pose proof (Z.mod_pos_bound a MOD_ADLER eq_refl) as Ha.
  pose proof (Z.mod_pos_bound b MOD_ADLER eq_refl) as Hb.
  unfold MOD_ADLER in *. rewrite lor_shiftl_16 by lia. lia.
Qed.

Lemma load_store_u32 page ofs v :
  0 <= v < 2 ^ 32 -> load_u32 (store_u32 ofs v page) ofs = v.
Proof.
  intros Hv. unfold load_u32, store_u32.
  rewrite Z.eqb_refl.
  replace (ofs + 1 =? ofs) with false by lia.
  replace (ofs + 2 =? ofs) with false by lia.
  replace (ofs + 3 =? ofs) with false by lia.
  rewrite Z.eqb_refl.
  replace (ofs + 2 =? ofs + 1) with false by lia.
  replace (ofs + 3 =? ofs + 1) with false by lia.
  rewrite Z.eqb_refl.
  replace (ofs + 3 =? ofs + 2) with false by lia.
  rewrite Z.eqb_refl.
  Z.div_mod_to_equations. lia.
Qed.

Lemma store_u32_is_bytes page ofs v :
  is_bytes page -> is_bytes (store_u32 ofs v page).
Proof.
  intros Hp i. unfold store_u32.
  repeat case_match; try apply Hp; apply Z.mod_pos_bound; lia.
Qed.

(** C9. For every 4096-byte page content, [compute_page_checksum] (the
    32-bit sums reduced once, after the last byte) returns the Adler-32
    value of the frame's bytes as defined with a reduction modulo 65521
    at every byte; and the checksum that [update_page_checksum] stores is
    the Adler-32 value of the frame with its checksum field zeroed. *)
Theorem compute_page_checksum_is_adler32 (page : AvPage) :
  is_bytes page ->
  compute_page_checksum page = adler32 (page_bytes page) /\
  load_u32 (update_page_checksum page) OFS_checksum
    = adler32 (page_bytes (store_u32 OFS_checksum 0 page)).
Proof.
  intros Hp. split; [by apply compute_page_checksum_adler32|].
  unfold update_page_checksum.
  rewrite compute_page_checksum_adler32 by by apply store_u32_is_bytes.
  apply load_store_u32, adler32_range.
Qed.

(** A page frame whose byte at [i] is [i mod 256]. *)
Definition ramp_page : AvPage := fun i => i mod 256.

Lemma compute_page_checksum_is_adler32_witness :
  is_bytes ramp_page
  /\ compute_page_checksum ramp_page = adler32 (page_bytes ramp_page)
  /\ load_u32 (update_page_checksum ramp_page) OFS_checksum
     = adler32 (page_bytes (store_u32 OFS_checksum 0 ramp_page)).
Proof.
  assert (Hb : is_bytes ramp_page).
  { intros i. unfold ramp_page. apply Z.mod_pos_bound. lia. }
  split; [exact Hb|]. exact (compute_page_checksum_is_adler32 ramp_page Hb).
Defined.

End Checksum.

(** ** Exceptions: [THROW] inside a [TRY] block *)

Inductive res (A : Type) : Type :=
| Ok (a : A)
| Throw (e : avstor_err).
Arguments Ok {A} a.
Arguments Throw {A} e.

#[global] Instance res_ret : MRet res := fun A a => Ok a.
#[global] Instance res_bind : MBind res := fun A B f m =>
  match m with
  | Ok a => f a
  | Throw e => Throw e
  end.

(** ** Nodes and the node store *)

(** A key as the caller passes it: the name bytes, their length, and the
    comparer, which is applied to the key buffer and to a node's name. *)
Record avstor_key : Type := mk_key {
  key_buf : list Z;
  key_len : Z;
  key_comparer : list Z -> list Z -> Z
}.

(** [offset_comparer]: both buffers hold an [avstor_off] (32 bits, little
    endian); the names of the back-link tree are compared this way. *)
Definition off_of_bytes (bs : list Z) : Z :=
  nth 0 bs 0 + 256 * nth 1 bs 0 + 65536 * nth 2 bs 0 + 16777216 * nth 3 bs 0.

Definition offset_comparer (v1 v2 : list Z) : Z :=
  let ofs1 := off_of_bytes v1 in
  let ofs2 := off_of_bytes v2 in
  if ofs2 <? ofs1 then 1 else if ofs1 <? ofs2 then -1 else 0.

(** The type-specific data of a node (the [AvNodeData] union). *)
Inductive AvNodeData : Type :=
| VKey (subkey_root value_root level : Z)
| V32 (value : Z)
| V64 (value : Z)
| VVar (vlength : Z) (payload : list Z)
| VLink (link : Z).

(** A node: [n_bf] is [BF(node)] (the header stores it plus one), [n_left]
    and [n_right] are the child references (file offsets, 0 for none). *)
Record AvNode : Type := mk_node {
  n_bf : Z;
  n_type : Z;
  n_left : Z;
  n_right : Z;
  n_name : list Z;
  n_data : AvNodeData
}.

#[global] Instance AvNode_inhabited : Inhabited AvNode :=
  populate (mk_node 0 0 0 0 [] (V32 0)).

(** The nodes reachable through the cache, by file offset
    (page offset plus slot). *)
Abbreviation heap := (gmap Z AvNode).

Definition with_bf (b : Z) (n : AvNode) : AvNode :=
  mk_node b (n_type n) (n_left n) (n_right n) (n_name n) (n_data n).
Definition with_left (l : Z) (n : AvNode) : AvNode :=
  mk_node (n_bf n) (n_type n) l (n_right n) (n_name n) (n_data n).
Definition with_right (r : Z) (n : AvNode) : AvNode :=
  mk_node (n_bf n) (n_type n) (n_left n) r (n_name n) (n_data n).

Module AVL.

(** A back-trace frame [{noderef, comp}] and the stack, top first. *)
Definition AvStackData : Type := (Z * Z)%type.
Definition AvStack : Type := list AvStackData.

(** Where a [NodeRef *] points: the root reference of the tree, or the
    left or right reference of a node. *)
Inductive ref_loc : Type :=
| RootRef
| LeftOf (o : Z)
| RightOf (o : Z).

(** [lock_node]: pin the page and fetch the node; a reference to a node
    that is not there is the [INVOPER] of [get_node]. *)
Definition lock_node (h : heap) (noderef : Z) : res AvNode :=
  match h !! noderef with
  | Some n => Ok n
  | None => Throw AVSTOR_INVOPER
  end.

Definition BF (h : heap) (o : Z) : Z := n_bf (h !!! o).
Definition left_of (h : heap) (o : Z) : Z := n_left (h !!! o).
Definition right_of (h : heap) (o : Z) : Z := n_right (h !!! o).

Definition set_bf (o bf : Z) (h : heap) : heap := alter (with_bf bf) o h.
Definition set_left (o l : Z) (h : heap) : heap := alter (with_left l) o h.
Definition set_right (o r : Z) (h : heap) : heap := alter (with_right r) o h.

(** Reading and writing through a [NodeRef *]; the root reference is
    threaded next to the heap. *)
Definition read_ref (h : heap) (root : Z) (ref : ref_loc) : Z :=
  match ref with
  | RootRef => root
  | LeftOf o => left_of h o
  | RightOf o => right_of h o
  end.

Definition assign_nref (src : Z) (ref : ref_loc) (hr : heap * Z) : heap * Z :=
  match ref with
  | RootRef => (hr.1, src)
  | LeftOf o => (set_left o src hr.1, hr.2)
  | RightOf o => (set_right o src hr.1, hr.2)
  end.

Definition backtrace_push (st : AvStack) (d : AvStackData) : res AvStack :=
  if (length st <? AVSTOR_AVL_HEIGHT)%nat then Ok (d :: st)
  else Throw AVSTOR_INTERNAL.

(** The loop of [find_node_with_backtrace]; [cur] is the locked node at
    [cur_ofs]. The recursion is on the room left in the stack: every
    iteration pushes a frame, and [backtrace_push] throws when it is full. *)
Fixpoint find_loop (room : nat) (h : heap) (key : avstor_key)
    (cur_ofs : Z) (cur : AvNode) (st : AvStack) : res (Z * AvStack) :=
  let comp := key_comparer key (key_buf key) (n_name cur) in
  if comp =? 0 then Ok (cur_ofs, st)
  else
    match room with
    | O => Throw AVSTOR_INTERNAL
    | S room' =>
        let st' := (cur_ofs, comp) :: st in
        let ref := if comp <? 0 then n_left cur else n_right cur in
        if ref =? 0 then Ok (0, st')
        else cur' ← lock_node h ref; find_loop room' h key ref cur' st'
    end.

(** Returns the offset of the node found (0 for [NULL]) and the stack. *)
Definition find_node_with_backtrace (h : heap) (key : avstor_key) (root : Z)
    : res (Z * AvStack) :=
  if root =? 0 then Ok (0, [])
  else cur ← lock_node h root; find_loop AVSTOR_AVL_HEIGHT h key root cur [].

Definition rotate_right (x z : Z) (h : heap) : heap :=
  let t23 := right_of h z in
  let h := set_left x t23 h in
  let h := set_right z x h in
  if BF h z =? 0 then set_bf z 1 (set_bf x (-1) h)
  else set_bf z 0 (set_bf x 0 h).

Definition rotate_left (x z : Z) (h : heap) : heap :=
  let t23 := left_of h z in
  let h := set_right x t23 h in
  let h := set_left z x h in
  if BF h z =? 0 then set_bf z (-1) (set_bf x 1 h)
  else set_bf z 0 (set_bf x 0 h).

Definition rotate_right_left (x z : Z) (h : heap) : res (heap * Z) :=
  let y := left_of h z in
  _ ← lock_node h y;
  let t3 := right_of h y in
  let h := set_left z t3 h in
  let h := set_right y z h in
  let t2 := left_of h y in
  let h := set_right x t2 h in
  let h := set_left y x h in
  let h :=
    if BF h y =? 0 then set_bf z 0 (set_bf x 0 h)
    else if 0 <? BF h y then set_bf z 0 (set_bf x (-1) h)
    else set_bf z 1 (set_bf x 0 h) in
  Ok (set_bf y 0 h, y).

Definition rotate_left_right (x z : Z) (h : heap) : res (heap * Z) :=
  let y := right_of h z in
  _ ← lock_node h y;
  let t3 := left_of h y in
  let h := set_right z t3 h in
  let h := set_left y z h in
  let t2 := right_of h y in
  let h := set_left x t2 h in
  let h := set_right y x h in
  let h :=
    if BF h y =? 0 then set_bf z 0 (set_bf x 0 h)
    else if BF h y <? 0 then set_bf z 0 (set_bf x 1 h)
    else set_bf z (-1) (set_bf x 0 h) in
  Ok (set_bf y 0 h, y).

(** [backtrace_set_ref (db, st, pos, cur, src)]: [below] is the stack from
    position [pos] downwards (empty when [pos < 0]). *)
Definition backtrace_set_ref (h : heap) (root : Z) (below : AvStack)
    (cur src : Z) : res (heap * Z) :=
  match below with
  | (noderef, _) :: _ =>
      dest ← lock_node h noderef;
      if n_left dest =? cur then Ok (set_left noderef src h, root)
      else if n_right dest =? cur then Ok (set_right noderef src h, root)
      else Throw AVSTOR_INTERNAL
  | [] => Ok (h, src)
  end.

(** Rebalancing after an insertion. *)
Fixpoint balance_down (h : heap) (root : Z) (st : AvStack) : res (heap * Z) :=
  match st with
  | [] => Ok (h, root)
  | (cur, comp0) :: st' =>
      _ ← lock_node h cur;
      let comp := if comp0 <? 0 then -1 else 1 in
      let bf_cur := BF h cur in
      if bf_cur =? 0 then balance_down (set_bf cur comp h) root st'
      else if negb (comp + bf_cur =? 0) then
        if 0 <? bf_cur then
          let z := right_of h cur in
          _ ← lock_node h z;
          if 0 <? BF h z then
            backtrace_set_ref (rotate_left cur z h) root st' cur z
          else
            '(h', y) ← rotate_right_left cur z h;
            backtrace_set_ref h' root st' cur y
        else
          let z := left_of h cur in
          _ ← lock_node h z;
          if BF h z <? 0 then
            backtrace_set_ref (rotate_right cur z h) root st' cur z
          else
            '(h', y) ← rotate_left_right cur z h;
            backtrace_set_ref h' root st' cur y
      else Ok (set_bf cur 0 h, root)
  end.

Definition insert_node (h : heap) (root : Z) (item : Z) (st : AvStack)
    : res (heap * Z) :=
  match st with
  | (noderef, comp) :: _ =>
      _ ← lock_node h noderef;
      let ref := if comp <? 0 then LeftOf noderef else RightOf noderef in
      let '(h, root) := assign_nref item ref (h, root) in
      balance_down (set_bf item 0 h) root st
  | [] => Ok (set_bf item 0 h, item)
  end.

(** Rebalancing after a removal; [b] is the balance factor the child [z]
    had before the rotation. *)
Fixpoint balance_up (h : heap) (root : Z) (st : AvStack) : res (heap * Z) :=
  match st with
  | [] => Ok (h, root)
  | (cur, comp) :: st' =>
      _ ← lock_node h cur;
      let bf_cur := BF h cur in
      if comp <? 0 then
        if 0 <? bf_cur then
          let z := right_of h cur in
          _ ← lock_node h z;
          let b := BF h z in
          '(h1, z') ← (if b <? 0 then rotate_right_left cur z h
                       else Ok (rotate_left cur z h, z));
          '(h2, root') ← backtrace_set_ref h1 root st' cur z';
          if b =? 0 then Ok (h2, root') else balance_up h2 root' st'
        else if bf_cur =? 0 then Ok (set_bf cur 1 h, root)
        else balance_up (set_bf cur 0 h) root st'
      else
        if bf_cur <? 0 then
          let z := left_of h cur in
          _ ← lock_node h z;
          let b := BF h z in
          '(h1, z') ← (if 0 <? b then rotate_left_right cur z h
                       else Ok (rotate_right cur z h, z));
          '(h2, root') ← backtrace_set_ref h1 root st' cur z';
          if b =? 0 then Ok (h2, root') else balance_up h2 root' st'
        else if bf_cur =? 0 then Ok (set_bf cur (-1) h, root)
        else balance_up (set_bf cur 0 h) root st'
  end.

(** The descent of [remove_node] to the in-order successor: [ref] points
    to [succ]; every step to the left pushes [{*ref, -1}]. *)
Fixpoint succ_loop (room : nat) (h : heap) (ref : ref_loc) (succ : Z)
    (pushed : AvStack) : res (ref_loc * Z * AvStack) :=
  if left_of h succ =? 0 then Ok (ref, succ, pushed)
  else
    match room with
    | O => Throw AVSTOR_INTERNAL
    | S room' =>
        let succ' := left_of h succ in
        _ ← lock_node h succ';
        succ_loop room' h (LeftOf succ) succ' ((succ, -1) :: pushed)
    end.

Definition remove_node (h : heap) (root : Z) (node : Z) (st : AvStack)
    : res (heap * Z) :=
  ref ← match st with
        | [] => Ok RootRef
        | (p, comp) :: _ =>
            _ ← lock_node h p;
            Ok (if comp <? 0 then LeftOf p else RightOf p)
        end;
  '(h, root, st) ←
    (if (left_of h node =? 0) && (right_of h node =? 0) then
       (* Case 1: no children *)
       Ok (assign_nref 0 ref (h, root), st)
     else if (left_of h node =? 0) || (right_of h node =? 0) then
       (* Case 2: one child *)
       let childRef :=
         if negb (left_of h node =? 0) then LeftOf node else RightOf node in
       let hr := assign_nref (read_ref h root childRef) ref (h, root) in
       Ok (assign_nref 0 childRef hr, st)
     else
       (* Case 3: two children, splice in the in-order successor *)
       st1 ← backtrace_push st (node, 1);
       let succ0 := right_of h node in
       _ ← lock_node h succ0;
       '(ref, succ, pushed) ←
         succ_loop (AVSTOR_AVL_HEIGHT - length st1) h (RightOf node) succ0 [];
       let h := set_left succ (left_of h node) h in
       let h :=
         match pushed with
         | [] => h
         | _ :: _ =>
             let h := (assign_nref (right_of h succ) ref (h, root)).1 in
             set_right succ (right_of h node) h
         end in
       _ ← lock_node h node;
       '(h, root) ← backtrace_set_ref h root st node succ;
       let h := set_bf succ (BF h node) h in
       Ok (h, root, pushed ++ (succ, 1) :: st));
  '(h, root) ← balance_up h root st;
  Ok (set_right node 0 (set_left node 0 h), root).

End AVL.

(** ** Trees represented in the node store *)

Module AVLRep.
Import AVL.

(** The shape the store holds below a root reference: at every node its
    offset, its stored balance factor and its name. *)
Inductive tree : Type :=
| Leaf
| Node (l : tree) (o b : Z) (k : list Z) (r : tree).

Definition root_of (t : tree) : Z :=
  match t with
  | Leaf => 0
  | Node _ o _ _ _ => o
  end.

(** Offsets and names in in-order. *)
Fixpoint elems (t : tree) : list (Z * list Z) :=
  match t with
  | Leaf => []
  | Node l o _ k r => elems l ++ (o, k) :: elems r
  end.

Definition offsets (t : tree) : list Z := (elems t).*1.

Fixpoint height (t : tree) : Z :=
  match t with
  | Leaf => 0
  | Node l _ _ _ r => 1 + Z.max (height l) (height r)
  end.

(** The AVL invariant: the stored balance factor is
    [height right - height left] and lies in [{-1, 0, 1}]. *)
Fixpoint avl (t : tree) : Prop :=
  match t with
  | Leaf => True
  | Node l _ b _ r =>
      b = height r - height l /\ -1 <= b <= 1 /\ avl l /\ avl r
  end.

Definition cell (h : heap) (o b l r : Z) (k : list Z) : Prop :=
  exists n, h !! o = Some n /\ n_bf n = b /\ n_left n = l
            /\ n_right n = r /\ n_name n = k.

Fixpoint rep (h : heap) (t : tree) : Prop :=
  match t with
  | Leaf => True
  | Node l o b k r =>
      o <> 0 /\ cell h o b (root_of l) (root_of r) k /\ rep h l /\ rep h r
  end.

(** [h'] differs from [h] at the offsets in [S] only. *)
Definition touch (S : list Z) (h h' : heap) : Prop :=
  forall o, o ∉ S -> h' !! o = h !! o.

Lemma height_nonneg t : 0 <= height t.
Proof. induction t; simpl; lia. Qed.

Lemma offsets_node l o b k r :
  offsets (Node l o b k r) = offsets l ++ o :: offsets r.
Proof. unfold offsets. simpl. by rewrite fmap_app. Qed.

Lemma touch_refl S h : touch S h h.
Proof. by intros o _. Qed.

Lemma touch_trans S h1 h2 h3 :
  touch S h1 h2 -> touch S h2 h3 -> touch S h1 h3.
Proof. intros H12 H23 o Ho. rewrite H23, H12; done. Qed.

Lemma touch_mono S S' h h' : S ⊆ S' -> touch S h h' -> touch S' h h'.
Proof. intros Hsub Ht o Ho. apply Ht. set_solver. Qed.

Lemma touch_alter f o h S : o ∈ S -> touch S h (alter f o h).
Proof.
  intros Ho o' Ho'. apply lookup_alter_ne. intros ->. done.
Qed.

Lemma rep_touch S h h' t :
  touch S h h' -> (forall o, o ∈ offsets t -> o ∉ S) -> rep h t -> rep h' t.
Proof.
  intros Ht. induction t as [|l IHl o b k r IHr]; [done|].
  rewrite offsets_node. intros Hdisj (Ho & (n & Hn & Hc) & Hl & Hr).
  split; [done|]. split.
  - exists n. split; [|done]. rewrite Ht; [done|]. apply Hdisj. set_solver.
  - split; [apply IHl|apply IHr]; try done; intros o' Ho'; apply Hdisj;
      set_solver.
Qed.

Lemma rep_root_notin h t o :
  rep h t -> o ∉ offsets t -> o <> 0 -> root_of t <> o.
Proof.
  destruct t as [|l o' b k r]; simpl; [done|].
  rewrite offsets_node. intros _ Hnin _ ->. set_solver.
Qed.

(** Reading and writing a node that is there. *)
Lemma alter_Some (f : AvNode -> AvNode) o (h : heap) n :
  h !! o = Some n -> alter f o h = <[o := f n]> h.
Proof.
  intros Hn. apply map_eq. intros o'. destruct (decide (o = o')) as [<-|Hne].
  - by rewrite lookup_alter_eq, lookup_insert_eq, Hn.
  - by rewrite lookup_alter_ne, lookup_insert_ne.
Qed.

Lemma total_Some (h : heap) o n : h !! o = Some n -> h !!! o = n.
Proof. intros Hn. by rewrite lookup_total_alt, Hn. Qed.

Lemma lock_node_Some h o n : h !! o = Some n -> lock_node h o = Ok n.
Proof. intros Hn. unfold lock_node. by rewrite Hn. Qed.

Lemma NoDup_node l o b k r :
  NoDup (offsets (Node l o b k r)) ->
  NoDup (offsets l) /\ NoDup (offsets r) /\ (o ∉ offsets l) /\ (o ∉ offsets r)
  /\ Forall (fun o' => o' ∉ offsets r) (offsets l)
  /\ Forall (fun o' => o' ∉ offsets l) (offsets r).
Proof.
  rewrite offsets_node. intros Hnd.
  apply NoDup_app in Hnd as (Hl & Hlr & Hr).
  apply NoDup_cons in Hr as (Hor & Hr).
  repeat split; try done.
  - intros Hin. apply (Hlr o Hin). set_solver.
  - apply Forall_forall. intros o' Hin Hin'. apply (Hlr o' Hin). set_solver.
  - apply Forall_forall. intros o' Hin Hin'. apply (Hlr o' Hin'). set_solver.
Qed.

Lemma rep_touch' S h h' t :
  touch S h h' -> Forall (fun s => s ∉ offsets t) S -> rep h t -> rep h' t.
Proof.
  intros Ht HS. eapply rep_touch; [done|].
  intros o Ho Hin. rewrite Forall_forall in HS. by apply (HS o).
Qed.

(** Splitting the distinctness of the offsets of a tree into atoms. *)
Ltac nodup_norm :=
  repeat match goal with
         | H : NoDup (offsets (Node _ _ _ _ _)) |- _ =>
             apply NoDup_node in H;
             let H1 := fresh "Hnd" in let H2 := fresh "Hnd" in
             let H3 := fresh "Hni" in let H4 := fresh "Hni" in
             let H5 := fresh "Hfa" in let H6 := fresh "Hfa" in
             destruct H as (H1 & H2 & H3 & H4 & H5 & H6)
         | H : context [offsets (Node _ _ _ _ _)] |- _ =>
             rewrite offsets_node in H
         | H : _ ∉ _ ++ _ |- _ =>
             apply not_elem_of_app in H;
             let H1 := fresh "Hni" in let H2 := fresh "Hni" in
             destruct H as (H1 & H2)
         | H : _ ∉ _ :: _ |- _ =>
             apply not_elem_of_cons in H;
             let H1 := fresh "Hne" in let H2 := fresh "Hni" in
             destruct H as (H1 & H2)
         | H : Forall _ (_ ++ _) |- _ =>
             apply Forall_app in H;
             let H1 := fresh "Hfa" in let H2 := fresh "Hfa" in
             destruct H as (H1 & H2)
         | H : Forall _ (_ :: _) |- _ =>
             apply Forall_cons in H;
             let H1 := fresh "Hni" in let H2 := fresh "Hfa" in
             destruct H as (H1 & H2)
         end.

Ltac solve_notin :=
  repeat first [ assumption
               | congruence
               | exact I
               | apply Forall_nil
               | apply Forall_cons; split
               | apply not_elem_of_app; split
               | apply not_elem_of_cons; split
               | apply not_elem_of_nil ].

Ltac norm_offsets :=
  repeat match goal with
         | H : context [offsets (Node _ _ _ _ _)] |- _ =>
             rewrite offsets_node in H
         end.

(** Field reads through chains of field writes. *)
Ltac heap_simpl :=
  unfold BF, left_of, right_of, set_bf, set_left, set_right in *;
  repeat (rewrite ?lookup_total_alt, ?lookup_alter_eq;
          rewrite ?lookup_alter_ne by congruence);
  repeat match goal with
         | H : lookup ?o ?h = Some _ |- context [lookup ?o ?h] => rewrite H
         end;
  simpl.

Ltac solve_cell :=
  eexists; split; [heap_simpl; reflexivity|]; simpl;
  repeat split; congruence.

Ltac solve_touch :=
  unfold set_bf, set_left, set_right;
  repeat (eapply touch_trans;
          [|apply touch_alter; rewrite ?elem_of_cons; auto]);
  apply touch_refl.

Lemma rotate_right_rep h x z tl tr r bx bz kx kz :
  rep h (Node (Node tl z bz kz tr) x bx kx r) ->
  NoDup (offsets (Node (Node tl z bz kz tr) x bx kx r)) ->
  rep (rotate_right x z h)
      (Node tl z (if bz =? 0 then 1 else 0) kz
            (Node tr x (if bz =? 0 then -1 else 0) kx r))
  /\ touch [x; z] h (rotate_right x z h).
Proof.
  intros (Hx & (nx & Hnx & <- & Hxl & Hxr & <-)
          & (Hz & (nz & Hnz & <- & Hzl & Hzr & <-) & Htl & Htr) & Hr) Hnd.
  nodup_norm.
  assert (Ht : touch [x; z] h (rotate_right x z h)).
  { unfold rotate_right. case_match; solve_touch. }
  split; [|done].
  simpl. split_and!; try done;
    try (eapply rep_touch'; [exact Ht| |done]; solve_notin).
  - unfold rotate_right. heap_simpl. case_match; solve_cell.
  - unfold rotate_right. heap_simpl. case_match; solve_cell.
Qed.

Lemma rotate_left_rep h x z l tl tr bx bz kx kz :
  rep h (Node l x bx kx (Node tl z bz kz tr)) ->
  NoDup (offsets (Node l x bx kx (Node tl z bz kz tr))) ->
  rep (rotate_left x z h)
      (Node (Node l x (if bz =? 0 then 1 else 0) kx tl) z
            (if bz =? 0 then -1 else 0) kz tr)
  /\ touch [x; z] h (rotate_left x z h).
Proof.
  intros (Hx & (nx & Hnx & <- & Hxl & Hxr & <-) & Hl
          & (Hz & (nz & Hnz & <- & Hzl & Hzr & <-) & Htl & Htr)) Hnd.
  nodup_norm.
  assert (Ht : touch [x; z] h (rotate_left x z h)).
  { unfold rotate_left. case_match; solve_touch. }
  split; [|done].
  simpl. split_and!; try done;
    try (eapply rep_touch'; [exact Ht| |done]; solve_notin).
  - unfold rotate_left. heap_simpl. case_match; solve_cell.
  - unfold rotate_left. heap_simpl. case_match; solve_cell.
Qed.

Lemma rotate_right_left_rep h x z l yl yr tr bx bz by_ kx kz ky y :
  rep h (Node l x bx kx (Node (Node yl y by_ ky yr) z bz kz tr)) ->
  NoDup (offsets (Node l x bx kx (Node (Node yl y by_ ky yr) z bz kz tr))) ->
  exists h', rotate_right_left x z h = Ok (h', y)
    /\ rep h' (Node (Node l x (if by_ =? 0 then 0 else if 0 <? by_ then -1 else 0) kx yl)
                    y 0 ky
                    (Node yr z (if by_ =? 0 then 0 else if 0 <? by_ then 0 else 1) kz tr))
    /\ touch [x; z; y] h h'.
Proof.
  intros (Hx & (nx & Hnx & <- & Hxl & Hxr & <-) & Hl
          & (Hz & (nz & Hnz & <- & Hzl & Hzr & <-)
             & (Hy & (ny & Hny & <- & Hyl & Hyr & <-) & Hryl & Hryr) & Htr)) Hnd.
  nodup_norm.
  unfold rotate_right_left.
  simpl in Hzl. replace (left_of h z) with y by (by heap_simpl).
  rewrite (lock_node_Some _ _ _ Hny). unfold mbind, res_bind.
  eexists. split; [reflexivity|].
  match goal with |- rep ?hh _ /\ _ => set (h' := hh) end.
  assert (Ht : touch [x; z; y] h h').
  { unfold h'. repeat case_match; solve_touch. }
  split; [|done].
  simpl. split_and!; try done;
    try (eapply rep_touch'; [exact Ht| |done]; solve_notin).
  - unfold h'. heap_simpl. repeat case_match; solve_cell.
  - unfold h'. heap_simpl. repeat case_match; solve_cell.
  - unfold h'. heap_simpl. repeat case_match; solve_cell.
Qed.

Lemma rotate_left_right_rep h x z r tl yl yr bx bz by_ kx kz ky y :
  rep h (Node (Node tl z bz kz (Node yl y by_ ky yr)) x bx kx r) ->
  NoDup (offsets (Node (Node tl z bz kz (Node yl y by_ ky yr)) x bx kx r)) ->
  exists h', rotate_left_right x z h = Ok (h', y)
    /\ rep h' (Node (Node tl z (if by_ =? 0 then 0 else if by_ <? 0 then 0 else -1) kz yl)
                    y 0 ky
                    (Node yr x (if by_ =? 0 then 0 else if by_ <? 0 then 1 else 0) kx r))
    /\ touch [x; z; y] h h'.
Proof.
  intros (Hx & (nx & Hnx & <- & Hxl & Hxr & <-)
          & (Hz & (nz & Hnz & <- & Hzl & Hzr & <-) & Htl
             & (Hy & (ny & Hny & <- & Hyl & Hyr & <-) & Hryl & Hryr)) & Hr) Hnd.
  nodup_norm.
  unfold rotate_left_right.
  simpl in Hzr. replace (right_of h z) with y by (by heap_simpl).
  rewrite (lock_node_Some _ _ _ Hny). unfold mbind, res_bind.
  eexists. split; [reflexivity|].
  match goal with |- rep ?hh _ /\ _ => set (h' := hh) end.
  assert (Ht : touch [x; z; y] h h').
  { unfold h'. repeat case_match; solve_touch. }
  split; [|done].
  simpl. split_and!; try done;
    try (eapply rep_touch'; [exact Ht| |done]; solve_notin).
  - unfold h'. heap_simpl. repeat case_match; solve_cell.
  - unfold h'. heap_simpl. repeat case_match; solve_cell.
  - unfold h'. heap_simpl. repeat case_match; solve_cell.
Qed.

(** *** Paths: the back-trace stack as a tree context *)

(** One level of a search path: the node passed and the subtree left
    aside. [FrL]: the path continues in the left child. *)
Inductive frame : Type :=
| FrL (o b : Z) (k : list Z) (r : tree)
| FrR (l : tree) (o b : Z) (k : list Z).

Definition fill1 (f : frame) (t : tree) : tree :=
  match f with
  | FrL o b k r => Node t o b k r
  | FrR l o b k => Node l o b k t
  end.

(** Innermost frame first, as the stack has its top first. *)
Fixpoint plug (c : list frame) (t : tree) : tree :=
  match c with
  | [] => t
  | f :: c' => plug c' (fill1 f t)
  end.

Definition frame_off (f : frame) : Z :=
  match f with
  | FrL o _ _ _ => o
  | FrR _ o _ _ => o
  end.

Definition frame_matches (f : frame) (d : AvStackData) : Prop :=
  d.1 = frame_off f /\
  match f with
  | FrL _ _ _ _ => d.2 < 0
  | FrR _ _ _ _ => 0 < d.2
  end.

Definition stack_of (c : list frame) (st : AvStack) : Prop :=
  Forall2 frame_matches c st.

(** The frames are balanced for a subtree of height [hh] in the hole. *)
Fixpoint ctx_avl (c : list frame) (hh : Z) : Prop :=
  match c with
  | [] => True
  | FrL _ b _ r :: c' =>
      b = height r - hh /\ -1 <= b <= 1 /\ avl r
      /\ ctx_avl c' (1 + Z.max hh (height r))
  | FrR l _ b _ :: c' =>
      b = hh - height l /\ -1 <= b <= 1 /\ avl l
      /\ ctx_avl c' (1 + Z.max (height l) hh)
  end.

Lemma avl_plug c : forall t, avl (plug c t) <-> avl t /\ ctx_avl c (height t).
Proof.
  induction c as [|[o b k r|l o b k] c IH]; intros t; simpl.
  - tauto.
  - rewrite IH. simpl. tauto.
  - rewrite IH. simpl. tauto.
Qed.

Lemma elems_fill1 f t t' :
  elems t' = elems t -> elems (fill1 f t') = elems (fill1 f t).
Proof. intros He. destruct f; simpl; by rewrite He. Qed.

Lemma elems_plug c : forall t t',
  elems t' = elems t -> elems (plug c t') = elems (plug c t).
Proof.
  induction c as [|f c IH]; intros t t' He; simpl; [done|].
  apply IH. by apply elems_fill1.
Qed.

Lemma root_of_plug c t t' :
  c <> [] -> root_of (plug c t') = root_of (plug c t).
Proof.
  revert t t'. induction c as [|f c IH]; intros t t' Hc; [done|]. simpl.
  destruct c as [|f' c]; [by destruct f|]. apply IH. done.
Qed.

Lemma rep_plug_inv h c : forall t, rep h (plug c t) -> rep h t.
Proof.
  induction c as [|f c IH]; intros t Hrep; simpl in *; [done|].
  apply IH in Hrep. destruct f; simpl in Hrep; tauto.
Qed.

Lemma offsets_plug_sub c : forall t o, o ∈ offsets t -> o ∈ offsets (plug c t).
Proof.
  induction c as [|f c IH]; intros t o Ho; simpl; [done|].
  apply IH. destruct f; simpl; rewrite offsets_node;
    rewrite elem_of_app, elem_of_cons; tauto.
Qed.

Lemma NoDup_plug_inv c : forall t,
  NoDup (offsets (plug c t)) -> NoDup (offsets t).
Proof.
  induction c as [|f c IH]; intros t Hnd; simpl in *; [done|].
  apply IH in Hnd. destruct f; apply NoDup_node in Hnd; tauto.
Qed.

Lemma root_of_plug_ext c : forall t t',
  root_of t' = root_of t -> root_of (plug c t') = root_of (plug c t).
Proof.
  induction c as [|f c IH]; intros t t' Hr; simpl; [done|].
  apply IH. by destruct f.
Qed.

Lemma root_in_offsets t : root_of t <> 0 -> root_of t ∈ offsets t.
Proof.
  destruct t as [|l o b k r]; simpl; [done|]. intros _.
  rewrite offsets_node, elem_of_app, elem_of_cons. tauto.
Qed.

Lemma touch_cons_alter f o S h h1 :
  touch S h h1 -> touch (o :: S) h (alter f o h1).
Proof.
  intros Ht o' Ho'. apply not_elem_of_cons in Ho' as (Hne & Ho').
  rewrite lookup_alter_ne by done. by apply Ht.
Qed.

Lemma offsets_fill1_off f t : frame_off f ∈ offsets (fill1 f t).
Proof.
  destruct f; simpl; rewrite offsets_node, elem_of_app, elem_of_cons; tauto.
Qed.

Lemma offsets_fill1_sub f t o : o ∈ offsets t -> o ∈ offsets (fill1 f t).
Proof.
  destruct f; simpl; rewrite offsets_node, elem_of_app, elem_of_cons; tauto.
Qed.

(** *** Grafting: general forms of the replacement lemmas *)

Lemma rep_plug_graft S h h' c : forall t t',
  rep h (plug c t) -> NoDup (offsets (plug c t)) ->
  touch S h h' ->
  (forall o, o ∈ S -> o ∈ offsets t \/ o ∉ offsets (plug c t)) ->
  rep h' t' -> root_of t' = root_of t ->
  rep h' (plug c t').
Proof.
  induction c as [|f c IH]; intros t t' Hrep Hnd Ht HS Hrep' Hroot;
    simpl in *; [done|].
  apply (IH (fill1 f t)); try done.
  - intros o Ho. apply HS in Ho as [Ho|Ho]; [left|by right].
    by apply offsets_fill1_sub.
  - pose proof (rep_plug_inv _ _ _ Hrep) as Hrepf.
    pose proof (NoDup_plug_inv _ _ Hnd) as Hndf.
    assert (Hfr : frame_off f ∉ S).
    { intros Hin. apply HS in Hin as [Hin|Hin].
      - destruct f; simpl in *; apply NoDup_node in Hndf; tauto.
      - apply Hin, offsets_plug_sub, offsets_fill1_off. }
    destruct f as [o b k r|l o b k]; simpl in *;
      destruct Hrepf as (Ho & (n & Hn & Hc) & Hl & Hr);
      apply NoDup_node in Hndf as (Hnd1 & Hnd2 & Hni1 & Hni2 & Hfa1 & Hfa2);
      rewrite Forall_forall in Hfa1, Hfa2.
    + split_and!; try done.
      * exists n. rewrite Hroot. split; [|done]. by rewrite Ht.
      * eapply rep_touch; [done| |done]. intros o' Ho' Hin.
        apply HS in Hin as [Hin|Hin]; [by apply (Hfa1 o')|].
        apply Hin, offsets_plug_sub. rewrite offsets_node, elem_of_app, elem_of_cons.
        tauto.
    + split_and!; try done.
      * exists n. rewrite Hroot. split; [|done]. by rewrite Ht.
      * eapply rep_touch; [done| |done]. intros o' Ho' Hin.
        apply HS in Hin as [Hin|Hin]; [by apply (Hfa2 o')|].
        apply Hin, offsets_plug_sub. rewrite offsets_node, elem_of_app, elem_of_cons.
        tauto.
  - by destruct f.
Qed.

(** The reference in the parent that leads into the hole. *)
Definition hole_ref (st : AvStack) : ref_loc :=
  match st with
  | [] => RootRef
  | (p, comp) :: _ => if comp <? 0 then LeftOf p else RightOf p
  end.

Lemma assign_nref_graft S h h1 root c st t t1 :
  rep h (plug c t) -> NoDup (offsets (plug c t)) -> stack_of c st ->
  touch S h h1 ->
  (forall o, o ∈ S -> o ∈ offsets t \/ o ∉ offsets (plug c t)) ->
  rep h1 t1 ->
  (forall o, o ∈ offsets t1 -> o ∈ offsets t \/ o ∉ offsets (plug c t)) ->
  exists h2 root2,
    assign_nref (root_of t1) (hole_ref st) (h1, root) = (h2, root2)
    /\ rep h2 (plug c t1)
    /\ (c <> [] -> root2 = root) /\ (c = [] -> root2 = root_of t1)
    /\ touch (S ++ offsets (plug c t)) h h2.
Proof.
  intros Hrep Hnd Hst Ht HS Hrep1 Hoff.
  destruct c as [|f c].
  - apply Forall2_nil_inv_l in Hst as ->. simpl.
    exists h1, (root_of t1). split_and!; try done.
    intros o Ho. apply Ht. intros Hin. apply Ho, elem_of_app. tauto.
  - apply Forall2_cons_inv_l in Hst as ([p comp] & st' & (Hp & Hcomp) & Hst & ->).
    simpl in Hp, Hcomp. simpl plug in *.
    pose proof (rep_plug_inv _ _ _ Hrep) as Hrepf.
    pose proof (NoDup_plug_inv _ _ Hnd) as Hndf.
    assert (Hfr : frame_off f ∉ S).
    { intros Hin. apply HS in Hin as [Hin|Hin].
      - destruct f; simpl in *; apply NoDup_node in Hndf; tauto.
      - apply Hin, offsets_plug_sub, offsets_fill1_off. }
    assert (Hfr1 : frame_off f ∉ offsets t1).
    { intros Hin. apply Hoff in Hin as [Hin|Hin].
      - destruct f; simpl in *; apply NoDup_node in Hndf; tauto.
      - apply Hin, offsets_plug_sub, offsets_fill1_off. }
    assert (Hfin : exists h2,
               assign_nref (root_of t1) (hole_ref ((p, comp) :: st')) (h1, root)
               = (h2, root)
               /\ rep h2 (fill1 f t1) /\ touch (p :: S) h h2).
    { destruct f as [o b k r|l o b k]; simpl in *; subst p;
        destruct Hrepf as (Ho & (n & Hn & Hb & Hl & Hr & Hk) & Hrl & Hrr);
        apply NoDup_node in Hndf as (Hnd1 & Hnd2 & Hni1 & Hni2 & Hfa1 & Hfa2);
        rewrite Forall_forall in Hfa1, Hfa2.
      - assert (Hn1 : h1 !! o = Some n) by (by rewrite Ht).
        replace (comp <? 0) with true by lia. simpl.
        eexists. split; [reflexivity|]. split; [|by apply touch_cons_alter].
        split_and!; try done.
        + exists (with_left (root_of t1) n). split.
          * unfold set_left. by rewrite lookup_alter_eq, Hn1.
          * by simpl.
        + eapply rep_touch; [apply (touch_alter _ o _ [o]); set_solver| |done].
          intros o' Ho' Hin. apply list_elem_of_singleton in Hin.
          by subst o'.
        + eapply (rep_touch (o :: S)); [by apply touch_cons_alter| |done].
          intros o' Ho' Hin. apply elem_of_cons in Hin as [->|Hin]; [done|].
          apply HS in Hin as [Hin|Hin]; [by apply (Hfa1 o')|].
          apply Hin, offsets_plug_sub. rewrite offsets_node, elem_of_app, elem_of_cons.
          tauto.
      - assert (Hn1 : h1 !! o = Some n) by (by rewrite Ht).
        replace (comp <? 0) with false by lia. simpl.
        eexists. split; [reflexivity|]. split; [|by apply touch_cons_alter].
        split_and!; try done.
        + exists (with_right (root_of t1) n). split.
          * unfold set_right. by rewrite lookup_alter_eq, Hn1.
          * by simpl.
        + eapply (rep_touch (o :: S)); [by apply touch_cons_alter| |done].
          intros o' Ho' Hin. apply elem_of_cons in Hin as [->|Hin]; [done|].
          apply HS in Hin as [Hin|Hin]; [by apply (Hfa2 o')|].
          apply Hin, offsets_plug_sub. rewrite offsets_node, elem_of_app, elem_of_cons.
          tauto.
        + eapply rep_touch; [apply (touch_alter _ o _ [o]); set_solver| |done].
          intros o' Ho' Hin. apply list_elem_of_singleton in Hin.
          by subst o'. }
    destruct Hfin as (h2 & Hbt & Hrep2 & Ht2).
    exists h2, root. split_and!; try done.
    + eapply (rep_plug_graft (p :: S) h h2 c (fill1 f t)); try done.
      * intros o Ho. apply elem_of_cons in Ho as [->|Ho].
        -- left. subst p. apply offsets_fill1_off.
        -- apply HS in Ho as [Ho|Ho]; [left|by right].
           by apply offsets_fill1_sub.
      * by destruct f.
    + intros o Ho. apply Ht2. intros Hin. apply Ho.
      apply elem_of_cons in Hin as [->|Hin].
      * apply elem_of_app. right. subst p.
        apply offsets_plug_sub, offsets_fill1_off.
      * apply elem_of_app. by left.
Qed.

(** [backtrace_set_ref] finds the same reference by comparing the
    children of the parent with the offset of the old subtree root. *)
Lemma backtrace_set_ref_hole h1 root h c st t src :
  rep h (plug c t) -> NoDup (offsets (plug c t)) -> stack_of c st ->
  (forall f, head c = Some f -> h1 !! frame_off f = h !! frame_off f) ->
  root_of t <> 0 ->
  backtrace_set_ref h1 root st (root_of t) src
  = Ok (assign_nref src (hole_ref st) (h1, root)).
Proof.
  intros Hrep Hnd Hst Hsame Hroot.
  destruct c as [|f c].
  - by apply Forall2_nil_inv_l in Hst as ->.
  - apply Forall2_cons_inv_l in Hst as ([p comp] & st' & (Hp & Hcomp) & Hst & ->).
    simpl in Hp, Hcomp. simpl plug in *.
    pose proof (rep_plug_inv _ _ _ Hrep) as Hrepf.
    pose proof (NoDup_plug_inv _ _ Hnd) as Hndf.
    pose proof (root_in_offsets t Hroot) as Hrin.
    specialize (Hsame f eq_refl).
    destruct f as [o b k r|l o b k]; simpl in *; subst p;
      destruct Hrepf as (Ho & (n & Hn & Hb & Hl & Hr & Hk) & Hrl & Hrr);
      apply NoDup_node in Hndf as (Hnd1 & Hnd2 & Hni1 & Hni2 & Hfa1 & Hfa2);
      rewrite Forall_forall in Hfa1, Hfa2;
      rewrite <- Hsame in Hn; rewrite (lock_node_Some _ _ _ Hn); simpl.
    + replace (comp <? 0) with true by lia. by rewrite Hl, Z.eqb_refl.
    + replace (comp <? 0) with false by lia.
      assert (Hne : n_left n <> root_of t).
      { rewrite Hl. apply (rep_root_notin h); try done.
        intros Hin. by apply (Hfa1 _ Hin). }
      apply Z.eqb_neq in Hne. by rewrite Hne, Hr, Z.eqb_refl.
Qed.

(** Replacing the subtree in the hole by one with the same root. *)
Lemma rep_plug_replace S h h' c t t' :
  rep h (plug c t) -> NoDup (offsets (plug c t)) ->
  touch S h h' -> (forall o, o ∈ S -> o ∈ offsets t) ->
  rep h' t' -> elems t' = elems t -> root_of t' = root_of t ->
  rep h' (plug c t').
Proof.
  intros Hrep Hnd Ht HS Hrep' _ Hroot.
  eapply rep_plug_graft; try done. intros o Ho. left. by apply HS.
Qed.

(** Replacing the subtree in the hole by one with a new root: the parent
    reference is rewritten by [backtrace_set_ref]. *)
Lemma backtrace_set_ref_plug S h h1 root c st t t1 :
  rep h (plug c t) -> NoDup (offsets (plug c t)) -> stack_of c st ->
  touch S h h1 -> (forall o, o ∈ S -> o ∈ offsets t) ->
  rep h1 t1 -> elems t1 = elems t -> root_of t <> 0 ->
  root = root_of (plug c t) ->
  exists h2 root2,
    backtrace_set_ref h1 root st (root_of t) (root_of t1) = Ok (h2, root2)
    /\ rep h2 (plug c t1) /\ root2 = root_of (plug c t1)
    /\ touch (offsets (plug c t)) h h2.
Proof.
  intros Hrep Hnd Hst Ht HS Hrep1 He Hroot ->.
  assert (Hoff : offsets t1 = offsets t) by (unfold offsets; by rewrite He).
  destruct (assign_nref_graft S h h1 (root_of (plug c t)) c st t t1)
    as (h2 & root2 & Has & Hrep2 & Hr1 & Hr2 & Ht2); try done.
  { intros o Ho. left. by apply HS. }
  { intros o Ho. left. by rewrite <- Hoff. }
  exists h2, root2. split_and!; try done.
  - rewrite (backtrace_set_ref_hole h1 _ h c st t); try done; [by rewrite Has|].
    intros f Hf. apply Ht. intros Hin. apply HS in Hin.
    destruct c as [|f' c]; [done|]. simpl in Hf. injection Hf as ->.
    simpl in Hnd. apply NoDup_plug_inv in Hnd.
    destruct f; simpl in *; apply NoDup_node in Hnd; tauto.
  - destruct c as [|f c]; [by apply Hr2|].
    rewrite Hr1 by done. by apply root_of_plug.
  - intros o Ho. apply Ht2. intros Hin. apply elem_of_app in Hin as [Hin|Hin]; [|done].
    by apply Ho, offsets_plug_sub, HS.
Qed.

Lemma rep_set_bf h l o b b' k r :
  rep h (Node l o b k r) -> NoDup (offsets (Node l o b k r)) ->
  rep (set_bf o b' h) (Node l o b' k r) /\ touch [o] h (set_bf o b' h).
Proof.
  intros (Ho & (n & Hn & Hb & Hl & Hr & Hk) & Hrl & Hrr) Hnd. nodup_norm.
  assert (Ht : touch [o] h (set_bf o b' h)) by solve_touch.
  split; [|done]. simpl. split_and!; try done;
    try (eapply rep_touch'; [exact Ht| |done]; solve_notin).
  solve_cell.
Qed.

(** The two ways a rebalancing loop ends or continues: the subtree in the
    hole is replaced by one with the same root, or (after a rotation) by
    one with a new root and the parent reference is rewritten. *)
Lemma step_same_root S h h1 root c t t1 :
  rep h (plug c t) -> NoDup (offsets (plug c t)) ->
  root = root_of (plug c t) ->
  touch S h h1 -> (forall o, o ∈ S -> o ∈ offsets t) ->
  rep h1 t1 -> elems t1 = elems t -> root_of t1 = root_of t ->
  rep h1 (plug c t1) /\ NoDup (offsets (plug c t1))
  /\ root = root_of (plug c t1)
  /\ elems (plug c t1) = elems (plug c t)
  /\ touch (offsets (plug c t)) h h1.
Proof.
  intros Hrep Hnd -> Ht HS Hrep1 He Hroot.
  pose proof (elems_plug c _ _ He) as Hep.
  split_and!; try done.
  - by eapply rep_plug_replace.
  - unfold offsets in *. by rewrite Hep.
  - symmetry. by apply root_of_plug_ext.
  - intros o Ho. apply Ht. intros Hin. apply HS in Hin.
    by apply (offsets_plug_sub c) in Hin.
Qed.

Definition grown (t : tree) : Prop :=
  match t with
  | Leaf => False
  | Node l _ b _ r => b <> 0 \/ (l = Leaf /\ r = Leaf)
  end.

Lemma in_singleton_sub (o : Z) (L : list Z) :
  o ∈ L -> forall o', o' ∈ [o] -> o' ∈ L.
Proof. intros Ho o' Hin. apply list_elem_of_singleton in Hin. by subst. Qed.


Lemma step_new_root S h h1 root c st t t1 :
  rep h (plug c t) -> NoDup (offsets (plug c t)) -> stack_of c st ->
  root = root_of (plug c t) ->
  touch S h h1 -> (forall o, o ∈ S -> o ∈ offsets t) ->
  rep h1 t1 -> elems t1 = elems t -> root_of t <> 0 ->
  avl t1 -> ctx_avl c (height t1) ->
  exists h' root' t',
    backtrace_set_ref h1 root st (root_of t) (root_of t1) = Ok (h', root')
    /\ rep h' t' /\ root' = root_of t'
    /\ elems t' = elems (plug c t) /\ avl t'
    /\ touch (offsets (plug c t)) h h'.
Proof.
  intros Hrep Hnd Hst Hroot Ht HS Hrep1 He Hne Havl Hctx.
  destruct (backtrace_set_ref_plug S h h1 root c st t t1)
    as (h2 & root2 & Hbt & Hrep2 & Hroot2 & Ht2); try done.
  exists h2, root2, (plug c t1). split_and!; try done.
  - by apply elems_plug.
  - by apply avl_plug.
Qed.

Lemma step_final S h h1 root c t t1 :
  rep h (plug c t) -> NoDup (offsets (plug c t)) ->
  root = root_of (plug c t) ->
  touch S h h1 -> (forall o, o ∈ S -> o ∈ offsets t) ->
  rep h1 t1 -> elems t1 = elems t -> root_of t1 = root_of t ->
  avl t1 -> ctx_avl c (height t1) ->
  exists h' root' t',
    @Ok (heap * Z) (h1, root) = Ok (h', root')
    /\ rep h' t' /\ root' = root_of t'
    /\ elems t' = elems (plug c t) /\ avl t'
    /\ touch (offsets (plug c t)) h h'.
Proof.
  intros Hrep Hnd Hroot Ht HS Hrep1 He Hr Havl Hctx.
  destruct (step_same_root S h h1 root c t t1)
    as (Hrep' & Hnd' & Hroot' & He' & Ht'); try done.
  exists h1, root, (plug c t1). split_and!; try done.
  by apply avl_plug.
Qed.

Ltac in_offsets :=
  let o := fresh "o" in let Ho := fresh "Ho" in
  intros o Ho; rewrite ?elem_of_cons in Ho;
  repeat first [ rewrite offsets_node | rewrite elem_of_app
               | rewrite elem_of_cons ];
  destruct_or?; subst; try tauto; by apply elem_of_nil in Ho.

Ltac solve_elems :=
  simpl; rewrite <- ?app_assoc; simpl; rewrite <- ?app_assoc; done.

Ltac solve_avl :=
  simpl in *; repeat case_match; split_and!; try done; lia.

Ltac solve_ctx :=
  simpl in *;
  match goal with
  | H : ctx_avl ?c ?a |- ctx_avl ?c ?b => replace b with a by lia; exact H
  end.

Ltac step_goals :=
  try done; try in_offsets; try solve_elems; try solve_avl; try solve_ctx.

(** *** Rebalancing after an insertion *)

Lemma balance_down_spec c : forall h root st t,
  stack_of c st -> rep h (plug c t) -> NoDup (offsets (plug c t)) ->
  root = root_of (plug c t) ->
  avl t -> grown t -> ctx_avl c (height t - 1) ->
  exists h' root' t',
    balance_down h root st = Ok (h', root')
    /\ rep h' t' /\ root' = root_of t'
    /\ elems t' = elems (plug c t) /\ avl t'
    /\ touch (offsets (plug c t)) h h'.
Proof.
  induction c as [|f c IH]; intros h root st t Hst Hrep Hnd Hroot Havl Hgr Hctx.
  { apply Forall2_nil_inv_l in Hst as ->. simpl in *.
    exists h, root, t. split_and!; try done; apply touch_refl. }
  apply Forall2_cons_inv_l in Hst as ([p comp] & st' & (Hp & Hcomp) & Hst & ->).
  simpl in Hp, Hcomp. simpl plug in *.
  pose proof (rep_plug_inv _ _ _ Hrep) as Hrepf.
  pose proof (NoDup_plug_inv _ _ Hnd) as Hndf.
  pose proof (height_nonneg t) as Hht.
  pose proof Hrepf as Hrepf0.
  destruct f as [o b k r|l o b k]; simpl in Hp, Hcomp, Hrepf, Hctx; subst p.
  - (* the left subtree has grown *)
    simpl fill1 in *.
    destruct Hrepf as (Ho & (n & Hn & Hb & Hl & Hr & Hk) & Hrl & Hrr).
    destruct Hctx as (Hbh & Hbr & Havr & Hctx).
    pose proof (height_nonneg r) as Hhr.
    cbn [balance_down]. rewrite (lock_node_Some _ _ _ Hn).
    cbn [mbind res_bind].
    replace (comp <? 0) with true by lia.
    replace (BF h o) with b by (by heap_simpl).
    destruct (Z.eqb_spec b 0) as [Hb0|Hb0].
    + (* balanced before: now left-heavy, the height grows *)
      destruct (rep_set_bf h t o b (-1) k r) as (Hrep1 & Ht1); [done|done|].
      destruct (step_same_root [o] h (set_bf o (-1) h) root c
                  (Node t o b k r) (Node t o (-1) k r))
        as (Hrep' & Hnd' & Hroot' & He' & Ht'); try done.
      { apply in_singleton_sub. rewrite offsets_node, elem_of_app, elem_of_cons. tauto. }
      destruct (IH (set_bf o (-1) h) root st' (Node t o (-1) k r))
        as (h' & root' & t' & Hbd & Hrepf' & Hrootf & Hef & Havlf & Htf);
        try done.
      { simpl. split_and!; try done; lia. }
      { simpl. left. lia. }
      { simpl. replace (1 + Z.max (height t) (height r) - 1)
          with (1 + Z.max (height t - 1) (height r)) by lia. done. }
      exists h', root', t'. split_and!; try done.
      * by rewrite Hef.
      * eapply touch_trans; [exact Ht'|].
        eapply touch_mono; [|exact Htf]. unfold offsets. by rewrite He'.
    + destruct (Z.eq_dec b 1) as [Hb1|Hb1].
      * (* right-heavy before: now balanced *)
        replace (negb (-1 + b =? 0)) with false by lia.
        destruct (rep_set_bf h t o b 0 k r) as (Hrep1 & Ht1); [done|done|].
        apply (step_final [o] h _ root c (Node t o b k r) (Node t o 0 k r));
          step_goals.
      * (* left-heavy before: rotate *)
        assert (Hbm : b = -1) by lia.
        replace (negb (-1 + b =? 0)) with true by lia.
        replace (0 <? b) with false by lia.
        destruct t as [|tl z bz kz tr]; [done|].
        simpl in Hgr, Havl, Hht, Hbh, Hctx, Hl.
        destruct Havl as (Hbz & Hbzr & Havtl & Havtr).
        pose proof (height_nonneg tl) as Hhtl.
        pose proof (height_nonneg tr) as Hhtr.
        assert (Hbz0 : bz <> 0).
        { destruct Hgr as [?|[-> ->]]; [done|]. simpl in *. lia. }
        replace (left_of h o) with z by (by heap_simpl).
        destruct Hrl as (Hz & (nz & Hnz & Hzb & Hzl & Hzr & Hzk) & Hrtl & Hrtr).
        rewrite (lock_node_Some _ _ _ Hnz). cbn [mbind res_bind].
        replace (BF h z) with bz by (by heap_simpl).
        destruct (Z.ltb_spec bz 0) as [Hneg|Hpos].
        -- destruct (rotate_right_rep h o z tl tr r b bz k kz)
             as (Hrep1 & Ht1); [done|done|].
           replace (bz =? 0) with false in Hrep1 by lia.
           apply (step_new_root [o; z] h _ root c st'
                    (Node (Node tl z bz kz tr) o b k r)
                    (Node tl z 0 kz (Node tr o 0 k r)));
             step_goals.
        -- destruct tr as [|yl y by_ ky yr]; [simpl in *; lia|].
           simpl in Havtr, Hhtr, Hbz, Hbh, Hctx.
           destruct Havtr as (Hby & Hbyr & Havyl & Havyr).
           pose proof (height_nonneg yl) as Hhyl.
           pose proof (height_nonneg yr) as Hhyr.
           destruct (rotate_left_right_rep h o z r tl yl yr b bz by_ k kz ky y)
             as (h1 & Hrot & Hrep1 & Ht1); [done|done|].
           rewrite Hrot. cbn [mbind res_bind].
           match type of Hrep1 with
           | rep _ ?t1 =>
               apply (step_new_root [o; z; y] h h1 root c st'
                        (Node (Node tl z bz kz (Node yl y by_ ky yr)) o b k r) t1)
           end; step_goals.
  - (* the right subtree has grown *)
    simpl fill1 in *.
    destruct Hrepf as (Ho & (n & Hn & Hb & Hl & Hr & Hk) & Hrl & Hrr).
    destruct Hctx as (Hbh & Hbr & Havl' & Hctx).
    pose proof (height_nonneg l) as Hhl.
    cbn [balance_down]. rewrite (lock_node_Some _ _ _ Hn).
    cbn [mbind res_bind].
    replace (comp <? 0) with false by lia.
    replace (BF h o) with b by (by heap_simpl).
    destruct (Z.eqb_spec b 0) as [Hb0|Hb0].
    + (* balanced before: now right-heavy, the height grows *)
      destruct (rep_set_bf h l o b 1 k t) as (Hrep1 & Ht1); [done|done|].
      destruct (step_same_root [o] h (set_bf o 1 h) root c
                  (Node l o b k t) (Node l o 1 k t))
        as (Hrep' & Hnd' & Hroot' & He' & Ht'); step_goals.
      destruct (IH (set_bf o 1 h) root st' (Node l o 1 k t))
        as (h' & root' & t' & Hbd & Hrepf' & Hrootf & Hef & Havlf & Htf);
        step_goals.
      { simpl. left. lia. }
      exists h', root', t'. split_and!; try done.
      * by rewrite Hef.
      * eapply touch_trans; [exact Ht'|].
        eapply touch_mono; [|exact Htf]. unfold offsets. by rewrite He'.
    + destruct (Z.eq_dec b (-1)) as [Hb1|Hb1].
      * (* left-heavy before: now balanced *)
        replace (negb (1 + b =? 0)) with false by lia.
        destruct (rep_set_bf h l o b 0 k t) as (Hrep1 & Ht1); [done|done|].
        apply (step_final [o] h _ root c (Node l o b k t) (Node l o 0 k t));
          step_goals.
      * (* right-heavy before: rotate *)
        assert (Hbm : b = 1) by lia.
        replace (negb (1 + b =? 0)) with true by lia.
        replace (0 <? b) with true by lia.
        destruct t as [|tl z bz kz tr]; [done|].
        simpl in Hgr, Havl, Hht, Hbh, Hctx, Hr.
        destruct Havl as (Hbz & Hbzr & Havtl & Havtr).
        pose proof (height_nonneg tl) as Hhtl.
        pose proof (height_nonneg tr) as Hhtr.
        assert (Hbz0 : bz <> 0).
        { destruct Hgr as [?|[-> ->]]; [done|]. simpl in *. lia. }
        replace (right_of h o) with z by (by heap_simpl).
        destruct Hrr as (Hz & (nz & Hnz & Hzb & Hzl & Hzr & Hzk) & Hrtl & Hrtr).
        rewrite (lock_node_Some _ _ _ Hnz). cbn [mbind res_bind].
        replace (BF h z) with bz by (by heap_simpl).
        destruct (Z.ltb_spec 0 bz) as [Hpos|Hneg].
        -- destruct (rotate_left_rep h o z l tl tr b bz k kz)
             as (Hrep1 & Ht1); [done|done|].
           replace (bz =? 0) with false in Hrep1 by lia.
           apply (step_new_root [o; z] h _ root c st'
                    (Node l o b k (Node tl z bz kz tr))
                    (Node (Node l o 0 k tl) z 0 kz tr));
             step_goals.
        -- destruct tl as [|yl y by_ ky yr]; [simpl in *; lia|].
           simpl in Havtl, Hhtl, Hbz, Hbh, Hctx.
           destruct Havtl as (Hby & Hbyr & Havyl & Havyr).
           pose proof (height_nonneg yl) as Hhyl.
           pose proof (height_nonneg yr) as Hhyr.
           destruct (rotate_right_left_rep h o z l yl yr tr b bz by_ k kz ky y)
             as (h1 & Hrot & Hrep1 & Ht1); [done|done|].
           rewrite Hrot. cbn [mbind res_bind].
           match type of Hrep1 with
           | rep _ ?t1 =>
               apply (step_new_root [o; z; y] h h1 root c st'
                        (Node l o b k (Node (Node yl y by_ ky yr) z bz kz tr)) t1)
           end; step_goals.
Qed.

(** *** The in-order sequence around the hole *)

Fixpoint ctx_before (c : list frame) : list (Z * list Z) :=
  match c with
  | [] => []
  | FrL _ _ _ _ :: c' => ctx_before c'
  | FrR l o _ k :: c' => ctx_before c' ++ elems l ++ [(o, k)]
  end.

Fixpoint ctx_after (c : list frame) : list (Z * list Z) :=
  match c with
  | [] => []
  | FrL o _ k r :: c' => (o, k) :: elems r ++ ctx_after c'
  | FrR _ _ _ _ :: c' => ctx_after c'
  end.

Lemma elems_plug_split c : forall t,
  elems (plug c t) = ctx_before c ++ elems t ++ ctx_after c.
Proof.
  induction c as [|[o b k r|l o b k] c IH]; intros t; simpl.
  - by rewrite app_nil_r.
  - rewrite IH. simpl. by rewrite <- !app_assoc.
  - rewrite IH. simpl. by rewrite <- !app_assoc.
Qed.

Lemma plug_app c1 c2 t : plug (c1 ++ c2) t = plug c2 (plug c1 t).
Proof. revert t. induction c1 as [|f c1 IH]; intros t; simpl; [done|]. apply IH. Qed.

Lemma rep_root_0 h t : rep h t -> root_of t = 0 -> t = Leaf.
Proof. destruct t; simpl; [done|]. intros (Ho & _) ->. done. Qed.

(** *** Search with back-trace *)

Definition cmpk (key : avstor_key) (k : list Z) : Z :=
  key_comparer key (key_buf key) k.

(** The frames of a search path go where the comparer says. *)
Definition path_ok (key : avstor_key) (c : list frame) : Prop :=
  Forall (fun f => match f with
                   | FrL _ _ k _ => cmpk key k < 0
                   | FrR _ _ _ k => 0 < cmpk key k
                   end) c.

Definition found_ok (key : avstor_key) (t : tree) : Prop :=
  match t with
  | Leaf => True
  | Node _ _ _ k _ => cmpk key k = 0
  end.

Lemma find_loop_spec key h : forall t room c st n,
  rep h t -> root_of t <> 0 -> h !! root_of t = Some n ->
  height t <= Z.of_nat room -> stack_of c st ->
  exists cn t' st',
    find_loop room h key (root_of t) n st = Ok (root_of t', st')
    /\ t = plug cn t' /\ stack_of (cn ++ c) st'
    /\ path_ok key cn /\ found_ok key t'
    /\ Z.of_nat (length cn) + height t' <= height t.
Proof.
  induction t as [|l IHl o b k r IHr]; intros room c st n Hrep Hroot Hn Hh Hst;
    [done|].
  simpl in Hn, Hh. destruct Hrep as (Ho & (n' & Hn' & Hb & Hl & Hr & Hk) & Hrl & Hrr).
  assert (n' = n) by congruence. subst n'.
  pose proof (height_nonneg l) as Hhl. pose proof (height_nonneg r) as Hhr.
  destruct room as [|room]; [lia|].
  cbn [find_loop root_of]. rewrite Hk. fold (cmpk key k).
  destruct (Z.eqb_spec (cmpk key k) 0) as [Hc0|Hc0].
  { exists [], (Node l o b k r), st.
    split_and!; try done; try (by constructor); simpl; lia. }
  destruct (Z.ltb_spec (cmpk key k) 0) as [Hneg|Hpos].
  - rewrite Hl. destruct (Z.eqb_spec (root_of l) 0) as [Hl0|Hl0].
    + apply (rep_root_0 h) in Hl0 as ->; [|done].
      exists [FrL o b k r], Leaf, ((o, cmpk key k) :: st). split_and!; try done.
      * constructor; [done|done].
      * repeat constructor. done.
      * simpl. lia.
    + destruct l as [|ll lo lb lk lr]; [done|].
      pose proof Hrl as (_ & (nl & Hnl & _) & _).
      simpl root_of. rewrite (lock_node_Some _ _ _ Hnl). cbn [mbind res_bind].
      destruct (IHl room (FrL o b k r :: c) ((o, cmpk key k) :: st) nl)
        as (cn & t' & st' & Hf & Hplug & Hst' & Hpath & Hfound & Hlen);
        try done.
      { simpl in *. lia. }
      { constructor; [done|done]. }
      exists (cn ++ [FrL o b k r]), t', st'. split_and!; try done.
      * rewrite plug_app. simpl. by rewrite <- Hplug.
      * by rewrite <- app_assoc.
      * apply Forall_app. split; [done|]. repeat constructor. done.
      * rewrite length_app. simpl in *. lia.
  - rewrite Hr. destruct (Z.eqb_spec (root_of r) 0) as [Hr0|Hr0].
    + apply (rep_root_0 h) in Hr0 as ->; [|done].
      exists [FrR l o b k], Leaf, ((o, cmpk key k) :: st). split_and!; try done.
      * constructor; [|done]. split; [done|]. simpl. lia.
      * repeat constructor. lia.
      * simpl. lia.
    + destruct r as [|rl ro rb rk rr]; [done|].
      pose proof Hrr as (_ & (nr & Hnr & _) & _).
      simpl root_of. rewrite (lock_node_Some _ _ _ Hnr). cbn [mbind res_bind].
      destruct (IHr room (FrR l o b k :: c) ((o, cmpk key k) :: st) nr)
        as (cn & t' & st' & Hf & Hplug & Hst' & Hpath & Hfound & Hlen);
        try done.
      { simpl in *. lia. }
      { constructor; [|done]. split; [done|]. simpl. lia. }
      exists (cn ++ [FrR l o b k]), t', st'. split_and!; try done.
      * rewrite plug_app. simpl. by rewrite <- Hplug.
      * by rewrite <- app_assoc.
      * apply Forall_app. split; [done|]. repeat constructor. lia.
      * rewrite length_app. simpl in *. lia.
Qed.

Lemma find_node_with_backtrace_spec key h root t :
  rep h t -> root = root_of t -> height t <= Z.of_nat AVSTOR_AVL_HEIGHT ->
  exists c t' st,
    find_node_with_backtrace h key root = Ok (root_of t', st)
    /\ t = plug c t' /\ stack_of c st
    /\ path_ok key c /\ found_ok key t'
    /\ Z.of_nat (length c) + height t' <= height t.
Proof.
  intros Hrep -> Hh. unfold find_node_with_backtrace.
  destruct (Z.eqb_spec (root_of t) 0) as [H0|H0].
  - apply (rep_root_0 h) in H0 as ->; [|done].
    exists [], Leaf, []. split_and!; try done; constructor.
  - destruct t as [|l o b k r]; [done|].
    pose proof Hrep as (_ & (n & Hn & _) & _).
    simpl root_of. rewrite (lock_node_Some _ _ _ Hn). cbn [mbind res_bind].
    destruct (find_loop_spec key h (Node l o b k r) AVSTOR_AVL_HEIGHT [] [] n)
      as (cn & t' & st' & Hf & Hplug & Hst' & Hpath & Hfound & Hlen);
      try done.
    { constructor. }
    exists cn, t', st'. rewrite app_nil_r in Hst'. done.
Qed.

(** *** Insertion *)

Lemma NoDup_middle {A} (l1 l2 : list A) (x : A) :
  NoDup (l1 ++ l2) -> x ∉ l1 ++ l2 -> NoDup (l1 ++ x :: l2).
Proof.
  intros Hnd Hx. apply not_elem_of_app in Hx as (Hx1 & Hx2).
  apply NoDup_app in Hnd as (H1 & H12 & H2).
  apply NoDup_app. split_and!; try done.
  - intros y Hy Hin. apply elem_of_cons in Hin as [->|Hin]; [done|].
    by apply (H12 y).
  - by apply NoDup_cons.
Qed.

Lemma offsets_plug_split c t :
  offsets (plug c t) = (ctx_before c).*1 ++ offsets t ++ (ctx_after c).*1.
Proof. unfold offsets. by rewrite elems_plug_split, !fmap_app. Qed.

Lemma insert_node_spec h root c st item n0 :
  stack_of c st -> rep h (plug c Leaf) -> NoDup (offsets (plug c Leaf)) ->
  root = root_of (plug c Leaf) -> avl (plug c Leaf) ->
  h !! item = Some n0 -> n_left n0 = 0 -> n_right n0 = 0 ->
  item <> 0 -> item ∉ offsets (plug c Leaf) ->
  exists h' root' t',
    insert_node h root item st = Ok (h', root')
    /\ rep h' t' /\ root' = root_of t' /\ NoDup (offsets t') /\ avl t'
    /\ elems t' = ctx_before c ++ (item, n_name n0) :: ctx_after c
    /\ touch (item :: offsets (plug c Leaf)) h h'.
Proof.
  intros Hst Hrep Hnd Hroot Havl Hn0 Hl0 Hr0 Hi0 Hnin.
  set (k := n_name n0).
  set (t1 := Node Leaf item (n_bf n0) k Leaf).
  set (tnew := Node Leaf item 0 k Leaf).
  assert (Hndnew : forall b, NoDup (offsets (plug c (Node Leaf item b k Leaf)))).
  { intros b. rewrite offsets_plug_split in *. simpl.
    change (offsets Leaf) with (@nil Z) in *. simpl in *.
    by apply NoDup_middle. }
  destruct c as [|f c].
  - apply Forall2_nil_inv_l in Hst as ->. simpl in *.
    exists (set_bf item 0 h), item, tnew. split_and!; try done.
    + unfold tnew. simpl. split_and!; try done. solve_cell.
    + apply (Hndnew 0).
    + apply touch_alter. apply elem_of_cons. by left.
  - pose proof Hst as Hst0.
    apply Forall2_cons_inv_l in Hst as ([p comp] & st' & (Hp & Hcomp) & Hst & ->).
    simpl in Hp.
    pose proof (rep_plug_inv h c (fill1 f Leaf) Hrep) as Hrepf.
    assert (Hnp : exists n, h !! p = Some n).
    { destruct f as [o b k' r|l o b k']; simpl in Hp, Hrepf;
        destruct Hrepf as (_ & Hc & _); destruct Hc as (n & Hn & _);
        exists n; by subst p. }
    destruct Hnp as (n & Hn).
    cbn [insert_node]. rewrite (lock_node_Some _ _ _ Hn). cbn [mbind res_bind].
    assert (HS0 : forall o : Z,
               o ∈ @nil Z -> o ∈ offsets Leaf \/ o ∉ offsets (plug (f :: c) Leaf)).
    { intros o Ho. by apply elem_of_nil in Ho. }
    assert (Hrept1 : rep h t1).
    { unfold t1. simpl. split_and!; try done. by exists n0. }
    assert (Hofft1 : forall o, o ∈ offsets t1 ->
               o ∈ offsets Leaf \/ o ∉ offsets (plug (f :: c) Leaf)).
    { intros o Ho. right. unfold t1 in Ho. rewrite offsets_node in Ho.
      change (offsets Leaf) with (@nil Z) in Ho. simpl in Ho.
      apply list_elem_of_singleton in Ho. by subst o. }
    destruct (assign_nref_graft [] h h root (f :: c) ((p, comp) :: st') Leaf t1
                Hrep Hnd Hst0 (touch_refl _ _) HS0 Hrept1 Hofft1)
      as (h2 & root2 & Has & Hrep2 & Hr1 & _ & Ht2).
    simpl hole_ref in Has. unfold t1 in Has. simpl root_of in Has. rewrite Has. rewrite Hr1 by done. simpl app in Ht2.
    assert (Hn2 : h2 !! item = Some n0) by (by rewrite Ht2).
    assert (Hrep3 : rep (set_bf item 0 h2) (plug (f :: c) tnew)).
    { eapply (rep_plug_graft [item] h2 _ (f :: c) t1 tnew); try done.
      - apply Hndnew.
      - solve_touch.
      - intros o Ho. left. apply list_elem_of_singleton in Ho. subst o.
        unfold t1. rewrite offsets_node. apply elem_of_app. right.
        apply elem_of_cons. by left.
      - unfold tnew. simpl. split_and!; try done. solve_cell. }
    destruct (balance_down_spec (f :: c) (set_bf item 0 h2) root
                ((p, comp) :: st') tnew)
      as (h' & root' & t' & Hbd & Hrep' & Hroot' & He' & Havl' & Ht');
      try done.
    { apply Hndnew. }
    { rewrite Hroot. by apply root_of_plug. }
    { simpl. by right. }
    { apply avl_plug in Havl as (_ & Hctx). by simpl in *. }
    exists h', root', t'. split_and!; try done.
    + unfold offsets. rewrite He'. apply (Hndnew 0).
    + rewrite He', elems_plug_split. done.
    + intros o Ho. apply not_elem_of_cons in Ho as (Hoi & Ho).
      rewrite Ht'.
      * unfold set_bf. rewrite lookup_alter_ne by done. by apply Ht2.
      * rewrite offsets_plug_split in *. simpl.
        change (offsets Leaf) with (@nil Z) in Ho. simpl in Ho.
        intros Hin. apply elem_of_app in Hin as [Hin|Hin].
        -- apply Ho, elem_of_app. by left.
        -- apply elem_of_cons in Hin as [->|Hin]; [done|].
           apply Ho, elem_of_app. by right.
Qed.

(** *** Rebalancing after a removal *)

(** What a rebalancing loop establishes from a state in which the heap
    holds [plug c t]: the result is a balanced tree with the same
    in-order sequence. *)
Definition rebalanced (c : list frame) (t : tree) (h : heap)
    (r : res (heap * Z)) : Prop :=
  exists h' root' t',
    r = Ok (h', root')
    /\ rep h' t' /\ root' = root_of t'
    /\ elems t' = elems (plug c t) /\ avl t'
    /\ touch (offsets (plug c t)) h h'.

Lemma rebalanced_final c t h root :
  rep h (plug c t) -> root = root_of (plug c t) ->
  avl t -> ctx_avl c (height t) ->
  rebalanced c t h (Ok (h, root)).
Proof.
  intros Hrep Hroot Havl Hctx. exists h, root, (plug c t).
  split_and!; try done; try (by apply avl_plug); apply touch_refl.
Qed.

Lemma bind_same_root S h h1 root c t t1 (r : res (heap * Z)) :
  rep h (plug c t) -> NoDup (offsets (plug c t)) ->
  root = root_of (plug c t) ->
  touch S h h1 -> (forall o, o ∈ S -> o ∈ offsets t) ->
  rep h1 t1 -> elems t1 = elems t -> root_of t1 = root_of t ->
  (rep h1 (plug c t1) -> NoDup (offsets (plug c t1)) ->
   root = root_of (plug c t1) -> rebalanced c t1 h1 r) ->
  rebalanced c t h r.
Proof.
  intros Hrep Hnd Hroot Ht HS Hrep1 He Hr Hk.
  destruct (step_same_root S h h1 root c t t1)
    as (Hrep' & Hnd' & Hroot' & He' & Ht'); try done.
  destruct (Hk Hrep' Hnd' Hroot')
    as (h' & root' & t' & -> & Hrepf & Hrootf & Hef & Havlf & Htf).
  exists h', root', t'. split_and!; try done.
  - by rewrite Hef.
  - eapply touch_trans; [exact Ht'|].
    eapply touch_mono; [|exact Htf]. unfold offsets. by rewrite He'.
Qed.

Lemma bind_new_root S h h1 root c st t t1 (k : heap * Z -> res (heap * Z)) :
  rep h (plug c t) -> NoDup (offsets (plug c t)) -> stack_of c st ->
  root = root_of (plug c t) ->
  touch S h h1 -> (forall o, o ∈ S -> o ∈ offsets t) ->
  rep h1 t1 -> elems t1 = elems t -> root_of t <> 0 ->
  (forall h2 root2,
      rep h2 (plug c t1) -> NoDup (offsets (plug c t1)) ->
      root2 = root_of (plug c t1) -> rebalanced c t1 h2 (k (h2, root2))) ->
  rebalanced c t h
    (backtrace_set_ref h1 root st (root_of t) (root_of t1) ≫= k).
Proof.
  intros Hrep Hnd Hst Hroot Ht HS Hrep1 He Hne Hk.
  destruct (backtrace_set_ref_plug S h h1 root c st t t1)
    as (h2 & root2 & Hbt & Hrep2 & Hroot2 & Ht2); try done.
  pose proof (elems_plug c _ _ He) as Hep.
  assert (Hnd2 : NoDup (offsets (plug c t1))).
  { unfold offsets in *. by rewrite Hep. }
  destruct (Hk h2 root2 Hrep2 Hnd2 Hroot2)
    as (h' & root' & t' & Hr & Hrepf & Hrootf & Hef & Havlf & Htf).
  exists h', root', t'. rewrite Hbt. cbn [mbind res_bind].
  split_and!; try done.
  - by rewrite Hef.
  - eapply touch_trans; [exact Ht2|].
    eapply touch_mono; [|exact Htf]. unfold offsets. by rewrite Hep.
Qed.

Lemma balance_up_spec c : forall h root st t,
  stack_of c st -> rep h (plug c t) -> NoDup (offsets (plug c t)) ->
  root = root_of (plug c t) ->
  avl t -> ctx_avl c (height t + 1) ->
  rebalanced c t h (balance_up h root st).
Proof.
  induction c as [|f c IH]; intros h root st t Hst Hrep Hnd Hroot Havl Hctx.
  { apply Forall2_nil_inv_l in Hst as ->. simpl in *.
    exists h, root, t. split_and!; try done; apply touch_refl. }
  apply Forall2_cons_inv_l in Hst as ([p comp] & st' & (Hp & Hcomp) & Hst & ->).
  simpl in Hp, Hcomp.
  pose proof (rep_plug_inv h c (fill1 f t) Hrep) as Hrepf.
  pose proof (NoDup_plug_inv c (fill1 f t) Hnd) as Hndf.
  pose proof (height_nonneg t) as Hht.
  change (rebalanced c (fill1 f t) h (balance_up h root ((p, comp) :: st'))).
  simpl plug in Hrep, Hnd, Hroot.
  pose proof Hrepf as Hrepf0.
  destruct f as [o b k r|l o b k]; simpl in Hp, Hcomp, Hrepf, Hctx; subst p;
    simpl fill1 in *.
  - (* the left subtree has shrunk *)
    destruct Hrepf as (Ho & (n & Hn & Hb & Hl & Hr & Hk) & Hrl & Hrr).
    destruct Hctx as (Hbh & Hbr & Havr & Hctx).
    pose proof (height_nonneg r) as Hhr.
    cbn [balance_up]. rewrite (lock_node_Some _ _ _ Hn).
    cbn [mbind res_bind].
    replace (comp <? 0) with true by lia.
    replace (BF h o) with b by (by heap_simpl).
    destruct (Z.ltb_spec 0 b) as [Hb1|Hb1].
    + (* right-heavy: rotate *)
      destruct r as [|zl z bz kz zr]; [simpl in *; lia|].
      simpl in Havr, Hhr, Hbh, Hctx, Hr.
      destruct Havr as (Hbz & Hbzr & Havzl & Havzr).
      pose proof (height_nonneg zl) as Hhzl.
      pose proof (height_nonneg zr) as Hhzr.
      replace (right_of h o) with z by (by heap_simpl).
      destruct Hrr as (Hz & (nz & Hnz & Hzb & Hzl & Hzr & Hzk) & Hrzl & Hrzr).
      rewrite (lock_node_Some _ _ _ Hnz). cbn [mbind res_bind].
      replace (BF h z) with bz by (by heap_simpl).
      destruct (Z.ltb_spec bz 0) as [Hneg|Hpos].
      * destruct zl as [|yl y by_ ky yr]; [simpl in *; lia|].
        simpl in Havzl, Hhzl, Hbz, Hbh, Hctx.
        destruct Havzl as (Hby & Hbyr & Havyl & Havyr).
        pose proof (height_nonneg yl) as Hhyl.
        pose proof (height_nonneg yr) as Hhyr.
        destruct (rotate_right_left_rep h o z t yl yr zr b bz by_ k kz ky y)
          as (h1 & Hrot & Hrep1 & Ht1); [done|done|].
        rewrite Hrot. cbn [mbind res_bind].
        match type of Hrep1 with
        | rep _ ?t1 =>
            match goal with
            | |- rebalanced _ _ _ (mbind ?kk _) =>
                apply (bind_new_root [o; z; y] h h1 root c st'
                         (Node t o b k (Node (Node yl y by_ ky yr) z bz kz zr))
                         t1 kk)
            end
        end; step_goals.
        intros h2 root2 Hrep2 Hnd2 Hroot2. cbn beta iota.
        replace (bz =? 0) with false by lia.
        apply IH; step_goals.
      * cbn [mbind res_bind].
        destruct (rotate_left_rep h o z t zl zr b bz k kz)
          as (Hrep1 & Ht1); [done|done|].
        match type of Hrep1 with
        | rep _ ?t1 =>
            match goal with
            | |- rebalanced _ _ _ (mbind ?kk _) =>
                apply (bind_new_root [o; z] h _ root c st'
                         (Node t o b k (Node zl z bz kz zr)) t1 kk)
            end
        end; step_goals.
        intros h2 root2 Hrep2 Hnd2 Hroot2. cbn beta iota.
        destruct (Z.eqb_spec bz 0) as [Hbz0|Hbz0].
        -- apply rebalanced_final; step_goals.
        -- apply IH; step_goals.
    + destruct (Z.eqb_spec b 0) as [Hb0|Hb0].
      * destruct (rep_set_bf h t o b 1 k r) as (Hrep1 & Ht1); [done|done|].
        apply (bind_same_root [o] h (set_bf o 1 h) root c (Node t o b k r) (Node t o 1 k r));
          step_goals.
        intros Hrep2 Hnd2 Hroot2. apply rebalanced_final; step_goals.
      * destruct (rep_set_bf h t o b 0 k r) as (Hrep1 & Ht1); [done|done|].
        apply (bind_same_root [o] h (set_bf o 0 h) root c (Node t o b k r) (Node t o 0 k r));
          step_goals.
        intros Hrep2 Hnd2 Hroot2. apply IH; step_goals.
  - (* the right subtree has shrunk *)
    destruct Hrepf as (Ho & (n & Hn & Hb & Hl & Hr & Hk) & Hrl & Hrr).
    destruct Hctx as (Hbh & Hbr & Havl' & Hctx).
    pose proof (height_nonneg l) as Hhl.
    cbn [balance_up]. rewrite (lock_node_Some _ _ _ Hn).
    cbn [mbind res_bind].
    replace (comp <? 0) with false by lia.
    replace (BF h o) with b by (by heap_simpl).
    destruct (Z.ltb_spec b 0) as [Hb1|Hb1].
    + (* left-heavy: rotate *)
      destruct l as [|zl z bz kz zr]; [simpl in *; lia|].
      simpl in Havl', Hhl, Hbh, Hctx, Hl.
      destruct Havl' as (Hbz & Hbzr & Havzl & Havzr).
      pose proof (height_nonneg zl) as Hhzl.
      pose proof (height_nonneg zr) as Hhzr.
      replace (left_of h o) with z by (by heap_simpl).
      destruct Hrl as (Hz & (nz & Hnz & Hzb & Hzl & Hzr & Hzk) & Hrzl & Hrzr).
      rewrite (lock_node_Some _ _ _ Hnz). cbn [mbind res_bind].
      replace (BF h z) with bz by (by heap_simpl).
      destruct (Z.ltb_spec 0 bz) as [Hpos|Hneg].
      * destruct zr as [|yl y by_ ky yr]; [simpl in *; lia|].
        simpl in Havzr, Hhzr, Hbz, Hbh, Hctx.
        destruct Havzr as (Hby & Hbyr & Havyl & Havyr).
        pose proof (height_nonneg yl) as Hhyl.
        pose proof (height_nonneg yr) as Hhyr.
        destruct (rotate_left_right_rep h o z t zl yl yr b bz by_ k kz ky y)
          as (h1 & Hrot & Hrep1 & Ht1); [done|done|].
        rewrite Hrot. cbn [mbind res_bind].
        match type of Hrep1 with
        | rep _ ?t1 =>
            match goal with
            | |- rebalanced _ _ _ (mbind ?kk _) =>
                apply (bind_new_root [o; z; y] h h1 root c st'
                         (Node (Node zl z bz kz (Node yl y by_ ky yr)) o b k t)
                         t1 kk)
            end
        end; step_goals.
        intros h2 root2 Hrep2 Hnd2 Hroot2. cbn beta iota.
        replace (bz =? 0) with false by lia.
        apply IH; step_goals.
      * cbn [mbind res_bind].
        destruct (rotate_right_rep h o z zl zr t b bz k kz)
          as (Hrep1 & Ht1); [done|done|].
        match type of Hrep1 with
        | rep _ ?t1 =>
            match goal with
            | |- rebalanced _ _ _ (mbind ?kk _) =>
                apply (bind_new_root [o; z] h _ root c st'
                         (Node (Node zl z bz kz zr) o b k t) t1 kk)
            end
        end; step_goals.
        intros h2 root2 Hrep2 Hnd2 Hroot2. cbn beta iota.
        destruct (Z.eqb_spec bz 0) as [Hbz0|Hbz0].
        -- apply rebalanced_final; step_goals.
        -- apply IH; step_goals.
    + destruct (Z.eqb_spec b 0) as [Hb0|Hb0].
      * destruct (rep_set_bf h l o b (-1) k t) as (Hrep1 & Ht1); [done|done|].
        apply (bind_same_root [o] h (set_bf o (-1) h) root c
                 (Node l o b k t) (Node l o (-1) k t));
          step_goals.
        intros Hrep2 Hnd2 Hroot2. apply rebalanced_final; step_goals.
      * destruct (rep_set_bf h l o b 0 k t) as (Hrep1 & Ht1); [done|done|].
        apply (bind_same_root [o] h (set_bf o 0 h) root c
                 (Node l o b k t) (Node l o 0 k t));
          step_goals.
        intros Hrep2 Hnd2 Hroot2. apply IH; step_goals.
Qed.

(** *** Removal *)

(** The height of [plug c t] for a subtree of height [hh]. *)
Fixpoint ctx_height (c : list frame) (hh : Z) : Z :=
  match c with
  | [] => hh
  | FrL _ _ _ r :: c' => ctx_height c' (1 + Z.max hh (height r))
  | FrR l _ _ _ :: c' => ctx_height c' (1 + Z.max (height l) hh)
  end.

Lemma height_plug c : forall t, height (plug c t) = ctx_height c (height t).
Proof.
  induction c as [|[o b k r|l o b k] c IH]; intros t; simpl; [done|..];
    by rewrite IH.
Qed.

Lemma ctx_avl_app c1 c2 : forall hh,
  ctx_avl (c1 ++ c2) hh <-> ctx_avl c1 hh /\ ctx_avl c2 (ctx_height c1 hh).
Proof.
  induction c1 as [|[o b k r|l o b k] c1 IH]; intros hh; simpl.
  - tauto.
  - rewrite IH. tauto.
  - rewrite IH. tauto.
Qed.

Lemma ctx_height_mono c : forall hh, hh <= ctx_height c hh.
Proof.
  induction c as [|[o b k r|l o b k] c IH]; intros hh; simpl; [lia|..].
  - specialize (IH (1 + Z.max hh (height r))). lia.
  - specialize (IH (1 + Z.max (height l) hh)). lia.
Qed.

(** Paths that only go left. *)
Definition all_left (c : list frame) : Prop :=
  Forall (fun f => match f with FrL _ _ _ _ => True | FrR _ _ _ _ => False end) c.

Lemma ctx_before_all_left c : all_left c -> ctx_before c = [].
Proof.
  induction 1 as [|[o b k r|l o b k] c Hf Hc IH]; simpl; try done.
Qed.

Definition succ_ref (node : Z) (pushed : AvStack) : ref_loc :=
  match pushed with
  | [] => RightOf node
  | (p, _) :: _ => LeftOf p
  end.

Lemma succ_loop_spec h node : forall t room cs pushed,
  rep h t -> root_of t <> 0 -> height t <= Z.of_nat room + 1 ->
  stack_of cs pushed -> all_left cs ->
  exists cn sr succ bs ks pushed',
    succ_loop room h (succ_ref node pushed) (root_of t) pushed
    = Ok (succ_ref node pushed', succ, pushed')
    /\ t = plug cn (Node Leaf succ bs ks sr)
    /\ stack_of (cn ++ cs) pushed' /\ all_left (cn ++ cs)
    /\ Z.of_nat (length cn) + 1 <= height t.
Proof.
  induction t as [|l IHl o b k r _]; intros room cs pushed Hrep Hroot Hh Hst Hal;
    [done|].
  simpl in Hh. destruct Hrep as (Ho & (n & Hn & Hb & Hl & Hr & Hk) & Hrl & Hrr).
  pose proof (height_nonneg l) as Hhl. pose proof (height_nonneg r) as Hhr.
  simpl root_of.
  destruct (Z.eqb_spec (root_of l) 0) as [Hl0|Hl0].
  - apply (rep_root_0 h) in Hl0 as Hleaf; [|done]. subst l.
    exists [], r, o, b, k, pushed.
    destruct room; cbn [succ_loop];
      replace (left_of h o) with 0 by (by heap_simpl); simpl;
      split_and!; try done; try lia.
  - destruct l as [|ll lo lb lk lr]; [done|].
    pose proof (height_nonneg ll) as Hhll. pose proof (height_nonneg lr) as Hhlr.
    destruct room as [|room]; [simpl in Hh; lia|].
    cbn [succ_loop]. replace (left_of h o) with lo by (by heap_simpl).
    replace (lo =? 0) with false by (simpl in Hl0; lia).
    pose proof Hrl as (_ & (nl & Hnl & _) & _).
    rewrite (lock_node_Some _ _ _ Hnl). cbn [mbind res_bind].
    destruct (IHl room (FrL o b k r :: cs) ((o, -1) :: pushed))
      as (cn & sr & succ & bs & ks & pushed' & Hloop & Hplug & Hst' & Hal' & Hlen);
      try done.
    { simpl in *. lia. }
    { constructor; [|done]. split; [done|]. simpl. lia. }
    { constructor; done. }
    exists (cn ++ [FrL o b k r]), sr, succ, bs, ks, pushed'.
    split_and!; try done.
    + rewrite plug_app. simpl. by rewrite <- Hplug.
    + by rewrite <- app_assoc.
    + by rewrite <- app_assoc.
    + rewrite length_app. simpl in *. lia.
Qed.

Lemma hole_ref_lock h c st t :
  rep h (plug c t) -> stack_of c st ->
  match st with
  | [] => Ok RootRef
  | (p, comp) :: _ =>
      lock_node h p ≫= fun _ => Ok (if comp <? 0 then LeftOf p else RightOf p)
  end = Ok (hole_ref st).
Proof.
  intros Hrep Hst. destruct c as [|f c].
  - by apply Forall2_nil_inv_l in Hst as ->.
  - apply Forall2_cons_inv_l in Hst as ([p comp] & st' & (Hp & Hcomp) & Hst & ->).
    simpl in Hp. pose proof (rep_plug_inv h c (fill1 f t) Hrep) as Hrepf.
    destruct f as [o b k' r|l o b k']; simpl in Hp, Hrepf;
      destruct Hrepf as (_ & Hc & _); destruct Hc as (n & Hn & _);
      subst p; by rewrite (lock_node_Some _ _ _ Hn).
Qed.

Lemma NoDup_remove_middle {A} (l1 l2 l3 : list A) :
  NoDup (l1 ++ l2 ++ l3) -> NoDup (l1 ++ l3).
Proof.
  intros Hnd. apply NoDup_app in Hnd as (H1 & H12 & H23).
  apply NoDup_app in H23 as (H2 & H23 & H3).
  apply NoDup_app. split_and!; try done.
  intros y Hy Hin. apply (H12 y Hy). apply elem_of_app. by right.
Qed.

(** The end of [remove_node]: rebalance, then clear the references of
    the removed node. *)
Lemma remove_finish h0 h C t (T : tree) node root st (es : list (Z * list Z)) :
  stack_of C st -> rep h (plug C t) -> NoDup (offsets (plug C t)) ->
  root = root_of (plug C t) -> avl t -> ctx_avl C (height t + 1) ->
  elems (plug C t) = es ->
  touch (offsets T) h0 h ->
  (forall o, o ∈ offsets (plug C t) -> o ∈ offsets T) ->
  node ∈ offsets T -> node ∉ offsets (plug C t) ->
  exists h' root' t',
    (balance_up h root st ≫= fun '(h, root) =>
       Ok (set_right node 0 (set_left node 0 h), root)) = Ok (h', root')
    /\ rep h' t' /\ root' = root_of t' /\ NoDup (offsets t') /\ avl t'
    /\ elems t' = es
    /\ touch (offsets T) h0 h'.
Proof.
  intros Hst Hrep Hnd Hroot Havl Hctx Hes Ht0 Hsub HnT Hnin.
  destruct (balance_up_spec C h root st t)
    as (h1 & root1 & t1 & Hbu & Hrep1 & Hroot1 & He1 & Havl1 & Ht1); try done.
  rewrite Hbu. cbn [mbind res_bind].
  assert (Hoff1 : offsets t1 = offsets (plug C t)).
  { unfold offsets. by rewrite He1. }
  eexists _, root1, t1. split_and!; try done.
  - eapply (rep_touch [node]); [|
      |exact Hrep1].
    + unfold set_left, set_right.
      eapply touch_trans; apply touch_alter; apply elem_of_cons; by left.
    + intros o Ho Hin. apply list_elem_of_singleton in Hin. subst o.
      rewrite Hoff1 in Ho. done.
  - by rewrite Hoff1.
  - by rewrite He1.
  - intros o Ho. unfold set_left, set_right.
    assert (o <> node) by (intros ->; done).
    rewrite !lookup_alter_ne by done.
    rewrite Ht1; [by apply Ht0|]. intros Hin. by apply Ho, Hsub.
Qed.

Lemma offsets_plug_mono c t t' o :
  (forall o, o ∈ offsets t' -> o ∈ offsets t) ->
  o ∈ offsets (plug c t') -> o ∈ offsets (plug c t).
Proof.
  intros Hsub. rewrite !offsets_plug_split, !elem_of_app.
  intros [?|[?|?]]; auto.
Qed.

Lemma notin_plug_other c t t' o :
  NoDup (offsets (plug c t)) -> o ∈ offsets t -> o ∉ offsets t' ->
  o ∉ offsets (plug c t').
Proof.
  rewrite !offsets_plug_split. intros Hnd Ho Ho'.
  apply NoDup_app in Hnd as (H1 & H12 & H23).
  apply NoDup_app in H23 as (H2 & H23 & H3).
  rewrite !not_elem_of_app. split_and!; try done.
  - intros Hin. apply (H12 o Hin). apply elem_of_app. by left.
  - by apply H23.
Qed.

Lemma NoDup_plug_sub c t t' :
  NoDup (offsets (plug c t)) -> NoDup (offsets t') ->
  (forall o, o ∈ offsets t' -> o ∈ offsets t) ->
  NoDup (offsets (plug c t')).
Proof.
  rewrite !offsets_plug_split. intros Hnd Hnd' Hsub.
  apply NoDup_app in Hnd as (H1 & H12 & H23).
  apply NoDup_app in H23 as (H2 & H23 & H3).
  apply NoDup_app. split_and!; try done.
  - intros o Ho Hin. apply (H12 o Ho). apply elem_of_app in Hin as [Hin|Hin];
      apply elem_of_app; auto.
  - apply NoDup_app. split_and!; try done. intros o Ho. apply H23. by apply Hsub.
Qed.

Lemma elems_all_left cn succ bs ks sr :
  all_left cn ->
  elems (plug cn (Node Leaf succ bs ks sr)) = (succ, ks) :: elems (plug cn sr).
Proof.
  intros Hal. rewrite !elems_plug_split, (ctx_before_all_left cn Hal). done.
Qed.

(** The splice of [remove_node], case 3, before the parent of the removed
    node is redirected: [succ] takes over the children of [node]. *)
Lemma splice_rep h root node l b k cn sr succ bs ks pushed :
  let r := plug cn (Node Leaf succ bs ks sr) in
  let h_a := set_left succ (root_of l) h in
  let h_b :=
    match pushed with
    | [] => h_a
    | _ :: _ =>
        let h' := (assign_nref (right_of h_a succ) (succ_ref node pushed)
                     (h_a, root)).1 in
        set_right succ (right_of h' node) h'
    end in
  rep h (Node l node b k r) -> NoDup (offsets (Node l node b k r)) ->
  stack_of cn pushed -> all_left cn ->
  rep h_b (Node l succ bs ks (plug cn sr))
  /\ touch (succ :: offsets r) h h_b
  /\ h_b !! node = h !! node.
Proof.
  intros r h_a h_b (Hno & (n & Hn & Hb & Hl & Hr & Hk) & Hrl & Hrr) Hnd Hst Hal.
  apply NoDup_node in Hnd as (Hndl & Hndr & Hnil & Hnir & Hfal & Hfar).
  rewrite Forall_forall in Hfal, Hfar.
  set (tS := Node Leaf succ bs ks sr) in *.
  pose proof (rep_plug_inv h cn tS Hrr) as HrepS.
  pose proof (NoDup_plug_inv cn tS Hndr) as HndS.
  pose proof HrepS as (Hso & (ns & Hns & Hsb & Hsl & Hsr & Hsk) & _ & Hrsr).
  assert (HsS : succ ∈ offsets tS).
  { unfold tS. rewrite offsets_node, elem_of_app, elem_of_cons. tauto. }
  assert (Hsr_in : succ ∈ offsets r) by (by apply offsets_plug_sub).
  assert (Hsnode : succ <> node) by (intros ->; done).
  assert (Hsl' : succ ∉ offsets l) by (by apply Hfar).
  assert (Hssr : succ ∉ offsets sr).
  { unfold tS in HndS. apply NoDup_node in HndS. tauto. }
  assert (Hta : touch [succ] h h_a).
  { apply touch_alter. apply elem_of_cons. by left. }
  assert (Hrsr_a : rep h_a sr).
  { eapply rep_touch; [exact Hta| |done]. intros o Ho Hin.
    apply list_elem_of_singleton in Hin. by subst o. }
  assert (Hns_a : h_a !! succ = Some (with_left (root_of l) ns)).
  { unfold h_a, set_left. by rewrite lookup_alter_eq, Hns. }
  destruct cn as [|f1 cn'].
  - apply Forall2_nil_inv_l in Hst as ->. simpl in h_b. subst h_b.
    simpl plug in *. split_and!.
    + simpl. split_and!; try done.
      * eexists. split; [exact Hns_a|]. simpl. by rewrite Hsb, Hsr, Hsk.
      * eapply rep_touch; [exact Hta| |done]. intros o Ho Hin.
        apply list_elem_of_singleton in Hin. by subst o.
    + eapply touch_mono; [|exact Hta]. intros o Ho.
      apply list_elem_of_singleton in Ho. subst o. apply elem_of_cons. by left.
    + unfold h_a, set_left. by rewrite lookup_alter_ne.
  - pose proof Hst as Hst0.
    apply Forall2_cons_inv_l in Hst as ([p comp] & pushed' & (Hp & Hcomp) & Hst & ->).
    apply Forall_cons in Hal as (Hf1 & Hal').
    destruct f1 as [p1 b1 k1 r1|]; [|done]. simpl in Hp, Hcomp. subst p.
    assert (Hrs : right_of h_a succ = root_of sr).
    { unfold right_of. rewrite lookup_total_alt, Hns_a. simpl. by rewrite Hsr. }
    destruct (assign_nref_graft [succ] h h_a root (FrL p1 b1 k1 r1 :: cn')
                ((p1, comp) :: pushed') tS sr)
      as (h2 & root2 & Has & Hrep2 & _ & _ & Ht2); try done.
    { intros o Ho. left. apply list_elem_of_singleton in Ho. by subst o. }
    { intros o Ho. left. unfold tS. rewrite offsets_node, elem_of_app, elem_of_cons.
      tauto. }
    assert (Hp1r : p1 ∈ offsets r).
    { unfold r. simpl plug. apply offsets_plug_sub.
      rewrite offsets_node, elem_of_app, elem_of_cons. tauto. }
    assert (Hp1s : p1 <> succ).
    { intros ->. unfold r in Hndr. simpl plug in Hndr.
      apply NoDup_plug_inv in Hndr. apply NoDup_node in Hndr.
      destruct Hndr as (_ & _ & Hni & _). by apply Hni. }
    assert (Hp1n : p1 <> node) by (intros ->; done).
    assert (Hh2 : h2 = set_left p1 (root_of sr) h_a).
    { simpl in Has. replace (comp <? 0) with true in Has by lia.
      simpl in Has. by injection Has as <- _. }
    subst h_b. cbv beta iota zeta. cbn [succ_ref assign_nref fst].
    rewrite Hrs, <- Hh2.
    assert (Hn2 : h2 !! node = h !! node).
    { rewrite Hh2. unfold h_a, set_left.
      rewrite lookup_alter_ne by done. by rewrite lookup_alter_ne by done. }
    assert (Hns2 : h2 !! succ = Some (with_left (root_of l) ns)).
    { rewrite Hh2. unfold set_left. by rewrite lookup_alter_ne by done. }
    replace (right_of h2 node) with (root_of r)
      by (unfold right_of; by rewrite lookup_total_alt, Hn2, Hn).
    assert (Htb : touch [succ] h2 (set_right succ (root_of r) h2)).
    { apply touch_alter. apply elem_of_cons. by left. }
    assert (Hsnin : succ ∉ offsets (plug (FrL p1 b1 k1 r1 :: cn') sr)).
    { by apply (notin_plug_other _ tS). }
    assert (Hroot_r : root_of (plug (FrL p1 b1 k1 r1 :: cn') sr) = root_of r).
    { unfold r. by apply root_of_plug. }
    split_and!.
    + simpl rep. split_and!; try done.
      * eexists. split.
        -- unfold set_right. by rewrite lookup_alter_eq, Hns2.
        -- simpl. rewrite Hsb, Hsk. split_and!; try done;
             first [exact Hroot_r | symmetry; exact Hroot_r].
      * eapply (rep_touch (succ :: offsets r)); [| |exact Hrl].
        -- intros o Ho. apply not_elem_of_cons in Ho as (Ho1 & Ho2).
           unfold set_right. rewrite lookup_alter_ne by done.
           apply Ht2. rewrite elem_of_app, elem_of_cons, elem_of_nil. tauto.
        -- intros o Ho Hin. apply elem_of_cons in Hin as [->|Hin]; [done|].
           by apply (Hfal o).
      * eapply rep_touch; [exact Htb| |exact Hrep2]. intros o Ho Hin.
        apply list_elem_of_singleton in Hin. by subst o.
    + intros o Ho. apply not_elem_of_cons in Ho as (Ho1 & Ho2).
      unfold set_right. rewrite lookup_alter_ne by done.
      apply Ht2. rewrite elem_of_app, elem_of_cons, elem_of_nil. tauto.
    + unfold set_right. by rewrite lookup_alter_ne.
Qed.

Lemma rep_root_lookup h t :
  rep h t -> root_of t <> 0 -> exists n, h !! root_of t = Some n.
Proof. destruct t; simpl; [done|]. intros (_ & (n & Hn & _) & _) _. by exists n. Qed.

Lemma frame_off_notin_hole f c t :
  NoDup (offsets (plug (f :: c) t)) -> frame_off f ∉ offsets t.
Proof.
  intros Hnd. simpl in Hnd. apply NoDup_plug_inv in Hnd.
  destruct f; simpl in *; apply NoDup_node in Hnd; tauto.
Qed.

Lemma assign_nref_hole_other h1 root c st src t o :
  stack_of c st -> NoDup (offsets (plug c t)) -> o ∈ offsets t ->
  (assign_nref src (hole_ref st) (h1, root)).1 !! o = h1 !! o.
Proof.
  intros Hst Hnd Ho. destruct c as [|f c].
  - by apply Forall2_nil_inv_l in Hst as ->.
  - apply Forall2_cons_inv_l in Hst as ([p comp] & st' & (Hp & _) & _ & ->).
    simpl in Hp. subst p. pose proof (frame_off_notin_hole f c t Hnd) as Hf.
    assert (frame_off f <> o) by (intros Heq; by rewrite Heq in Hf).
    simpl. destruct (comp <? 0); simpl; unfold set_left, set_right;
      by rewrite lookup_alter_ne.
Qed.

Lemma remove_node_spec h root c st l node b k r :
  let T := plug c (Node l node b k r) in
  stack_of c st -> rep h T -> NoDup (offsets T) -> root = root_of T ->
  avl T ->
  Z.of_nat (length c) + height (Node l node b k r)
    <= Z.of_nat AVSTOR_AVL_HEIGHT ->
  exists h' root' t',
    remove_node h root node st = Ok (h', root')
    /\ rep h' t' /\ root' = root_of t' /\ NoDup (offsets t') /\ avl t'
    /\ elems t' = ctx_before c ++ elems l ++ elems r ++ ctx_after c
    /\ touch (offsets T) h h'.
Proof.
  intros T Hst Hrep Hnd Hroot Havl Hlen. unfold T in *.
  pose proof (rep_plug_inv h c _ Hrep) as Hrepn.
  pose proof (NoDup_plug_inv c _ Hnd) as Hndn.
  apply avl_plug in Havl as (Havln & Hctx).
  pose proof Hrepn as (Hno & (n & Hn & Hb & Hl & Hr & Hk) & Hrl & Hrr).
  pose proof Havln as (Hbh & Hbr & Havll & Havlr).
  pose proof (height_nonneg l) as Hhl. pose proof (height_nonneg r) as Hhr.
  assert (Hnn : node ∈ offsets (Node l node b k r)).
  { rewrite offsets_node, elem_of_app, elem_of_cons. tauto. }
  assert (HnT : node ∈ offsets (plug c (Node l node b k r))).
  { by apply offsets_plug_sub. }
  pose proof Hndn as Hndn'.
  apply NoDup_node in Hndn' as (Hndl & Hndr & Hnil & Hnir & Hfal & Hfar).
  rewrite Forall_forall in Hfal, Hfar.
  unfold remove_node. rewrite (hole_ref_lock h c st _ Hrep Hst).
  cbn [mbind res_bind].
  replace (left_of h node) with (root_of l) by (by heap_simpl).
  replace (right_of h node) with (root_of r) by (by heap_simpl).
  assert (HS0 : forall o : Z, o ∈ @nil Z ->
             o ∈ offsets (Node l node b k r)
             \/ o ∉ offsets (plug c (Node l node b k r))).
  { intros o Ho. by apply elem_of_nil in Ho. }
  assert (Hroot_of : forall t', c <> [] ->
             root = root_of (plug c t')).
  { intros t' Hc. rewrite Hroot. by apply root_of_plug. }
  destruct (Z.eqb_spec (root_of l) 0) as [Hl0|Hl0];
    destruct (Z.eqb_spec (root_of r) 0) as [Hr0|Hr0];
    cbn [andb orb negb read_ref];
    try (apply (rep_root_0 h) in Hl0 as Hleaf; [|done]; subst l);
    try (apply (rep_root_0 h) in Hr0 as Hleaf; [|done]; subst r).
  - (* Case 1: no children *)
    destruct (assign_nref_graft [] h h root c st (Node Leaf node b k Leaf) Leaf
                Hrep Hnd Hst (touch_refl _ _) HS0 I)
      as (h2 & root2 & Has & Hrep2 & Hr1 & Hr2 & Ht2).
    { intros o Ho. by apply elem_of_nil in Ho. }
    simpl root_of in Has. rewrite Has. cbn [mbind res_bind].
    apply (remove_finish h h2 c Leaf (plug c (Node Leaf node b k Leaf)) node);
      [ done | done
      | apply (NoDup_plug_sub c (Node Leaf node b k Leaf)); try done;
          try apply NoDup_nil_2;
          try (intros o' Ho'; by apply elem_of_nil in Ho')
      | destruct c; [by apply Hr2|]; rewrite Hr1 by done; by apply Hroot_of
      | done
      | exact Hctx
      | by rewrite elems_plug_split
      | exact Ht2
      | intros o; apply offsets_plug_mono; intros o' Ho';
          by apply elem_of_nil in Ho'
      | done
      | apply (notin_plug_other c (Node Leaf node b k Leaf)); try done;
          apply not_elem_of_nil ].
  - (* Case 2: only a right child *)
    replace (right_of h node) with (root_of r) by (by heap_simpl).
    assert (Hsubr : forall o, o ∈ offsets r -> o ∈ offsets (Node Leaf node b k r)).
    { intros o Ho. rewrite offsets_node, elem_of_app, elem_of_cons. tauto. }
    destruct (assign_nref_graft [] h h root c st (Node Leaf node b k r) r
                Hrep Hnd Hst (touch_refl _ _) HS0 Hrr)
      as (h2 & root2 & Has & Hrep2 & Hr1 & Hr2 & Ht2).
    { intros o Ho. left. by apply Hsubr. }
    rewrite Has. cbn [assign_nref fst snd mbind res_bind].
    assert (Hnin : node ∉ offsets (plug c r)).
    { by apply (notin_plug_other c (Node Leaf node b k r)). }
    apply (remove_finish h (set_right node 0 h2) c r
             (plug c (Node Leaf node b k r)) node);
      [ done
      | eapply (rep_touch [node]); [apply touch_alter; apply elem_of_cons; by left
                                   | |exact Hrep2];
          intros o Ho Hin; apply list_elem_of_singleton in Hin; by subst o
      | by apply (NoDup_plug_sub c (Node Leaf node b k r))
      | destruct c; [by apply Hr2|]; rewrite Hr1 by done; by apply Hroot_of
      | done
      | replace (height r + 1) with (height (Node Leaf node b k r))
          by (simpl; lia);
          exact Hctx
      | by rewrite elems_plug_split
      | intros o Ho; unfold set_right;
          rewrite lookup_alter_ne by (intros ->; done); by apply Ht2
      | intros o; by apply offsets_plug_mono
      | done
      | done ].
  - (* Case 2: only a left child *)
    replace (left_of h node) with (root_of l) by (by heap_simpl).
    assert (Hsubl : forall o, o ∈ offsets l -> o ∈ offsets (Node l node b k Leaf)).
    { intros o Ho. rewrite offsets_node, elem_of_app, elem_of_cons. tauto. }
    destruct (assign_nref_graft [] h h root c st (Node l node b k Leaf) l
                Hrep Hnd Hst (touch_refl _ _) HS0 Hrl)
      as (h2 & root2 & Has & Hrep2 & Hr1 & Hr2 & Ht2).
    { intros o Ho. left. by apply Hsubl. }
    rewrite Has. cbn [assign_nref fst snd mbind res_bind].
    assert (Hnin : node ∉ offsets (plug c l)).
    { by apply (notin_plug_other c (Node l node b k Leaf)). }
    apply (remove_finish h (set_left node 0 h2) c l
             (plug c (Node l node b k Leaf)) node);
      [ done
      | eapply (rep_touch [node]); [apply touch_alter; apply elem_of_cons; by left
                                   | |exact Hrep2];
          intros o Ho Hin; apply list_elem_of_singleton in Hin; by subst o
      | by apply (NoDup_plug_sub c (Node l node b k Leaf))
      | destruct c; [by apply Hr2|]; rewrite Hr1 by done; by apply Hroot_of
      | done
      | replace (height l + 1) with (height (Node l node b k Leaf))
          by (simpl; lia);
          exact Hctx
      | by rewrite elems_plug_split
      | intros o Ho; unfold set_left;
          rewrite lookup_alter_ne by (intros ->; done); by apply Ht2
      | intros o; by apply offsets_plug_mono
      | done
      | done ].
  - (* Case 3: two children *)
    pose proof (Forall2_length _ _ _ Hst) as Hlst.
    assert (Hhn : height (Node l node b k r) = 1 + Z.max (height l) (height r))
      by done.
    unfold backtrace_push.
    assert (Hls : (length c < AVSTOR_AVL_HEIGHT)%nat) by lia.
    rewrite Hlst in Hls. apply Nat.ltb_lt in Hls as Hlsb. rewrite Hlsb.
    cbn [mbind res_bind].
    replace (right_of h node) with (root_of r) by (by heap_simpl).
    replace (left_of h node) with (root_of l) by (by heap_simpl).
    destruct (rep_root_lookup h r Hrr Hr0) as (nr & Hnr).
    rewrite (lock_node_Some _ _ _ Hnr). cbn [mbind res_bind].
    match goal with
    | |- context [succ_loop ?room h _ _ ?p0] =>
        destruct (succ_loop_spec h node r room [] p0)
          as (cn & sr & succ & bs & ks & pushed
              & Hloop & Hplug & Hstn & Haln & Hlenn)
    end;
      [ done | done
      | cbn [length]; unfold AvStackData, AVSTOR_AVL_HEIGHT in *; lia
      | constructor | constructor | ].
    rewrite app_nil_r in Hstn, Haln.
    change (succ_ref node []) with (RightOf node) in Hloop.
    rewrite Hloop. cbn [mbind res_bind].
    subst r. set (tS := Node Leaf succ bs ks sr) in *.
    set (r := plug cn tS) in *.
    pose proof (splice_rep h root node l b k cn sr succ bs ks pushed
                  Hrepn Hndn Hstn Haln) as Hsp.
    cbv zeta in Hsp.
    match type of Hsp with
    | rep ?hb _ /\ _ =>
        set (h_b := hb) in Hsp;
        repeat match goal with
               | |- context [lock_node ?hh node] => progress change hh with h_b
               | |- context [backtrace_set_ref ?hh _ _ _ _] =>
                   progress change hh with h_b
               end
    end.
    destruct Hsp as (Hrepb & Htb & Hnb).
    assert (Hnb' : h_b !! node = Some n) by (by rewrite Hnb).
    rewrite (lock_node_Some _ _ _ Hnb'). cbn [mbind res_bind].
    assert (HsS : succ ∈ offsets tS).
    { unfold tS. rewrite offsets_node, elem_of_app, elem_of_cons. tauto. }
    assert (Hsr_in : succ ∈ offsets r) by (by apply offsets_plug_sub).
    assert (Hoffr : offsets r = succ :: offsets (plug cn sr)).
    { unfold offsets, r, tS. by rewrite elems_all_left. }
    assert (Hhead : forall f, head c = Some f ->
              h_b !! frame_off f = h !! frame_off f).
    { intros f Hf. destruct c as [|f' c']; [done|]. injection Hf as ->.
      apply Htb. pose proof (frame_off_notin_hole f c' _ Hnd) as Hni.
      intros Hin. apply Hni. rewrite offsets_node, elem_of_app, elem_of_cons.
      apply elem_of_cons in Hin as [->|Hin]; tauto. }
    pose proof (backtrace_set_ref_hole h_b root h c st (Node l node b k r) succ
                  Hrep Hnd Hst Hhead Hno) as Hbs.
    simpl root_of in Hbs. rewrite Hbs. cbn [mbind res_bind].
    set (t1 := Node l succ bs ks (plug cn sr)) in *.
    assert (Hsub1 : forall o, o ∈ offsets t1 -> o ∈ offsets (Node l node b k r)).
    { intros o. unfold t1. rewrite !offsets_node, Hoffr, !elem_of_app, !elem_of_cons.
      tauto. }
    destruct (assign_nref_graft (succ :: offsets r) h h_b root c st
                (Node l node b k r) t1 Hrep Hnd Hst Htb)
      as (h2 & root2 & Has & Hrep2 & Hr1 & Hr2 & Ht2).
    { intros o Ho. left. rewrite offsets_node, elem_of_app, elem_of_cons.
      apply elem_of_cons in Ho as [->|Ho]; tauto. }
    { exact Hrepb. }
    { intros o Ho. left. by apply Hsub1. }
    simpl root_of in Has.
    assert (Hbf : BF h2 node = b).
    { pose proof (assign_nref_hole_other h_b root c st succ (Node l node b k r)
                    node Hst Hnd Hnn) as Ho.
      rewrite Has in Ho. simpl in Ho. unfold BF.
      by rewrite lookup_total_alt, Ho, Hnb, Hn. }
    rewrite Has. cbn [mbind res_bind]. rewrite Hbf.
    pose proof (rep_plug_inv h2 c t1 Hrep2) as Hrept1.
    assert (Hndt1 : NoDup (offsets t1)).
    { unfold t1. rewrite offsets_node. rewrite offsets_node, Hoffr in Hndn.
      apply (NoDup_remove_middle (offsets l) [node]). exact Hndn. }
    destruct (rep_set_bf h2 l succ bs b ks (plug cn sr) Hrept1 Hndt1)
      as (Hrep3 & Ht3).
    set (t1' := Node l succ b ks (plug cn sr)).
    assert (Hnd1 : NoDup (offsets (plug c t1))).
    { by apply (NoDup_plug_sub c (Node l node b k r)). }
    assert (Hst1 : succ ∈ offsets t1).
    { unfold t1. rewrite offsets_node, elem_of_app, elem_of_cons. tauto. }
    assert (Hrep3' : rep (set_bf succ b h2) (plug c t1')).
    { apply (rep_plug_graft [succ] h2 _ c t1 t1'); try done.
      intros o Ho. left. apply list_elem_of_singleton in Ho. by subst o. }
    assert (HplugC : plug (cn ++ FrR l succ b ks :: c) sr = plug c t1').
    { by rewrite plug_app. }
    assert (Hsucc_node : succ <> node) by (intros ->; done).
    pose proof Havlr as HavlS. unfold r in HavlS.
    apply avl_plug in HavlS as (HavlS & Hctxn).
    destruct HavlS as (Hbs1 & Hbs2 & _ & Havlsr).
    pose proof (height_nonneg sr) as Hhsr.
    assert (HhS : height tS = height sr + 1).
    { unfold tS. simpl. lia. }
    apply (remove_finish h (set_bf succ b h2) (cn ++ FrR l succ b ks :: c) sr
             (plug c (Node l node b k r)) node); rewrite ?HplugC.
    + apply Forall2_app; [done|]. constructor; [|done]. split; simpl; [done|lia].
    + exact Hrep3'.
    + apply (NoDup_plug_sub c (Node l node b k r)); [done|exact Hndt1|exact Hsub1].
    + destruct c; [by apply Hr2|]. rewrite Hr1 by done. by apply Hroot_of.
    + exact Havlsr.
    + apply ctx_avl_app. rewrite <- HhS. split; [done|].
      rewrite <- height_plug. fold r. simpl. split_and!; try done; lia.
    + rewrite elems_plug_split. unfold t1'. simpl elems. unfold r, tS.
      rewrite elems_all_left by done. by rewrite <- !app_assoc.
    + intros o Ho. unfold set_bf.
      assert (o <> succ).
      { intros ->. apply Ho. apply offsets_plug_sub.
        rewrite offsets_node, elem_of_app, elem_of_cons. tauto. }
      rewrite lookup_alter_ne by done. apply Ht2.
      rewrite elem_of_app, elem_of_cons. intros [[->|Hin]|Hin]; try done.
      apply Ho. apply offsets_plug_sub.
      rewrite offsets_node, elem_of_app, elem_of_cons. tauto.
    + intros o. apply offsets_plug_mono. exact Hsub1.
    + exact HnT.
    + apply (notin_plug_other c (Node l node b k r)); [done|done|].
      unfold t1'. rewrite offsets_node, elem_of_app, elem_of_cons.
      intros [Hin|[Heq|Hin]]; [done|done|].
      apply Hnir. rewrite Hoffr. apply elem_of_cons. by right.
Qed.

(** *** The invariant across the tree-changing operations *)

(** C2. Inserting into and removing from an AVL tree of the store keeps the
    AVL invariant. For a tree [t] laid out in the heap [h] whose stored
    balance factors are [height right - height left] and lie in [-1, 0, 1]
    ([avl t]), the search for [key] returns with a back-trace; when it finds
    nothing, [insert_node] (which runs [balance_down]) links [item] in and
    returns a heap that lays out a tree [t'] with [avl t'] holding the old
    elements and [item] at the place of the search; when it finds [node],
    [remove_node] (which runs [balance_up]) returns a heap that lays out a
    tree [t'] with [avl t'] holding the old elements without [node]. *)
Theorem avl_invariant_preserved (h : heap) (t : tree) (key : avstor_key) :
  rep h t -> NoDup (offsets t) -> avl t ->
  height t <= Z.of_nat AVSTOR_AVL_HEIGHT ->
  exists node st before after,
    find_node_with_backtrace h key (root_of t) = Ok (node, st)
    /\ (node = 0 ->
        elems t = before ++ after
        /\ forall item n0,
            h !! item = Some n0 -> n_left n0 = 0 -> n_right n0 = 0 ->
            item <> 0 -> item ∉ offsets t ->
            exists h' root' t',
              insert_node h (root_of t) item st = Ok (h', root')
              /\ rep h' t' /\ root' = root_of t'
              /\ NoDup (offsets t') /\ avl t'
              /\ elems t' = before ++ (item, n_name n0) :: after)
    /\ (node <> 0 ->
        exists k,
          elems t = before ++ (node, k) :: after
          /\ cmpk key k = 0
          /\ exists h' root' t',
              remove_node h (root_of t) node st = Ok (h', root')
              /\ rep h' t' /\ root' = root_of t'
              /\ NoDup (offsets t') /\ avl t'
              /\ elems t' = before ++ after).
Proof.
  intros Hrep Hnd Havl Hh.
  destruct (find_node_with_backtrace_spec key h (root_of t) t Hrep eq_refl Hh)
    as (c & t' & st & Hfind & Hplug & Hst & Hpath & Hfound & Hlen).
  subst t. pose proof (rep_plug_inv h c t' Hrep) as Hrep'.
  destruct t' as [|l node b k r].
  - exists 0, st, (ctx_before c), (ctx_after c). split_and!; [done| |done].
    intros _. split; [by rewrite elems_plug_split|].
    intros item n0 Hitem Hl Hr Hi0 Hnin.
    destruct (insert_node_spec h (root_of (plug c Leaf)) c st item n0)
      as (h' & root' & t' & Hins & Hr' & Hroot' & Hnd' & Havl' & He' & _);
      try done.
    by exists h', root', t'.
  - destruct Hrep' as (Hno & _).
    exists node, st, (ctx_before c ++ elems l), (elems r ++ ctx_after c).
    split_and!; [done|done|]. intros _. exists k. split_and!.
    + rewrite elems_plug_split. simpl. by rewrite <- !app_assoc.
    + exact Hfound.
    + destruct (remove_node_spec h (root_of (plug c (Node l node b k r)))
                  c st l node b k r)
        as (h' & root' & t' & Hrm & Hr' & Hroot' & Hnd' & Havl' & He' & _);
        try done; [lia|].
      exists h', root', t'. split_and!; try done.
      by rewrite He', <- !app_assoc.
Qed.

(** A tree of three nodes named by offsets, with a fourth node allocated
    but not yet linked. *)
Definition ex_name (o : Z) : list Z := [o; 0; 0; 0].

Definition ex_heap : heap :=
  <[16 := mk_node 0 8 32 48 (ex_name 20) (VLink 20)]>
  (<[32 := mk_node 0 8 0 0 (ex_name 10) (VLink 10)]>
  (<[48 := mk_node 0 8 0 0 (ex_name 30) (VLink 30)]>
  (<[64 := mk_node 0 8 0 0 (ex_name 25) (VLink 25)]> ∅))).

Definition ex_tree : tree :=
  Node (Node Leaf 32 0 (ex_name 10) Leaf) 16 0 (ex_name 20)
       (Node Leaf 48 0 (ex_name 30) Leaf).

Definition ex_key (o : Z) : avstor_key := mk_key (ex_name o) 4 offset_comparer.

Lemma ex_tree_rep : rep ex_heap ex_tree.
Proof.
  simpl. split_and!; try done;
    eexists; (split; [reflexivity|]); by split_and!.
Qed.

Lemma ex_tree_NoDup : NoDup (offsets ex_tree).
Proof. apply (bool_decide_unpack _). by vm_compute. Qed.

Lemma ex_tree_avl : avl ex_tree.
Proof. simpl. split_and!; done. Qed.

Lemma avl_invariant_preserved_witness :
  (exists st before after h' root' t',
      find_node_with_backtrace ex_heap (ex_key 25) 16 = Ok (0, st)
      /\ insert_node ex_heap 16 64 st = Ok (h', root')
      /\ rep h' t' /\ root' = root_of t' /\ avl t'
      /\ elems ex_tree = before ++ after
      /\ elems t' = before ++ (64, ex_name 25) :: after)
  /\ (exists st before after h' root' t',
      find_node_with_backtrace ex_heap (ex_key 20) 16 = Ok (16, st)
      /\ remove_node ex_heap 16 16 st = Ok (h', root')
      /\ rep h' t' /\ root' = root_of t' /\ avl t'
      /\ elems ex_tree = before ++ (16, ex_name 20) :: after
      /\ elems t' = before ++ after).
Proof.
  assert (Hh : height ex_tree <= Z.of_nat AVSTOR_AVL_HEIGHT) by (by vm_compute).
  split.
  - destruct (avl_invariant_preserved ex_heap ex_tree (ex_key 25)
                ex_tree_rep ex_tree_NoDup ex_tree_avl Hh)
      as (node & st & before & after & Hfind & Hins & _).
    simpl root_of in Hfind.
    assert (Hnode : node = 0).
    { vm_compute in Hfind. by injection Hfind as <- _. }
    subst node. destruct (Hins eq_refl) as (He & Hins').
    destruct (Hins' 64 (mk_node 0 8 0 0 (ex_name 25) (VLink 25)))
      as (h' & root' & t' & Hi & Hr & Hroot & _ & Havl & He');
      [reflexivity|reflexivity|reflexivity|lia| |].
    { apply (bool_decide_unpack _). by vm_compute. }
    by exists st, before, after, h', root', t'.
  - destruct (avl_invariant_preserved ex_heap ex_tree (ex_key 20)
                ex_tree_rep ex_tree_NoDup ex_tree_avl Hh)
      as (node & st & before & after & Hfind & _ & Hrm).
    simpl root_of in Hfind.
    assert (Hnode : node = 16).
    { vm_compute in Hfind. by injection Hfind as <- _. }
    subst node.
    destruct Hrm as (k & He & Hk & h' & root' & t' & Hr & Hrep' & Hroot & _
                     & Havl & He'); [lia|].
    assert (Hk' : k = ex_name 20).
    { assert (Hin : (16, k) ∈ elems ex_tree).
      { rewrite He, elem_of_app, elem_of_cons. tauto. }
      vm_compute in Hin.
      repeat (apply elem_of_cons in Hin as [Hin|Hin];
              [by simplify_eq|]).
      by apply elem_of_nil in Hin. }
    subst k. by exists st, before, after, h', root', t'.
Defined.

End AVLRep.

(** ** The in-order cursor *)

Module Inorder.
Import AVL AVLRep.

Definition AVSTOR_VALUES : Z := 1.
Definition AVSTOR_DESCENDING : Z := 2.

(** [struct avstor_inorder]: the entries [ref[top]], ..., [ref[0]] of the
    stack (the top first) and the flags. *)
Record avstor_inorder : Type := mk_inorder {
  io_ref : list Z;
  io_flags : Z
}.

Definition is_descending (flags : Z) : bool :=
  negb (Z.land flags AVSTOR_DESCENDING =? 0).

Definition is_value (flags : Z) : bool :=
  negb (Z.land flags AVSTOR_VALUES =? 0).

Definition inorder_state_push (st : list Z) (item : Z) : option (list Z) :=
  if (length st <? AVSTOR_AVL_HEIGHT)%nat then Some (item :: st) else None.

(** The child visited before a node, and the one visited after it. *)
Definition near (desc : bool) (n : AvNode) : Z :=
  if desc then n_right n else n_left n.
Definition far (desc : bool) (n : AvNode) : Z :=
  if desc then n_left n else n_right n.

(** The loop of [find_node_for_inorder]. It pushes only some of the nodes
    it passes, so it is bounded by [fuel]; [None] says the fuel ran out.
    The stack is returned with an exception too, as the caller keeps it.
    The comparer's result is read as a mathematical integer. *)
Fixpoint find_inorder_loop (fuel : nat) (h : heap) (desc : bool)
    (key : avstor_key) (st : list Z) (ofs : Z) (cur : AvNode)
    : option (list Z * res Z) :=
  match fuel with
  | O => None
  | S fuel' =>
      let comp := key_comparer key (key_buf key) (n_name cur) in
      match (if (if desc then - comp else comp) <=? 0
             then inorder_state_push st ofs else Some st) with
      | None => Some (st, Throw AVSTOR_CORRUPT)
      | Some st =>
          if comp =? 0 then Some (st, Ok ofs)
          else
            let ofs' := if comp <? 0 then n_left cur else n_right cur in
            if ofs' =? 0 then Some (st, Ok 0)
            else
              match lock_node h ofs' with
              | Throw e => Some (st, Throw e)
              | Ok cur' => find_inorder_loop fuel' h desc key st ofs' cur'
              end
      end
  end.

Definition find_node_for_inorder (fuel : nat) (h : heap) (desc : bool)
    (key : avstor_key) (st : list Z) (ofs : Z) : option (list Z * res Z) :=
  if ofs =? 0 then Some (st, Ok 0)
  else
    match lock_node h ofs with
    | Throw e => Some (st, Throw e)
    | Ok cur => find_inorder_loop fuel h desc key st ofs cur
    end.

(** The loop of [inorder_next]: every iteration that does not return
    pushes, so the recursion is on the room left in the stack. The result is
    [Some ref] for [AVSTOR_OK] with [out_node->ref = ref], and [None] for
    [AVSTOR_NOTFOUND]. *)
Fixpoint inorder_next_loop (room : nat) (h : heap) (desc : bool)
    (st : list Z) (ofs : Z) : list Z * res (option Z) :=
  if ofs =? 0 then
    match st with
    | [] => ([], Ok None)
    | top :: _ => (st, Ok (Some top))
    end
  else
    match room with
    | O => (st, Throw AVSTOR_CORRUPT)
    | S room' =>
        match lock_node h ofs with
        | Throw e => (ofs :: st, Throw e)
        | Ok node => inorder_next_loop room' h desc (ofs :: st) (near desc node)
        end
    end.

Definition inorder_next (h : heap) (desc : bool) (st : list Z) (ofs : Z)
    : list Z * res (option Z) :=
  inorder_next_loop (AVSTOR_AVL_HEIGHT - length st) h desc st ofs.

(** [lock_keyref]. *)
Definition lock_keyref (h : heap) (ref : Z) : res AvNode :=
  if ref =? 0 then Throw AVSTOR_PARAM
  else
    n ← lock_node h ref;
    if n_type n =? 0 then Ok n else Throw AVSTOR_MISMATCH.

Definition subkey_root_of (n : AvNode) : Z :=
  match n_data n with VKey s _ _ => s | _ => 0 end.
Definition value_root_of (n : AvNode) : Z :=
  match n_data n with VKey _ v _ => v | _ => 0 end.

(** The root of the tree that [avstor_inorder_first] traverses. *)
Definition inorder_root (h : heap) (hdr_root : Z) (parent : Z) (flags : Z)
    : res Z :=
  parent_node ← (if parent =? 0 then Ok None
                 else n ← lock_keyref h parent; Ok (Some n));
  match parent_node with
  | Some n => Ok (if is_value flags then value_root_of n else subkey_root_of n)
  | None => if is_value flags then Throw AVSTOR_PARAM else Ok hdr_root
  end.

(** The result of a cursor call: the cursor, the code returned, and
    [out_node->ref] after the call. *)
Definition cursor_result : Type := avstor_inorder * avstor_err * Z.

Definition avstor_inorder_first (fuel : nat) (h : heap) (hdr_root : Z)
    (st : avstor_inorder) (parent : Z) (key : option avstor_key)
    (flags : Z) (out_node : Z) : option cursor_result :=
  if match key with Some k => MAX_KEY_LEN <? key_len k | None => false end
     || (is_value flags && (parent =? 0))
  then Some (st, AVSTOR_PARAM, out_node)
  else
    let desc := is_descending flags in
    match inorder_root h hdr_root parent flags with
    | Throw e => Some (mk_inorder [] flags, e, out_node)
    | Ok ofs =>
        match key with
        | Some k =>
            match find_node_for_inorder fuel h desc k [] ofs with
            | None => None
            | Some (s, Throw e) => Some (mk_inorder s flags, e, out_node)
            | Some (s, Ok fref) =>
                if negb (fref =? 0) then Some (mk_inorder s flags, AVSTOR_OK, fref)
                else
                  match s with
                  | top :: _ => Some (mk_inorder s flags, AVSTOR_OK, top)
                  | [] => Some (mk_inorder s flags, AVSTOR_NOTFOUND, out_node)
                  end
            end
        | None =>
            match inorder_next h desc [] ofs with
            | (s, Throw e) => Some (mk_inorder s flags, e, out_node)
            | (s, Ok (Some ref)) => Some (mk_inorder s flags, AVSTOR_OK, ref)
            | (s, Ok None) => Some (mk_inorder s flags, AVSTOR_NOTFOUND, out_node)
            end
        end
    end.

Definition avstor_inorder_next (h : heap) (st : avstor_inorder) (out_node : Z)
    : cursor_result :=
  match io_ref st with
  | [] => (st, AVSTOR_NOTFOUND, 0)
  | top :: rest =>
      let desc := is_descending (io_flags st) in
      match lock_node h top with
      | Throw e => (mk_inorder rest (io_flags st), e, out_node)
      | Ok node =>
          match inorder_next h desc rest (far desc node) with
          | (s, Throw e) => (mk_inorder s (io_flags st), e, out_node)
          | (s, Ok (Some ref)) => (mk_inorder s (io_flags st), AVSTOR_OK, ref)
          | (s, Ok None) => (mk_inorder s (io_flags st), AVSTOR_NOTFOUND, out_node)
          end
      end
  end.

(** The nodes returned by [n] further calls of [avstor_inorder_next], up to
    the first call that does not return [AVSTOR_OK], and the code of that
    call ([AVSTOR_OK] when all [n] calls returned a node). *)
Fixpoint cursor_rest (n : nat) (h : heap) (st : avstor_inorder)
    : list Z * avstor_err :=
  match n with
  | O => ([], AVSTOR_OK)
  | S n' =>
      let '(st', code, out) := avstor_inorder_next h st 0 in
      match code with
      | AVSTOR_OK => let '(l, c) := cursor_rest n' h st' in (out :: l, c)
      | _ => ([], code)
      end
  end.

(** A whole traversal: [avstor_inorder_first], then [avstor_inorder_next]
    up to [n] times. *)
Definition cursor_all (n fuel : nat) (h : heap) (hdr_root : Z) (parent : Z)
    (key : option avstor_key) (flags : Z) : option (list Z * avstor_err) :=
  match avstor_inorder_first fuel h hdr_root (mk_inorder [] 0) parent key flags 0 with
  | None => None
  | Some (st, AVSTOR_OK, out) =>
      let '(l, c) := cursor_rest n h st in Some (out :: l, c)
  | Some (_, code, _) => Some ([], code)
  end.


(** *** Trees as the cursor sees them *)

(** In a descending traversal the right child comes first: the cursor
    walks the mirror image of the tree. *)
Fixpoint mirror (t : tree) : tree :=
  match t with
  | Leaf => Leaf
  | Node l o b k r => Node (mirror r) o (- b) k (mirror l)
  end.

Definition directed (desc : bool) (t : tree) : tree :=
  if desc then mirror t else t.

(** [drep desc h t]: [h] lays out [t] with [near] as left and [far] as
    right child. *)
Fixpoint drep (desc : bool) (h : heap) (t : tree) : Prop :=
  match t with
  | Leaf => True
  | Node l o _ k r =>
      o <> 0
      /\ (exists n, h !! o = Some n /\ near desc n = root_of l
                    /\ far desc n = root_of r /\ n_name n = k)
      /\ drep desc h l /\ drep desc h r
  end.

(** The stack of the cursor: each entry with the subtree that is still to
    be visited after it. *)
Definition pending : Type := list (Z * tree).

Fixpoint pend_ok (desc : bool) (h : heap) (p : pending) : Prop :=
  match p with
  | [] => True
  | (o, ft) :: p' =>
      (exists n, h !! o = Some n /\ far desc n = root_of ft)
      /\ drep desc h ft
      /\ Z.of_nat (length p') + 1 + height ft <= Z.of_nat AVSTOR_AVL_HEIGHT
      /\ pend_ok desc h p'
  end.

(** The nodes the cursor has yet to return, the current one first. *)
Fixpoint pend_seq (p : pending) : list Z :=
  match p with
  | [] => []
  | (o, ft) :: p' => o :: offsets ft ++ pend_seq p'
  end.

Fixpoint drop_while {A} (f : A -> bool) (l : list A) : list A :=
  match l with
  | [] => []
  | x :: l' => if f x then drop_while f l' else l
  end.

(** The comparison as the direction of the traversal sees it. *)
Definition dcomp (desc : bool) (key : avstor_key) (k : list Z) : Z :=
  if desc then - cmpk key k else cmpk key k.

(** The names are ordered as seen from [key]: after a name that is not
    below the key, all names are above it. *)
Fixpoint dsorted (desc : bool) (key : avstor_key) (l : list (Z * list Z))
    : Prop :=
  match l with
  | [] => True
  | e :: l' =>
      (dcomp desc key e.2 <= 0 -> Forall (fun e' => dcomp desc key e'.2 < 0) l')
      /\ dsorted desc key l'
  end.

Definition key_sorted (key : avstor_key) (l : list (Z * list Z)) : Prop :=
  dsorted false key l.

(** The order in which a cursor visits a tree, from the start or from the
    position of a key. *)
Definition cursor_order (desc : bool) (key : option avstor_key) (t : tree)
    : list Z :=
  let l := if desc then rev (elems t) else elems t in
  match key with
  | None => l.*1
  | Some k => (drop_while (fun e => 0 <? dcomp desc k e.2) l).*1
  end.

Lemma elems_mirror t : elems (mirror t) = rev (elems t).
Proof.
  induction t as [|l IHl o b k r IHr]; simpl; [done|].
  rewrite rev_app_distr. simpl. by rewrite IHl, IHr, <- app_assoc.
Qed.

Lemma height_mirror t : height (mirror t) = height t.
Proof.
  induction t as [|l IHl o b k r IHr]; simpl; [done|]. rewrite IHl, IHr. lia.
Qed.

Lemma root_of_mirror t : root_of (mirror t) = root_of t.
Proof. by destruct t. Qed.

Lemma drep_false h t : rep h t -> drep false h t.
Proof.
  induction t as [|l IHl o b k r IHr]; simpl; [done|].
  intros (Ho & (n & Hn & Hb & Hl & Hr & Hk) & Hrl & Hrr).
  split_and!; auto. by exists n.
Qed.

Lemma drep_true h t : rep h t -> drep true h (mirror t).
Proof.
  induction t as [|l IHl o b k r IHr]; simpl; [done|].
  intros (Ho & (n & Hn & Hb & Hl & Hr & Hk) & Hrl & Hrr).
  split_and!; auto. exists n. by rewrite !root_of_mirror.
Qed.

Lemma drep_directed desc h t : rep h t -> drep desc h (directed desc t).
Proof. destruct desc; [apply drep_true|apply drep_false]. Qed.

Lemma drep_root_0 desc h t : drep desc h t -> root_of t = 0 -> t = Leaf.
Proof. destruct t; simpl; [done|]. intros (Ho & _) ->. done. Qed.

Lemma pend_seq_nil p : pend_seq p = [] -> p = [].
Proof. by destruct p as [|[o ft] p]. Qed.

Lemma head_pend_seq p : head (pend_seq p) = head p.*1.
Proof. by destruct p as [|[o ft] p]. Qed.

(** *** [inorder_next] *)

Lemma inorder_next_spec desc h : forall s p,
  drep desc h s -> pend_ok desc h p ->
  Z.of_nat (length p) + height s <= Z.of_nat AVSTOR_AVL_HEIGHT ->
  exists p',
    inorder_next h desc p.*1 (root_of s) = (p'.*1, Ok (head (pend_seq p')))
    /\ pend_ok desc h p'
    /\ pend_seq p' = offsets s ++ pend_seq p.
Proof.
  induction s as [|l IHl o b k r _]; intros p Hrep Hp Hlen.
  - exists p. split_and!; try done. unfold inorder_next. simpl root_of.
    destruct (AVSTOR_AVL_HEIGHT - length p.*1)%nat; simpl;
      by destruct p as [|[o ft] p].
  - destruct Hrep as (Ho & (n & Hn & Hnear & Hfar & Hk) & Hrl & Hrr).
    pose proof (height_nonneg l) as Hhl. pose proof (height_nonneg r) as Hhr.
    simpl in Hlen.
    destruct (IHl ((o, r) :: p)) as (p' & Hnext & Hp' & Hseq); try done.
    { simpl. split_and!; try done; [by exists n|lia]. }
    { simpl length. lia. }
    exists p'. split_and!; try done.
    + rewrite <- Hnext. unfold inorder_next. simpl root_of. rewrite <- Hnear.
      rewrite length_fmap in *. simpl length. rewrite length_fmap.
      destruct (AVSTOR_AVL_HEIGHT - length p)%nat as [|room] eqn:Hroom.
      { unfold AVSTOR_AVL_HEIGHT in *. lia. }
      cbn [inorder_next_loop]. replace (o =? 0) with false by lia.
      rewrite (lock_node_Some _ _ _ Hn).
      replace (AVSTOR_AVL_HEIGHT - S (length p))%nat with room by lia. done.
    + rewrite Hseq, offsets_node. simpl. by rewrite <- app_assoc.
Qed.

(** *** [avstor_inorder_next], repeated *)

Lemma cursor_rest_spec desc h flags : forall n p,
  is_descending flags = desc -> pend_ok desc h p ->
  (1 <= n)%nat -> (length (pend_seq p) <= n)%nat ->
  cursor_rest n h (mk_inorder p.*1 flags) = (tail (pend_seq p), AVSTOR_NOTFOUND).
Proof.
  induction n as [|n IH]; intros p Hd Hp Hn Hlen; [lia|].
  destruct p as [|[o ft] p]; [done|].
  destruct Hp as ((c & Hc & Hfar) & Hft & Hroom & Hp).
  cbn [cursor_rest avstor_inorder_next io_ref io_flags fmap list_fmap fst].
  rewrite Hd, (lock_node_Some _ _ _ Hc), Hfar.
  destruct (inorder_next_spec desc h ft p Hft Hp) as (p' & Hnext & Hp' & Hseq);
    [lia|].
  rewrite Hnext. simpl pend_seq. simpl tail. rewrite <- Hseq.
  destruct (pend_seq p') as [|x rest] eqn:Hs.
  - by apply pend_seq_nil in Hs as ->.
  - simpl.
    assert (Hlen' : (length (x :: rest) <= n)%nat).
    { rewrite Hseq. simpl in Hlen. lia. }
    rewrite (IH p' Hd Hp'); [by rewrite Hs| |by rewrite Hs].
    simpl in Hlen'. lia.
Qed.

(** *** [find_node_for_inorder] *)

Lemma drop_while_app_stop {A} (f : A -> bool) l1 x l2 :
  f x = false -> drop_while f (l1 ++ x :: l2) = drop_while f l1 ++ x :: l2.
Proof.
  intros Hx. induction l1 as [|y l1 IH]; simpl; [by rewrite Hx|].
  by destruct (f y).
Qed.

Lemma drop_while_app_all {A} (f : A -> bool) l1 l2 :
  Forall (fun x => f x = true) l1 -> drop_while f (l1 ++ l2) = drop_while f l2.
Proof. induction 1 as [|y l1 Hy _ IH]; simpl; [done|]. by rewrite Hy. Qed.

Lemma dsorted_app desc key l1 l2 :
  dsorted desc key (l1 ++ l2) -> dsorted desc key l1 /\ dsorted desc key l2.
Proof.
  induction l1 as [|e l1 IH]; simpl; [done|]. intros (He & Hs).
  destruct (IH Hs) as (H1 & H2). split_and!; try done.
  intros Hc. specialize (He Hc). by apply Forall_app in He as (? & _).
Qed.

Lemma dsorted_before desc key l1 e l2 :
  dsorted desc key (l1 ++ e :: l2) -> 0 <= dcomp desc key e.2 ->
  Forall (fun e' => (0 <? dcomp desc key e'.2) = true) l1.
Proof.
  induction l1 as [|e1 l1 IH]; simpl; [constructor|]. intros (He & Hs) Hc.
  constructor; [|by apply IH].
  destruct (Z.ltb_spec 0 (dcomp desc key e1.2)) as [?|Hle]; [done|].
  specialize (He Hle). apply Forall_app in He as (_ & He).
  apply Forall_cons in He as (He & _). lia.
Qed.

Lemma find_inorder_loop_spec desc h key : forall s fuel p n,
  drep desc h s -> root_of s <> 0 -> h !! root_of s = Some n ->
  pend_ok desc h p ->
  Z.of_nat (length p) + height s <= Z.of_nat AVSTOR_AVL_HEIGHT ->
  height s <= Z.of_nat fuel -> dsorted desc key (elems s) ->
  exists p' fref,
    find_inorder_loop fuel h desc key p.*1 (root_of s) n = Some (p'.*1, Ok fref)
    /\ pend_ok desc h p'
    /\ pend_seq p'
       = (drop_while (fun e => 0 <? dcomp desc key e.2) (elems s)).*1 ++ pend_seq p
    /\ (fref <> 0 -> head p'.*1 = Some fref).
Proof.
  induction s as [|l IHl o b k r IHr]; intros fuel p n Hrep Hroot Hn Hp Hlen Hfuel Hs;
    [done|].
  destruct Hrep as (Ho & (n' & Hn' & Hnear & Hfar & Hk) & Hrl & Hrr).
  simpl root_of in *. rewrite Hn in Hn'. injection Hn' as <-.
  pose proof (height_nonneg l) as Hhl. pose proof (height_nonneg r) as Hhr.
  simpl in Hlen, Hfuel. destruct fuel as [|fuel]; [lia|].
  simpl elems in *.
  pose proof (dsorted_app _ _ _ _ Hs) as (Hsl & Hsr0).
  destruct Hsr0 as (_ & Hsr).
  cbn [find_inorder_loop]. rewrite Hk.
  change (key_comparer key (key_buf key) k) with (cmpk key k).
  change (if desc then - cmpk key k else cmpk key k) with (dcomp desc key k).
  assert (Hpush : inorder_state_push p.*1 o = Some (o :: p.*1)).
  { unfold inorder_state_push. rewrite length_fmap.
    replace (length p <? AVSTOR_AVL_HEIGHT)%nat with true; [done|].
    symmetry. apply Nat.ltb_lt. unfold AVSTOR_AVL_HEIGHT in *. lia. }
  assert (Hp1 : pend_ok desc h ((o, r) :: p)).
  { simpl. split_and!; try done; [by exists n|lia]. }
  destruct (Z.leb_spec (dcomp desc key k) 0) as [Hle|Hgt].
  - rewrite Hpush.
    destruct (Z.eqb_spec (cmpk key k) 0) as [Heq|Hne].
    + exists ((o, r) :: p), o. split_and!; try done.
      simpl pend_seq.
      rewrite drop_while_app_all.
      * simpl. replace (0 <? dcomp desc key k) with false by lia. simpl.
        first [done | by rewrite <- app_assoc].
      * apply (dsorted_before desc key _ (o, k) (elems r)); [done|].
        simpl. unfold dcomp. destruct desc; lia.
    + assert (Hlt : dcomp desc key k < 0).
      { unfold dcomp in *. destruct desc; lia. }
      replace (if cmpk key k <? 0 then n_left n else n_right n)
        with (root_of l).
      2:{ rewrite <- Hnear. unfold dcomp, near in *.
          destruct desc; [replace (cmpk key k <? 0) with false by lia
                         |replace (cmpk key k <? 0) with true by lia]; done. }
      assert (Hstop : (0 <? dcomp desc key (o, k).2) = false) by (simpl; lia).
      destruct (Z.eqb_spec (root_of l) 0) as [Hl0|Hl0].
      * apply (drep_root_0 desc h) in Hl0 as ->; [|done].
        exists ((o, r) :: p), 0. split_and!; try done.
        simpl. replace (0 <? dcomp desc key k) with false by lia. simpl.
        first [done | by rewrite <- app_assoc].
      * destruct l as [|ll lo lb lk lr]; [done|].
        pose proof Hrl as (_ & (nl & Hnl & _) & _). simpl root_of in *.
        rewrite (lock_node_Some _ _ _ Hnl).
        destruct (IHl fuel ((o, r) :: p) nl) as (p' & fref & Hf & Hp' & Hseq & Hfr);
          try done; try (simpl length; lia); try lia.
        exists p', fref. split_and!; try done.
        rewrite Hseq, drop_while_app_stop by done.
        rewrite fmap_app. simpl. first [done | by rewrite <- app_assoc].
  - assert (Hne : cmpk key k <> 0) by (unfold dcomp in *; destruct desc; lia).
    replace (cmpk key k =? 0) with false by lia.
    replace (if cmpk key k <? 0 then n_left n else n_right n)
      with (root_of r).
    2:{ rewrite <- Hfar. unfold dcomp, far in *.
        destruct desc; [replace (cmpk key k <? 0) with true by lia
                       |replace (cmpk key k <? 0) with false by lia]; done. }
    assert (Hall : Forall (fun e => (0 <? dcomp desc key e.2) = true)
                     (elems l ++ [(o, k)])).
    { apply Forall_app. split.
      - apply (dsorted_before desc key _ (o, k) (elems r)); [done|simpl; lia].
      - constructor; [simpl; lia|constructor]. }
    assert (Hdrop : forall l2,
               drop_while (fun e => 0 <? dcomp desc key e.2)
                 (elems l ++ (o, k) :: l2)
               = drop_while (fun e => 0 <? dcomp desc key e.2) l2).
    { intros l2. rewrite (cons_middle (o, k)), app_assoc.
      by apply drop_while_app_all. }
    destruct (Z.eqb_spec (root_of r) 0) as [Hr0|Hr0].
    + apply (drep_root_0 desc h) in Hr0 as ->; [|done].
      exists p, 0. split_and!; try done. by rewrite Hdrop.
    + destruct r as [|rl ro rb rk rr]; [done|].
      pose proof Hrr as (_ & (nr & Hnr & _) & _). simpl root_of in *.
      rewrite (lock_node_Some _ _ _ Hnr).
      destruct (IHr fuel p nr) as (p' & fref & Hf & Hp' & Hseq & Hfr);
        try done; try lia.
      exists p', fref. split_and!; try done. by rewrite Hdrop.
Qed.

(** *** A whole traversal *)

Lemma dsorted_snoc desc key l e :
  dsorted desc key l ->
  Forall (fun a => dcomp desc key a.2 <= 0 -> dcomp desc key e.2 < 0) l ->
  dsorted desc key (l ++ [e]).
Proof.
  induction l as [|a l IH]; simpl.
  - intros _ _. split; [|done]. intros _. constructor.
  - intros (Ha & Hs) Hall. apply Forall_cons in Hall as (Hae & Hall).
    split; [|by apply IH]. intros Hc. apply Forall_app. split; [by apply Ha|].
    constructor; [by apply Hae|constructor].
Qed.

Lemma key_sorted_rev key l : key_sorted key l -> dsorted true key (rev l).
Proof.
  unfold key_sorted. induction l as [|e l IH]; simpl; [done|].
  intros (He & Hs). apply dsorted_snoc; [by apply IH|].
  apply Forall_forall. intros a Ha Hc. unfold dcomp in *.
  destruct (Z.leb_spec (cmpk key e.2) 0) as [Hle|?]; [|lia].
  specialize (He Hle). rewrite Forall_forall in He.
  apply list_elem_of_In, in_rev, list_elem_of_In in Ha. specialize (He a Ha). lia.
Qed.

Lemma elems_directed desc t :
  elems (directed desc t) = if desc then rev (elems t) else elems t.
Proof. destruct desc; [apply elems_mirror|done]. Qed.

Lemma height_directed desc t : height (directed desc t) = height t.
Proof. destruct desc; [apply height_mirror|done]. Qed.

Lemma root_of_directed desc t : root_of (directed desc t) = root_of t.
Proof. destruct desc; [apply root_of_mirror|done]. Qed.

Lemma dsorted_directed desc key t :
  key_sorted key (elems t) -> dsorted desc key (elems (directed desc t)).
Proof.
  intros Hs. rewrite elems_directed. destruct desc; [by apply key_sorted_rev|done].
Qed.

Lemma length_drop_while {A} (f : A -> bool) l :
  (length (drop_while f l) <= length l)%nat.
Proof. induction l as [|x l IH]; simpl; [lia|]. destruct (f x); simpl; lia. Qed.

Lemma length_directed desc t : length (elems (directed desc t)) = length (elems t).
Proof. rewrite elems_directed. destruct desc; [apply length_rev|done]. Qed.

(** The rest of a traversal once [avstor_inorder_first] has left the
    stack [p]: the first node is its top, and [AVSTOR_NOTFOUND] follows the
    last node. *)
Lemma cursor_from_first desc h flags n p :
  is_descending flags = desc -> pend_ok desc h p ->
  (length (pend_seq p) < n)%nat ->
  match p.*1 with
  | top :: _ =>
      let '(l, c) := cursor_rest n h (mk_inorder p.*1 flags) in
      Some (top :: l, c)
  | [] => Some ([], AVSTOR_NOTFOUND)
  end = Some (pend_seq p, AVSTOR_NOTFOUND).
Proof.
  intros Hd Hp Hn. rewrite (cursor_rest_spec desc h flags n p Hd Hp) by lia.
  by destruct p as [|[o ft] p].
Qed.

Lemma avstor_inorder_first_spec h t hdr_root st0 parent key flags fuel out0 :
  rep h t -> height t <= Z.of_nat AVSTOR_AVL_HEIGHT ->
  inorder_root h hdr_root parent flags = Ok (root_of t) ->
  (is_value flags = true -> parent <> 0) ->
  (forall k, key = Some k ->
     key_len k <= MAX_KEY_LEN /\ key_sorted k (elems t)) ->
  height t <= Z.of_nat fuel ->
  exists p,
    avstor_inorder_first fuel h hdr_root st0 parent key flags out0
    = Some (mk_inorder p.*1 flags,
            match p with [] => AVSTOR_NOTFOUND | _ :: _ => AVSTOR_OK end,
            default out0 (head p.*1))
    /\ pend_ok (is_descending flags) h p
    /\ pend_seq p = cursor_order (is_descending flags) key t.
Proof.
  intros Hrep Hh Hroot Hval Hkey Hfuel. unfold avstor_inorder_first.
  set (desc := is_descending flags).
  assert (Hchk : (match key with
                  | Some k => MAX_KEY_LEN <? key_len k
                  | None => false
                  end || (is_value flags && (parent =? 0))) = false).
  { apply orb_false_iff. split.
    - destruct key as [k|]; [|done]. destruct (Hkey k eq_refl) as (Hl & _). lia.
    - destruct (is_value flags); [|done]. simpl. specialize (Hval eq_refl). lia. }
  rewrite Hchk, Hroot.
  pose proof (drep_directed desc h t Hrep) as Hd.
  rewrite <- (root_of_directed desc t).
  rewrite <- (height_directed desc t) in Hh, Hfuel.
  destruct key as [k|].
  - destruct (Hkey k eq_refl) as (_ & Hs).
    apply (dsorted_directed desc) in Hs.
    unfold cursor_order. rewrite <- elems_directed.
    unfold find_node_for_inorder.
    destruct (Z.eqb_spec (root_of (directed desc t)) 0) as [H0|H0].
    + apply (drep_root_0 desc h) in H0 as Hleaf; [|done]. rewrite Hleaf.
      by exists [].
    + destruct (directed desc t) as [|l o b kk r] eqn:Ht; [done|].
      pose proof Hd as (_ & (n & Hn & _) & _). simpl root_of in *.
      rewrite (lock_node_Some _ _ _ Hn).
      destruct (find_inorder_loop_spec desc h k (Node l o b kk r) fuel [] n)
        as (p & fref & Hf & Hp & Hseq & Hfr); try done.
      simpl root_of in Hf. change ([] : list Z) with ((@nil (Z * tree)).*1).
      rewrite Hf. exists p. rewrite app_nil_r in Hseq. split_and!; try done.
      destruct (Z.eqb_spec fref 0) as [->|Hne]; simpl.
      * by destruct p as [|[o' ft] p].
      * specialize (Hfr Hne). destruct p as [|[o' ft] p]; [done|].
        simpl in Hfr. by injection Hfr as ->.
  - destruct (inorder_next_spec desc h (directed desc t) [] Hd I)
      as (p & Hnext & Hp & Hseq); [simpl; lia|].
    simpl fmap in Hnext. rewrite Hnext. exists p.
    rewrite app_nil_r in Hseq. split_and!; try done.
    + by destruct p as [|[o' ft] p].
    + rewrite Hseq. unfold cursor_order, offsets. by rewrite elems_directed.
Qed.

(** The tree that a cursor call selects: the root tree of the header for
    a null parent handle, and for a parent key (a node of type 0,
    [AVSTOR_TYPE_KEY]) its tree of sub-keys or, with [AVSTOR_VALUES], its
    tree of values. *)
Inductive cursor_tree (h : heap) (hdr_root : Z) : Z -> Z -> Z -> Prop :=
| root_keys flags :
    is_value flags = false -> cursor_tree h hdr_root 0 flags hdr_root
| sub_keys parent pn flags :
    parent <> 0 -> h !! parent = Some pn -> n_type pn = 0 ->
    is_value flags = false ->
    cursor_tree h hdr_root parent flags (subkey_root_of pn)
| key_values parent pn flags :
    parent <> 0 -> h !! parent = Some pn -> n_type pn = 0 ->
    is_value flags = true ->
    cursor_tree h hdr_root parent flags (value_root_of pn).

Lemma inorder_root_spec h hdr_root parent flags root :
  cursor_tree h hdr_root parent flags root ->
  inorder_root h hdr_root parent flags = Ok root
  /\ (is_value flags = true -> parent <> 0).
Proof.
  unfold inorder_root, lock_keyref.
  destruct 1 as [flags Hv|parent pn flags Hp Hn Hty Hv|parent pn flags Hp Hn Hty Hv].
  - simpl. rewrite Hv. split; [done|]. done.
  - replace (parent =? 0) with false by lia.
    rewrite (lock_node_Some _ _ _ Hn). cbn [mbind res_bind].
    rewrite Hty. cbn [Z.eqb mbind res_bind]. rewrite Hv. done.
  - replace (parent =? 0) with false by lia.
    rewrite (lock_node_Some _ _ _ Hn). cbn [mbind res_bind].
    rewrite Hty. cbn [Z.eqb mbind res_bind]. rewrite Hv. done.
Qed.

(** C8. A cursor over a well-formed tree (laid out in the heap, of at most
    the height the cursor's stack allows) that is started by
    [avstor_inorder_first] and advanced by [avstor_inorder_next] returns
    exactly the nodes of the tree in their in-order sequence, which is the
    ascending order of the names, or in the reverse of it with
    [AVSTOR_DESCENDING], and then [AVSTOR_NOTFOUND]. The tree is the one
    that the call selects ([cursor_tree]): the root tree of the header,
    the sub-keys of the parent key or, with [AVSTOR_VALUES], its values.
    With a key whose comparer agrees with the order of the tree, the
    traversal starts at the first node of that sequence that is not before
    the key: the node equal to the key if there is one, otherwise the
    smallest greater node (ascending) or the largest smaller node
    (descending); with no such node the first call already returns
    [AVSTOR_NOTFOUND]. *)
Theorem inorder_cursor_order h t hdr_root parent key flags n fuel :
  rep h t -> height t <= Z.of_nat AVSTOR_AVL_HEIGHT ->
  cursor_tree h hdr_root parent flags (root_of t) ->
  (forall k, key = Some k ->
     key_len k <= MAX_KEY_LEN /\ key_sorted k (elems t)) ->
  height t <= Z.of_nat fuel -> (length (elems t) < n)%nat ->
  cursor_all n fuel h hdr_root parent key flags
  = Some (cursor_order (is_descending flags) key t, AVSTOR_NOTFOUND).
Proof.
  intros Hrep Hh Hsel Hkey Hfuel Hn. unfold cursor_all.
  destruct (inorder_root_spec _ _ _ _ _ Hsel) as (Hroot & Hval).
  destruct (avstor_inorder_first_spec h t hdr_root (mk_inorder [] 0) parent key
              flags fuel 0 Hrep Hh Hroot Hval Hkey Hfuel)
    as (p & Hfirst & Hp & Hseq).
  rewrite Hfirst, <- Hseq.
  assert (Hlen : (length (pend_seq p) < n)%nat).
  { rewrite Hseq. unfold cursor_order.
    assert (Hl : length (if is_descending flags then rev (elems t) else elems t)
                 = length (elems t)).
    { destruct (is_descending flags); [apply length_rev|done]. }
    destruct key as [k|]; rewrite length_fmap.
    - pose proof (length_drop_while
                    (fun e => 0 <? dcomp (is_descending flags) k e.2)
                    (if is_descending flags then rev (elems t) else elems t)).
      lia.
    - lia. }
  pose proof (cursor_from_first (is_descending flags) h flags n p eq_refl Hp Hlen)
    as Hall.
  destruct p as [|[o ft] p]; [done|]. exact Hall.
Qed.

Lemma ex_key_sorted o : key_sorted (ex_key o) (elems ex_tree).
Proof.
  unfold key_sorted. simpl.
  unfold dcomp, cmpk, ex_key, offset_comparer, off_of_bytes, ex_name. simpl.
  split_and!; try done; intros Hc; repeat constructor; simpl;
    repeat case_match; lia.
Qed.

(** The example tree as the sub-keys of a key at 80, whose only value
    is the node at 64; the root tree of the header holds the key. *)
Definition ex_parent : AvNode := mk_node 0 0 0 0 (ex_name 1) (VKey 16 64 1).
Definition ex_heap_parent : heap := <[80 := ex_parent]> ex_heap.
Definition ex_values : tree := Node Leaf 64 0 (ex_name 25) Leaf.
Definition ex_root_tree : tree := Node Leaf 80 0 (ex_name 1) Leaf.

Lemma ex_tree_parent_rep : rep ex_heap_parent ex_tree.
Proof.
  simpl. split_and!; try done;
    eexists; (split; [reflexivity|]); by split_and!.
Qed.

Lemma ex_values_rep : rep ex_heap_parent ex_values.
Proof.
  simpl. split_and!; try done;
    eexists; (split; [reflexivity|]); by split_and!.
Qed.

Lemma ex_root_tree_rep : rep ex_heap_parent ex_root_tree.
Proof.
  simpl. split_and!; try done;
    eexists; (split; [reflexivity|]); by split_and!.
Qed.

Lemma inorder_cursor_order_witness :
  cursor_all 4 2 ex_heap 16 0 (Some (ex_key 25)) 0
  = Some ([48], AVSTOR_NOTFOUND)
  /\ cursor_all 4 2 ex_heap 16 0 (Some (ex_key 20)) AVSTOR_DESCENDING
     = Some ([16; 32], AVSTOR_NOTFOUND)
  /\ cursor_all 4 2 ex_heap 16 0 None AVSTOR_DESCENDING
     = Some ([48; 16; 32], AVSTOR_NOTFOUND)
  /\ cursor_all 4 2 ex_heap_parent 80 0 None 0
     = Some ([80], AVSTOR_NOTFOUND)
  /\ cursor_all 4 2 ex_heap_parent 80 80 None 0
     = Some ([32; 16; 48], AVSTOR_NOTFOUND)
  /\ cursor_all 4 2 ex_heap_parent 80 80 (Some (ex_key 15)) AVSTOR_DESCENDING
     = Some ([32], AVSTOR_NOTFOUND)
  /\ cursor_all 4 2 ex_heap_parent 80 80 None AVSTOR_VALUES
     = Some ([64], AVSTOR_NOTFOUND).
Proof.
  assert (Hh : height ex_tree <= Z.of_nat AVSTOR_AVL_HEIGHT) by (by vm_compute).
  assert (Hf : height ex_tree <= Z.of_nat 2) by (by vm_compute).
  assert (Hn : (length (elems ex_tree) < 4)%nat) by (vm_compute; lia).
  assert (Hk : forall o (key : option avstor_key) k,
             key = Some (ex_key o) \/ key = None -> key = Some k ->
             key_len k <= MAX_KEY_LEN /\ key_sorted k (elems ex_tree)).
  { intros o key k [->| ->] Hk; [|done]. injection Hk as <-.
    split; [by vm_compute|apply ex_key_sorted]. }
  assert (Hsub : forall flags, is_value flags = false ->
             cursor_tree ex_heap_parent 80 80 flags (root_of ex_tree)).
  { intros flags Hv.
    exact (sub_keys ex_heap_parent 80 80 ex_parent flags ltac:(lia) eq_refl
             eq_refl Hv). }
  split_and!.
  - exact (inorder_cursor_order ex_heap ex_tree 16 0 (Some (ex_key 25)) 0 4 2
             ex_tree_rep Hh (root_keys ex_heap 16 0 eq_refl)
             (fun k => Hk 25 _ k (or_introl eq_refl)) Hf Hn).
  - exact (inorder_cursor_order ex_heap ex_tree 16 0 (Some (ex_key 20))
             AVSTOR_DESCENDING 4 2
             ex_tree_rep Hh (root_keys ex_heap 16 AVSTOR_DESCENDING eq_refl)
             (fun k => Hk 20 _ k (or_introl eq_refl)) Hf Hn).
  - exact (inorder_cursor_order ex_heap ex_tree 16 0 None
             AVSTOR_DESCENDING 4 2
             ex_tree_rep Hh (root_keys ex_heap 16 AVSTOR_DESCENDING eq_refl)
             (fun k => Hk 0 _ k (or_intror eq_refl)) Hf Hn).
  - exact (inorder_cursor_order ex_heap_parent ex_root_tree 80 0 None 0 4 2
             ex_root_tree_rep ltac:(by vm_compute)
             (root_keys ex_heap_parent 80 0 eq_refl)
             (fun k H => ltac:(discriminate H)) ltac:(by vm_compute)
             ltac:(vm_compute; lia)).
  - exact (inorder_cursor_order ex_heap_parent ex_tree 80 80 None 0 4 2
             ex_tree_parent_rep Hh (Hsub 0 eq_refl)
             (fun k => Hk 0 _ k (or_intror eq_refl)) Hf Hn).
  - exact (inorder_cursor_order ex_heap_parent ex_tree 80 80 (Some (ex_key 15))
             AVSTOR_DESCENDING 4 2
             ex_tree_parent_rep Hh (Hsub AVSTOR_DESCENDING eq_refl)
             (fun k => Hk 15 _ k (or_introl eq_refl)) Hf Hn).
  - exact (inorder_cursor_order ex_heap_parent ex_values 80 80 None
             AVSTOR_VALUES 4 2
             ex_values_rep ltac:(by vm_compute)
             (key_values ex_heap_parent 80 80 ex_parent AVSTOR_VALUES
                ltac:(lia) eq_refl eq_refl eq_refl)
             (fun k H => ltac:(discriminate H)) ltac:(by vm_compute)
             ltac:(vm_compute; lia)).
Defined.

End Inorder.

(** ** The public operations on keys and values *)

Module API.
Import AVL Inorder.

Definition AVSTOR_TYPE_KEY : Z := 0.
Definition AVSTOR_TYPE_INT32 : Z := 1.
Definition AVSTOR_TYPE_INT64 : Z := 2.
Definition AVSTOR_TYPE_DOUBLE : Z := 3.
Definition AVSTOR_TYPE_STRING : Z := 4.
Definition AVSTOR_TYPE_BINARY : Z := 5.
Definition AVSTOR_TYPE_LINK : Z := 8.

Definition SIZE_NODE_HDR : Z := 13.
Definition align_node (sz : Z) : Z := Z.land (sz + 3) 4294967292.

(** [NODE_CLASS[type].szdata]. *)
Definition szdata (type : Z) : Z :=
  match type with
  | 0 => 12
  | 1 => 4
  | 2 | 3 => 8
  | 4 | 5 => 1
  | 6 | 7 => 8
  | 8 => 4
  | _ => 0
  end.

Definition is_invalid_avstor_key (key : avstor_key) : bool :=
  MAX_KEY_LEN <? key_len key.

(** The nodes of the store with the two roots of the header page. *)
Record store : Type := mk_store {
  s_heap : heap;
  s_root : Z;
  s_root_links : Z
}.

(** The database as the operations see it: the nodes and the two roots
    that the cache and the live header show, and the two roots in the
    shadow header ([cache.old_header]). The operations of this layer leave
    the shadow header alone; a successful [avstor_commit] copies the
    header over it, and [rollback] copies it back. *)
Record avstor : Type := mk_db {
  db_cur : store;
  db_old_root : Z;
  db_old_root_links : Z
}.

Definition with_cur (s : store) (db : avstor) : avstor :=
  mk_db s (db_old_root db) (db_old_root_links db).

(** What a call leaves of the database, as far as the nodes tell:
    [Now db] when it returns with the nodes and roots of [db];
    [RolledBack root root_links] when the body has thrown and the catch
    block has run [rollback], with the two roots that the live header then
    holds. What [rollback] does to the frames of the cache is followed
    there ([Cache.rollback]); which nodes are read afterwards depends on
    the frames it leaves valid and on the file. *)
Inductive db_after : Type :=
| Now (db : avstor)
| RolledBack (root root_links : Z).

(** [rollback], for the header: [memcpy(cache->header, cache->old_header,
    PAGE_SIZE)]. *)
Definition rollback (db : avstor) : db_after :=
  RolledBack (db_old_root db) (db_old_root_links db).


Definition with_heap (h : heap) (s : store) : store :=
  mk_store h (s_root s) (s_root_links s).

Definition with_data (d : AvNodeData) (n : AvNode) : AvNode :=
  mk_node (n_bf n) (n_type n) (n_left n) (n_right n) (n_name n) d.

Definition set_data (o : Z) (d : AvNodeData) (h : heap) : heap :=
  alter (with_data d) o h.

Definition level_of (n : AvNode) : Z :=
  match n_data n with VKey _ _ l => l | _ => 0 end.

(** The places a [NodeRef *root] points to. *)
Inductive rootref : Type :=
| HdrRoot
| HdrRootLinks
| SubkeyRoot (o : Z)
| ValueRoot (o : Z).

Definition read_rootref (s : store) (r : rootref) : Z :=
  match r with
  | HdrRoot => s_root s
  | HdrRootLinks => s_root_links s
  | SubkeyRoot o => subkey_root_of (s_heap s !!! o)
  | ValueRoot o => value_root_of (s_heap s !!! o)
  end.

Definition with_subkey_root (v : Z) (n : AvNode) : AvNode :=
  with_data (VKey v (value_root_of n) (level_of n)) n.
Definition with_value_root (v : Z) (n : AvNode) : AvNode :=
  with_data (VKey (subkey_root_of n) v (level_of n)) n.

Definition write_rootref (r : rootref) (v : Z) (s : store) : store :=
  match r with
  | HdrRoot => mk_store (s_heap s) v (s_root_links s)
  | HdrRootLinks => mk_store (s_heap s) (s_root s) v
  | SubkeyRoot o => with_heap (alter (with_subkey_root v) o (s_heap s)) s
  | ValueRoot o => with_heap (alter (with_value_root v) o (s_heap s)) s
  end.

(** [if (out) avstor_node_set(out, ofs, db)]: [None] is a null pointer. *)
Definition set_out (out : option Z) (ofs : Z) : option Z :=
  match out with
  | Some _ => Some ofs
  | None => None
  end.

(** What a public operation leaves: the database, the code returned, and
    the node handle behind the out pointer. *)
Definition api_result : Type := db_after * avstor_err * option Z.

(** [TRY { body } CATCH_ANY { rollback(db); result = ex.err; }]. *)
Definition guarded (db : avstor) (out : option Z)
    (body : res (store * option Z)) : api_result :=
  match body with
  | Ok (s, out') => (Now (with_cur s db), AVSTOR_OK, out')
  | Throw e => (rollback db, e, out)
  end.

(** [strlen_l]: [str] holds the bytes before the terminating NUL. *)
Fixpoint strlen_l (str : list Z) (szbuf : nat) : Z :=
  match szbuf, str with
  | S n, c :: rest => if c =? 0 then 0 else 1 + strlen_l rest n
  | _, _ => 0
  end.

(** The first [n] bytes at a C string. *)
Definition c_bytes (str : list Z) (n : Z) : list Z :=
  take (Z.to_nat n) (str ++ [0]).

(** [find_key]: the loop has no bound of its own; [None] says that [fuel]
    ran out. *)
Fixpoint find_key (fuel : nat) (h : heap) (key : avstor_key) (ref : Z)
    : option (res Z) :=
  if ref =? 0 then Some (Ok 0)
  else
    match fuel with
    | O => None
    | S fuel' =>
        match lock_node h ref with
        | Throw e => Some (Throw e)
        | Ok cur =>
            let comp := key_comparer key (key_buf key) (n_name cur) in
            if comp =? 0 then Some (Ok ref)
            else find_key fuel' h key (if comp <? 0 then n_left cur else n_right cur)
        end
    end.

Definition bytes_of_off (o : Z) : list Z :=
  [o mod 256; (o / 256) mod 256; (o / 65536) mod 256; (o / 16777216) mod 256].

(** The key of the back-link tree for the node at [o]. *)
Definition link_key (o : Z) : avstor_key :=
  mk_key (bytes_of_off o) 4 offset_comparer.

Definition init_data (type : Z) : AvNodeData :=
  match type with
  | 0 => VKey 0 0 0
  | 1 => V32 0
  | 2 | 3 => V64 0
  | 4 | 5 => VVar 0 []
  | 8 => VLink 0
  | _ => V32 0
  end.

Section WithAllocator.

(** [alloc_node] finds room for a node of the given size in a page of the
    given pool and returns the offset of the node, or throws. *)
Variable alloc_node : store -> Z -> Z -> res Z.

Definition create_node (s : store) (key : avstor_key) (szvalue type level : Z)
    : res (Z * store) :=
  let data_ofs := align_node (SIZE_NODE_HDR + key_len key) in
  let node_size := align_node (data_ofs + szdata type + szvalue) in
  let page_pool := (if 127 <? level then 254 else Z.shiftl level 1)
                   + (if type =? AVSTOR_TYPE_KEY then 0 else 1) in
  ofs ← alloc_node s node_size page_pool;
  Ok (ofs,
      with_heap (<[ofs := mk_node 0 type 0 0
                            (take (Z.to_nat (key_len key)) (key_buf key))
                            (init_data type)]> (s_heap s)) s).

(** [insert_node] with the root reference of the back-trace. *)
Definition insert_at (s : store) (r : rootref) (item : Z) (st : AvStack)
    : res store :=
  '(h, root) ← insert_node (s_heap s) (read_rootref s r) item st;
  Ok (write_rootref r root (with_heap h s)).

(** [delete_node]: [remove_node], then [free_node]. *)
Definition delete_node (s : store) (r : rootref) (node : Z) (st : AvStack)
    : res store :=
  '(h, root) ← remove_node (s_heap s) (read_rootref s r) node st;
  Ok (write_rootref r root (with_heap (delete node h) s)).

Definition find_at (s : store) (key : avstor_key) (r : rootref)
    : res (Z * AvStack) :=
  find_node_with_backtrace (s_heap s) key (read_rootref s r).

(** The tree of a parent for keys ([AVSTOR_KEYS]) or values. *)
Definition parent_rootref (s : store) (parent : Z) (isvalue : bool)
    : res rootref :=
  if parent =? 0 then
    if isvalue then Throw AVSTOR_PARAM else Ok HdrRoot
  else
    _ ← lock_keyref (s_heap s) parent;
    Ok (if isvalue then ValueRoot parent else SubkeyRoot parent).

Definition avstor_create_key (db : avstor) (parent : Z) (key : avstor_key)
    (out_key : option Z) : api_result :=
  if is_invalid_avstor_key key then (Now db, AVSTOR_PARAM, out_key)
  else
    let s := db_cur db in
    match
      '(r, level) ← (if parent =? 0 then Ok (HdrRoot, 1)
                     else n ← lock_keyref (s_heap s) parent;
                          Ok (SubkeyRoot parent, level_of n + 1));
      '(node, st) ← find_at s key r;
      Ok (r, level, node, st)
    with
    | Throw e => (rollback db, e, out_key)
    | Ok (r, level, node, st) =>
        if negb (node =? 0) then
          (rollback db, AVSTOR_EXISTS, set_out out_key node)
        else
          guarded db out_key
            ('(node, s) ← create_node s key 0 AVSTOR_TYPE_KEY level;
             let s := with_heap (set_data node (VKey 0 0 (u16 level)) (s_heap s)) s in
             s ← insert_at s r node st;
             Ok (s, set_out out_key node))
    end.

(** The common shape of the operations that create a value: [data] is
    what the operation stores in the new node. *)
Definition create_value (db : avstor) (parent : Z) (key : avstor_key)
    (szvalue type : Z) (data : AvNodeData) (out_value : option Z)
    : api_result :=
  if is_invalid_avstor_key key then (Now db, AVSTOR_PARAM, out_value)
  else
    let s := db_cur db in
    guarded db out_value
      (pn ← lock_keyref (s_heap s) parent;
       '(fnode, st) ← find_at s key (ValueRoot parent);
       if negb (fnode =? 0) then Throw AVSTOR_EXISTS
       else
         '(node, s) ← create_node s key szvalue type (level_of pn);
         let s := with_heap (set_data node data (s_heap s)) s in
         s ← insert_at s (ValueRoot parent) node st;
         Ok (s, set_out out_value node)).

Definition create_var_value (db : avstor) (parent : Z) (key : avstor_key)
    (value : list Z) (valuesz type : Z) (out_value : option Z) : api_result :=
  create_value db parent key valuesz type
    (VVar (u8 valuesz) (take (Z.to_nat valuesz) value)) out_value.

Definition avstor_create_string (db : avstor) (parent : Z) (key : avstor_key)
    (value : list Z) (out_value : option Z) : api_result :=
  let len := strlen_l value (Z.to_nat (MAX_STRING_LEN + 1)) + 1 in
  if len =? MAX_STRING_LEN + 1 then (Now db, AVSTOR_PARAM, out_value)
  else create_var_value db parent key (value ++ [0]) len AVSTOR_TYPE_STRING out_value.

Definition avstor_create_binary (db : avstor) (parent : Z) (key : avstor_key)
    (value : list Z) (szvalue : Z) (out_value : option Z) : api_result :=
  if MAX_BINARY_LEN <? szvalue then (Now db, AVSTOR_PARAM, out_value)
  else create_var_value db parent key value szvalue AVSTOR_TYPE_BINARY out_value.

Definition avstor_create_int32 (db : avstor) (parent : Z) (key : avstor_key)
    (value : Z) (out_value : option Z) : api_result :=
  create_value db parent key 0 AVSTOR_TYPE_INT32 (V32 value) out_value.

Definition create_fixed64_value (db : avstor) (parent : Z) (key : avstor_key)
    (value type : Z) (out_value : option Z) : api_result :=
  create_value db parent key 0 type (V64 value) out_value.

Definition avstor_create_int64 (db : avstor) (parent : Z) (key : avstor_key)
    (value : Z) (out_value : option Z) : api_result :=
  create_fixed64_value db parent key value AVSTOR_TYPE_INT64 out_value.

(** The double is passed as the 64 bits of its representation. *)
Definition avstor_create_double (db : avstor) (parent : Z) (key : avstor_key)
    (value : Z) (out_value : option Z) : api_result :=
  create_fixed64_value db parent key value AVSTOR_TYPE_DOUBLE out_value.

Definition create_backlink (s : store) (link target : Z) : res store :=
  '(node, st) ← find_at s (link_key target) HdrRootLinks;
  '(node, s) ← (if node =? 0 then
                  '(node, s) ← create_node s (link_key target) 0 AVSTOR_TYPE_KEY 0;
                  let s := with_heap (set_data node (VKey 0 0 0) (s_heap s)) s in
                  s ← insert_at s HdrRootLinks node st;
                  Ok (node, s)
                else Ok (node, s));
  '(link_node, st) ← find_at s (link_key link) (ValueRoot node);
  if negb (link_node =? 0) then Throw AVSTOR_INTERNAL
  else
    '(link_node, s) ← create_node s (link_key link) 0 AVSTOR_TYPE_LINK 0;
    let s := with_heap (set_data link_node (VLink link) (s_heap s)) s in
    insert_at s (ValueRoot node) link_node st.

Definition avstor_create_link (db : avstor) (parent : Z) (key : avstor_key)
    (target : Z) (out_value : option Z) : api_result :=
  if is_invalid_avstor_key key || (target =? 0) then (Now db, AVSTOR_PARAM, out_value)
  else
    let s := db_cur db in
    guarded db out_value
      (pn ← lock_keyref (s_heap s) parent;
       '(fnode, st) ← find_at s key (ValueRoot parent);
       if negb (fnode =? 0) then Throw AVSTOR_EXISTS
       else
         '(node, s) ← create_node s key 0 AVSTOR_TYPE_LINK (level_of pn);
         let s := with_heap (set_data node (VLink target) (s_heap s)) s in
         s ← insert_at s (ValueRoot parent) node st;
         s ← create_backlink s node target;
         Ok (s, set_out out_value node)).

(** [avstor_find] takes no exclusive lock and does not roll back. *)
Definition avstor_find (fuel : nat) (db : avstor) (parent : Z)
    (key : avstor_key) (flags : Z) (out_key : option Z) : option api_result :=
  if is_invalid_avstor_key key || (is_value flags && (parent =? 0))
  then Some (Now db, AVSTOR_PARAM, out_key)
  else
    let s := db_cur db in
    match parent_rootref s parent (is_value flags) with
    | Throw e => Some (Now db, e, out_key)
    | Ok r =>
        match find_key fuel (s_heap s) key (read_rootref s r) with
        | None => None
        | Some (Throw e) => Some (Now db, e, out_key)
        | Some (Ok node) =>
            if negb (node =? 0) then Some (Now db, AVSTOR_OK, set_out out_key node)
            else Some (Now db, AVSTOR_NOTFOUND, out_key)
        end
    end.

Definition exists_link_to_node (fuel : nat) (s : store) (target : Z)
    : option (res bool) :=
  match find_key fuel (s_heap s) (link_key target) (s_root_links s) with
  | None => None
  | Some (Throw e) => Some (Throw e)
  | Some (Ok link_node) => Some (Ok (negb (link_node =? 0)))
  end.

Definition link_of (n : AvNode) : Z :=
  match n_data n with VLink l => l | _ => 0 end.

Definition delete_backlink (s : store) (node : Z) : res store :=
  let link_ofs := link_of (s_heap s !!! node) in
  '(link_node, st) ← find_at s (link_key link_ofs) HdrRootLinks;
  if link_node =? 0 then Ok s
  else
    '(link_value, st_link) ← find_at s (link_key node) (ValueRoot link_node);
    s ← (if negb (link_value =? 0)
         then delete_node s (ValueRoot link_node) link_value st_link
         else Ok s);
    if read_rootref s (ValueRoot link_node) =? 0
    then delete_node s HdrRootLinks link_node st
    else Ok s.

Definition avstor_delete (fuel : nat) (db : avstor) (parent : Z) (flags : Z)
    (key : avstor_key) : option (db_after * avstor_err) :=
  if is_invalid_avstor_key key || (is_value flags && (parent =? 0))
  then Some (Now db, AVSTOR_PARAM)
  else
    let s := db_cur db in
    match
      (r ← parent_rootref s parent (is_value flags);
       '(node, st) ← find_at s key r;
       Ok (r, node, st))
    with
    | Throw e => Some (rollback db, e)
    | Ok (r, node, st) =>
        if node =? 0 then Some (Now db, AVSTOR_NOTFOUND)
        else
          let n := s_heap s !!! node in
          if (n_type n =? AVSTOR_TYPE_KEY)
             && (negb (subkey_root_of n =? 0) || negb (value_root_of n =? 0))
          then Some (rollback db, AVSTOR_INVOPER)
          else
            match exists_link_to_node fuel s node with
            | None => None
            | Some (Throw e) => Some (rollback db, e)
            | Some (Ok true) => Some (rollback db, AVSTOR_INVOPER)
            | Some (Ok false) =>
                match
                  (s ← (if n_type n =? AVSTOR_TYPE_LINK
                        then delete_backlink s node else Ok s);
                   delete_node s r node st)
                with
                | Throw e => Some (rollback db, e)
                | Ok s => Some (Now (with_cur s db), AVSTOR_OK)
                end
            end
    end.

End WithAllocator.

(** *** Examples *)

(** An allocator that always hands out the same offset. *)
Definition ex_alloc (ofs : Z) : store -> Z -> Z -> res Z := fun _ _ _ => Ok ofs.

Definition empty_db : avstor :=
  mk_db (mk_store ∅ 0 0) 0 0.

(** A key at the root with one sub-key and one value; the shadow header
    is that of an empty store. *)
Definition ex_store : store :=
  mk_store
    (<[4112 := mk_node 0 AVSTOR_TYPE_KEY 0 0 [1; 0; 0; 0] (VKey 4144 4128 1)]>
    (<[4128 := mk_node 0 AVSTOR_TYPE_INT32 0 0 [2; 0; 0; 0] (V32 7)]>
    (<[4144 := mk_node 0 AVSTOR_TYPE_KEY 0 0 [2; 0; 0; 0] (VKey 0 0 2)]> ∅)))
    4112 0.

Definition ex_db : avstor := mk_db ex_store 0 0.

Definition name_key (o : Z) : avstor_key := mk_key [o; 0; 0; 0] 4 offset_comparer.

(** *** The key length check *)

Lemma invalid_key_iff key :
  is_invalid_avstor_key key = true <-> MAX_KEY_LEN < key_len key.
Proof. unfold is_invalid_avstor_key. apply Z.ltb_lt. Qed.

Lemma create_value_invalid_key alloc db parent key sz type data out :
  is_invalid_avstor_key key = true ->
  create_value alloc db parent key sz type data out = (Now db, AVSTOR_PARAM, out).
Proof. intros Hk. unfold create_value. by rewrite Hk. Qed.

(** [avstor_create_key] on an empty root tree, for a key that passes the
    check. *)
Lemma create_key_first alloc db key ofs old :
  is_invalid_avstor_key key = false ->
  s_root (db_cur db) = 0 ->
  (forall s size pool, alloc s size pool = Ok ofs) ->
  avstor_create_key alloc db 0 key (Some old)
  = (Now (with_cur
            (mk_store
               (set_bf ofs 0
                  (set_data ofs (VKey 0 0 1)
                     (<[ofs := mk_node 0 AVSTOR_TYPE_KEY 0 0
                                 (take (Z.to_nat (key_len key)) (key_buf key))
                                 (VKey 0 0 0)]> (s_heap (db_cur db)))))
               ofs (s_root_links (db_cur db)))
            db),
     AVSTOR_OK, Some ofs).
Proof.
  intros Hk Hroot Halloc. unfold avstor_create_key. rewrite Hk.
  cbn [Z.eqb mbind res_bind]. unfold find_at. cbn [read_rootref].
  rewrite Hroot. cbn [find_node_with_backtrace Z.eqb negb mbind res_bind].
  unfold guarded, create_node. rewrite Halloc. cbn [mbind res_bind].
  unfold insert_at. cbn [read_rootref with_heap s_root s_heap s_root_links].
  rewrite Hroot. done.
Qed.

(** A key of length zero passes the check: [avstor_create_key] creates
    the node. *)
Lemma zero_length_key_accepted :
  exists db',
    avstor_create_key (ex_alloc 4112) empty_db 0 (mk_key [] 0 offset_comparer)
      (Some 0)
    = (Now db', AVSTOR_OK, Some 4112)
    /\ n_name <$> (s_heap (db_cur db') !! 4112) = Some [].
Proof. eexists. split; reflexivity. Qed.

(** C6 (as the code has it). Every operation that takes a key returns
    [AVSTOR_PARAM], with the database and the out handle as they were, for a
    key longer than 240 bytes. A key of any length up to 240, zero
    included, passes the check: on an empty root tree, with room for the
    node, [avstor_create_key] returns [AVSTOR_OK] and the node carries the
    [key_len] bytes of the name. *)
Theorem key_length_check alloc (db : avstor) (parent : Z) (key : avstor_key) :
  (MAX_KEY_LEN < key_len key ->
     (forall out, avstor_create_key alloc db parent key out
                  = (Now db, AVSTOR_PARAM, out))
     /\ (forall value out, avstor_create_string alloc db parent key value out
                           = (Now db, AVSTOR_PARAM, out))
     /\ (forall value sz out, avstor_create_binary alloc db parent key value sz out
                              = (Now db, AVSTOR_PARAM, out))
     /\ (forall v out, avstor_create_int32 alloc db parent key v out
                       = (Now db, AVSTOR_PARAM, out))
     /\ (forall v out, avstor_create_int64 alloc db parent key v out
                       = (Now db, AVSTOR_PARAM, out))
     /\ (forall v out, avstor_create_double alloc db parent key v out
                       = (Now db, AVSTOR_PARAM, out))
     /\ (forall target out, avstor_create_link alloc db parent key target out
                            = (Now db, AVSTOR_PARAM, out))
     /\ (forall fuel flags out, avstor_find fuel db parent key flags out
                                = Some (Now db, AVSTOR_PARAM, out))
     /\ (forall fuel flags, avstor_delete fuel db parent flags key
                            = Some (Now db, AVSTOR_PARAM))
     /\ (forall fuel hdr_root st flags out,
           avstor_inorder_first fuel (s_heap (db_cur db)) hdr_root st parent
             (Some key) flags out
           = Some (st, AVSTOR_PARAM, out)))
  /\ (key_len key <= MAX_KEY_LEN ->
      s_root (db_cur db) = 0 ->
      forall ofs old,
        (forall s size pool, alloc s size pool = Ok ofs) ->
        exists db',
          avstor_create_key alloc db 0 key (Some old) = (Now db', AVSTOR_OK, Some ofs)
          /\ n_name <$> (s_heap (db_cur db') !! ofs)
             = Some (take (Z.to_nat (key_len key)) (key_buf key))).
Proof.
  split.
  - intros Hlen. apply invalid_key_iff in Hlen as Hk.
    split_and!; intros.
    + unfold avstor_create_key. by rewrite Hk.
    + unfold avstor_create_string. case_match; [done|].
      by apply create_value_invalid_key.
    + unfold avstor_create_binary. case_match; [done|].
      by apply create_value_invalid_key.
    + by apply create_value_invalid_key.
    + by apply create_value_invalid_key.
    + by apply create_value_invalid_key.
    + unfold avstor_create_link. by rewrite Hk.
    + unfold avstor_find. by rewrite Hk.
    + unfold avstor_delete. by rewrite Hk.
    + unfold avstor_inorder_first.
      unfold is_invalid_avstor_key in Hk. by rewrite Hk.
  - intros Hlen Hroot ofs old Halloc.
    assert (Hk : is_invalid_avstor_key key = false).
    { unfold is_invalid_avstor_key. lia. }
    eexists. split; [by apply create_key_first|].
    cbn [db_cur with_cur s_heap]. unfold set_bf, set_data.
    by rewrite !lookup_alter_eq, lookup_insert_eq.
Qed.

Lemma key_length_check_witness :
  avstor_create_key (ex_alloc 4112) empty_db 0
    (mk_key (repeat 65 241) 241 offset_comparer) (Some 0)
  = (Now empty_db, AVSTOR_PARAM, Some 0)
  /\ exists db',
      avstor_create_key (ex_alloc 4112) empty_db 0
        (mk_key (repeat 65 240) 240 offset_comparer) (Some 0)
      = (Now db', AVSTOR_OK, Some 4112)
      /\ n_name <$> (s_heap (db_cur db') !! 4112) = Some (repeat 65 240).
Proof.
  split.
  - destruct (key_length_check (ex_alloc 4112) empty_db 0
                (mk_key (repeat 65 241) 241 offset_comparer)) as (H & _).
    apply H. by vm_compute.
  - destruct (key_length_check (ex_alloc 4112) empty_db 0
                (mk_key (repeat 65 240) 240 offset_comparer)) as (_ & H).
    apply (H ltac:(by vm_compute) eq_refl 4112 0). done.
Defined.

(** *** The out handle when the name exists *)

Lemma lock_keyref_nonzero h parent pn : lock_keyref h parent = Ok pn -> parent <> 0.
Proof. unfold lock_keyref. destruct (Z.eqb_spec parent 0); [done|]. done. Qed.

Lemma create_value_exists alloc db parent key sz type data out pn node st :
  is_invalid_avstor_key key = false ->
  lock_keyref (s_heap (db_cur db)) parent = Ok pn ->
  find_at (db_cur db) key (ValueRoot parent) = Ok (node, st) -> node <> 0 ->
  create_value alloc db parent key sz type data out
  = (rollback db, AVSTOR_EXISTS, out).
Proof.
  intros Hk Hp Hf Hn. unfold create_value. rewrite Hk, Hp.
  cbn [mbind res_bind]. rewrite Hf. cbn [mbind res_bind].
  by replace (node =? 0) with false by lia.
Qed.

(** C10. When the name exists already, [avstor_create_key] returns
    [AVSTOR_EXISTS] and the handle behind a non-null [out_key] holds the
    offset of the existing node, under a parent key as well as at the root;
    [avstor_create_int32] and the other operations that create a value
    return [AVSTOR_EXISTS] and leave the handle behind [out_value] as it
    was. *)
Theorem create_exists_out alloc (db : avstor) (parent : Z) (key : avstor_key)
    (pn : AvNode) (old : Z) :
  is_invalid_avstor_key key = false ->
  lock_keyref (s_heap (db_cur db)) parent = Ok pn ->
  (forall node st,
     find_at (db_cur db) key (SubkeyRoot parent) = Ok (node, st) -> node <> 0 ->
     avstor_create_key alloc db parent key (Some old)
     = (rollback db, AVSTOR_EXISTS, Some node))
  /\ (forall node st,
        find_at (db_cur db) key HdrRoot = Ok (node, st) -> node <> 0 ->
        avstor_create_key alloc db 0 key (Some old)
        = (rollback db, AVSTOR_EXISTS, Some node))
  /\ (forall node st,
        find_at (db_cur db) key (ValueRoot parent) = Ok (node, st) -> node <> 0 ->
        (forall v, avstor_create_int32 alloc db parent key v (Some old)
                   = (rollback db, AVSTOR_EXISTS, Some old))
        /\ (forall v, avstor_create_int64 alloc db parent key v (Some old)
                      = (rollback db, AVSTOR_EXISTS, Some old))
        /\ (forall v, avstor_create_double alloc db parent key v (Some old)
                      = (rollback db, AVSTOR_EXISTS, Some old))
        /\ (forall value,
              strlen_l value (Z.to_nat (MAX_STRING_LEN + 1)) + 1
                <> MAX_STRING_LEN + 1 ->
              avstor_create_string alloc db parent key value (Some old)
              = (rollback db, AVSTOR_EXISTS, Some old))
        /\ (forall value sz,
              sz <= MAX_BINARY_LEN ->
              avstor_create_binary alloc db parent key value sz (Some old)
              = (rollback db, AVSTOR_EXISTS, Some old))
        /\ (forall target,
              target <> 0 ->
              avstor_create_link alloc db parent key target (Some old)
              = (rollback db, AVSTOR_EXISTS, Some old))).
Proof.
  intros Hk Hp.
  pose proof (lock_keyref_nonzero _ _ _ Hp) as Hp0.
  split_and!.
  - intros knode kst Hkf Hkn. unfold avstor_create_key. rewrite Hk.
    replace (parent =? 0) with false by lia. rewrite Hp.
    cbn [mbind res_bind]. rewrite Hkf. cbn [mbind res_bind].
    by replace (knode =? 0) with false by lia.
  - intros rnode rst Hrf Hrn.
    unfold avstor_create_key. rewrite Hk. cbn [Z.eqb mbind res_bind].
    rewrite Hrf. cbn [mbind res_bind].
    by replace (rnode =? 0) with false by lia.
  - intros vnode vst Hvf Hvn. split_and!.
    + intros v. by eapply create_value_exists.
    + intros v. by eapply create_value_exists.
    + intros v. by eapply create_value_exists.
    + intros value Hlen. unfold avstor_create_string.
      destruct (Z.eqb_spec (strlen_l value (Z.to_nat (MAX_STRING_LEN + 1)) + 1)
                  (MAX_STRING_LEN + 1)); [done|].
      by eapply create_value_exists.
    + intros value sz Hsz. unfold avstor_create_binary.
      replace (MAX_BINARY_LEN <? sz) with false by lia.
      by eapply create_value_exists.
    + intros target Ht. unfold avstor_create_link. rewrite Hk.
      replace (target =? 0) with false by lia. cbn [orb].
      unfold guarded. rewrite Hp. cbn [mbind res_bind]. rewrite Hvf.
      cbn [mbind res_bind]. by replace (vnode =? 0) with false by lia.
Qed.

(** A store in which the name [2] exists at the root, as a sub-key of
    the root key and as a value of it. *)
Definition ex_store2 : store :=
  mk_store
    (<[4112 := mk_node 0 AVSTOR_TYPE_KEY 0 0 [2; 0; 0; 0] (VKey 4144 4128 1)]>
    (<[4128 := mk_node 0 AVSTOR_TYPE_INT32 0 0 [2; 0; 0; 0] (V32 7)]>
    (<[4144 := mk_node 0 AVSTOR_TYPE_KEY 0 0 [2; 0; 0; 0] (VKey 0 0 2)]> ∅)))
    4112 0.

Definition ex_db2 : avstor := mk_db ex_store2 0 0.

Lemma create_exists_out_witness :
  avstor_create_key (ex_alloc 4160) ex_db2 4112 (name_key 2) (Some 0)
  = (rollback ex_db2, AVSTOR_EXISTS, Some 4144)
  /\ avstor_create_key (ex_alloc 4160) ex_db2 0 (name_key 2) (Some 0)
     = (rollback ex_db2, AVSTOR_EXISTS, Some 4112)
  /\ avstor_create_int32 (ex_alloc 4160) ex_db2 4112 (name_key 2) 5 (Some 0)
     = (rollback ex_db2, AVSTOR_EXISTS, Some 0).
Proof.
  destruct (create_exists_out (ex_alloc 4160) ex_db2 4112 (name_key 2)
              (mk_node 0 AVSTOR_TYPE_KEY 0 0 [2; 0; 0; 0] (VKey 4144 4128 1))
              0 eq_refl eq_refl)
    as (H1 & H2 & H3).
  split_and!.
  - apply (H1 4144 []); [reflexivity|lia].
  - apply (H2 4112 []); [reflexivity|lia].
  - destruct (H3 4128 []) as (H & _); [reflexivity|lia|]. exact (H 5).
Defined.

(** *** The length check on strings *)

Lemma strlen_l_nonzero value : forall n,
  Forall (fun c => c <> 0) value ->
  strlen_l value n = Z.min (Z.of_nat (length value)) (Z.of_nat n).
Proof.
  induction value as [|c value IH]; intros n Hnz.
  - destruct n; simpl; lia.
  - apply Forall_cons in Hnz as (Hc & Hnz). destruct n as [|n]; [simpl; lia|].
    cbn [strlen_l]. replace (c =? 0) with false by lia.
    rewrite (IH n Hnz). cbn [length]. lia.
Qed.

(** C7 (what the code does). For a string of [n] bytes before its
    terminating NUL, [avstor_create_string] stores the [n + 1] bytes when
    [n <= 249] and returns [AVSTOR_PARAM] when [n = 250]; but for
    [n >= 251] the bounded [strlen_l] yields 251, the length 252 is not the
    251 the check compares with, and the first 252 bytes go into the store as
    a string of length 252. *)
Theorem create_string_length_check alloc (db : avstor) (parent : Z)
    (key : avstor_key) (value : list Z) (out : option Z) :
  Forall (fun c => c <> 0) value ->
  (Z.of_nat (length value) <= 249 ->
     avstor_create_string alloc db parent key value out
     = create_var_value alloc db parent key (value ++ [0])
         (Z.of_nat (length value) + 1) AVSTOR_TYPE_STRING out)
  /\ (Z.of_nat (length value) = 250 ->
        avstor_create_string alloc db parent key value out
        = (Now db, AVSTOR_PARAM, out))
  /\ (251 <= Z.of_nat (length value) ->
        avstor_create_string alloc db parent key value out
        = create_var_value alloc db parent key (value ++ [0]) 252
            AVSTOR_TYPE_STRING out).
Proof.
  intros Hnz. unfold avstor_create_string.
  rewrite (strlen_l_nonzero value _ Hnz).
  change (Z.of_nat (Z.to_nat (MAX_STRING_LEN + 1))) with 251.
  change (MAX_STRING_LEN + 1) with 251.
  split_and!; intros Hn.
  - rewrite Z.min_l by lia.
    by replace (Z.of_nat (length value) + 1 =? 251) with false by lia.
  - rewrite Z.min_l by lia.
    by replace (Z.of_nat (length value) + 1 =? 251) with true by lia.
  - rewrite Z.min_r by lia. done.
Qed.

(** 251 letters: one byte more than a stored string may have with its
    terminating NUL. *)
Definition long_string : list Z := repeat 65 251.

Lemma create_string_length_check_witness :
  exists db',
    avstor_create_string (ex_alloc 4160) ex_db 4112 (name_key 9) long_string
      (Some 0)
    = (Now db', AVSTOR_OK, Some 4160)
    /\ n_data <$> (s_heap (db_cur db') !! 4160)
       = Some (VVar 252 (long_string ++ [0])).
Proof.
  assert (Hnz : Forall (fun c => c <> 0) long_string).
  { apply Forall_forall. intros c Hc. apply list_elem_of_In, repeat_spec in Hc.
    lia. }
  destruct (create_string_length_check (ex_alloc 4160) ex_db 4112 (name_key 9)
              long_string (Some 0) Hnz) as (_ & _ & H).
  rewrite H by (by vm_compute).
  eexists. split; reflexivity.
Defined.

End API.

(** ** Deleting nodes *)

Module Delete.
Import AVL AVLRep Inorder API.

(** The first node of an in-order sequence whose name equals the key, or
    0. *)
Fixpoint find_name (key : avstor_key) (l : list (Z * list Z)) : Z :=
  match l with
  | [] => 0
  | e :: l' => if cmpk key e.2 =? 0 then e.1 else find_name key l'
  end.

Lemma find_name_app_none key l1 l2 :
  Forall (fun e => cmpk key e.2 <> 0) l1 ->
  find_name key (l1 ++ l2) = find_name key l2.
Proof.
  induction 1 as [|e l1 He _ IH]; simpl; [done|].
  by replace (cmpk key e.2 =? 0) with false by lia.
Qed.

Lemma find_name_none key l :
  Forall (fun e => cmpk key e.2 <> 0) l -> find_name key l = 0.
Proof.
  intros H. rewrite <- (app_nil_r l). by rewrite find_name_app_none.
Qed.

Lemma find_name_app_l key l1 l2 :
  Forall (fun e => cmpk key e.2 <> 0) l2 ->
  find_name key (l1 ++ l2) = find_name key l1.
Proof.
  intros H. induction l1 as [|e l1 IH]; simpl; [by apply find_name_none|].
  by rewrite IH.
Qed.

Lemma key_sorted_after key l1 e l2 :
  key_sorted key (l1 ++ e :: l2) -> cmpk key e.2 <= 0 ->
  Forall (fun e' => cmpk key e'.2 <> 0) l2.
Proof.
  intros Hs Hc. apply dsorted_app in Hs as (_ & (He & _)).
  specialize (He Hc). eapply Forall_impl; [exact He|].
  intros e' He'. unfold dcomp in He'. simpl in *. lia.
Qed.

Lemma key_sorted_before key l1 e l2 :
  key_sorted key (l1 ++ e :: l2) -> 0 <= cmpk key e.2 ->
  Forall (fun e' => cmpk key e'.2 <> 0) l1.
Proof.
  intros Hs Hc. pose proof (dsorted_before false key l1 e l2 Hs Hc) as H.
  eapply Forall_impl; [exact H|]. intros e' He'. unfold dcomp in He'.
  simpl in *. lia.
Qed.

(** [find_key] finds the node of the name when the tree is sorted as the
    key sees it. *)
Lemma find_key_spec key h : forall t fuel,
  rep h t -> height t <= Z.of_nat fuel -> key_sorted key (elems t) ->
  find_key fuel h key (root_of t) = Some (Ok (find_name key (elems t))).
Proof.
  induction t as [|l IHl o b k r IHr]; intros fuel Hrep Hfuel Hs.
  - by destruct fuel.
  - destruct Hrep as (Ho & (n & Hn & Hb & Hl & Hr & Hk) & Hrl & Hrr).
    pose proof (height_nonneg l) as Hhl. pose proof (height_nonneg r) as Hhr.
    simpl in Hfuel. destruct fuel as [|fuel]; [lia|].
    simpl root_of. cbn [find_key]. replace (o =? 0) with false by lia.
    rewrite (lock_node_Some _ _ _ Hn), Hk.
    change (key_comparer key (key_buf key) k) with (cmpk key k).
    simpl elems in *.
    pose proof (dsorted_app _ _ _ _ Hs) as (Hsl & (_ & Hsr)).
    destruct (Z.eqb_spec (cmpk key k) 0) as [Heq|Hne].
    + rewrite find_name_app_none.
      * simpl. by replace (cmpk key k =? 0) with true by lia.
      * apply (key_sorted_before key _ (o, k) (elems r)); [done|simpl; lia].
    + destruct (Z.ltb_spec (cmpk key k) 0) as [Hlt|Hge].
      * rewrite Hl, (IHl fuel) by (done || lia).
        rewrite (find_name_app_l key (elems l) ((o, k) :: elems r)); [done|].
        constructor; [done|].
        apply (key_sorted_after key (elems l) (o, k)); [done|simpl; lia].
      * rewrite Hr, (IHr fuel) by (done || lia).
        rewrite find_name_app_none.
        -- simpl. by replace (cmpk key k =? 0) with false by lia.
        -- apply (key_sorted_before key _ (o, k) (elems r)); [done|simpl; lia].
Qed.

(** *** Frames *)



Lemma offsets_nonzero h t o : rep h t -> o ∈ offsets t -> o <> 0.
Proof.
  induction t as [|l IHl o' b k r IHr]; [by intros _ ?%elem_of_nil|].
  intros (Ho & _ & Hrl & Hrr).
  rewrite offsets_node, elem_of_app, elem_of_cons. intros [?|[->|?]]; eauto.
Qed.





Lemma value_root_of_with_value_root v n : value_root_of (with_value_root v n) = v.
Proof. done. Qed.

(** *** [delete_backlink] *)



(** *** [avstor_delete] *)


End Delete.

(** ** The page cache: commit and rollback *)

Module Cache.
Import Checksum.

Definition is_page_dirty (page : AvPage) : bool :=
  negb (Z.land (page OFS_status) PAGE_DIRTY =? 0).

Definition set_page_dirty (page : AvPage) : AvPage :=
  store_u8 OFS_status (Z.lor (page OFS_status) PAGE_DIRTY) page.

Definition set_page_clean (page : AvPage) : AvPage :=
  store_u8 OFS_status (Z.land (page OFS_status) (Z.lnot PAGE_DIRTY)) page.

(** A [CacheItem]; [ci_page] is [None] for a null frame pointer. *)
Record CacheItem : Type := mk_item {
  ci_page : option AvPage;
  ci_offset : Z;
  ci_load_time : Z
}.

(** The [PageCache]: the items of each row, and the two header frames. *)
Record PageCache : Type := mk_cache {
  rows : list (list CacheItem);
  header : AvPage;
  old_header : AvPage
}.

(** What happens at the file: [io_write] of a frame at an offset with the
    number of bytes it reports, and [io_commit] with its result. *)
Inductive io_event : Type :=
| EvWrite (offset : Z) (bytes : list Z) (written : Z)
| EvSync (ok : bool).

(** The file system as the calls meet it: the number of bytes [io_write]
    writes at each offset, and whether [io_commit] succeeds. *)
Record io_env : Type := mk_env {
  env_write : Z -> Z;
  env_sync : bool
}.

Record avstor : Type := mk_db {
  cache : PageCache;
  io_log : list io_event
}.

Definition write_page (env : io_env) (log : list io_event) (page : AvPage)
    : AvPage * list io_event * avstor_err :=
  if is_page_dirty page then
    let page := set_page_clean page in
    let page := update_page_checksum page in
    let ofs := load_u32 page OFS_page_offset in
    let res := env_write env ofs in
    let log := log ++ [EvWrite ofs (page_bytes page) res] in
    if res <? PAGE_SIZE then (set_page_dirty page, log, AVSTOR_IOERR)
    else (page, log, AVSTOR_OK)
  else (page, log, AVSTOR_OK).

Definition with_page (page : AvPage) (it : CacheItem) : CacheItem :=
  mk_item (Some page) (ci_offset it) (ci_load_time it).

(** The loop over the items of a row: it stops at the first null frame,
    and an error of [write_page] is thrown. *)
Fixpoint commit_row (env : io_env) (log : list io_event) (items : list CacheItem)
    : list CacheItem * list io_event * avstor_err :=
  match items with
  | [] => ([], log, AVSTOR_OK)
  | it :: rest =>
      match ci_page it with
      | None => (items, log, AVSTOR_OK)
      | Some page =>
          let '(page', log', e) := write_page env log page in
          match e with
          | AVSTOR_OK =>
              let '(rest', log'', e') := commit_row env log' rest in
              (with_page page' it :: rest', log'', e')
          | _ => (with_page page' it :: rest, log', e)
          end
      end
  end.

Fixpoint commit_rows (env : io_env) (log : list io_event)
    (rs : list (list CacheItem))
    : list (list CacheItem) * list io_event * avstor_err :=
  match rs with
  | [] => ([], log, AVSTOR_OK)
  | row :: rest =>
      let '(row', log', e) := commit_row env log row in
      match e with
      | AVSTOR_OK =>
          let '(rest', log'', e') := commit_rows env log' rest in
          (row' :: rest', log'', e')
      | _ => (row' :: rest, log', e)
      end
  end.

Definition avstor_commit (env : io_env) (db : avstor) (flush : bool)
    : avstor * avstor_err :=
  let c := cache db in
  let '(rows', log, e) := commit_rows env (io_log db) (rows c) in
  match e with
  | AVSTOR_OK =>
      let '(hdr, log, e) := write_page env log (header c) in
      match e with
      | AVSTOR_OK =>
          if flush then
            if env_sync env
            then (mk_db (mk_cache rows' hdr hdr) (log ++ [EvSync true]), AVSTOR_OK)
            else (mk_db (mk_cache rows' hdr (old_header c))
                    (log ++ [EvSync false]), AVSTOR_IOERR)
          else (mk_db (mk_cache rows' hdr hdr) log, AVSTOR_OK)
      | _ => (mk_db (mk_cache rows' hdr (old_header c)) log, e)
      end
  | _ => (mk_db (mk_cache rows' (header c) (old_header c)) log, e)
  end.

(** [rollback], for one item. *)
Definition rollback_item (it : CacheItem) : CacheItem :=
  match ci_page it with
  | Some page =>
      if negb (load_u32 page OFS_page_offset =? 0) then
        mk_item
          (Some (if negb (load_u32 page OFS_lock_count =? 0)
                 then store_u32 OFS_lock_count 0 page else page))
          (if is_page_dirty page then 0 else ci_offset it)
          (ci_load_time it)
      else it
  | None => it
  end.

Definition rollback (c : PageCache) : PageCache :=
  mk_cache (map (map rollback_item) (rows c)) (old_header c) (old_header c).

(** *** Commit *)

(** The frame as [write_page] sends it to the file. *)
Definition cleaned (page : AvPage) : AvPage :=
  update_page_checksum (set_page_clean page).

(** The frame that a successful [write_page] leaves in the cache. *)
Definition committed_frame (page : AvPage) : AvPage :=
  if is_page_dirty page then cleaned page else page.

Definition write_event (env : io_env) (page : AvPage) : io_event :=
  EvWrite (load_u32 page OFS_page_offset) (page_bytes (cleaned page))
    (env_write env (load_u32 page OFS_page_offset)).

(** The writes of a run of frames: one for each dirty frame, in order. *)
Fixpoint commit_events (env : io_env) (ps : list AvPage) : list io_event :=
  match ps with
  | [] => []
  | p :: ps' =>
      if is_page_dirty p then write_event env p :: commit_events env ps'
      else commit_events env ps'
  end.

(** [io_write] wrote the whole frame. *)
Definition write_ok (env : io_env) (page : AvPage) : Prop :=
  is_page_dirty page = true ->
  PAGE_SIZE <= env_write env (load_u32 page OFS_page_offset).

(** The frames of a row up to the first null frame pointer. *)
Fixpoint row_frames (items : list CacheItem) : list AvPage :=
  match items with
  | [] => []
  | it :: rest =>
      match ci_page it with
      | None => []
      | Some p => p :: row_frames rest
      end
  end.


(** No frame follows a null frame pointer in the row. *)
Fixpoint packed (items : list CacheItem) : Prop :=
  match items with
  | [] => True
  | it :: rest =>
      match ci_page it with
      | None => Forall (fun it' => ci_page it' = None) rest
      | Some _ => packed rest
      end
  end.



(** Frames written one after the other, up to the first failure. *)
Fixpoint write_pages (env : io_env) (log : list io_event) (ps : list AvPage)
    : list AvPage * list io_event * avstor_err :=
  match ps with
  | [] => ([], log, AVSTOR_OK)
  | p :: ps' =>
      let '(p', log', e) := write_page env log p in
      match e with
      | AVSTOR_OK =>
          let '(ps'', log'', e') := write_pages env log' ps' in
          (p' :: ps'', log'', e')
      | _ => (p' :: ps', log', e)
      end
  end.

Lemma page_offset_cleaned page :
  load_u32 (cleaned page) OFS_page_offset = load_u32 page OFS_page_offset.
Proof. reflexivity. Qed.

Lemma write_page_ok env log p :
  write_ok env p ->
  write_page env log p
  = (committed_frame p, log ++ commit_events env [p], AVSTOR_OK).
Proof.
  intros Hok. unfold write_page, committed_frame, write_ok in *. simpl.
  destruct (is_page_dirty p); [|by rewrite app_nil_r].
  specialize (Hok eq_refl). fold (cleaned p). rewrite page_offset_cleaned.
  by replace (env_write env (load_u32 p OFS_page_offset) <? PAGE_SIZE)
    with false by lia.
Qed.

Lemma write_page_fail env log p :
  is_page_dirty p = true ->
  env_write env (load_u32 p OFS_page_offset) < PAGE_SIZE ->
  write_page env log p
  = (set_page_dirty (cleaned p), log ++ [write_event env p], AVSTOR_IOERR).
Proof.
  intros Hd Hw. unfold write_page. rewrite Hd. cbv zeta. fold (cleaned p).
  rewrite page_offset_cleaned.
  by replace (env_write env (load_u32 p OFS_page_offset) <? PAGE_SIZE)
    with true by lia.
Qed.

Lemma write_page_code env log p :
  (write_page env log p).2 = AVSTOR_OK \/ (write_page env log p).2 = AVSTOR_IOERR.
Proof. unfold write_page. repeat case_match; simpl; auto. Qed.


Lemma write_pages_ok env : forall ps log,
  Forall (write_ok env) ps ->
  write_pages env log ps
  = (map committed_frame ps, log ++ commit_events env ps, AVSTOR_OK).
Proof.
  induction ps as [|p ps IH]; intros log Hok; simpl.
  - by rewrite app_nil_r.
  - apply Forall_cons in Hok as (Hp & Hps).
    rewrite (write_page_ok env log p Hp), (IH _ Hps). simpl.
    destruct (is_page_dirty p); simpl; by rewrite <- ?app_assoc.
Qed.





Lemma omap_null_frames items :
  Forall (fun it => ci_page it = None) items -> omap ci_page items = [].
Proof. induction 1 as [|it rest Hit _ IH]; simpl; [done|]. by rewrite Hit. Qed.


Lemma packed_frames items : packed items -> row_frames items = omap ci_page items.
Proof.
  induction items as [|it rest IH]; simpl; [done|].
  destruct (ci_page it) as [p|].
  - intros Hp. by rewrite IH.
  - intros Hn. by rewrite omap_null_frames.
Qed.






Lemma land_dirty_clean s : Z.land (u8 (Z.land s (Z.lnot PAGE_DIRTY))) PAGE_DIRTY = 0.
Proof.
  apply Z.bits_inj'. intros n Hn. rewrite Z.land_spec, Z.bits_0.
  change PAGE_DIRTY with (2 ^ 7). rewrite Z.pow2_bits_eqb by lia.
  destruct (Z.eqb_spec 7 n) as [<-|?]; [|apply andb_false_r].
  unfold u8. rewrite Z.mod_pow2_bits_low by lia.
  rewrite Z.land_spec, Z.lnot_spec by lia.
  change (2 ^ 7) with (2 ^ 7). rewrite Z.pow2_bits_true by lia.
  by rewrite andb_false_r.
Qed.

Lemma land_dirty_set s : Z.land (u8 (Z.lor s PAGE_DIRTY)) PAGE_DIRTY = PAGE_DIRTY.
Proof.
  apply Z.bits_inj'. intros n Hn. rewrite Z.land_spec.
  change PAGE_DIRTY with (2 ^ 7). rewrite Z.pow2_bits_eqb by lia.
  destruct (Z.eqb_spec 7 n) as [<-|?]; [|apply andb_false_r].
  unfold u8. rewrite Z.mod_pow2_bits_low by lia.
  rewrite Z.lor_spec, Z.pow2_bits_true by lia. by rewrite orb_true_r.
Qed.

Lemma committed_frame_clean p : is_page_dirty (committed_frame p) = false.
Proof.
  unfold committed_frame. destruct (is_page_dirty p) eqn:Hd; [|done].
  unfold is_page_dirty, cleaned.
  change (update_page_checksum (set_page_clean p) OFS_status)
    with (u8 (Z.land (p OFS_status) (Z.lnot PAGE_DIRTY))).
  by rewrite land_dirty_clean.
Qed.

Lemma set_page_dirty_dirty p : is_page_dirty (set_page_dirty p) = true.
Proof.
  unfold is_page_dirty.
  change (set_page_dirty p OFS_status) with (u8 (Z.lor (p OFS_status) PAGE_DIRTY)).
  by rewrite land_dirty_set.
Qed.

Lemma set_page_clean_is_bytes p : is_bytes p -> is_bytes (set_page_clean p).
Proof.
  intros Hp i. unfold set_page_clean, store_u8. case_match; [|apply Hp].
  apply Z.mod_pos_bound. lia.
Qed.



(** A cache of one row with a dirty frame for the page at 4096, a clean
    one for the page at 8192 and a free item, and a dirty header. *)
Definition ex_frame (ofs status : Z) : AvPage :=
  store_u8 OFS_status status (store_u32 OFS_page_offset ofs (fun _ => 0)).

Definition ex_cache : PageCache :=
  mk_cache
    [[mk_item (Some (ex_frame 4096 PAGE_DIRTY)) 4096 1;
      mk_item (Some (ex_frame 8192 0)) 8192 2;
      mk_item None 0 0]]
    (ex_frame 0 PAGE_DIRTY)
    (ex_frame 0 0).

Definition ex_db : avstor := mk_db ex_cache [].

Definition env_ok : io_env := mk_env (fun _ => PAGE_SIZE) true.



(** *** Rollback *)




Definition env_header_fails : io_env :=
  mk_env (fun ofs => if ofs =? 0 then 0 else PAGE_SIZE) true.














End Cache.

(** ** Values of variable size in their page *)

Module Page.
Import API.

(** Field offsets of a data page. *)
Definition OFS_top : Z := 20.
Definition OFS_index_freelist : Z := 22.
Definition OFS_index_count : Z := 24.
Definition OFS_index : Z := 26.

Definition NODE_SIZEMASK : Z := 65472.     (* 0xFFC0 *)
Definition NODE_TYPEMASK : Z := 60.        (* 0x0F << 2 *)

(** A node is addressed inside its page by the offset of its first
    byte; [hdr] is at 0, [index] at 2, [szname] at 12. *)
Definition get_node_size (p : AvPage) (node : Z) : Z :=
  Z.shiftr (Z.land (load_u16 p node) NODE_SIZEMASK) 4.

Definition set_node_size (node nodesz : Z) (p : AvPage) : AvPage :=
  store_u16 node
    (Z.lor (Z.land (load_u16 p node) 63) (u16 (Z.shiftl nodesz 4))) p.

Definition NODE_TYPE (p : AvPage) (node : Z) : Z :=
  Z.shiftr (Z.land (load_u16 p node) NODE_TYPEMASK) 2.

Definition node_index (p : AvPage) (node : Z) : Z := load_u16 p (node + 2).
Definition node_szname (p : AvPage) (node : Z) : Z := p (node + 12).

Definition get_node_data (p : AvPage) (node : Z) : Z :=
  node + SIZE_NODE_HDR + node_szname p node.

Definition get_page_free_space (p : AvPage) : Z :=
  let top := load_u16 p OFS_top in
  let bottom :=
    align_node (OFS_index + 2 * load_u16 p OFS_index_count
                + (if load_u16 p OFS_index_freelist =? INVALID_INDEX
                   then 2 else 0)) in
  if bottom <? top then top - bottom else 0.

Definition get_node (p : AvPage) (index : Z) : res Z :=
  let node_offset := load_u16 p index in
  if node_offset =? INVALID_INDEX then Throw AVSTOR_INVOPER
  else Ok node_offset.

Definition memmove (dest src count : Z) (p : AvPage) : AvPage :=
  fun i => if (dest <=? i) && (i <? dest + count) then p (i - dest + src)
           else p i.

Definition memset (dest v count : Z) (p : AvPage) : AvPage :=
  fun i => if (dest <=? i) && (i <? dest + count) then u8 v else p i.


(** [memcpy] from the page into a buffer of the caller. *)
Definition memcpy_out (p : AvPage) (src count : Z) : list Z :=
  map (fun k => p (src + Z.of_nat k)) (seq 0 (Z.to_nat count)).

(** The loop of [resize_node] that adjusts the slots of the nodes that
    were moved. It ends when the sizes of the nodes lead from [cur] to
    [next]; [None] says that [fuel] iterations were not enough. *)
Fixpoint adjust_slots (fuel : nat) (p : AvPage) (cur next delta : Z)
    : option AvPage :=
  if cur <? next then
    match fuel with
    | O => None
    | S fuel' =>
        let curslot := node_index p cur in
        let p := store_u16 curslot (u16 (load_u16 p curslot + delta)) p in
        adjust_slots fuel' p (cur + get_node_size p cur) next delta
    end
  else Some p.

Definition resize_node (fuel : nat) (p : AvPage) (node newsize : Z)
    : option (res (AvPage * Z)) :=
  let oldsize := get_node_size p node in
  if newsize =? oldsize then Some (Ok (p, node))
  else
    let page_free := get_page_free_space p in
    if (oldsize <? newsize) && (page_free <? newsize - oldsize)
    then Some (Throw AVSTOR_INTERNAL)
    else
      let top := load_u16 p OFS_top in
      let newtop := top + oldsize - newsize in
      let next := node + oldsize in
      let p :=
        if newsize =? 0 then
          let oldindex := node_index p node in
          if oldindex =? OFS_index - 2 + load_u16 p OFS_index_count * 2 then
            store_u16 OFS_index_count (u16 (load_u16 p OFS_index_count - 1))
              (store_u16 oldindex 0 p)
          else
            store_u16 OFS_index_freelist oldindex
              (store_u16 oldindex (load_u16 p OFS_index_freelist) p)
        else p in
      let src := top in
      let dest := newtop in
      let count := node - src in
      let p := set_node_size node newsize p in
      let p :=
        if newsize <? oldsize then
          memset src 0 (oldsize - newsize) (memmove dest src (count + newsize) p)
        else
          let diff := newsize - oldsize in
          memset (node + oldsize - diff) 0 diff
            (memmove dest src (count + oldsize) p) in
      match adjust_slots fuel p dest next (oldsize - newsize) with
      | None => None
      | Some p =>
          Some (Ok (store_u16 OFS_top (u16 newtop) p, node + oldsize - newsize))
      end.

(** [lock_valueref] for the value at [ref], whose page is [p]. *)
Definition lock_valueref (p : AvPage) (ref type : Z) : res Z :=
  if ref =? 0 then Throw AVSTOR_PARAM
  else
    node ← get_node p (ref mod PAGE_SIZE);
    if NODE_TYPE p node =? type then Ok node else Throw AVSTOR_MISMATCH.




(** [get_var_value]: the bytes copied into the buffer of [szbuf] bytes,
    and [*out_length]. *)
Definition get_var_value (p : AvPage) (ref szbuf type : Z) : res (list Z * Z) :=
  node ← lock_valueref p ref type;
  let ndata := get_node_data p node in
  let length := p ndata in
  let bytes_copied := if szbuf <? length then szbuf else length in
  Ok (memcpy_out p (ndata + szdata type) bytes_copied, length).


(** [avstor_get_string]: the buffer up to and with the NUL that the
    function sets, and [*out_length]. *)
Definition avstor_get_string (p : AvPage) (ref szbuf : Z) : res (list Z * Z) :=
  '(bytes, out_length) ← get_var_value p ref szbuf AVSTOR_TYPE_STRING;
  let out_bytes := Z.of_nat (length bytes) in
  let buf :=
    if 0 <? szbuf then
      take (Z.to_nat (if out_bytes =? szbuf then szbuf - 1 else out_bytes)) bytes
      ++ [0]
    else bytes in
  Ok (buf, u32 (out_length - 1)).


(** *** Bytes and words *)

Fixpoint forall_from (P : Z -> bool) (x : Z) (n : nat) : bool :=
  match n with
  | O => true
  | S n => P x && forall_from P (x + 1) n
  end.

Lemma forall_from_spec (P : Z -> bool) (n : nat) : forall x,
  forall_from P x n = true ->
  forall y, x <= y < x + Z.of_nat n -> P y = true.
Proof.
  induction n as [|n IH]; intros x H y Hy; [lia|].
  simpl in H. apply andb_prop in H as [H1 H2].
  destruct (decide (y = x)) as [->|Hne]; [done|].
  apply (IH (x + 1)); [done | lia].
Qed.

Lemma forall_below (P : Z -> bool) (n : Z) :
  forall_from P 0 (Z.to_nat n) = true ->
  forall x, 0 <= x < n -> P x = true.
Proof. intros H x Hx. apply (forall_from_spec P _ 0 H). lia. Qed.

Lemma align_node_spec sz :
  0 <= sz <= 4200 ->
  sz <= align_node sz <= sz + 3 /\ align_node sz mod 4 = 0.
Proof.
  intros Hsz.
  set (chk := fun x => (x <=? align_node x) && (align_node x <=? x + 3)
                       && (align_node x mod 4 =? 0)).
  assert (H : chk sz = true).
  { apply (forall_below chk 4201); [vm_compute; reflexivity | lia]. }
  unfold chk in H. lia.
Qed.

Lemma load_u16_range p o : is_bytes p -> 0 <= load_u16 p o < 65536.
Proof. intros Hb. unfold load_u16. pose proof (Hb o). pose proof (Hb (o + 1)). lia. Qed.

Lemma load_u16_ext p p' o :
  p' o = p o -> p' (o + 1) = p (o + 1) -> load_u16 p' o = load_u16 p o.
Proof. unfold load_u16. by intros -> ->. Qed.

Lemma load_u16_moved p p' o o' :
  p' o' = p o -> p' (o' + 1) = p (o + 1) -> load_u16 p' o' = load_u16 p o.
Proof. unfold load_u16. by intros -> ->. Qed.

Lemma load_store_u16 p o v :
  0 <= v < 65536 -> load_u16 (store_u16 o v p) o = v.
Proof.
  intros Hv. unfold load_u16, store_u16.
  rewrite Z.eqb_refl.
  replace (o + 1 =? o) with false by lia. rewrite Z.eqb_refl.
  rewrite (Z.mod_small (v / 256)) by (split; [apply Z.div_pos; lia | apply Z.div_lt_upper_bound; lia]).
  pose proof (Z.div_mod v 256). lia.
Qed.

Lemma store_u16_other p o v i :
  i <> o -> i <> o + 1 -> store_u16 o v p i = p i.
Proof.
  intros H1 H2. unfold store_u16.
  replace (i =? o) with false by lia. by replace (i =? o + 1) with false by lia.
Qed.

Lemma store_u16_bytes p o v : is_bytes p -> is_bytes (store_u16 o v p).
Proof.
  intros Hb i. unfold store_u16. repeat case_match; try apply Hb.
  - apply Z.mod_pos_bound; lia.
  - apply Z.mod_pos_bound; lia.
Qed.

(** The header word after [set_node_size], for a size that is a multiple
    of four below the page size. *)
Lemma hdr_bits a k :
  0 <= a < 64 -> 0 <= k < 1024 ->
  let hdr := Z.lor a (64 * k) in
  0 <= hdr < 65536
  /\ Z.shiftr (Z.land hdr NODE_SIZEMASK) 4 = 4 * k
  /\ Z.shiftr (Z.land hdr NODE_TYPEMASK) 2 = Z.shiftr (Z.land a NODE_TYPEMASK) 2.
Proof.
  intros Ha Hk.
  set (chk := fun x : Z =>
    let a := x mod 64 in let k := x / 64 in
    let hdr := Z.lor a (64 * k) in
    (0 <=? hdr) && (hdr <? 65536)
    && (Z.shiftr (Z.land hdr NODE_SIZEMASK) 4 =? 4 * k)
    && (Z.shiftr (Z.land hdr NODE_TYPEMASK) 2 =? Z.shiftr (Z.land a NODE_TYPEMASK) 2)).
  assert (H : chk (a + 64 * k) = true).
  { apply (forall_below chk 65536); [vm_compute; reflexivity | lia]. }
  unfold chk in H. cbv zeta in H.
  replace ((a + 64 * k) mod 64) with a in H
    by (rewrite (Z.mul_comm 64 k), Z.mod_add by lia; symmetry; apply Z.mod_small; lia).
  replace ((a + 64 * k) / 64) with k in H
    by (rewrite (Z.mul_comm 64 k), Z.div_add by lia; rewrite (Z.div_small a) by lia; lia).
  cbv zeta. lia.
Qed.

Lemma set_node_size_spec p node sz :
  is_bytes p -> 0 <= sz < 4096 -> sz mod 4 = 0 ->
  let p' := set_node_size node sz p in
  get_node_size p' node = sz
  /\ NODE_TYPE p' node = NODE_TYPE p node
  /\ (forall i, i <> node -> i <> node + 1 -> p' i = p i)
  /\ is_bytes p'.
Proof.
  intros Hb Hsz Hmod.
  pose proof (load_u16_range p node Hb) as Hh.
  assert (Hland : Z.land (load_u16 p node) 63 = load_u16 p node mod 64)
    by (apply (Z.land_ones _ 6); lia).
  assert (Hsh : u16 (Z.shiftl sz 4) = 64 * (sz / 4)).
  { unfold u16. rewrite Z.shiftl_mul_pow2 by lia.
    pose proof (Z.div_mod sz 4). rewrite Z.mod_small; lia. }
  destruct (hdr_bits (load_u16 p node mod 64) (sz / 4)) as (Hr & Hs & Ht).
  { apply Z.mod_pos_bound; lia. }
  { split; [apply Z.div_pos; lia | apply Z.div_lt_upper_bound; lia]. }
  cbv zeta. unfold get_node_size, NODE_TYPE, set_node_size.
  rewrite Hland, Hsh, load_store_u16 by done.
  split_and!.
  - rewrite Hs. pose proof (Z.div_mod sz 4). lia.
  - rewrite Ht. rewrite <- Hland.
    rewrite <- Z.land_assoc. done.
  - intros i H1 H2. by apply store_u16_other.
  - by apply store_u16_bytes.
Qed.

Lemma u16_small x : 0 <= x < 65536 -> u16 x = x.
Proof. intros H. unfold u16. change (2 ^ 16) with 65536. by apply Z.mod_small. Qed.

Lemma u16_range x : 0 <= u16 x < 65536.
Proof. unfold u16. change (2 ^ 16) with 65536. apply Z.mod_pos_bound. lia. Qed.

Lemma even_apart a b : a mod 2 = 0 -> b mod 2 = 0 -> a <> b + 1.
Proof.
  intros Ha Hb ->.
  rewrite <- Z.add_mod_idemp_l, Hb in Ha by lia. done.
Qed.

(** *** The nodes of a page *)

(** The nodes [ns] lie one after the other from [c] to [stop], each as
    long as its header says. *)
Fixpoint chain (p : AvPage) (c : Z) (ns : list Z) (stop : Z) : Prop :=
  match ns with
  | [] => c = stop
  | n :: ns =>
      n = c /\ 4 <= get_node_size p n
      /\ chain p (n + get_node_size p n) ns stop
  end.

(** The slot of the node at [n] still holds the place the node had
    before it was moved by [delta]. *)
Definition slot_moved (p : AvPage) (lo delta n : Z) : Prop :=
  let s := node_index p n in
  0 <= s /\ s mod 2 = 0 /\ s + 2 <= lo /\ load_u16 p s = n - delta.

Lemma chain_le p ns : forall c stop,
  chain p c ns stop ->
  c <= stop /\ (ns <> [] -> c < stop) /\ Forall (fun n => c <= n < stop) ns.
Proof.
  induction ns as [|n ns IH]; simpl; intros c stop H.
  - subst. split_and!; [lia | done | constructor].
  - destruct H as (-> & Hs & Hc). apply IH in Hc as (H1 & H2 & H3).
    split_and!; [lia | intros _; lia |].
    constructor; [lia|]. eapply Forall_impl; [exact H3|].
    simpl. intros; lia.
Qed.

Lemma chain_ext p p' lo ns : forall c stop,
  (forall i, lo <= i -> p' i = p i) -> lo <= c ->
  chain p c ns stop -> chain p' c ns stop.
Proof.
  induction ns as [|n ns IH]; simpl; intros c stop Hag Hlo H; [done|].
  destruct H as (-> & Hs & Hc).
  assert (Hsize : get_node_size p' c = get_node_size p c).
  { unfold get_node_size. f_equal. f_equal. apply load_u16_ext; apply Hag; lia. }
  rewrite Hsize. split_and!; try done. apply IH; [done | lia | done].
Qed.

Lemma adjust_slots_spec delta lo next : forall ns fuel p cur,
  chain p cur ns next -> 0 <= lo <= cur -> next <= 65536 ->
  (forall n, n ∈ ns -> slot_moved p lo delta n) ->
  (length ns <= fuel)%nat ->
  exists p',
    adjust_slots fuel p cur next delta = Some p'
    /\ (forall i, lo <= i -> p' i = p i)
    /\ (forall n, n ∈ ns -> load_u16 p' (node_index p n) = n)
    /\ (forall i, (forall n, n ∈ ns ->
                   i <> node_index p n /\ i <> node_index p n + 1) ->
                  p' i = p i).
Proof.
  induction ns as [|n ns IH]; intros fuel p cur Hc Hlo Hnx Hs Hf.
  - simpl in Hc. subst cur. exists p.
    assert (adjust_slots fuel p next next delta = Some p) as ->
      by (destruct fuel; simpl; by rewrite Z.ltb_irrefl).
    split_and!; try done. intros n Hn. by apply elem_of_nil in Hn.
  - simpl in Hc. destruct Hc as (-> & Hsz & Hc).
    pose proof (chain_le _ _ _ _ Hc) as (Hle & _ & Hall).
    rewrite Forall_forall in Hall.
    destruct fuel as [|fuel]; [simpl in Hf; lia|].
    destruct (Hs cur) as (Hs0 & Hev & Hs2 & Hsv); [left|].
    simpl adjust_slots.
    replace (cur <? next) with true by lia.
    set (s := node_index p cur) in *.
    set (p1 := store_u16 s (u16 (load_u16 p s + delta)) p).
    assert (Hag : forall i, lo <= i -> p1 i = p i)
      by (intros i Hi; apply store_u16_other; lia).
    assert (Hsize : get_node_size p1 cur = get_node_size p cur).
    { unfold get_node_size. f_equal. f_equal. apply load_u16_ext; apply Hag; lia. }
    rewrite Hsize.
    assert (Hidx : forall m, lo <= m -> node_index p1 m = node_index p m).
    { intros m Hm. apply load_u16_ext; apply Hag; lia. }
    assert (Hother : forall m, m ∈ ns ->
              node_index p m <> s /\ node_index p m <> s + 1
              /\ s <> node_index p m + 1).
    { intros m Hm. destruct (Hs m) as (_ & Hev' & _ & Hv'); [by right|].
      specialize (Hall m Hm). split_and!.
      - intros Heq. rewrite Heq in Hv'. lia.
      - by apply even_apart.
      - by apply even_apart. }
    destruct (IH fuel p1 (cur + get_node_size p cur)) as (p' & He & Ha & Hb & Hd).
    + by apply (chain_ext p p1 lo); [ | lia | ].
    + lia.
    + done.
    + intros m Hm. destruct (Hs m) as (? & ? & ? & Hv'); [by right|].
      destruct (Hother m Hm) as (? & ? & ?). specialize (Hall m Hm).
      unfold slot_moved. rewrite Hidx by lia. split_and!; try done.
      rewrite <- Hv'. apply load_u16_ext; apply store_u16_other; lia.
    + simpl in Hf. lia.
    + exists p'. split_and!.
      * done.
      * intros i Hi. rewrite Ha by done. by apply Hag.
      * intros m Hm. apply elem_of_cons in Hm as [->|Hm].
        -- fold s. transitivity (load_u16 p1 s).
           ++ apply load_u16_ext; apply Hd; intros m Hm;
                rewrite Hidx by (specialize (Hall m Hm); lia);
                destruct (Hother m Hm) as (? & ? & ?); lia.
           ++ unfold p1. rewrite load_store_u16 by apply u16_range.
              rewrite Hsv. replace (cur - delta + delta) with cur by lia.
              apply u16_small. lia.
        -- rewrite <- (Hidx m) by (specialize (Hall m Hm); lia). by apply Hb.
      * intros i Hi. rewrite Hd.
        -- destruct (Hi cur) as [? ?]; [left|]. apply store_u16_other; done.
        -- intros m Hm. rewrite Hidx by (specialize (Hall m Hm); lia).
           apply Hi. by right.
Qed.



Ltac mem_cases :=
  unfold memset, memmove;
  repeat match goal with
         | |- context [?a <=? ?b] => destruct (Z.leb_spec a b)
         | |- context [?a <? ?b] => destruct (Z.ltb_spec a b)
         end;
  simpl; try lia; try (f_equal; lia).


(** The slot of a node of the page holds the place of the node. *)
Definition slot_ok (p : AvPage) (bot n : Z) : Prop :=
  let s := node_index p n in
  OFS_index <= s /\ s mod 2 = 0 /\ s + 2 <= bot /\ load_u16 p s = n.

Lemma free_space_bottom p :
  is_bytes p ->
  let top := load_u16 p OFS_top in
  let bot := OFS_index + 2 * load_u16 p OFS_index_count in
  bot <= top -> top <= PAGE_SIZE ->
  0 < get_page_free_space p -> bot + get_page_free_space p <= top.
Proof.
  intros Hb top bot Hbt Htop. unfold get_page_free_space. fold top.
  pose proof (load_u16_range p OFS_index_count Hb).
  subst bot. unfold PAGE_SIZE, OFS_index in *.
  set (extra := if load_u16 p OFS_index_freelist =? INVALID_INDEX then 2 else 0).
  assert (0 <= extra <= 2) by (subst extra; case_match; lia).
  destruct (align_node_spec (26 + 2 * load_u16 p OFS_index_count + extra))
    as [Ha _]; [lia|].
  destruct (Z.ltb_spec
              (align_node (26 + 2 * load_u16 p OFS_index_count + extra)) top);
    lia.
Qed.


(** *** Writing a value and reading it back *)







(** *** Pages written out byte by byte *)

Definition page_of_bytes (l : list Z) : AvPage :=
  fun i => nth (Z.to_nat i) l 0.

Definition le16 (v : Z) : list Z := [v mod 256; v / 256].

(** The bytes of a node: header word, slot, null links, the name and
    the data, padded to the size of the node. *)
Definition node_image (size type index : Z) (name data : list Z) : list Z :=
  let body :=
    le16 (Z.lor (Z.shiftl size 4) (Z.lor (Z.shiftl type 2) 1))
    ++ le16 index ++ replicate 8 0
    ++ [Z.of_nat (length name)] ++ name ++ data in
  body ++ replicate (Z.to_nat size - length body)%nat 0.

(** The bytes of a data page with the given slots and nodes, the nodes
    packed against the end of the page. *)
Definition page_image (top : Z) (slots : list Z) (nodes : list Z) : list Z :=
  let hdr :=
    replicate 20 0 ++ le16 top ++ le16 INVALID_INDEX
    ++ le16 (Z.of_nat (length slots)) ++ flat_map le16 slots in
  hdr ++ replicate (Z.to_nat top - length hdr)%nat 0 ++ nodes.

Lemma page_of_bytes_is_bytes l :
  forallb (fun c => (0 <=? c) && (c <? 256)) l = true ->
  is_bytes (page_of_bytes l).
Proof.
  intros H i. unfold page_of_bytes.
  destruct (nth_in_or_default (Z.to_nat i) l 0) as [Hin| ->]; [|lia].
  rewrite forallb_forall in H. apply H in Hin. lia.
Qed.

(** A page with a key [k] and, allocated before it, a string value [v]
    that holds [a]. *)
Definition ex_page : AvPage :=
  page_of_bytes
    (page_image 4048 [4076; 4048]
       (node_image 28 AVSTOR_TYPE_KEY 28 [107; 0; 0] (replicate 12 0)
        ++ node_image 20 AVSTOR_TYPE_STRING 26 [118; 0; 0] [2; 97; 0])).

Definition ex_ref : Z := 4096 + 26.










End Page.

(** ** The size of the cache *)

Module Sizing.

Definition L2_ASSOC : Z := 8.
Definition KB_PER_PAGE : Z := PAGE_SIZE / 1024.
Definition AVSTOR_OPEN_READWRITE : Z := 1.
Definition AVSTOR_OPEN_READONLY : Z := 2.
Definition AVSTOR_OPEN_CREATE : Z := 4.

(** [while ((void)cnt++, x >>= 1);]: [None] says that [fuel] iterations
    were not enough. *)
Fixpoint shift_count (fuel : nat) (cnt x : Z) : option Z :=
  match fuel with
  | O => None
  | S fuel' =>
      let cnt := cnt + 1 in
      let x := Z.shiftr x 1 in
      if x =? 0 then Some cnt else shift_count fuel' cnt x
  end.

Definition mask_to_power_of_two (fuel : nat) (x : Z) : option Z :=
  if x =? 0 then Some 0
  else cnt ← shift_count fuel 0 x; Some (Z.shiftl 1 (cnt - 1)).

(** The checks of [avstor_open] on the flags and on the cache size (in
    KB), which it rounds down to a power of two. *)
Definition open_cache_size (fuel : nat) (szcache oflags : Z) : option (res Z) :=
  if (negb (Z.land oflags AVSTOR_OPEN_CREATE =? 0)
      && negb (Z.land oflags AVSTOR_OPEN_READONLY =? 0))
     || ((Z.land oflags AVSTOR_OPEN_READWRITE =? 0)
         && (Z.land oflags AVSTOR_OPEN_READONLY =? 0))
  then Some (Throw AVSTOR_PARAM)
  else
    szcache ← mask_to_power_of_two fuel szcache;
    if szcache <? 64 then Some (Throw AVSTOR_PARAM) else Some (Ok szcache).

(** The number of rows that [avstor_init] allocates, and the mask. *)
Definition l2_len (szcache : Z) : Z := szcache / (KB_PER_PAGE * L2_ASSOC).
Definition l2_mask (szcache : Z) : Z := u32 (l2_len szcache - 1).

Definition cache_get_row (mask page_ofs : Z) : Z :=
  Z.land (Z.shiftr (u32 (page_ofs / PAGE_SIZE * 1597334677)) 3) mask.

Lemma shift_count_spec fuel : forall cnt x,
  0 < x < 2 ^ Z.of_nat fuel ->
  shift_count fuel cnt x = Some (cnt + Z.log2 x + 1).
Proof.
  induction fuel as [|fuel IH]; intros cnt x Hx.
  - simpl in Hx. lia.
  - cbn [shift_count].
    rewrite Nat2Z.inj_succ, Z.pow_succ_r in Hx by lia.
    rewrite Z.shiftr_div_pow2 by lia. change (2 ^ 1) with 2.
    destruct (Z.eqb_spec (x / 2) 0) as [H0|H0].
    + assert (x = 1) as -> by (pose proof (Z.div_mod x 2);
                                 pose proof (Z.mod_pos_bound x 2); lia).
      simpl. f_equal. lia.
    + assert (Hx2 : 0 < x / 2 < 2 ^ Z.of_nat fuel).
      { split; [pose proof (Z.div_pos x 2); lia|].
        apply Z.div_lt_upper_bound; lia. }
      rewrite IH by done. f_equal.
      assert (Z.log2 x = Z.log2 (x / 2) + 1); [|lia].
      replace (x / 2) with (Z.shiftr x 1)
        by (by rewrite Z.shiftr_div_pow2 by lia).
      rewrite Z.log2_shiftr by lia.
      assert (1 <= Z.log2 x); [|lia].
      apply Z.log2_le_pow2; [lia|]. simpl. pose proof (Z.div_mod x 2).
      pose proof (Z.mod_pos_bound x 2). lia.
Qed.

Lemma mask_to_power_of_two_spec x :
  0 < x < 2 ^ 32 ->
  mask_to_power_of_two 32 x = Some (2 ^ Z.log2 x).
Proof.
  intros Hx. unfold mask_to_power_of_two.
  replace (x =? 0) with false by lia.
  rewrite shift_count_spec by (simpl; lia). simpl mbind.
  f_equal. rewrite Z.shiftl_1_l. f_equal. lia.
Qed.

(** X1. [avstor_open] accepts a cache size (below [2^31] KB) just when it
    is at least 64 and the flags are a combination it allows (not
    [AVSTOR_OPEN_CREATE] with [AVSTOR_OPEN_READONLY], and one of
    [AVSTOR_OPEN_READWRITE] and [AVSTOR_OPEN_READONLY]); otherwise it
    returns [AVSTOR_PARAM]. The size it passes on is the largest power of
    two that is not above the one asked for, the number of rows that
    [avstor_init] derives from it is a power of two, and [cache_get_row]
    maps every page offset to a row below that number. *)
Theorem cache_rows_in_range (szcache oflags page_ofs : Z) :
  0 <= szcache < 2 ^ 31 -> 0 <= page_ofs < 2 ^ 32 ->
  exists r,
    open_cache_size 32 szcache oflags = Some r
    /\ (szcache < 64 -> r = Throw AVSTOR_PARAM)
    /\ ((Z.land oflags AVSTOR_OPEN_CREATE <> 0
         /\ Z.land oflags AVSTOR_OPEN_READONLY <> 0)
        \/ (Z.land oflags AVSTOR_OPEN_READWRITE = 0
            /\ Z.land oflags AVSTOR_OPEN_READONLY = 0) ->
        r = Throw AVSTOR_PARAM)
    /\ (64 <= szcache ->
        Z.land oflags AVSTOR_OPEN_CREATE = 0
        \/ Z.land oflags AVSTOR_OPEN_READONLY = 0 ->
        Z.land oflags AVSTOR_OPEN_READWRITE <> 0
        \/ Z.land oflags AVSTOR_OPEN_READONLY <> 0 ->
        r = Ok (2 ^ Z.log2 szcache))
    /\ forall sz, r = Ok sz ->
         64 <= szcache /\ sz <= szcache < 2 * sz
         /\ (exists k, 1 <= k /\ l2_len sz = 2 ^ k)
         /\ 0 <= cache_get_row (l2_mask sz) page_ofs < l2_len sz.
Proof.
  intros Hsz Hofs. unfold open_cache_size.
  match goal with |- context [if ?c then _ else _] => destruct c eqn:Hflags end.
  { eexists. split; [reflexivity|]. split_and!; try done.
    intros _ H1 H2. exfalso.
    apply orb_true_iff in Hflags as [H|H]; apply andb_true_iff in H as (Ha & Hb).
    - apply negb_true_iff in Ha, Hb. destruct H1; lia.
    - destruct H2; lia. }
  assert (Hgood : ~ ((Z.land oflags AVSTOR_OPEN_CREATE <> 0
                      /\ Z.land oflags AVSTOR_OPEN_READONLY <> 0)
                     \/ (Z.land oflags AVSTOR_OPEN_READWRITE = 0
                         /\ Z.land oflags AVSTOR_OPEN_READONLY = 0))).
  { apply orb_false_iff in Hflags as (Ha & Hb).
    apply andb_false_iff in Ha, Hb.
    intros [(H1 & H2)|(H1 & H2)].
    - destruct Ha as [Ha|Ha]; apply negb_false_iff in Ha; lia.
    - destruct Hb as [Hb|Hb]; lia. }
  destruct (decide (szcache = 0)) as [->|Hne].
  { eexists. split; [reflexivity|]. split_and!; try done; lia. }
  rewrite mask_to_power_of_two_spec by lia. simpl mbind.
  pose proof (Z.log2_spec szcache ltac:(lia)) as Hlog.
  pose proof (Z.log2_nonneg szcache) as Hnn.
  destruct (Z.ltb_spec (2 ^ Z.log2 szcache) 64) as [Hlt|Hge].
  { eexists. split; [reflexivity|]. split_and!; try done.
    intros H64 _ _. exfalso.
    assert (6 <= Z.log2 szcache) by (apply Z.log2_le_pow2; [lia|simpl; lia]).
    assert (2 ^ 6 <= 2 ^ Z.log2 szcache) by (apply Z.pow_le_mono_r; lia).
    change (2 ^ 6) with 64 in *. lia. }
  eexists. split; [reflexivity|]. split_and!; try done.
  { intros Hs. lia. }
  intros sz [= <-].
  assert (Hk : 6 <= Z.log2 szcache).
  { destruct (decide (6 <= Z.log2 szcache)); [done|].
    assert (2 ^ Z.log2 szcache < 2 ^ 6) by (apply Z.pow_lt_mono_r; lia).
    change (2 ^ 6) with 64 in *. lia. }
  assert (Hk31 : Z.log2 szcache < 31).
  { apply Z.log2_lt_pow2; lia. }
  rewrite Z.pow_succ_r in Hlog by lia.
  assert (Hlen : l2_len (2 ^ Z.log2 szcache) = 2 ^ (Z.log2 szcache - 5)).
  { unfold l2_len, KB_PER_PAGE, L2_ASSOC, PAGE_SIZE.
    change (4096 / 1024 * 8) with (2 ^ 5).
    rewrite <- Z.pow_sub_r by lia. done. }
  split_and!; try lia.
  - exists (Z.log2 szcache - 5). split; [lia|done].
  - apply Z.land_nonneg. left. apply Z.shiftr_nonneg.
    unfold u32. apply Z.mod_pos_bound. lia.
  - unfold cache_get_row, l2_mask. rewrite Hlen.
    assert (0 < 2 ^ (Z.log2 szcache - 5) < 2 ^ 32).
    { split; [apply Z.pow_pos_nonneg; lia | apply Z.pow_lt_mono_r; lia]. }
    replace (u32 (2 ^ (Z.log2 szcache - 5) - 1))
      with (Z.ones (Z.log2 szcache - 5))
      by (rewrite Z.ones_equiv; unfold u32; rewrite Z.mod_small; lia).
    rewrite Z.land_ones by lia. apply Z.mod_pos_bound. lia.
Qed.

Lemma cache_rows_in_range_witness :
  open_cache_size 32 1000 AVSTOR_OPEN_READWRITE = Some (Ok 512)
  /\ open_cache_size 32 63 AVSTOR_OPEN_READWRITE = Some (Throw AVSTOR_PARAM)
  /\ l2_len 512 = 16
  /\ 0 <= cache_get_row (l2_mask 512) 8192 < 16.
Proof.
  destruct (cache_rows_in_range 1000 AVSTOR_OPEN_READWRITE 8192)
    as (r & Hr & _ & _ & Hacc & Hok); [lia | lia |].
  destruct (cache_rows_in_range 63 AVSTOR_OPEN_READWRITE 8192)
    as (r2 & Hr2 & Hrej & _); [lia | lia |].
  rewrite (Hrej ltac:(lia)) in Hr2.
  rewrite (Hacc ltac:(lia) ltac:(by left) ltac:(by left)) in Hr, Hok.
  change (2 ^ Z.log2 1000) with 512 in Hr, Hok.
  split; [exact Hr|]. split; [exact Hr2|]. split; [reflexivity|].
  destruct (Hok 512 eq_refl) as (_ & _ & _ & Hrow). exact Hrow.
Defined.

End Sizing.

(** ** Offsets as names, and bounded string length *)

Module Names.
Import API.

Lemma off_of_bytes_of_off o :
  0 <= o < 2 ^ 32 -> off_of_bytes (bytes_of_off o) = o.
Proof.
  intros Ho. unfold off_of_bytes, bytes_of_off. cbn [nth].
  change (2 ^ 32) with 4294967296 in Ho.
  pose proof (Z.div_mod o 256). pose proof (Z.mod_pos_bound o 256).
  pose proof (Z.div_mod (o / 256) 256).
  pose proof (Z.mod_pos_bound (o / 256) 256).
  pose proof (Z.div_mod (o / 65536) 256).
  pose proof (Z.mod_pos_bound (o / 65536) 256).
  replace (o / 65536) with (o / 256 / 256) in *
    by (rewrite Z.div_div by lia; done).
  replace (o / 16777216) with (o / 256 / 256 / 256)
    by (rewrite !Z.div_div by lia; done).
  rewrite (Z.mod_small (o / 256 / 256 / 256)); [lia|].
  split; [repeat apply Z.div_pos; lia|].
  repeat (apply Z.div_lt_upper_bound; [lia|]). lia.
Qed.

(** X2. The names of the back-link tree are the four bytes of a file
    offset, and [offset_comparer] orders them as the offsets are ordered:
    its result is the sign of the difference, so it is zero just for equal
    offsets and changes sign when its arguments are exchanged. *)
Theorem offset_comparer_sign (a b : Z) :
  0 <= a < 2 ^ 32 -> 0 <= b < 2 ^ 32 ->
  offset_comparer (bytes_of_off a) (bytes_of_off b) = Z.sgn (a - b)
  /\ (offset_comparer (bytes_of_off a) (bytes_of_off b) = 0 <-> a = b)
  /\ offset_comparer (bytes_of_off b) (bytes_of_off a)
     = - offset_comparer (bytes_of_off a) (bytes_of_off b).
Proof.
  intros Ha Hb. unfold offset_comparer.
  rewrite !off_of_bytes_of_off by done.
  destruct (Z.ltb_spec b a), (Z.ltb_spec a b); lia.
Qed.

Lemma offset_comparer_sign_witness :
  offset_comparer (bytes_of_off 4112) (bytes_of_off 70000) = -1
  /\ offset_comparer (bytes_of_off 70000) (bytes_of_off 4112) = 1.
Proof.
  destruct (offset_comparer_sign 4112 70000) as (H1 & _ & H3); [lia | lia |].
  rewrite H3, H1. done.
Defined.

(** X3. [strlen_l] returns the number of bytes before the first NUL of
    the string, but never more than [szbuf]: the bytes it counts are not
    NUL, and when it stops before [szbuf] the string ends there. *)
Theorem strlen_l_first_nul (str : list Z) (szbuf : nat) :
  exists k : nat,
    strlen_l str szbuf = Z.of_nat k
    /\ (k <= szbuf)%nat /\ (k <= length str)%nat
    /\ Forall (fun c => c <> 0) (take k str)
    /\ ((k < szbuf)%nat -> str !! k = None \/ str !! k = Some 0).
Proof.
  revert szbuf. induction str as [|c str IH]; intros szbuf.
  - exists O. destruct szbuf; simpl; split_and!; try done; try lia; by left.
  - destruct szbuf as [|n].
    { exists O. simpl. split_and!; try done; lia. }
    cbn [strlen_l]. destruct (Z.eqb_spec c 0) as [->|Hc].
    + exists O. simpl. split_and!; try done; try lia. by right.
    + destruct (IH n) as (k & Hk & Hn & Hl & Hnz & Hstop).
      exists (S k). rewrite Hk. simpl. split_and!; try lia.
      * by constructor.
      * intros Hlt. apply Hstop. lia.
Qed.

End Names.

(** ** More on the trees *)

Module AVLFacts.
Import AVL AVLRep Inorder API Delete.

(** *** The back-trace never overflows *)

(** The least number of nodes of a balanced tree of a given height. *)
Fixpoint min_pair (n : nat) : Z * Z :=
  match n with
  | O => (0, 1)
  | S m => let '(a, b) := min_pair m in (b, 1 + b + a)
  end.

Definition min_nodes (n : nat) : Z := (min_pair n).1.

Lemma min_nodes_step m :
  min_nodes (S (S m)) = 1 + min_nodes (S m) + min_nodes m.
Proof.
  unfold min_nodes. simpl. destruct (min_pair m) as [a b]. done.
Qed.

Lemma avl_min_nodes t : forall n,
  avl t -> Z.of_nat n <= height t ->
  min_nodes n <= Z.of_nat (length (elems t)).
Proof.
  induction t as [|l IHl o b k r IHr]; intros n Havl Hn.
  - simpl in Hn. assert (n = O) as -> by lia. done.
  - destruct Havl as (Hb & Hbr & Hal & Har). simpl in Hn.
    simpl elems. rewrite length_app. simpl length.
    pose proof (height_nonneg l). pose proof (height_nonneg r).
    destruct n as [|[|m]];
      [change (min_nodes 0) with 0; lia | change (min_nodes 1) with 1; lia |].
    rewrite min_nodes_step.
    destruct (decide (height l <= height r)).
    + specialize (IHr (S m) Har). specialize (IHl m Hal). lia.
    + specialize (IHl (S m) Hal). specialize (IHr m Har). lia.
Qed.

(** X4. A balanced tree of fewer than 44,945,570,212,852 nodes is at most
    64 levels high, so the search with back-trace on it never runs out of
    stack: [find_node_with_backtrace] returns, with at most 64 frames, and
    does not throw [AVSTOR_INTERNAL]. *)
Theorem backtrace_never_overflows (h : heap) (t : tree) (key : avstor_key) :
  rep h t -> avl t ->
  Z.of_nat (length (elems t)) < 44945570212852 ->
  height t <= Z.of_nat AVSTOR_AVL_HEIGHT
  /\ exists node st,
       find_node_with_backtrace h key (root_of t) = Ok (node, st)
       /\ (length st <= AVSTOR_AVL_HEIGHT)%nat.
Proof.
  intros Hrep Havl Hsize.
  assert (Hh : height t <= Z.of_nat AVSTOR_AVL_HEIGHT).
  { destruct (decide (height t <= Z.of_nat AVSTOR_AVL_HEIGHT)); [done|].
    pose proof (avl_min_nodes t 65 Havl) as Hmin.
    unfold AVSTOR_AVL_HEIGHT in *.
    assert (Hc : min_nodes 65 = 44945570212852) by (by vm_compute).
    rewrite Hc in Hmin. lia. }
  split; [done|].
  destruct (find_node_with_backtrace_spec key h (root_of t) t Hrep eq_refl Hh)
    as (c & t' & st & Hfind & Hplug & Hst & _ & _ & Hlen).
  exists (root_of t'), st. split; [done|].
  apply Forall2_length in Hst. rewrite <- Hst.
  pose proof (height_nonneg t'). lia.
Qed.

Lemma backtrace_never_overflows_witness :
  height ex_tree <= Z.of_nat AVSTOR_AVL_HEIGHT
  /\ exists node st,
       find_node_with_backtrace ex_heap (ex_key 25) (root_of ex_tree)
       = Ok (node, st)
       /\ (length st <= AVSTOR_AVL_HEIGHT)%nat.
Proof.
  apply (backtrace_never_overflows ex_heap ex_tree (ex_key 25)
           ex_tree_rep ex_tree_avl).
  simpl. lia.
Defined.

(** *** What rebalancing leaves alone *)

(** What a node is apart from its place in the tree. *)
Definition payload (n : AvNode) : Z * list Z * AvNodeData :=
  (n_type n, n_name n, n_data n).

(** The two stores hold the same nodes with the same payloads. *)
Definition same_payload (h h' : heap) : Prop :=
  forall o, payload <$> (h' !! o) = payload <$> (h !! o).

Lemma sp_refl h : same_payload h h.
Proof. done. Qed.

Lemma sp_alter (f : AvNode -> AvNode) h0 h o :
  (forall n, payload (f n) = payload n) ->
  same_payload h0 h -> same_payload h0 (alter f o h).
Proof.
  intros Hf Hsp o'. rewrite <- Hsp.
  destruct (decide (o' = o)) as [->|Hne].
  - rewrite lookup_alter_eq. destruct (h !! o); simpl; [|done]. by rewrite Hf.
  - by rewrite lookup_alter_ne.
Qed.

Lemma sp_set_bf h0 h o b : same_payload h0 h -> same_payload h0 (set_bf o b h).
Proof. by apply sp_alter. Qed.
Lemma sp_set_left h0 h o l :
  same_payload h0 h -> same_payload h0 (set_left o l h).
Proof. by apply sp_alter. Qed.
Lemma sp_set_right h0 h o r :
  same_payload h0 h -> same_payload h0 (set_right o r h).
Proof. by apply sp_alter. Qed.

Ltac sp_step :=
  repeat first [ apply sp_set_bf | apply sp_set_left | apply sp_set_right ];
  try done.

Lemma sp_rotate_right h0 h x z :
  same_payload h0 h -> same_payload h0 (rotate_right x z h).
Proof. intros Hsp. unfold rotate_right. case_match; sp_step. Qed.

Lemma sp_rotate_left h0 h x z :
  same_payload h0 h -> same_payload h0 (rotate_left x z h).
Proof. intros Hsp. unfold rotate_left. case_match; sp_step. Qed.

Lemma sp_rotate_right_left h0 h x z h' y :
  rotate_right_left x z h = Ok (h', y) ->
  same_payload h0 h -> same_payload h0 h'.
Proof.
  unfold rotate_right_left. destruct (lock_node h (left_of h z)); [|done].
  cbn [mbind res_bind]. intros [= <- <-] Hsp. repeat case_match; sp_step.
Qed.

Lemma sp_rotate_left_right h0 h x z h' y :
  rotate_left_right x z h = Ok (h', y) ->
  same_payload h0 h -> same_payload h0 h'.
Proof.
  unfold rotate_left_right. destruct (lock_node h (right_of h z)); [|done].
  cbn [mbind res_bind]. intros [= <- <-] Hsp. repeat case_match; sp_step.
Qed.

Lemma sp_backtrace_set_ref h0 h root below cur src h' root' :
  backtrace_set_ref h root below cur src = Ok (h', root') ->
  same_payload h0 h -> same_payload h0 h'.
Proof.
  unfold backtrace_set_ref. destruct below as [|[noderef comp] below].
  - by intros [= <- <-].
  - destruct (lock_node h noderef); [|done]. cbn [mbind res_bind].
    repeat case_match; intros [= <- <-] Hsp; sp_step.
Qed.

Lemma sp_assign_nref h0 src ref hr :
  same_payload h0 hr.1 -> same_payload h0 (assign_nref src ref hr).1.
Proof. destruct ref; simpl; intros Hsp; sp_step. Qed.

Lemma sp_balance_down h0 st : forall h root h' root',
  balance_down h root st = Ok (h', root') ->
  same_payload h0 h -> same_payload h0 h'.
Proof.
  induction st as [|[cur comp0] st IH]; intros h root h' root' Hb Hsp.
  - by injection Hb as <- <-.
  - cbn [balance_down] in Hb.
    destruct (lock_node h cur); [|done]. cbn [mbind res_bind] in Hb.
    destruct (BF h cur =? 0).
    { apply IH in Hb; [done|]. sp_step. }
    destruct (negb _); [|injection Hb as <- <-; sp_step].
    destruct (0 <? BF h cur).
    + destruct (lock_node h (right_of h cur)); [|done].
      cbn [mbind res_bind] in Hb. destruct (0 <? BF h (right_of h cur)).
      * eapply sp_backtrace_set_ref; [exact Hb|]. by apply sp_rotate_left.
      * destruct (rotate_right_left cur (right_of h cur) h) as [[h1 y]|] eqn:Hr;
          [|done].
        cbn [mbind res_bind] in Hb.
        eapply sp_backtrace_set_ref; [exact Hb|].
        by eapply sp_rotate_right_left.
    + destruct (lock_node h (left_of h cur)); [|done].
      cbn [mbind res_bind] in Hb. destruct (BF h (left_of h cur) <? 0).
      * eapply sp_backtrace_set_ref; [exact Hb|]. by apply sp_rotate_right.
      * destruct (rotate_left_right cur (left_of h cur) h) as [[h1 y]|] eqn:Hr;
          [|done].
        cbn [mbind res_bind] in Hb.
        eapply sp_backtrace_set_ref; [exact Hb|].
        by eapply sp_rotate_left_right.
Qed.

Lemma sp_insert_node h root item st h' root' :
  insert_node h root item st = Ok (h', root') -> same_payload h h'.
Proof.
  unfold insert_node. destruct st as [|[noderef comp] st].
  - intros [= <- <-]. sp_step.
  - destruct (lock_node h noderef); [|done]. cbn [mbind res_bind].
    destruct (assign_nref item _ (h, root)) as [h1 root1] eqn:Ha.
    intros Hb. eapply sp_balance_down; [exact Hb|].
    apply sp_set_bf.
    change h1 with (h1, root1).1. rewrite <- Ha. by apply sp_assign_nref.
Qed.

Lemma sp_balance_up h0 st : forall h root h' root',
  balance_up h root st = Ok (h', root') ->
  same_payload h0 h -> same_payload h0 h'.
Proof.
  induction st as [|[cur comp] st IH]; intros h root h' root' Hb Hsp.
  - by injection Hb as <- <-.
  - cbn [balance_up] in Hb.
    destruct (lock_node h cur); [|done]. cbn [mbind res_bind] in Hb.
    destruct (comp <? 0).
    + destruct (0 <? BF h cur).
      * destruct (lock_node h (right_of h cur)); [|done].
        cbn [mbind res_bind] in Hb.
        match type of Hb with
        | context [if ?c then rotate_right_left ?x ?z ?hh else _] =>
            destruct (if c then rotate_right_left x z hh
                      else Ok (rotate_left x z hh, z))
              as [[h1 z']|] eqn:Hr; [|done];
            assert (same_payload h0 h1)
              by (destruct c;
                  [by eapply sp_rotate_right_left
                  |injection Hr as <- <-; by apply sp_rotate_left])
        end.
        cbn [mbind res_bind] in Hb.
        destruct (backtrace_set_ref h1 root st cur z') as [[h2 r2]|] eqn:Hs;
          [|done].
        cbn [mbind res_bind] in Hb.
        assert (same_payload h0 h2) by (by eapply sp_backtrace_set_ref).
        destruct (BF h (right_of h cur) =? 0).
        -- by injection Hb as <- <-.
        -- by eapply IH.
      * destruct (BF h cur =? 0).
        -- injection Hb as <- <-. sp_step.
        -- eapply IH; [exact Hb|]. sp_step.
    + destruct (BF h cur <? 0).
      * destruct (lock_node h (left_of h cur)); [|done].
        cbn [mbind res_bind] in Hb.
        match type of Hb with
        | context [if ?c then rotate_left_right ?x ?z ?hh else _] =>
            destruct (if c then rotate_left_right x z hh
                      else Ok (rotate_right x z hh, z))
              as [[h1 z']|] eqn:Hr; [|done];
            assert (same_payload h0 h1)
              by (destruct c;
                  [by eapply sp_rotate_left_right
                  |injection Hr as <- <-; by apply sp_rotate_right])
        end.
        cbn [mbind res_bind] in Hb.
        destruct (backtrace_set_ref h1 root st cur z') as [[h2 r2]|] eqn:Hs;
          [|done].
        cbn [mbind res_bind] in Hb.
        assert (same_payload h0 h2) by (by eapply sp_backtrace_set_ref).
        destruct (BF h (left_of h cur) =? 0).
        -- by injection Hb as <- <-.
        -- by eapply IH.
      * destruct (BF h cur =? 0).
        -- injection Hb as <- <-. sp_step.
        -- eapply IH; [exact Hb|]. sp_step.
Qed.

Lemma sp_remove_node h root node st h' root' :
  remove_node h root node st = Ok (h', root') -> same_payload h h'.
Proof.
  unfold remove_node.
  match goal with |- context [mbind _ ?m] => destruct m as [ref|] eqn:Href end;
    [|done].
  cbn [mbind res_bind].
  match goal with |- context [mbind _ ?m] =>
    destruct m as [[[h1 root1] st1]|] eqn:Hcase end; [|done].
  cbn [mbind res_bind].
  destruct (balance_up h1 root1 st1) as [[h2 root2]|] eqn:Hup; [|done].
  cbn [mbind res_bind]. intros [= <- <-].
  assert (Hsp1 : same_payload h h1).
  { destruct ((left_of h node =? 0) && (right_of h node =? 0)).
    { injection Hcase as Ha _.
      change h1 with (h1, root1).1. rewrite <- Ha. by apply sp_assign_nref. }
    destruct ((left_of h node =? 0) || (right_of h node =? 0)).
    { injection Hcase as Ha _.
      change h1 with (h1, root1).1. rewrite <- Ha.
      apply sp_assign_nref. by apply sp_assign_nref. }
    destruct (backtrace_push st (node, 1)) as [stp|]; [|done].
    cbn [mbind res_bind] in Hcase.
    destruct (lock_node h (right_of h node)); [|done].
    cbn [mbind res_bind] in Hcase.
    destruct (succ_loop _ h (RightOf node) (right_of h node) [])
      as [[[ref' succ] pushed]|]; [|done].
    cbn [mbind res_bind] in Hcase.
    match type of Hcase with
    | context [lock_node ?hh node] =>
        assert (Hsp' : same_payload h hh);
        [|destruct (lock_node hh node); [|done];
          cbn [mbind res_bind] in Hcase;
          destruct (backtrace_set_ref hh root st node succ)
            as [[h3 root3]|] eqn:Hset; [|done];
          cbn [mbind res_bind] in Hcase; injection Hcase as <- _ _;
          apply sp_set_bf; by eapply sp_backtrace_set_ref]
    end.
    destruct pushed; [sp_step|].
    apply sp_set_right.
    match goal with |- same_payload _ (assign_nref ?a ?b ?c).1 =>
      apply (sp_assign_nref h a b c) end.
    simpl. sp_step. }
  apply sp_set_right, sp_set_left. by eapply sp_balance_up.
Qed.

(** X5. Inserting a node into a tree and removing one, with all the
    rotations of the rebalancing, change nothing but links and balance
    factors: afterwards the store holds the same nodes at the same
    offsets, each with the type, the name and the data it had. *)
Theorem rebalancing_keeps_payload (h : heap) (root node : Z) (st : AvStack)
    (h' : heap) (root' : Z) :
  insert_node h root node st = Ok (h', root')
  \/ remove_node h root node st = Ok (h', root') ->
  forall o, (h' !! o = None <-> h !! o = None)
            /\ forall n', h' !! o = Some n' ->
                 exists n, h !! o = Some n
                           /\ n_type n' = n_type n /\ n_name n' = n_name n
                           /\ n_data n' = n_data n.
Proof.
  intros Hop o.
  assert (Hsp : same_payload h h')
    by (destruct Hop; [by eapply sp_insert_node | by eapply sp_remove_node]).
  specialize (Hsp o). split.
  - destruct (h' !! o), (h !! o); simpl in Hsp; done.
  - intros n' Hn'. rewrite Hn' in Hsp.
    destruct (h !! o) as [n|]; [|done]. exists n. split; [done|].
    simpl in Hsp. unfold payload in Hsp. by simplify_eq.
Qed.

Lemma rebalancing_keeps_payload_witness :
  exists h' root',
    remove_node ex_heap 16 16 [] = Ok (h', root')
    /\ root' = 48
    /\ exists n', h' !! 48 = Some n'
                  /\ n_name n' = ex_name 30 /\ n_data n' = VLink 30
                  /\ n_left n' = 32.
Proof.
  assert (Hrm : exists h' root', remove_node ex_heap 16 16 [] = Ok (h', root')
                                 /\ root' = 48 /\ n_left (h' !!! 48) = 32
                                 /\ is_Some (h' !! 48)).
  { eexists _, _. split; [reflexivity|]. split; [reflexivity|].
    split; [reflexivity|]. by eexists. }
  destruct Hrm as (h' & root' & Hrm & Hroot & Hl & [n' Hn']).
  exists h', root'. split; [done|]. split; [done|].
  destruct (rebalancing_keeps_payload ex_heap 16 16 [] h' root' (or_intror Hrm) 48)
    as [_ Hkeep].
  destruct (Hkeep n' Hn') as (n & Hn & _ & Hname & Hdata).
  exists n'. split; [done|].
  assert (n = mk_node 0 8 0 0 (ex_name 30) (VLink 30)) as ->
    by (by vm_compute in Hn; simplify_eq).
  rewrite lookup_total_alt, Hn' in Hl. by split_and!.
Defined.

(** *** Lookup after insertion and removal *)

Lemma path_split key c : forall mid,
  path_ok key c -> key_sorted key (ctx_before c ++ mid ++ ctx_after c) ->
  Forall (fun e => 0 < cmpk key e.2) (ctx_before c)
  /\ Forall (fun e => cmpk key e.2 < 0) (ctx_after c).
Proof.
  induction c as [|[o b k r|l o b k] c IH]; intros mid Hp Hs.
  - split; constructor.
  - apply Forall_cons in Hp as (Hk & Hp). simpl in *.
    destruct (IH (mid ++ (o, k) :: elems r)) as (Hb & Ha); [done| |].
    { by rewrite <- !app_assoc. }
    split; [done|].
    rewrite app_assoc in Hs. apply dsorted_app in Hs as (_ & Hs).
    simpl in Hs. destruct Hs as (Hok & _).
    constructor; [done|]. apply Hok. unfold dcomp. lia.
  - apply Forall_cons in Hp as (Hk & Hp). simpl in *.
    destruct (IH (elems l ++ (o, k) :: mid)) as (Hb & Ha); [done| |].
    { rewrite <- !app_assoc in Hs. simpl in Hs. by rewrite <- !app_assoc. }
    split; [|done].
    apply Forall_app. split; [done|].
    rewrite <- !app_assoc in Hs. apply dsorted_app in Hs as (_ & Hs).
    simpl in Hs. apply Forall_app. split; [|by repeat constructor].
    pose proof (dsorted_before false key (elems l) (o, k) _ Hs) as Hl.
    unfold dcomp in Hl. simpl in Hl.
    eapply Forall_impl; [apply Hl; lia|]. simpl. intros e He. lia.
Qed.

Lemma dsorted_remove desc key l1 e l2 :
  dsorted desc key (l1 ++ e :: l2) -> dsorted desc key (l1 ++ l2).
Proof.
  induction l1 as [|e1 l1 IH]; simpl; [by intros (_ & ?)|].
  intros (He & Hs). split; [|by apply IH].
  intros Hc. specialize (He Hc).
  apply Forall_app in He as (H1 & H2). apply Forall_cons in H2 as (_ & H2).
  by apply Forall_app.
Qed.

Lemma dsorted_insert key l1 e l2 :
  dsorted false key (l1 ++ l2) ->
  Forall (fun e' => 0 < cmpk key e'.2) l1 ->
  Forall (fun e' => cmpk key e'.2 < 0) l2 ->
  dsorted false key (l1 ++ e :: l2).
Proof.
  intros Hs H1 H2. induction H1 as [|e1 l1 He1 H1 IH]; simpl in *.
  - split; [done|]. done.
  - destruct Hs as (_ & Hs). split; [|by apply IH].
    unfold dcomp. lia.
Qed.

Lemma find_name_skip key l1 e l2 :
  cmpk key e.2 <> 0 ->
  find_name key (l1 ++ e :: l2) = find_name key (l1 ++ l2).
Proof.
  intros He. induction l1 as [|e1 l1 IH]; simpl.
  - by replace (cmpk key e.2 =? 0) with false by lia.
  - by rewrite IH.
Qed.

(** X6. After [insert_node] has linked a new node at the place where the
    search for its key ended, [find_key] with that key returns the new
    node, and with any other key (for which the new sequence of names is
    in order) the node it returned before. *)
Theorem insert_then_find (h : heap) (t : tree) (key : avstor_key)
    (st : AvStack) (item : Z) (n0 : AvNode) :
  rep h t -> NoDup (offsets t) -> avl t ->
  height t <= Z.of_nat AVSTOR_AVL_HEIGHT -> key_sorted key (elems t) ->
  find_node_with_backtrace h key (root_of t) = Ok (0, st) ->
  h !! item = Some n0 -> n_left n0 = 0 -> n_right n0 = 0 ->
  item <> 0 -> item ∉ offsets t -> cmpk key (n_name n0) = 0 ->
  exists h' root' before after fuel0,
    insert_node h (root_of t) item st = Ok (h', root')
    /\ elems t = before ++ after
    /\ forall fuel, (fuel0 <= fuel)%nat ->
         find_key fuel h' key root' = Some (Ok item)
         /\ forall key2,
              key_sorted key2 (before ++ (item, n_name n0) :: after) ->
              cmpk key2 (n_name n0) <> 0 ->
              find_key fuel h' key2 root'
              = Some (Ok (find_name key2 (elems t))).
Proof.
  intros Hrep Hnd Havl Hh Hs Hfind Hitem Hl0 Hr0 Hi0 Hnin Hcmp.
  destruct (find_node_with_backtrace_spec key h (root_of t) t Hrep eq_refl Hh)
    as (c & t0 & st0 & Hf0 & Hplug & Hst & Hpath & _ & _).
  rewrite Hfind in Hf0. injection Hf0 as Hroot0 <-. subst t.
  pose proof (rep_plug_inv h c t0 Hrep) as Hrep0.
  symmetry in Hroot0. apply (rep_root_0 h) in Hroot0 as ->; [|done].
  destruct (insert_node_spec h (root_of (plug c Leaf)) c st item n0)
    as (h' & root' & t' & Hins & Hrep' & Hroot' & _ & _ & He' & _); try done.
  rewrite elems_plug_split in Hs. simpl in Hs.
  destruct (path_split key c [] Hpath Hs) as (Hb & Ha).
  exists h', root', (ctx_before c), (ctx_after c), (Z.to_nat (height t')).
  split; [done|]. split; [by rewrite elems_plug_split|].
  intros fuel Hfuel. subst root'. split.
  - rewrite (find_key_spec key h' t' fuel Hrep') by (lia || rewrite He';
      by apply dsorted_insert).
    rewrite He', find_name_app_none; simpl.
    + by replace (cmpk key (n_name n0) =? 0) with true by lia.
    + eapply Forall_impl; [exact Hb|]. simpl. intros; lia.
  - intros key2 Hs2 Hne.
    rewrite (find_key_spec key2 h' t' fuel Hrep') by (lia || by rewrite He').
    rewrite He', elems_plug_split. simpl.
    by rewrite (find_name_skip key2 _ (item, n_name n0)).
Qed.

Lemma insert_then_find_witness :
  exists h' root' fuel,
    insert_node ex_heap 16 64 [(48, -1); (16, 1)] = Ok (h', root')
    /\ find_key fuel h' (ex_key 25) root' = Some (Ok 64).
Proof.
  destruct (insert_then_find ex_heap ex_tree (ex_key 25) [(48, -1); (16, 1)] 64
              (mk_node 0 8 0 0 (ex_name 25) (VLink 25))
              ex_tree_rep ex_tree_NoDup ex_tree_avl)
    as (h' & root' & before & after & fuel0 & Hins & _ & Hfind);
    try reflexivity.
  - by vm_compute.
  - apply ex_key_sorted.
  - lia.
  - apply (bool_decide_unpack _). by vm_compute.
  - exists h', root', fuel0. split; [exact Hins|].
    by destruct (Hfind fuel0 (le_n _)) as [Hf _].
Defined.

(** X7. After [remove_node] has taken out the node that the search for a
    key found, [find_key] with that key finds nothing, and with any other
    key (for which the names of the tree are in order) it returns the
    node it returned before. *)
Theorem remove_then_find (h : heap) (t : tree) (key : avstor_key)
    (st : AvStack) (node : Z) :
  rep h t -> NoDup (offsets t) -> avl t ->
  height t <= Z.of_nat AVSTOR_AVL_HEIGHT -> key_sorted key (elems t) ->
  find_node_with_backtrace h key (root_of t) = Ok (node, st) -> node <> 0 ->
  exists h' root' k fuel0,
    remove_node h (root_of t) node st = Ok (h', root')
    /\ (node, k) ∈ elems t /\ cmpk key k = 0
    /\ forall fuel, (fuel0 <= fuel)%nat ->
         find_key fuel h' key root' = Some (Ok 0)
         /\ forall key2,
              key_sorted key2 (elems t) -> cmpk key2 k <> 0 ->
              find_key fuel h' key2 root'
              = Some (Ok (find_name key2 (elems t))).
Proof.
  intros Hrep Hnd Havl Hh Hs Hfind Hnode.
  destruct (find_node_with_backtrace_spec key h (root_of t) t Hrep eq_refl Hh)
    as (c & t0 & st0 & Hf0 & Hplug & Hst & _ & Hfound & Hlen).
  rewrite Hfind in Hf0. injection Hf0 as Hroot0 <-.
  destruct t0 as [|l o b k0 r]; [done|]. simpl in Hroot0. subst o t.
  destruct (remove_node_spec h (root_of (plug c (Node l node b k0 r)))
              c st l node b k0 r)
    as (h' & root' & t' & Hr & Hrep' & Hroot' & _ & _ & He' & _);
    try done; [lia|].
  assert (HeT : elems (plug c (Node l node b k0 r))
                = (ctx_before c ++ elems l) ++ (node, k0)
                  :: (elems r ++ ctx_after c)).
  { rewrite elems_plug_split. simpl. by rewrite <- !app_assoc. }
  assert (He'' : elems t' = (ctx_before c ++ elems l) ++ (elems r ++ ctx_after c)).
  { by rewrite He', <- !app_assoc. }
  rewrite HeT in *. simpl in Hfound.
  exists h', root', k0, (Z.to_nat (height t')).
  split; [done|]. split.
  { apply elem_of_app. right. by left. }
  split; [done|].
  intros fuel Hfuel. subst root'. split.
  - rewrite (find_key_spec key h' t' fuel Hrep')
      by (lia || rewrite He''; by eapply dsorted_remove).
    rewrite He''. apply f_equal, f_equal, find_name_none, Forall_app. split.
    + apply (key_sorted_before key _ (node, k0) (elems r ++ ctx_after c));
        [done | simpl; lia].
    + apply (key_sorted_after key (ctx_before c ++ elems l) (node, k0));
        [done | simpl; lia].
  - intros key2 Hs2 Hne.
    rewrite (find_key_spec key2 h' t' fuel Hrep')
      by (lia || rewrite He''; by eapply dsorted_remove).
    rewrite He''. by rewrite (find_name_skip key2 _ (node, k0)).
Qed.

Lemma remove_then_find_witness :
  exists h' root' fuel,
    remove_node ex_heap 16 16 [] = Ok (h', root')
    /\ find_key fuel h' (ex_key 20) root' = Some (Ok 0).
Proof.
  destruct (remove_then_find ex_heap ex_tree (ex_key 20) [] 16
              ex_tree_rep ex_tree_NoDup ex_tree_avl)
    as (h' & root' & k & fuel0 & Hrm & _ & _ & Hfind);
    try reflexivity.
  - by vm_compute.
  - apply ex_key_sorted.
  - lia.
  - exists h', root', fuel0. split; [exact Hrm|].
    by destruct (Hfind fuel0 (le_n _)) as [Hf _].
Defined.

End AVLFacts.

(** ** Links and their back links

    What [avstor_create_link] and [avstor_delete] do to the back-link
    tree of the header: a link enters its target there, a deleted link
    leaves it, and a target cannot be deleted. *)

Module Links.
Import AVL AVLRep Inorder API Delete AVLFacts.














Lemma link_key_name target :
  take (Z.to_nat (key_len (link_key target))) (key_buf (link_key target))
  = bytes_of_off target.
Proof. reflexivity. Qed.
















(** *** Examples *)

















End Links.

(** ** Reading pages back, and the state of the cache *)

Module CacheIO.
Import Checksum Cache.

(** [read_page], after [io_read] has returned [numread] and left its
    bytes in the frame. *)
Definition read_page (numread : Z) (page : AvPage) : AvPage * avstor_err :=
  if numread =? 0 then (page, AVSTOR_IOERR)
  else if numread <? 0 then (page, AVSTOR_IOERR)
  else if numread <? PAGE_SIZE then (page, AVSTOR_CORRUPT)
  else
    let checksum := load_u32 page OFS_checksum in
    let page := store_u32 OFS_checksum 0 page in
    if negb (checksum =? compute_page_checksum page)
    then (store_u32 OFS_checksum checksum page, AVSTOR_CORRUPT)
    else (store_u32 OFS_checksum checksum page, AVSTOR_OK).

(** The loop of [avs_check_cache_consistency] over a row. *)
Fixpoint check_row (items : list CacheItem) : bool :=
  match items with
  | [] => true
  | it :: rest =>
      match ci_page it with
      | None => true
      | Some page =>
          if negb (load_u32 page OFS_lock_count =? 0) then false
          else check_row rest
      end
  end.

Definition avs_check_cache_consistency (c : PageCache) : avstor_err :=
  if forallb check_row (rows c) then AVSTOR_OK else AVSTOR_CORRUPT.

(** *** The checksum on the way back *)

Lemma checksum_loop_ext p q : forall cnt cp a b,
  (forall i, cp <= i < cp + Z.of_nat cnt -> q i = p i) ->
  checksum_loop q cnt cp a b = checksum_loop p cnt cp a b.
Proof.
  induction cnt as [|cnt IH]; intros cp a b H; [done|].
  cbn [checksum_loop]. rewrite H by lia. apply IH. intros i Hi. apply H. lia.
Qed.

Lemma compute_page_checksum_ext p q :
  (forall i, 0 <= i < PAGE_SIZE -> q i = p i) ->
  compute_page_checksum q = compute_page_checksum p.
Proof.
  intros H. unfold compute_page_checksum.
  rewrite (checksum_loop_ext p q); [done|].
  intros i Hi. apply H. unfold PAGE_SIZE in *. lia.
Qed.

Lemma load_u32_ext p q o :
  (forall i, o <= i < o + 4 -> q i = p i) -> load_u32 q o = load_u32 p o.
Proof. intros H. unfold load_u32. rewrite !H by lia. done. Qed.

Lemma compute_page_checksum_range p :
  is_bytes p -> 0 <= compute_page_checksum p < 2 ^ 32.
Proof.
  intros Hp. rewrite compute_page_checksum_adler32 by done. apply adler32_range.
Qed.

Lemma store_load_u32_id q o v i :
  (forall j, o <= j < o + 4 -> 0 <= q j < 256) ->
  store_u32 o (load_u32 q o) (store_u32 o v q) i = q i.
Proof.
  intros Hq.
  pose proof (Hq o ltac:(lia)). pose proof (Hq (o + 1) ltac:(lia)).
  pose proof (Hq (o + 2) ltac:(lia)). pose proof (Hq (o + 3) ltac:(lia)).
  clear Hq. unfold store_u32, load_u32.
  destruct (Z.eqb_spec i o) as [->|?];
    [Z.div_mod_to_equations; lia|].
  destruct (Z.eqb_spec i (o + 1)) as [->|?];
    [Z.div_mod_to_equations; lia|].
  destruct (Z.eqb_spec i (o + 2)) as [->|?];
    [Z.div_mod_to_equations; lia|].
  destruct (Z.eqb_spec i (o + 3)) as [->|?];
    [Z.div_mod_to_equations; lia|].
  done.
Qed.

Lemma store_u32_other p o v i :
  i < o \/ o + 4 <= i -> store_u32 o v p i = p i.
Proof.
  intros Hi. unfold store_u32.
  replace (i =? o) with false by lia. replace (i =? o + 1) with false by lia.
  replace (i =? o + 2) with false by lia. by replace (i =? o + 3) with false by lia.
Qed.

Lemma store_u32_agree a b o v i :
  (i < o \/ o + 4 <= i -> a i = b i) -> store_u32 o v a i = store_u32 o v b i.
Proof.
  intros H. destruct (decide (i < o \/ o + 4 <= i)) as [Hi|Hi].
  - rewrite !store_u32_other by done. by apply H.
  - unfold store_u32. repeat case_match; try done; lia.
Qed.

Lemma cleaned_is_bytes p : is_bytes p -> is_bytes (cleaned p).
Proof.
  intros Hp. unfold cleaned, update_page_checksum.
  by apply store_u32_is_bytes, store_u32_is_bytes, set_page_clean_is_bytes.
Qed.

Lemma read_page_full page :
  read_page PAGE_SIZE page
  = let checksum := load_u32 page OFS_checksum in
    let page := store_u32 OFS_checksum 0 page in
    if negb (checksum =? compute_page_checksum page)
    then (store_u32 OFS_checksum checksum page, AVSTOR_CORRUPT)
    else (store_u32 OFS_checksum checksum page, AVSTOR_OK).
Proof.
  unfold read_page.
  destruct (Z.eqb_spec PAGE_SIZE 0) as [H|_]; [unfold PAGE_SIZE in H; lia|].
  destruct (Z.ltb_spec PAGE_SIZE 0) as [H|_]; [unfold PAGE_SIZE in H; lia|].
  destruct (Z.ltb_spec PAGE_SIZE PAGE_SIZE) as [H|_]; [lia|]. done.
Qed.

(** X8. A frame that [write_page] has written is accepted when it is
    read back: for a dirty frame and a complete write, [read_page] on a
    frame that holds the bytes that went to the file returns [AVSTOR_OK]
    and leaves these bytes as they are. *)
Theorem written_page_reads_back (env : io_env) (log : list io_event)
    (p q : AvPage) :
  is_bytes p -> is_page_dirty p = true ->
  PAGE_SIZE <= env_write env (load_u32 p OFS_page_offset) ->
  exists p',
    write_page env log p
    = (p', log ++ [EvWrite (load_u32 p OFS_page_offset) (page_bytes p')
                     (env_write env (load_u32 p OFS_page_offset))],
       AVSTOR_OK)
    /\ ((forall i, 0 <= i < PAGE_SIZE -> q i = p' i) ->
        (read_page PAGE_SIZE q).2 = AVSTOR_OK
        /\ forall i, 0 <= i < PAGE_SIZE -> (read_page PAGE_SIZE q).1 i = q i).
Proof.
  intros Hb Hd Hw. exists (cleaned p). split.
  { rewrite (write_page_ok env log p) by (by intros _).
    unfold committed_frame. simpl. rewrite Hd. done. }
  intros Hq.
  assert (Hbc : is_bytes (store_u32 OFS_checksum 0 (set_page_clean p)))
    by (by apply store_u32_is_bytes, set_page_clean_is_bytes).
  assert (Hsum : load_u32 q OFS_checksum
                 = compute_page_checksum (store_u32 OFS_checksum 0 q)).
  { rewrite (load_u32_ext (cleaned p) q)
      by (intros i Hi; apply Hq; unfold OFS_checksum, PAGE_SIZE in *; lia).
    unfold cleaned, update_page_checksum.
    rewrite load_store_u32 by (by apply compute_page_checksum_range).
    symmetry. apply compute_page_checksum_ext. intros i Hi.
    apply store_u32_agree. intros Hout. rewrite Hq by done.
    unfold cleaned, update_page_checksum. by rewrite !store_u32_other. }
  rewrite read_page_full. cbv zeta.
  rewrite <- Hsum, Z.eqb_refl. cbn [negb fst snd].
  split; [done|]. intros i Hi.
  apply store_load_u32_id. intros j Hj.
  rewrite Hq by (unfold PAGE_SIZE, OFS_checksum in *; lia).
  by apply cleaned_is_bytes.
Qed.

(** The sum of the bytes that the loop of [compute_page_checksum] adds
    up. *)
Fixpoint sum_from (p : AvPage) (cnt : nat) (cp : Z) : Z :=
  match cnt with
  | O => 0
  | S cnt' => p cp + sum_from p cnt' (cp + 1)
  end.

Lemma raw_sums_fst p : forall cnt cp a b,
  0 <= cp ->
  (raw_sums (List.map (fun n => p (Z.of_nat n)) (List.seq (Z.to_nat cp) cnt)) a b).1
  = a + sum_from p cnt cp.
Proof.
  induction cnt as [|cnt IH]; intros cp a b Hcp; simpl; [lia|].
  rewrite Z2Nat.id by lia.
  replace (S (Z.to_nat cp)) with (Z.to_nat (cp + 1)) by lia.
  rewrite IH by lia. lia.
Qed.

Lemma checksum_low p :
  is_bytes p ->
  compute_page_checksum p mod 65536
  = (1 + sum_from p (Z.to_nat PAGE_SIZE) 0) mod MOD_ADLER.
Proof.
  intros Hp. unfold compute_page_checksum. rewrite raw_sums_page by done.
  pose proof (raw_sums_fst p (Z.to_nat PAGE_SIZE) 0 1 0 ltac:(lia)) as Ha.
  change (Z.to_nat 0) with O in Ha. fold (page_bytes p) in Ha.
  destruct (raw_sums (page_bytes p) 1 0) as [a b]. cbn [fst] in Ha. subst a.
  pose proof (Z.mod_pos_bound b MOD_ADLER eq_refl) as Hb.
  pose proof (Z.mod_pos_bound (1 + sum_from p (Z.to_nat PAGE_SIZE) 0)
                MOD_ADLER eq_refl) as Ha.
  unfold MOD_ADLER in *.
  replace (u32 (Z.shiftl (b mod 65521) 16)) with (Z.shiftl (b mod 65521) 16)
    by (unfold u32; rewrite Z.shiftl_mul_pow2 by lia;
        change (2 ^ 16) with 65536; change (2 ^ 32) with 4294967296;
        symmetry; apply Z.mod_small; lia).
  rewrite lor_shiftl_16 by (change (2 ^ 16) with 65536; lia).
  change (2 ^ 16) with 65536.
  rewrite Z.add_comm, Z.mod_add by lia. apply Z.mod_small. lia.
Qed.

Lemma sum_from_diff p q i0 : forall cnt cp,
  (forall i, cp <= i < cp + Z.of_nat cnt -> i <> i0 -> q i = p i) ->
  sum_from q cnt cp - sum_from p cnt cp
  = if (cp <=? i0) && (i0 <? cp + Z.of_nat cnt) then q i0 - p i0 else 0.
Proof.
  induction cnt as [|cnt IH]; intros cp H.
  - cbn [sum_from]. change (Z.of_nat 0) with 0.
    destruct (Z.leb_spec cp i0), (Z.ltb_spec i0 (cp + 0)); simpl; lia.
  - cbn [sum_from]. specialize (IH (cp + 1)).
    rewrite Nat2Z.inj_succ in *.
    assert (Hd : sum_from q cnt (cp + 1) - sum_from p cnt (cp + 1)
                 = (if (cp + 1 <=? i0) && (i0 <? cp + 1 + Z.of_nat cnt)
                    then q i0 - p i0 else 0))
      by (apply IH; intros i Hi; apply H; lia).
    destruct (decide (cp = i0)) as [->|Hne].
    + replace ((i0 + 1 <=? i0) && (i0 <? i0 + 1 + Z.of_nat cnt)) with false in Hd
        by (destruct (Z.leb_spec (i0 + 1) i0); simpl; lia).
      replace ((i0 <=? i0) && (i0 <? i0 + Z.succ (Z.of_nat cnt))) with true
        by (destruct (Z.leb_spec i0 i0),
                     (Z.ltb_spec i0 (i0 + Z.succ (Z.of_nat cnt))); simpl; lia).
      lia.
    + rewrite (H cp) by lia.
      replace ((cp <=? i0) && (i0 <? cp + Z.succ (Z.of_nat cnt)))
        with ((cp + 1 <=? i0) && (i0 <? cp + 1 + Z.of_nat cnt))
        by (destruct (Z.leb_spec (cp + 1) i0), (Z.leb_spec cp i0),
                     (Z.ltb_spec i0 (cp + 1 + Z.of_nat cnt)),
                     (Z.ltb_spec i0 (cp + Z.succ (Z.of_nat cnt))); simpl; lia).
      lia.
Qed.

Lemma ex_frame_is_bytes ofs status : is_bytes (ex_frame ofs status).
Proof.
  intros i. unfold ex_frame, store_u8, store_u32, u8.
  repeat case_match; try (apply Z.mod_pos_bound; done); lia.
Qed.

Lemma written_page_reads_back_witness :
  exists p',
    write_page env_ok [] (ex_frame 4096 PAGE_DIRTY)
    = (p', [EvWrite 4096 (page_bytes p') PAGE_SIZE], AVSTOR_OK)
    /\ (read_page PAGE_SIZE (cleaned (ex_frame 4096 PAGE_DIRTY))).2 = AVSTOR_OK.
Proof.
  destruct (written_page_reads_back env_ok [] (ex_frame 4096 PAGE_DIRTY)
              (cleaned (ex_frame 4096 PAGE_DIRTY))
              (ex_frame_is_bytes 4096 PAGE_DIRTY))
    as (p' & Hw & Hr); [reflexivity | reflexivity |].
  exists p'. split; [exact Hw|].
  rewrite (write_page_ok env_ok [] (ex_frame 4096 PAGE_DIRTY)) in Hw
    by (by intros _).
  apply (f_equal (fun x => x.1.1)) in Hw. cbn [fst] in Hw.
  apply Hr. intros i _. by rewrite <- Hw.
Defined.

Lemma store_u32_zero_range q o i :
  (i < o \/ o + 4 <= i -> 0 <= q i < 256) -> 0 <= store_u32 o 0 q i < 256.
Proof.
  intros H. destruct (decide (i < o \/ o + 4 <= i)) as [Hi|Hi].
  - rewrite store_u32_other by done. by apply H.
  - clear H. unfold store_u32. repeat case_match; try lia; by vm_compute.
Qed.

(** The frame inside the page, zero outside it. *)
Definition in_page (p : AvPage) : AvPage :=
  fun i => if (0 <=? i) && (i <? PAGE_SIZE) then p i else 0.

Lemma in_page_same p i : 0 <= i < PAGE_SIZE -> in_page p i = p i.
Proof.
  intros Hi. unfold in_page.
  by destruct (Z.leb_spec 0 i), (Z.ltb_spec i PAGE_SIZE); cbn [andb]; try lia.
Qed.

Lemma cleaned_checksum_field p :
  is_bytes p ->
  load_u32 (cleaned p) OFS_checksum
  = compute_page_checksum (store_u32 OFS_checksum 0 (cleaned p)).
Proof.
  intros Hb. unfold cleaned, update_page_checksum at 1.
  rewrite load_store_u32
    by (by apply compute_page_checksum_range, store_u32_is_bytes,
                 set_page_clean_is_bytes).
  apply compute_page_checksum_ext. intros i Hi.
  apply store_u32_agree. intros Hout.
  unfold update_page_checksum. by rewrite !store_u32_other.
Qed.

Lemma checksum_differs w q0 w0 i0 :
  is_bytes q0 -> is_bytes w0 -> 0 <= i0 < PAGE_SIZE ->
  q0 i0 <> w0 i0 ->
  (forall i, 0 <= i < PAGE_SIZE -> i <> i0 -> q0 i = w0 i) ->
  compute_page_checksum w = compute_page_checksum w0 ->
  compute_page_checksum w <> compute_page_checksum q0.
Proof.
  intros Hq0b Hw0b Hi0 Hne Hag Hww Hc. rewrite Hww in Hc. clear Hww w.
  apply (f_equal (fun x => x mod 65536)) in Hc.
  rewrite !checksum_low in Hc by done.
  assert (HP : Z.of_nat (Z.to_nat PAGE_SIZE) = PAGE_SIZE) by done.
  pose proof (sum_from_diff w0 q0 i0 (Z.to_nat PAGE_SIZE) 0) as Hd.
  rewrite HP in Hd.
  replace ((0 <=? i0) && (i0 <? 0 + PAGE_SIZE)) with true
    in Hd by (destruct (Z.leb_spec 0 i0), (Z.ltb_spec i0 (0 + PAGE_SIZE));
              cbn [andb]; lia).
  specialize (Hd ltac:(intros i Hi Hn; apply Hag; lia)).
  pose proof (Hq0b i0). pose proof (Hw0b i0).
  unfold MOD_ADLER in *.
  remember (sum_from q0 (Z.to_nat PAGE_SIZE) 0) as S1.
  remember (sum_from w0 (Z.to_nat PAGE_SIZE) 0) as S2.
  clear HeqS1 HeqS2 Hag Hq0b Hw0b HP.
  Z.div_mod_to_equations. lia.
Qed.

Lemma stored_checksum_differs w q i0 :
  is_bytes w -> 0 <= i0 < 4 -> 0 <= q i0 < 256 -> q i0 <> w i0 ->
  (forall i, 0 <= i < 4 -> i <> i0 -> q i = w i) ->
  load_u32 q 0 <> load_u32 w 0.
Proof.
  intros Hw Hi0 Hq0 Hne Hq Hc. unfold load_u32 in Hc.
  change (0 + 1) with 1 in Hc. change (0 + 2) with 2 in Hc.
  change (0 + 3) with 3 in Hc.
  pose proof (Hw 0). pose proof (Hw 1). pose proof (Hw 2). pose proof (Hw 3).
  destruct (decide (i0 = 0)) as [->|?];
    [rewrite (Hq 1), (Hq 2), (Hq 3) in Hc by lia; lia|].
  destruct (decide (i0 = 1)) as [->|?];
    [rewrite (Hq 0), (Hq 2), (Hq 3) in Hc by lia; lia|].
  destruct (decide (i0 = 2)) as [->|?];
    [rewrite (Hq 0), (Hq 1), (Hq 3) in Hc by lia; lia|].
  assert (i0 = 3) as -> by lia.
  rewrite (Hq 0), (Hq 1), (Hq 2) in Hc by lia. lia.
Qed.

Lemma changed_frame_mismatch w q i0 :
  is_bytes w ->
  load_u32 w 0 = compute_page_checksum (store_u32 0 0 w) ->
  0 <= i0 < PAGE_SIZE -> 0 <= q i0 < 256 -> q i0 <> w i0 ->
  (forall i, 0 <= i < PAGE_SIZE -> i <> i0 -> q i = w i) ->
  load_u32 q 0 <> compute_page_checksum (store_u32 0 0 q).
Proof.
  intros Hw Hwsum Hi0 Hq0 Hne Hq Hc.
  assert (HP : PAGE_SIZE = 4096) by done.
  destruct (decide (i0 < 4)) as [Hlow|Hhigh].
  - assert (Hsame : compute_page_checksum (store_u32 0 0 q)
                    = compute_page_checksum (store_u32 0 0 w)).
    { apply compute_page_checksum_ext. intros i Hi. apply store_u32_agree.
      intros Hout. apply Hq; lia. }
    rewrite Hsame, <- Hwsum in Hc.
    apply (stored_checksum_differs w q i0); try assumption; [lia|].
    intros i Hi Hn. apply Hq; lia.
  - rewrite (load_u32_ext w q) in Hc by (intros i Hi; apply Hq; lia).
    rewrite Hwsum in Hc.
    assert (Hcq : compute_page_checksum (store_u32 0 0 q)
                  = compute_page_checksum (in_page (store_u32 0 0 q))).
    { symmetry. apply compute_page_checksum_ext. intros i Hi.
      by apply in_page_same. }
    rewrite Hcq in Hc.
    apply (checksum_differs (store_u32 0 0 w) (in_page (store_u32 0 0 q))
             (store_u32 0 0 w) i0); [ | | exact Hi0 | | | reflexivity | exact Hc].
    + intros i. unfold in_page.
      destruct (Z.leb_spec 0 i), (Z.ltb_spec i PAGE_SIZE); cbn [andb]; try lia.
      apply store_u32_zero_range. intros Hout.
      destruct (decide (i = i0)) as [->|?]; [done|].
      rewrite Hq by lia. apply Hw.
    + by apply store_u32_is_bytes.
    + rewrite in_page_same by lia. rewrite !store_u32_other by lia. exact Hne.
    + intros i Hi Hn. rewrite in_page_same by lia.
      apply store_u32_agree. intros _. apply Hq; lia.
Qed.

(** X9. [read_page] notices every change of a single byte: when the
    frame it has read differs in exactly one byte, anywhere in the page,
    from a frame that [write_page] sent to the file, it returns
    [AVSTOR_CORRUPT]. *)
Theorem single_byte_change_detected (p q : AvPage) (i0 : Z) :
  is_bytes p -> 0 <= i0 < PAGE_SIZE ->
  0 <= q i0 < 256 -> q i0 <> cleaned p i0 ->
  (forall i, 0 <= i < PAGE_SIZE -> i <> i0 -> q i = cleaned p i) ->
  (read_page PAGE_SIZE q).2 = AVSTOR_CORRUPT.
Proof.
  intros Hb Hi0 Hq0 Hne Hq.
  pose proof (changed_frame_mismatch (cleaned p) q i0 (cleaned_is_bytes p Hb)
                (cleaned_checksum_field p Hb) Hi0 Hq0 Hne Hq) as Hmis.
  rewrite read_page_full.
  change (load_u32 q 0 <> compute_page_checksum (store_u32 OFS_checksum 0 q))
    in Hmis.
  apply Z.eqb_neq in Hmis.
  change (load_u32 q OFS_checksum) with (load_u32 q 0).
  cbv zeta. by rewrite Hmis.
Qed.

Lemma single_byte_change_detected_witness :
  (read_page PAGE_SIZE (store_u8 100 1 (cleaned (ex_frame 4096 PAGE_DIRTY)))).2
  = AVSTOR_CORRUPT.
Proof.
  apply (single_byte_change_detected (ex_frame 4096 PAGE_DIRTY) _ 100
           (ex_frame_is_bytes 4096 PAGE_DIRTY)).
  - unfold PAGE_SIZE. lia.
  - by vm_compute.
  - by vm_compute.
  - intros i Hi Hne. unfold store_u8. by replace (i =? 100) with false by lia.
Defined.

(** *** Commit and rollback, once more *)

Lemma write_page_clean env log p :
  is_page_dirty p = false -> write_page env log p = (p, log, AVSTOR_OK).
Proof. intros Hd. unfold write_page. by rewrite Hd. Qed.

Lemma write_page_result_clean env log p p' log' :
  write_page env log p = (p', log', AVSTOR_OK) -> is_page_dirty p' = false.
Proof.
  unfold write_page. destruct (is_page_dirty p) eqn:Hd.
  - cbv zeta. case_match; [done|]. intros [= <- _].
    pose proof (committed_frame_clean p) as Hc.
    unfold committed_frame in Hc. by rewrite Hd in Hc.
  - by intros [= <- _].
Qed.

Lemma with_page_same it p : ci_page it = Some p -> with_page p it = it.
Proof. destruct it as [pg o t]. simpl. by intros ->. Qed.

Lemma commit_row_again env env2 : forall items log items' log' log2,
  commit_row env log items = (items', log', AVSTOR_OK) ->
  commit_row env2 log2 items' = (items', log2, AVSTOR_OK).
Proof.
  induction items as [|it rest IH]; intros log items' log' log2 H.
  - by injection H as <- _.
  - cbn [commit_row] in H. destruct (ci_page it) as [p|] eqn:Hp.
    + destruct (write_page env log p) as [[p1 log1] e1] eqn:Hw.
      destruct e1; try (by injection H).
      destruct (commit_row env log1 rest) as [[rest1 log1'] e1'] eqn:Hr.
      injection H as <- _ ->.
      cbn [commit_row with_page ci_page].
      rewrite (write_page_clean env2 log2 p1)
        by (by eapply write_page_result_clean).
      rewrite (IH _ _ _ log2 Hr). done.
    + injection H as <- _. cbn [commit_row]. by rewrite Hp.
Qed.

Lemma commit_rows_again env env2 : forall rs log rs' log' log2,
  commit_rows env log rs = (rs', log', AVSTOR_OK) ->
  commit_rows env2 log2 rs' = (rs', log2, AVSTOR_OK).
Proof.
  induction rs as [|row rs IH]; intros log rs' log' log2 H.
  - by injection H as <- _.
  - cbn [commit_rows] in H.
    destruct (commit_row env log row) as [[row1 log1] e1] eqn:Hrow.
    destruct e1; try (by injection H).
    destruct (commit_rows env log1 rs) as [[rs1 log1'] e1'] eqn:Hrs.
    injection H as <- _ ->. cbn [commit_rows].
    rewrite (commit_row_again env env2 _ _ _ _ log2 Hrow).
    rewrite (IH _ _ _ log2 Hrs). done.
Qed.

(** X10. A commit right after a successful [avstor_commit] writes
    nothing and changes nothing: whatever the file system would do with a
    write, [avstor_commit] without flush returns [AVSTOR_OK] and leaves the
    cache and the log of the file as they are. *)
Theorem commit_after_commit (env env2 : io_env) (db db' : avstor)
    (flush : bool) :
  avstor_commit env db flush = (db', AVSTOR_OK) ->
  avstor_commit env2 db' false = (db', AVSTOR_OK).
Proof.
  unfold avstor_commit at 1.
  destruct (commit_rows env (io_log db) (rows (cache db)))
    as [[rows1 log1] e1] eqn:Hrows.
  destruct e1; try (by intros [=]).
  destruct (write_page env log1 (header (cache db))) as [[hdr1 log2] e2] eqn:Hh.
  destruct e2; try (by intros [=]).
  assert (Hclean : is_page_dirty hdr1 = false)
    by (by eapply write_page_result_clean).
  assert (Hgoal : forall l,
            avstor_commit env2 (mk_db (mk_cache rows1 hdr1 hdr1) l) false
            = (mk_db (mk_cache rows1 hdr1 hdr1) l, AVSTOR_OK)).
  { intros l. unfold avstor_commit. cbn [cache rows header io_log old_header].
    rewrite (commit_rows_again env env2 _ _ _ _ l Hrows).
    by rewrite (write_page_clean env2 l hdr1 Hclean). }
  destruct flush.
  - destruct (env_sync env); intros [= <-]. apply Hgoal.
  - intros [= <-]. apply Hgoal.
Qed.

Lemma commit_after_commit_witness :
  exists db',
    avstor_commit env_ok ex_db true = (db', AVSTOR_OK)
    /\ avstor_commit env_header_fails db' false = (db', AVSTOR_OK).
Proof.
  destruct (avstor_commit env_ok ex_db true) as [db' e] eqn:Hc.
  assert (He : e = AVSTOR_OK).
  { apply (f_equal snd) in Hc. cbn [snd] in Hc. rewrite <- Hc. reflexivity. }
  subst e. exists db'. split; [reflexivity|].
  exact (commit_after_commit env_ok env_header_fails ex_db db' true Hc).
Defined.

(** The frames that [rollback] passes over hold no lock. *)
Definition idle_frames (c : PageCache) : Prop :=
  forall row it p,
    row ∈ rows c -> it ∈ row -> ci_page it = Some p ->
    load_u32 p OFS_page_offset = 0 -> load_u32 p OFS_lock_count = 0.

Lemma rollback_item_unlocked it p' :
  (forall p, ci_page it = Some p -> load_u32 p OFS_page_offset = 0 ->
             load_u32 p OFS_lock_count = 0) ->
  ci_page (rollback_item it) = Some p' -> load_u32 p' OFS_lock_count = 0.
Proof.
  intros Hidle. unfold rollback_item.
  destruct (ci_page it) as [p|] eqn:Hp; [|by rewrite Hp].
  destruct (Z.eqb_spec (load_u32 p OFS_page_offset) 0) as [H0|H0]; cbn [negb].
  - rewrite Hp. intros [= <-]. by apply Hidle.
  - cbn [ci_page]. intros [= <-].
    destruct (Z.eqb_spec (load_u32 p OFS_lock_count) 0) as [Hl|Hl]; cbn [negb].
    + done.
    + apply load_store_u32. done.
Qed.

Lemma check_row_unlocked items :
  (forall it p, it ∈ items -> ci_page it = Some p ->
                load_u32 p OFS_lock_count = 0) ->
  check_row items = true.
Proof.
  induction items as [|it rest IH]; intros H; [done|].
  cbn [check_row]. destruct (ci_page it) as [p|] eqn:Hp; [|done].
  rewrite (H it p) by (done || by left). cbn [Z.eqb negb].
  apply IH. intros it' p' Hin. apply H. by right.
Qed.

Lemma rollback_item_again it : rollback_item (rollback_item it) = rollback_item it.
Proof.
  unfold rollback_item at 2 3.
  destruct (ci_page it) as [p|] eqn:Hp; [|unfold rollback_item; by rewrite Hp].
  destruct (Z.eqb_spec (load_u32 p OFS_page_offset) 0) as [H0|H0]; cbn [negb].
  { unfold rollback_item. rewrite Hp.
    by replace (load_u32 p OFS_page_offset =? 0) with true by lia. }
  unfold rollback_item. cbn [ci_page ci_offset ci_load_time].
  destruct (Z.eqb_spec (load_u32 p OFS_lock_count) 0) as [Hl|Hl]; cbn [negb].
  - replace (load_u32 p OFS_page_offset =? 0) with false by lia. cbn [negb].
    replace (load_u32 p OFS_lock_count =? 0) with true by lia. cbn [negb].
    by destruct (is_page_dirty p).
  - change (load_u32 (store_u32 OFS_lock_count 0 p) OFS_page_offset)
      with (load_u32 p OFS_page_offset).
    replace (load_u32 p OFS_page_offset =? 0) with false by lia. cbn [negb].
    rewrite load_store_u32 by done. cbn [Z.eqb negb].
    change (is_page_dirty (store_u32 OFS_lock_count 0 p))
      with (is_page_dirty p).
    by destruct (is_page_dirty p).
Qed.

(** X11. After [rollback] no frame of the cache is locked, so
    [avs_check_cache_consistency] returns [AVSTOR_OK] (the frames without
    a page offset, which [rollback] passes over, are taken to hold no
    lock); and a second [rollback] changes nothing. *)
Theorem rollback_leaves_cache_consistent (c : PageCache) :
  idle_frames c ->
  avs_check_cache_consistency (rollback c) = AVSTOR_OK
  /\ rollback (rollback c) = rollback c.
Proof.
  intros Hidle. split.
  - unfold avs_check_cache_consistency.
    replace (forallb check_row (rows (rollback c))) with true; [done|].
    symmetry. apply forallb_forall. intros row Hrow.
    apply list_elem_of_In in Hrow. cbn [rollback rows] in Hrow.
    apply list_elem_of_fmap in Hrow as (row0 & -> & Hrow0).
    apply check_row_unlocked. intros it p Hit Hp.
    apply list_elem_of_fmap in Hit as (it0 & -> & Hit0).
    apply (rollback_item_unlocked it0); [|done].
    intros p0 Hp0 H0. by apply (Hidle row0 it0).
  - unfold rollback. cbn [rows old_header]. f_equal.
    rewrite <- list_fmap_compose. apply list_fmap_ext. intros _ row _.
    cbn. rewrite <- list_fmap_compose. apply list_fmap_ext. intros _ it _.
    apply rollback_item_again.
Qed.

(** A cache with a locked, modified frame. *)
Definition ex_locked_cache : PageCache :=
  mk_cache
    [[mk_item (Some (store_u32 OFS_lock_count 2 (ex_frame 4096 PAGE_DIRTY))) 4096 1;
      mk_item (Some (ex_frame 8192 0)) 8192 2;
      mk_item None 0 0]]
    (ex_frame 0 PAGE_DIRTY)
    (ex_frame 0 0).

Lemma rollback_leaves_cache_consistent_witness :
  avs_check_cache_consistency ex_locked_cache = AVSTOR_CORRUPT
  /\ avs_check_cache_consistency (rollback ex_locked_cache) = AVSTOR_OK.
Proof.
  split; [reflexivity|].
  apply (rollback_leaves_cache_consistent ex_locked_cache).
  intros row it p Hrow Hit Hp H0.
  apply list_elem_of_singleton in Hrow as ->.
  repeat (apply elem_of_cons in Hit as [->|Hit]);
    [| |done|by apply elem_of_nil in Hit]; injection Hp as <-; done.
Defined.

End CacheIO.

(** ** Values of fixed size, and reading in general *)

Module Values.
Import API Page.

(** The value of an [int32_t] and of an [int64_t] with the given bits. *)
Definition s32 (x : Z) : Z := if x <? 2 ^ 31 then x else x - 2 ^ 32.
Definition s64 (x : Z) : Z := if x <? 2 ^ 63 then x else x - 2 ^ 64.
Definition u64 (x : Z) : Z := x mod 2 ^ 64.

Definition load_u64 (page : AvPage) (ofs : Z) : Z :=
  load_u32 page ofs + 4294967296 * load_u32 page (ofs + 4).

Definition store_u64 (ofs v : Z) (page : AvPage) : AvPage :=
  store_u32 (ofs + 4) (v / 4294967296) (store_u32 ofs v page).

Definition NODE_FLAG_VAR : Z := 1.

(** [NODE_CLASS[type].flags]. *)
Definition node_flags (type : Z) : Z :=
  match type with
  | 4 | 5 => 1
  | 6 | 7 => 2
  | _ => 0
  end.

(** [lock_noderef] for the node at [ref], whose page is [p]. *)
Definition lock_noderef (p : AvPage) (ref : Z) : res Z :=
  if ref =? 0 then Throw AVSTOR_PARAM
  else get_node p (ref mod PAGE_SIZE).

Definition avstor_get_int32 (p : AvPage) (ref : Z) : res Z :=
  node ← lock_valueref p ref AVSTOR_TYPE_INT32;
  Ok (s32 (load_u32 p (get_node_data p node))).

Definition avstor_update_int32 (p : AvPage) (ref new_val : Z)
    : AvPage * avstor_err :=
  match lock_valueref p ref AVSTOR_TYPE_INT32 with
  | Throw e => (p, e)
  | Ok node =>
      (Cache.set_page_dirty (store_u32 (get_node_data p node) (u32 new_val) p),
       AVSTOR_OK)
  end.

Definition get_fixed64_value (p : AvPage) (ref type : Z) : res Z :=
  node ← lock_valueref p ref type;
  Ok (s64 (load_u64 p (get_node_data p node))).

Definition update_fixed64_value (p : AvPage) (ref type new_val : Z)
    : AvPage * avstor_err :=
  match lock_valueref p ref type with
  | Throw e => (p, e)
  | Ok node =>
      (Cache.set_page_dirty (store_u64 (get_node_data p node) (u64 new_val) p),
       AVSTOR_OK)
  end.

Definition avstor_get_int64 (p : AvPage) (ref : Z) : res Z :=
  get_fixed64_value p ref AVSTOR_TYPE_INT64.
Definition avstor_update_int64 (p : AvPage) (ref new_val : Z)
    : AvPage * avstor_err :=
  update_fixed64_value p ref AVSTOR_TYPE_INT64 new_val.

(** The double is passed as the 64 bits of its representation. *)
Definition avstor_get_double (p : AvPage) (ref : Z) : res Z :=
  get_fixed64_value p ref AVSTOR_TYPE_DOUBLE.
Definition avstor_update_double (p : AvPage) (ref new_val : Z)
    : AvPage * avstor_err :=
  update_fixed64_value p ref AVSTOR_TYPE_DOUBLE new_val.

Definition avstor_get_link (p : AvPage) (ref : Z) : res Z :=
  node ← lock_valueref p ref AVSTOR_TYPE_LINK;
  Ok (load_u32 p (get_node_data p node)).

Definition avstor_get_type (p : AvPage) (ref : Z) : res Z :=
  node ← lock_noderef p ref;
  Ok (NODE_TYPE p node).

(** [avstor_get_name]: the bytes copied into the buffer of [key_len]
    bytes. *)
Definition avstor_get_name (p : AvPage) (ref key_len : Z) : res (list Z) :=
  node ← lock_noderef p ref;
  let szname := node_szname p node in
  if key_len <? szname then Throw AVSTOR_PARAM
  else Ok (memcpy_out p (node + SIZE_NODE_HDR) szname).

(** [avstor_get_value]: the bytes copied, [*out_type] and
    [*out_length]. *)
Definition avstor_get_value (p : AvPage) (ref szbuf : Z)
    : res (list Z * Z * Z) :=
  node ← lock_noderef p ref;
  let node_type := NODE_TYPE p node in
  if node_type =? AVSTOR_TYPE_KEY then Throw AVSTOR_MISMATCH
  else
    let ndata := get_node_data p node in
    let szdata := szdata node_type in
    if negb (Z.land (node_flags node_type) NODE_FLAG_VAR =? 0) then
      let length := p ndata in
      let bytes_copied := if szbuf <? length then szbuf else length in
      Ok (memcpy_out p (ndata + szdata) bytes_copied, node_type, length)
    else
      let bytes_copied := if szdata <=? szbuf then szdata else szbuf in
      Ok (memcpy_out p ndata bytes_copied, node_type, szdata).

(** The node behind [ref] lies above its slot, and the slot in the index
    of the page. *)
Definition node_at (p : AvPage) (ref type node : Z) : Prop :=
  lock_valueref p ref type = Ok node
  /\ OFS_index <= ref mod PAGE_SIZE /\ ref mod PAGE_SIZE + 2 <= node
  /\ 0 <= node_szname p node.

Lemma lock_valueref_ext p p' ref type node :
  node_at p ref type node ->
  (forall i, i = ref mod PAGE_SIZE \/ i = ref mod PAGE_SIZE + 1
             \/ i = node \/ i = node + 1 -> p' i = p i) ->
  lock_valueref p' ref type = Ok node.
Proof.
  intros (Hl & Hi & Hn & Hs) Hag. revert Hl.
  unfold lock_valueref, get_node. destruct (ref =? 0); [done|].
  rewrite (load_u16_ext p p') by (apply Hag; lia).
  destruct (load_u16 p (ref mod PAGE_SIZE) =? INVALID_INDEX); [done|].
  cbn [mbind res_bind].
  destruct (NODE_TYPE p (load_u16 p (ref mod PAGE_SIZE)) =? type) eqn:Ht;
    [|done].
  intros [= Hnode].
  assert (NODE_TYPE p' node = NODE_TYPE p node) as Hty.
  { unfold NODE_TYPE. f_equal. f_equal. apply load_u16_ext; apply Hag; lia. }
  rewrite Hnode in *. by rewrite Hty, Ht.
Qed.

Lemma store_u32_get p o v i :
  store_u32 o v p i
  = if (o <=? i) && (i <? o + 4)
    then (v / 256 ^ (i - o)) mod 256 else p i.
Proof.
  unfold store_u32.
  destruct (Z.eqb_spec i o) as [->|?].
  { replace ((o <=? o) && (o <? o + 4)) with true
      by (destruct (Z.leb_spec o o), (Z.ltb_spec o (o + 4)); simpl; lia).
    rewrite Z.sub_diag. by rewrite Z.div_1_r. }
  destruct (Z.eqb_spec i (o + 1)) as [->|?].
  { replace ((o <=? o + 1) && (o + 1 <? o + 4)) with true
      by (destruct (Z.leb_spec o (o + 1)), (Z.ltb_spec (o + 1) (o + 4)); simpl; lia).
    by replace (o + 1 - o) with 1 by lia. }
  destruct (Z.eqb_spec i (o + 2)) as [->|?].
  { replace ((o <=? o + 2) && (o + 2 <? o + 4)) with true
      by (destruct (Z.leb_spec o (o + 2)), (Z.ltb_spec (o + 2) (o + 4)); simpl; lia).
    by replace (o + 2 - o) with 2 by lia. }
  destruct (Z.eqb_spec i (o + 3)) as [->|?].
  { replace ((o <=? o + 3) && (o + 3 <? o + 4)) with true
      by (destruct (Z.leb_spec o (o + 3)), (Z.ltb_spec (o + 3) (o + 4)); simpl; lia).
    by replace (o + 3 - o) with 3 by lia. }
  by replace ((o <=? i) && (i <? o + 4)) with false
    by (destruct (Z.leb_spec o i), (Z.ltb_spec i (o + 4)); simpl; lia).
Qed.

Lemma store_u32_out p o v i : i < o \/ o + 4 <= i -> store_u32 o v p i = p i.
Proof.
  intros Hi. rewrite store_u32_get.
  by replace ((o <=? i) && (i <? o + 4)) with false
    by (destruct (Z.leb_spec o i), (Z.ltb_spec i (o + 4)); simpl; lia).
Qed.

Lemma load_store_u32_other p o v o' :
  o' + 4 <= o \/ o + 4 <= o' ->
  load_u32 (store_u32 o v p) o' = load_u32 p o'.
Proof.
  intros H. unfold load_u32. by rewrite !store_u32_out by lia.
Qed.

Lemma set_page_dirty_other p i :
  i <> OFS_status -> Cache.set_page_dirty p i = p i.
Proof.
  intros Hi. unfold Cache.set_page_dirty, store_u8.
  by replace (i =? OFS_status) with false by lia.
Qed.

Lemma s32_u32 v : - 2 ^ 31 <= v < 2 ^ 31 -> s32 (u32 v) = v.
Proof.
  intros Hv. unfold s32, u32.
  change (2 ^ 31) with 2147483648 in *. change (2 ^ 32) with 4294967296.
  destruct (decide (0 <= v)).
  - rewrite Z.mod_small by lia. by replace (v <? 2147483648) with true by lia.
  - replace (v mod 4294967296) with (v + 4294967296)
      by (apply (Z.mod_unique_pos _ _ (-1)); lia).
    replace (v + 4294967296 <? 2147483648) with false by lia. lia.
Qed.

Lemma s64_u64 v : - 2 ^ 63 <= v < 2 ^ 63 -> s64 (u64 v) = v.
Proof.
  intros Hv. unfold s64, u64.
  change (2 ^ 63) with 9223372036854775808 in *.
  change (2 ^ 64) with 18446744073709551616.
  destruct (decide (0 <= v)).
  - rewrite Z.mod_small by lia.
    by replace (v <? 9223372036854775808) with true by lia.
  - replace (v mod 18446744073709551616) with (v + 18446744073709551616)
      by (apply (Z.mod_unique_pos _ _ (-1)); lia).
    replace (v + 18446744073709551616 <? 9223372036854775808) with false by lia.
    lia.
Qed.

Lemma load_store_u64 p o v :
  0 <= v < 2 ^ 64 -> load_u64 (store_u64 o v p) o = v.
Proof.
  intros Hv. unfold load_u64, store_u64.
  change (2 ^ 64) with 18446744073709551616 in Hv.
  rewrite Checksum.load_store_u32
    by (change (2 ^ 32) with 4294967296; split;
        [apply Z.div_pos; lia | apply Z.div_lt_upper_bound; lia]).
  rewrite load_store_u32_other by lia.
  assert (Hlow : load_u32 (store_u32 o v p) o = v mod 4294967296).
  { unfold load_u32. rewrite !store_u32_get.
    replace ((o <=? o) && (o <? o + 4)) with true
      by (destruct (Z.leb_spec o o), (Z.ltb_spec o (o + 4)); simpl; lia).
    replace ((o <=? o + 1) && (o + 1 <? o + 4)) with true
      by (destruct (Z.leb_spec o (o + 1)), (Z.ltb_spec (o + 1) (o + 4)); simpl; lia).
    replace ((o <=? o + 2) && (o + 2 <? o + 4)) with true
      by (destruct (Z.leb_spec o (o + 2)), (Z.ltb_spec (o + 2) (o + 4)); simpl; lia).
    replace ((o <=? o + 3) && (o + 3 <? o + 4)) with true
      by (destruct (Z.leb_spec o (o + 3)), (Z.ltb_spec (o + 3) (o + 4)); simpl; lia).
    rewrite Z.sub_diag. replace (o + 1 - o) with 1 by lia.
    replace (o + 2 - o) with 2 by lia. replace (o + 3 - o) with 3 by lia.
    change (256 ^ 0) with 1. change (256 ^ 1) with 256.
    change (256 ^ 2) with 65536. change (256 ^ 3) with 16777216.
    Z.div_mod_to_equations. lia. }
  rewrite Hlow. pose proof (Z.div_mod v 4294967296). lia.
Qed.

(** X12. A value of fixed size reads back as it was written: after
    [avstor_update_int32] on an int32 node, [avstor_get_int32] returns the
    new value, and likewise [avstor_update_int64] / [avstor_update_double]
    and their getters; the update sets the dirty bit of the page and
    changes no other byte outside the value. On a node of another type
    the update returns the error of the type check and leaves the page as
    it is. *)
Theorem fixed_value_roundtrip (p : AvPage) (ref node v : Z) :
  (node_at p ref AVSTOR_TYPE_INT32 node -> - 2 ^ 31 <= v < 2 ^ 31 ->
   exists p',
     avstor_update_int32 p ref v = (p', AVSTOR_OK)
     /\ avstor_get_int32 p' ref = Ok v
     /\ Cache.is_page_dirty p' = true
     /\ forall i, i <> OFS_status ->
          i < get_node_data p node \/ get_node_data p node + 4 <= i ->
          p' i = p i)
  /\ (forall type,
        type = AVSTOR_TYPE_INT64 \/ type = AVSTOR_TYPE_DOUBLE ->
        node_at p ref type node -> - 2 ^ 63 <= v < 2 ^ 63 ->
        exists p',
          update_fixed64_value p ref type v = (p', AVSTOR_OK)
          /\ get_fixed64_value p' ref type = Ok v
          /\ Cache.is_page_dirty p' = true
          /\ forall i, i <> OFS_status ->
               i < get_node_data p node \/ get_node_data p node + 8 <= i ->
               p' i = p i)
  /\ (forall type e,
        lock_valueref p ref type = Throw e ->
        (type = AVSTOR_TYPE_INT32 -> avstor_update_int32 p ref v = (p, e))
        /\ update_fixed64_value p ref type v = (p, e)).
Proof.
  split_and!.
  - intros Hat Hv. pose proof Hat as (Hl & Hi & Hn & Hs).
    unfold avstor_update_int32. rewrite Hl.
    set (nd := get_node_data p node).
    assert (Hnd : node + 13 <= nd)
      by (unfold nd, get_node_data, SIZE_NODE_HDR; lia).
    unfold OFS_index, OFS_status in *.
    eexists. split; [reflexivity|].
    set (p' := Cache.set_page_dirty _).
    assert (Hout : forall i, i <> 16 -> i < nd \/ nd + 4 <= i -> p' i = p i).
    { intros i H16 Hi'. unfold p'.
      rewrite set_page_dirty_other by done. by apply store_u32_out. }
    split_and!; [| apply Cache.set_page_dirty_dirty | exact Hout].
    unfold avstor_get_int32.
    rewrite (lock_valueref_ext p p' ref _ node Hat)
      by (intros i Hi'; apply Hout; lia).
    cbn [mbind res_bind]. f_equal.
    assert (Hsn : get_node_data p' node = nd).
    { unfold get_node_data, node_szname. rewrite Hout by lia. done. }
    rewrite Hsn.
    assert (Hld : load_u32 p' nd = u32 v).
    { transitivity (load_u32 (store_u32 nd (u32 v) p) nd).
      - unfold load_u32, p'. by rewrite !set_page_dirty_other by (unfold OFS_status; lia).
      - apply Checksum.load_store_u32. unfold u32. apply Z.mod_pos_bound. lia. }
    rewrite Hld. by apply s32_u32.
  - intros type Hty Hat Hv. pose proof Hat as (Hl & Hi & Hn & Hs).
    unfold update_fixed64_value. rewrite Hl.
    set (nd := get_node_data p node).
    assert (Hnd : node + 13 <= nd)
      by (unfold nd, get_node_data, SIZE_NODE_HDR; lia).
    unfold OFS_index, OFS_status in *.
    eexists. split; [reflexivity|].
    set (p' := Cache.set_page_dirty _).
    assert (Hout : forall i, i <> 16 -> i < nd \/ nd + 8 <= i -> p' i = p i).
    { intros i H16 Hi'. unfold p', store_u64.
      rewrite set_page_dirty_other by done.
      rewrite !store_u32_out by lia. done. }
    split_and!; [| apply Cache.set_page_dirty_dirty | exact Hout].
    unfold get_fixed64_value.
    rewrite (lock_valueref_ext p p' ref _ node Hat)
      by (intros i Hi'; apply Hout; lia).
    cbn [mbind res_bind]. f_equal.
    assert (Hsn : get_node_data p' node = nd).
    { unfold get_node_data, node_szname. rewrite Hout by lia. done. }
    rewrite Hsn.
    assert (Hld : load_u64 p' nd = u64 v).
    { transitivity (load_u64 (store_u64 nd (u64 v) p) nd).
      - unfold load_u64, load_u32, p'.
        by rewrite !set_page_dirty_other by (unfold OFS_status; lia).
      - apply load_store_u64. unfold u64. apply Z.mod_pos_bound. lia. }
    rewrite Hld. by apply s64_u64.
  - intros type e Hl. split.
    + intros ->. unfold avstor_update_int32. by rewrite Hl.
    + unfold update_fixed64_value. by rewrite Hl.
Qed.

(** A page with one int32 value that holds 7. *)
Definition ex_int_page : AvPage :=
  page_of_bytes
    (page_image 4076 [4076]
       (node_image 20 AVSTOR_TYPE_INT32 26 [110; 0; 0] [7; 0; 0; 0])).

Lemma fixed_value_roundtrip_witness :
  avstor_get_int32 ex_int_page ex_ref = Ok 7
  /\ exists p',
       avstor_update_int32 ex_int_page ex_ref (-5) = (p', AVSTOR_OK)
       /\ avstor_get_int32 p' ex_ref = Ok (-5).
Proof.
  split; [by vm_compute|].
  destruct (fixed_value_roundtrip ex_int_page ex_ref 4076 (-5)) as (H32 & _).
  destruct H32 as (p' & Hup & Hget & _).
  - split_and!; by vm_compute.
  - lia.
  - by exists p'.
Defined.

(** *** The buffer of [avstor_get_string] *)

Lemma take_memcpy_out p src k n :
  take k (memcpy_out p src n) = memcpy_out p src (Z.min (Z.of_nat k) n).
Proof.
  unfold memcpy_out. rewrite <- fmap_take, take_seq. f_equal. f_equal. lia.
Qed.

Lemma length_memcpy_out p src n : length (memcpy_out p src n) = Z.to_nat n.
Proof. unfold memcpy_out. by rewrite length_map, length_seq. Qed.

(** X13. [avstor_get_string] never writes past the buffer and always
    ends the string: for a buffer of [szbuf > 0] bytes it leaves at most
    [szbuf] bytes, the last of them NUL, before it the first bytes of the
    stored value (all of them but the last when the value fills the buffer
    or is longer), and it reports the stored length less one whether or
    not the value was cut. *)
Theorem get_string_fits_buffer (p : AvPage) (ref szbuf : Z) (buf : list Z)
    (n : Z) :
  0 < szbuf ->
  avstor_get_string p ref szbuf = Ok (buf, n) ->
  Z.of_nat (length buf) <= szbuf
  /\ exists node,
       lock_valueref p ref AVSTOR_TYPE_STRING = Ok node
       /\ n = u32 (p (get_node_data p node) - 1)
       /\ buf = memcpy_out p (get_node_data p node + 1)
                  (Z.min (p (get_node_data p node)) (szbuf - 1))
                ++ [0].
Proof.
  intros Hsz. unfold avstor_get_string, get_var_value.
  destruct (lock_valueref p ref AVSTOR_TYPE_STRING) as [node|] eqn:Hl; [|done].
  cbn [mbind res_bind].
  set (nd := get_node_data p node). set (len := p nd).
  replace (0 <? szbuf) with true by lia.
  change (szdata AVSTOR_TYPE_STRING) with 1.
  rewrite length_memcpy_out. intros [= <- <-].
  assert (Hbuf : take (Z.to_nat
                   (if Z.of_nat (Z.to_nat (if szbuf <? len then szbuf else len))
                       =? szbuf
                    then szbuf - 1
                    else Z.of_nat (Z.to_nat (if szbuf <? len then szbuf else len))))
                  (memcpy_out p (nd + 1) (if szbuf <? len then szbuf else len))
                = memcpy_out p (nd + 1) (Z.min len (szbuf - 1))).
  { rewrite take_memcpy_out. f_equal.
    destruct (Z.ltb_spec szbuf len);
      match goal with |- context [?a =? ?b] => destruct (Z.eqb_spec a b) end;
      lia. }
  rewrite Hbuf. split.
  - rewrite length_app, length_memcpy_out. simpl. lia.
  - exists node. by split_and!.
Qed.

Lemma get_string_fits_buffer_witness :
  avstor_get_string ex_page ex_ref 1 = Ok ([0], 1)
  /\ avstor_get_string ex_page ex_ref 2 = Ok ([97; 0], 1)
  /\ forall buf n,
       avstor_get_string ex_page ex_ref 2 = Ok (buf, n) ->
       Z.of_nat (length buf) <= 2.
Proof.
  split; [by vm_compute|]. split; [by vm_compute|].
  intros buf n H.
  by destruct (get_string_fits_buffer ex_page ex_ref 2 buf n ltac:(lia) H).
Defined.

End Values.

(** ** The nodes and the slots of a page *)

Module Slots.
Import API Page.

(** The end of the slots in use: [&page->index[page->index_count]]. *)
Definition page_bottom (p : AvPage) : Z :=
  OFS_index + 2 * load_u16 p OFS_index_count.

(** [free_node]. *)
Definition free_node (fuel : nat) (p : AvPage) (node : Z)
    : option (res (AvPage * Z)) :=
  resize_node fuel p node 0.

(** [alloc_node] from the point where the page has been chosen, locked
    and marked dirty: on each of its paths the page then has
    [size <= get_page_free_space(page)]. The result is the page and the
    place of the new node. *)
Definition alloc_in_page (p : AvPage) (size : Z) : res (AvPage * Z) :=
  let nextfree := load_u16 p OFS_index_freelist in
  let index :=
    if nextfree =? INVALID_INDEX
    then OFS_index + 2 * load_u16 p OFS_index_count else nextfree in
  let p :=
    if nextfree =? INVALID_INDEX
    then store_u16 OFS_index_count (u16 (load_u16 p OFS_index_count + 1)) p
    else store_u16 OFS_index_freelist (load_u16 p nextfree) p in
  let p := store_u16 OFS_top (u16 (load_u16 p OFS_top - size)) p in
  let p := store_u16 index (load_u16 p OFS_top) p in
  node ← get_node p index;
  if node <? OFS_index + 2 * load_u16 p OFS_index_count
  then Throw AVSTOR_INTERNAL
  else Ok (set_node_size node size (store_u16 (node + 2) (u16 index) p), node).

(** The slots on the free list of the page, from its head [s]. *)
Fixpoint free_slots (p : AvPage) (bot s : Z) (fs : list Z) : Prop :=
  match fs with
  | [] => s = INVALID_INDEX
  | f :: fs =>
      s = f /\ OFS_index <= f /\ f mod 2 = 0 /\ f + 2 <= bot
      /\ free_slots p bot (load_u16 p f) fs
  end.

(** A page whose nodes are [ns], from [page->top] to the end of the page,
    each with its slot, and whose free slots are [fs]. *)
Definition page_ok (p : AvPage) (ns fs : list Z) : Prop :=
  is_bytes p
  /\ chain p (load_u16 p OFS_top) ns PAGE_SIZE
  /\ page_bottom p <= load_u16 p OFS_top
  /\ (forall n, n ∈ ns -> slot_ok p (page_bottom p) n)
  /\ free_slots p (page_bottom p) (load_u16 p OFS_index_freelist) fs
  /\ NoDup fs.

Lemma chain_app p l1 : forall l2 c stop,
  chain p c (l1 ++ l2) stop
  <-> exists mid, chain p c l1 mid /\ chain p mid l2 stop.
Proof.
  induction l1 as [|n l1 IH]; simpl; intros l2 c stop.
  - split; [intros H; by exists c | by intros (mid & -> & H)].
  - split.
    + intros (-> & Hs & Hc). apply IH in Hc as (mid & H1 & H2).
      by exists mid.
    + intros (mid & (-> & Hs & H1) & H2). split_and!; try done.
      apply IH. by exists mid.
Qed.

Lemma chain_in p ns : forall c stop n,
  chain p c ns stop -> n ∈ ns ->
  c <= n /\ 4 <= get_node_size p n /\ n + get_node_size p n <= stop.
Proof.
  induction ns as [|m ns IH]; simpl; intros c stop n H Hn.
  - by apply elem_of_nil in Hn.
  - destruct H as (-> & Hs & Hc).
    pose proof (chain_le _ _ _ _ Hc) as (Hle & _).
    apply elem_of_cons in Hn as [->|Hn]; [lia|].
    specialize (IH _ _ _ Hc Hn). lia.
Qed.

Lemma chain_shift p p1 delta : forall ns c stop,
  chain p c ns stop ->
  (forall i, c <= i < stop -> p1 (i + delta) = p i) ->
  chain p1 (c + delta) (map (fun n => n + delta) ns) (stop + delta).
Proof.
  induction ns as [|n ns IH]; simpl; intros c stop H Hmv; [lia|].
  destruct H as (-> & Hs & Hc).
  pose proof (chain_le _ _ _ _ Hc) as (Hle & _).
  assert (Hsize : get_node_size p1 (c + delta) = get_node_size p c).
  { unfold get_node_size. f_equal. f_equal. apply load_u16_moved.
    - apply Hmv. lia.
    - replace (c + delta + 1) with (c + 1 + delta) by lia. apply Hmv. lia. }
  rewrite Hsize. split_and!; try done.
  replace (c + delta + get_node_size p c)
    with (c + get_node_size p c + delta) by lia.
  apply IH; [done|]. intros i Hi. apply Hmv. lia.
Qed.

Lemma chain_nodup p ns : forall c stop, chain p c ns stop -> NoDup ns.
Proof.
  induction ns as [|n ns IH]; simpl; intros c stop H; [constructor|].
  destruct H as (-> & Hs & Hc). constructor; [|by eapply IH].
  intros Hin. pose proof (chain_in _ _ _ _ _ Hc Hin). lia.
Qed.

Lemma move_bytes p0 top q oldsize newsize :
  let p1 :=
    if newsize <? oldsize then
      memset top 0 (oldsize - newsize)
        (memmove (top + oldsize - newsize) top (q - top + newsize) p0)
    else
      memset (q + oldsize - (newsize - oldsize)) 0 (newsize - oldsize)
        (memmove (top + oldsize - newsize) top (q - top + oldsize) p0) in
  top <= q -> 0 < oldsize -> 0 <= newsize ->
  (forall i, i < top -> i < top + oldsize - newsize -> p1 i = p0 i)
  /\ (forall i, top <= i < q + Z.min oldsize newsize ->
                p1 (i + (oldsize - newsize)) = p0 i)
  /\ (forall i, q + oldsize <= i -> p1 i = p0 i)
  /\ (is_bytes p0 -> is_bytes p1).
Proof.
  intros p1 Htop Ho Hn. subst p1.
  assert (Hz : 0 <= u8 0 < 256) by (by vm_compute).
  destruct (Z.ltb_spec newsize oldsize); split_and!;
    try (intros i; intros; mem_cases; fail);
    intros Hb i; unfold memset, memmove; repeat case_match; done.
Qed.

Lemma adjust_slots_bytes delta next : forall fuel p cur p',
  is_bytes p -> adjust_slots fuel p cur next delta = Some p' -> is_bytes p'.
Proof.
  induction fuel as [|fuel IH]; simpl; intros p cur p' Hb H.
  - destruct (cur <? next); [done|]. by injection H as <-.
  - destruct (cur <? next); [|by injection H as <-].
    eapply IH; [|exact H]. by apply store_u16_bytes.
Qed.

(** The page before the nodes are moved, when the node at [q] is freed:
    its slot has left the slots in use. *)
Definition release_slot (p : AvPage) (q : Z) : AvPage :=
  let oldindex := node_index p q in
  if oldindex =? OFS_index - 2 + load_u16 p OFS_index_count * 2 then
    store_u16 OFS_index_count (u16 (load_u16 p OFS_index_count - 1))
      (store_u16 oldindex 0 p)
  else
    store_u16 OFS_index_freelist oldindex
      (store_u16 oldindex (load_u16 p OFS_index_freelist) p).

Lemma release_slot_spec p q :
  is_bytes p -> OFS_index <= node_index p q ->
  let pa := release_slot p q in
  let idx := node_index p q in
  is_bytes pa
  /\ (forall i, i <> idx -> i <> idx + 1 ->
                i < OFS_index_freelist \/ OFS_index <= i -> pa i = p i)
  /\ (if idx =? OFS_index - 2 + load_u16 p OFS_index_count * 2 then
        load_u16 pa OFS_index_count = load_u16 p OFS_index_count - 1
        /\ load_u16 pa idx = 0
        /\ load_u16 pa OFS_index_freelist = load_u16 p OFS_index_freelist
      else
        load_u16 pa OFS_index_count = load_u16 p OFS_index_count
        /\ load_u16 pa idx = load_u16 p OFS_index_freelist
        /\ load_u16 pa OFS_index_freelist = idx).
Proof.
  intros Hb Hidx pa idx. subst pa. unfold release_slot. fold idx.
  pose proof (load_u16_range p OFS_index_count Hb) as Hcnt.
  pose proof (load_u16_range p OFS_index_freelist Hb) as Hfl.
  pose proof (load_u16_range p (q + 2) Hb) as Hi. fold (node_index p q) in Hi.
  fold idx in Hi, Hidx.
  unfold OFS_index, OFS_index_freelist, OFS_index_count in *.
  destruct (Z.eqb_spec idx (26 - 2 + load_u16 p 24 * 2)) as [He|Hne].
  - split_and!.
    + by do 2 apply store_u16_bytes.
    + intros i H1 H2 H3. rewrite !store_u16_other by lia. done.
    + rewrite load_store_u16 by apply u16_range. apply u16_small. lia.
    + transitivity (load_u16 (store_u16 idx 0 p) idx).
      * apply load_u16_ext; apply store_u16_other; lia.
      * by rewrite load_store_u16.
    + apply load_u16_ext; rewrite !store_u16_other by lia; done.
  - split_and!.
    + by do 2 apply store_u16_bytes.
    + intros i H1 H2 H3. rewrite !store_u16_other by lia. done.
    + apply load_u16_ext; rewrite !store_u16_other by lia; done.
    + transitivity (load_u16 (store_u16 idx (load_u16 p 22) p) idx).
      * apply load_u16_ext; apply store_u16_other; lia.
      * by rewrite load_store_u16.
    + by rewrite load_store_u16.
Qed.

Lemma resize_node_unfold fuel p q newsize :
  let oldsize := get_node_size p q in
  let top := load_u16 p OFS_top in
  newsize <> oldsize ->
  newsize <= oldsize \/ newsize - oldsize <= get_page_free_space p ->
  resize_node fuel p q newsize =
  let pa := if newsize =? 0 then release_slot p q else p in
  let p0 := set_node_size q newsize pa in
  let p1 :=
    if newsize <? oldsize then
      memset top 0 (oldsize - newsize)
        (memmove (top + oldsize - newsize) top (q - top + newsize) p0)
    else
      memset (q + oldsize - (newsize - oldsize)) 0 (newsize - oldsize)
        (memmove (top + oldsize - newsize) top (q - top + oldsize) p0) in
  match adjust_slots fuel p1 (top + oldsize - newsize) (q + oldsize)
          (oldsize - newsize) with
  | None => None
  | Some p2 =>
      Some (Ok (store_u16 OFS_top (u16 (top + oldsize - newsize)) p2,
                q + oldsize - newsize))
  end.
Proof.
  intros oldsize top Hne Hfit. unfold resize_node. fold oldsize top.
  replace (newsize =? oldsize) with false by lia.
  replace ((oldsize <? newsize) && (get_page_free_space p <? newsize - oldsize))
    with false by (destruct Hfit; destruct (Z.ltb_spec oldsize newsize);
                   destruct (Z.ltb_spec (get_page_free_space p) (newsize - oldsize));
                   simpl; lia).
  unfold release_slot. reflexivity.
Qed.

(** What [resize_node] does to a page, for a node at [q] with the nodes
    [before] between [page->top] and it; [newsize = 0] frees the node. *)
Lemma resize_node_full fuel p q newsize before :
  let top := load_u16 p OFS_top in
  let bot := page_bottom p in
  let oldsize := get_node_size p q in
  let delta := oldsize - newsize in
  let idx := node_index p q in
  is_bytes p ->
  chain p top before q -> 4 <= oldsize -> q + oldsize <= PAGE_SIZE ->
  (forall n, n ∈ before ++ [q] -> slot_ok p bot n) ->
  bot <= top ->
  newsize = 0 \/ (4 <= newsize < 4096 /\ newsize mod 4 = 0) ->
  newsize <> oldsize ->
  newsize <= oldsize \/ newsize - oldsize <= get_page_free_space p ->
  (length before < fuel)%nat ->
  exists p',
    resize_node fuel p q newsize = Some (Ok (p', q + oldsize - newsize))
    /\ is_bytes p'
    /\ load_u16 p' OFS_top = top + delta
    /\ bot <= top + delta
    /\ (forall i, q + oldsize <= i -> p' i = p i)
    /\ (forall i, top <= i < q -> p' (i + delta) = p i)
    /\ (forall j, 2 <= j < Z.min oldsize newsize ->
                  p' (q + delta + j) = p (q + j))
    /\ (newsize <> 0 ->
        get_node_size p' (q + delta) = newsize
        /\ NODE_TYPE p' (q + delta) = NODE_TYPE p q
        /\ load_u16 p' idx = q + delta
        /\ load_u16 p' OFS_index_count = load_u16 p OFS_index_count
        /\ load_u16 p' OFS_index_freelist = load_u16 p OFS_index_freelist)
    /\ (forall n, n ∈ before -> load_u16 p' (node_index p n) = n + delta)
    /\ (forall i, i < OFS_top \/ OFS_index <= i < bot ->
          (forall n, n ∈ before ++ [q] ->
                     i <> node_index p n /\ i <> node_index p n + 1) ->
          p' i = p i)
    /\ (newsize = 0 ->
        if idx =? OFS_index - 2 + load_u16 p OFS_index_count * 2 then
          load_u16 p' OFS_index_count = load_u16 p OFS_index_count - 1
          /\ load_u16 p' idx = 0
          /\ load_u16 p' OFS_index_freelist = load_u16 p OFS_index_freelist
        else
          load_u16 p' OFS_index_count = load_u16 p OFS_index_count
          /\ load_u16 p' idx = load_u16 p OFS_index_freelist
          /\ load_u16 p' OFS_index_freelist = idx).
Proof.
  intros top bot oldsize delta idx Hb Hc Hold Hend Hs Hbt Hnew Hne Hfit Hfuel.
  pose proof (chain_le _ _ _ _ Hc) as (Htq & _).
  pose proof (load_u16_range p OFS_index_count Hb) as Hcnt.
  assert (Hnt : bot <= top + delta).
  { subst delta. destruct Hfit as [?|Hfit]; [lia|].
    destruct (decide (newsize <= oldsize)); [lia|].
    pose proof (free_space_bottom p Hb) as Hfs. cbv zeta in Hfs.
    fold top in Hfs. fold (page_bottom p) in Hfs. fold bot in Hfs.
    unfold PAGE_SIZE in *. specialize (Hfs Hbt). lia. }
  assert (Hq_in : q ∈ before ++ [q]) by (apply elem_of_app; right; by left).
  destruct (Hs q Hq_in) as (Hq1 & Hq2 & Hq3 & Hq4). fold idx in Hq1, Hq2, Hq3, Hq4.
  assert (Hbef : forall n, n ∈ before ->
            top <= n /\ n + 4 <= q
            /\ OFS_index <= node_index p n /\ node_index p n + 2 <= bot
            /\ node_index p n mod 2 = 0
            /\ load_u16 p (node_index p n) = n
            /\ node_index p n <> idx /\ node_index p n <> idx + 1
            /\ idx <> node_index p n + 1).
  { intros n Hn. pose proof (chain_in _ _ _ _ _ Hc Hn) as (? & ? & ?).
    destruct (Hs n) as (Hn1 & Hn2 & Hn3 & Hn4); [apply elem_of_app; by left|].
    split_and!; try done; try lia.
    - intros Heq. rewrite Heq in Hn4. lia.
    - by apply even_apart.
    - by apply even_apart. }
  rewrite resize_node_unfold by done. fold oldsize top. cbv zeta.
  (* the slot of a freed node leaves the slots in use *)
  set (pa := if newsize =? 0 then release_slot p q else p).
  assert (Hpa : is_bytes pa
            /\ forall i, i <> idx -> i <> idx + 1 ->
                 i < OFS_index_freelist \/ OFS_index <= i -> pa i = p i).
  { subst pa. destruct (newsize =? 0); [|done].
    destruct (release_slot_spec p q Hb Hq1) as (H1 & H2 & _). done. }
  destruct Hpa as [Hba Hpa].
  unfold page_bottom in bot.
  unfold OFS_index, OFS_top, OFS_index_freelist, OFS_index_count, PAGE_SIZE in *.
  assert (Hpa_hi : forall i, bot <= i -> pa i = p i)
    by (intros i Hi; apply Hpa; lia).
  (* the new size in the header *)
  destruct (set_node_size_spec pa q newsize Hba) as (Hsz0 & Hty0 & Hp0 & Hb0);
    [lia | destruct Hnew as [->|[_ ?]]; done |].
  set (p0 := set_node_size q newsize pa) in *.
  assert (Hp0p : forall i, bot <= i -> i <> q -> i <> q + 1 -> p0 i = p i)
    by (intros i ? ? ?; rewrite Hp0 by done; by apply Hpa_hi).
  (* the nodes are moved *)
  destruct (move_bytes p0 top q oldsize newsize) as (Hlow & Hmv & Hhigh & Hb1);
    [lia..|].
  match goal with |- context [adjust_slots fuel ?pp _ _ _] => set (p1 := pp) in * end.
  specialize (Hb1 Hb0). fold delta in Hmv.
  assert (Hmvp : forall i, top <= i < q -> p1 (i + delta) = p i).
  { intros i Hi. rewrite Hmv by lia. apply Hp0p; lia. }
  set (moved := map (fun n => n + delta) before
                ++ (if newsize =? 0 then [] else [q + delta])).
  assert (Hch : chain p1 (top + oldsize - newsize) moved (q + oldsize)).
  { replace (top + oldsize - newsize) with (top + delta) by (subst delta; lia).
    apply chain_app. exists (q + delta). split.
    - by apply (chain_shift p).
    - destruct (Z.eqb_spec newsize 0) as [Hz|Hnz]; simpl; [subst delta; lia|].
      assert (get_node_size p1 (q + delta) = newsize) as ->.
      { transitivity (get_node_size p0 q); [|done].
        unfold get_node_size. f_equal. f_equal. apply load_u16_moved.
        - apply Hmv. lia.
        - replace (q + delta + 1) with (q + 1 + delta) by lia. apply Hmv. lia. }
      split_and!; [done | lia | subst delta; lia]. }
  assert (Hmoved : forall n', n' ∈ moved ->
            exists n, n' = n + delta /\ node_index p1 n' = node_index p n
                      /\ load_u16 p1 (node_index p n) = n
                      /\ OFS_index <= node_index p n
                      /\ node_index p n + 2 <= bot
                      /\ node_index p n mod 2 = 0
                      /\ (n ∈ before \/ (n = q /\ newsize <> 0))).
  { intros n' Hn'. apply elem_of_app in Hn' as [Hn'|Hn'].
    - apply list_elem_of_fmap in Hn' as (n & -> & Hn). exists n.
      destruct (Hbef n Hn) as (? & ? & ? & ? & ? & Hv & ? & ? & ?).
      split_and!; try done; try (unfold OFS_index; lia); [| | by left].
      + unfold node_index. apply load_u16_moved.
        * replace (n + delta + 2) with (n + 2 + delta) by lia. apply Hmvp. lia.
        * replace (n + delta + 2 + 1) with (n + 2 + 1 + delta) by lia.
          apply Hmvp. lia.
      + transitivity (load_u16 p (node_index p n)); [|done]. apply load_u16_ext.
        * rewrite Hlow by lia. rewrite Hp0 by lia. apply Hpa; lia.
        * rewrite Hlow by lia. rewrite Hp0 by lia. apply Hpa; lia.
    - destruct (Z.eqb_spec newsize 0) as [Hz|Hnz]; [by apply elem_of_nil in Hn'|].
      apply list_elem_of_singleton in Hn' as ->. exists q.
      assert (pa = p) as Hpap by (subst pa; by replace (newsize =? 0) with false by lia).
      split_and!; try done; [| | by right].
      + unfold node_index. apply load_u16_moved.
        * replace (q + delta + 2) with (q + 2 + delta) by lia.
          rewrite Hmv by lia. rewrite Hp0 by lia. by rewrite Hpap.
        * replace (q + delta + 2 + 1) with (q + 2 + 1 + delta) by lia.
          rewrite Hmv by lia. rewrite Hp0 by lia. by rewrite Hpap.
      + fold idx. transitivity (load_u16 p idx); [|done]. apply load_u16_ext.
        * rewrite Hlow by lia. rewrite Hp0 by lia. by rewrite Hpap.
        * rewrite Hlow by lia. rewrite Hp0 by lia. by rewrite Hpap. }
  unfold OFS_index in Hmoved.
  (* the slots follow *)
  destruct (adjust_slots_spec delta bot (q + oldsize) moved fuel p1
              (top + oldsize - newsize))
    as (p2 & Hloop & Hhigh2 & Hslots & Hother).
  { done. }
  { subst delta. lia. }
  { lia. }
  { intros n' Hn'. destruct (Hmoved n' Hn') as (n & -> & Hi & Hv & ? & ? & ? & _).
    unfold slot_moved. rewrite Hi.
    split_and!; [lia | done | lia | rewrite Hv; lia]. }
  { subst moved. rewrite length_app, length_map.
    destruct (newsize =? 0); simpl; lia. }
  fold delta. rewrite Hloop. eexists. split; [reflexivity|].
  pose proof (adjust_slots_bytes _ _ _ _ _ _ Hb1 Hloop) as Hb2.
  set (p3 := store_u16 20 (u16 (top + oldsize - newsize)) p2).
  assert (Hp3 : forall i, i <> 20 -> i <> 21 -> p3 i = p2 i)
    by (intros i ? ?; apply store_u16_other; lia).
  assert (Hp31 : forall i, bot <= i -> p3 i = p1 i)
    by (intros i Hi; rewrite Hp3 by lia; by apply Hhigh2).
  assert (Hin_moved : forall n, n ∈ before -> n + delta ∈ moved).
  { intros n Hn. apply elem_of_app. left. apply list_elem_of_fmap. by exists n. }
  assert (Hlowp : forall i, i < 20 \/ 22 <= i < bot ->
            (forall n' , n' ∈ moved ->
               i <> node_index p1 n' /\ i <> node_index p1 n' + 1) ->
            p3 i = pa i).
  { intros i Hi Hno. rewrite Hp3 by lia. rewrite Hother by done.
    rewrite Hlow by lia. apply Hp0; lia. }
  split_and!.
  - by apply store_u16_bytes.
  - subst p3. rewrite load_store_u16 by apply u16_range.
    replace (top + delta) with (top + oldsize - newsize) by (subst delta; lia).
    apply u16_small. subst delta. lia.
  - done.
  - intros i Hi. rewrite Hp31 by lia. rewrite Hhigh by lia. apply Hp0p; lia.
  - intros i Hi. rewrite Hp31 by lia. by apply Hmvp.
  - intros j Hj. rewrite Hp31 by lia.
    replace (q + delta + j) with (q + j + delta) by lia.
    rewrite Hmv by lia. rewrite Hp0 by lia. apply Hpa_hi. lia.
  - intros Hnz.
    assert (pa = p) as Hpap by (subst pa; by replace (newsize =? 0) with false by lia).
    assert (Hhdr : load_u16 p3 (q + delta) = load_u16 p0 q).
    { apply load_u16_moved.
      - rewrite Hp31 by lia. apply Hmv. lia.
      - rewrite Hp31 by lia.
        replace (q + delta + 1) with (q + 1 + delta) by lia. apply Hmv. lia. }
    assert (Hq_moved : q + delta ∈ moved).
    { apply elem_of_app. right. replace (newsize =? 0) with false by lia. by left. }
    destruct (Hmoved _ Hq_moved) as (n & Hn & Hi & _).
    assert (n = q) as -> by lia. fold idx in Hi.
    split_and!.
    + transitivity (get_node_size p0 q); [|done]. unfold get_node_size.
      by rewrite Hhdr.
    + transitivity (NODE_TYPE p0 q); [|by rewrite Hty0, Hpap].
      unfold NODE_TYPE. by rewrite Hhdr.
    + transitivity (load_u16 p2 idx).
      * apply load_u16_ext; apply Hp3; lia.
      * rewrite <- Hi. by apply Hslots.
    + rewrite <- Hpap. apply load_u16_ext; apply Hlowp; try lia;
        intros n' Hn'; destruct (Hmoved n' Hn') as (m & _ & -> & _ & ? & _); lia.
    + rewrite <- Hpap. apply load_u16_ext; apply Hlowp; try lia;
        intros n' Hn'; destruct (Hmoved n' Hn') as (m & _ & -> & _ & ? & _); lia.
  - intros n Hn. destruct (Hbef n Hn) as (? & ? & ? & ? & _).
    destruct (Hmoved _ (Hin_moved n Hn)) as (m & Hm & Hi & _).
    assert (m = n) as -> by lia.
    transitivity (load_u16 p2 (node_index p n)).
    + apply load_u16_ext; apply Hp3; lia.
    + rewrite <- Hi. by apply Hslots, Hin_moved.
  - intros i Hi Hno.
    destruct (Hno q Hq_in) as [Hi1 Hi2]. fold idx in Hi1, Hi2.
    rewrite Hlowp.
    + apply Hpa; lia.
    + lia.
    + intros n' Hn'. destruct (Hmoved n' Hn') as (m & _ & -> & _ & _ & _ & _ & Hm).
      apply Hno. apply elem_of_app. destruct Hm as [?|[-> _]]; [by left|].
      right. by left.
  - intros Hz.
    assert (pa = release_slot p q) as Hpar by (subst pa; by rewrite Hz).
    destruct (release_slot_spec p q Hb Hq1) as (_ & _ & Hrel).
    cbv zeta in Hrel. rewrite <- Hpar in Hrel. fold idx in Hrel.
    assert (Hno : forall i, i = idx \/ i = idx + 1 \/ 22 <= i < 26 ->
              forall n', n' ∈ moved ->
                i <> node_index p1 n' /\ i <> node_index p1 n' + 1).
    { intros i Hi n' Hn'.
      destruct (Hmoved n' Hn') as (m & _ & -> & _ & ? & ? & ? & [Hm|[_ ?]]); [|done].
      destruct (Hbef m Hm) as (_ & _ & _ & _ & _ & _ & ? & ? & ?). lia. }
    assert (Hf : forall o, o = idx \/ 22 <= o <= 24 ->
              load_u16 p3 o = load_u16 pa o).
    { intros o Ho. apply load_u16_ext; apply Hlowp; try lia; apply Hno; lia. }
    rewrite !Hf by lia. exact Hrel.
Qed.

(** *** Slots in use and free slots *)

Lemma slots_apart p bot n m :
  slot_ok p bot n -> slot_ok p bot m -> n <> m ->
  node_index p n <> node_index p m
  /\ node_index p n <> node_index p m + 1
  /\ node_index p m <> node_index p n + 1.
Proof.
  intros (_ & Hn2 & _ & Hn4) (_ & Hm2 & _ & Hm4) Hne. split_and!.
  - intros Heq. rewrite Heq in Hn4. lia.
  - by apply even_apart.
  - by apply even_apart.
Qed.

Lemma free_slots_head p bot fs : forall s,
  OFS_index <= bot -> free_slots p bot s fs -> 0 <= s < bot.
Proof.
  unfold OFS_index. destruct fs as [|f fs]; simpl; intros s Hbot H.
  - unfold INVALID_INDEX in H. lia.
  - unfold OFS_index in H. lia.
Qed.

Lemma free_slots_in p bot : forall fs s f,
  OFS_index <= bot -> free_slots p bot s fs -> f ∈ fs ->
  OFS_index <= f /\ f mod 2 = 0 /\ f + 2 <= bot /\ load_u16 p f < bot.
Proof.
  induction fs as [|g fs IH]; simpl; intros s f Hbot H Hf.
  - by apply elem_of_nil in Hf.
  - destruct H as (-> & H1 & H2 & H3 & H4).
    apply elem_of_cons in Hf as [->|Hf]; [|by eapply IH].
    pose proof (free_slots_head _ _ _ _ Hbot H4). split_and!; try done. lia.
Qed.

Lemma free_slot_not_node p bot n f :
  slot_ok p bot n -> bot <= n -> f mod 2 = 0 -> load_u16 p f < bot ->
  f <> node_index p n /\ f <> node_index p n + 1 /\ node_index p n <> f + 1.
Proof.
  intros (_ & Hn2 & _ & Hn4) Hn Hf Hv. split_and!.
  - intros ->. lia.
  - by apply even_apart.
  - by apply even_apart.
Qed.

Lemma free_slots_ext p p' bot bot' : forall fs s,
  free_slots p bot s fs ->
  (forall f, f ∈ fs -> load_u16 p' f = load_u16 p f /\ f + 2 <= bot') ->
  free_slots p' bot' s fs.
Proof.
  induction fs as [|g fs IH]; simpl; intros s H Hag; [done|].
  destruct H as (-> & H1 & H2 & H3 & H4).
  destruct (Hag g) as [Hv Hb]; [left|].
  split_and!; try done. rewrite Hv. apply IH; [done|].
  intros f Hf. apply Hag. by right.
Qed.

(** The handle [index] leads to the node at [n'], which has the bytes
    that the node at [n] had in [p]. *)
Definition node_kept (p p' : AvPage) (index n n' : Z) : Prop :=
  get_node p' index = Ok n'
  /\ forall j, 0 <= j < get_node_size p n -> p' (n' + j) = p (n + j).

Lemma page_ok_split p before q after fs :
  page_ok p (before ++ q :: after) fs ->
  let top := load_u16 p OFS_top in
  let bot := page_bottom p in
  let size := get_node_size p q in
  is_bytes p /\ OFS_index <= bot <= top
  /\ chain p top before q /\ 4 <= size /\ q + size <= PAGE_SIZE
  /\ chain p (q + size) after PAGE_SIZE
  /\ (forall n, n ∈ before ++ q :: after ->
        slot_ok p bot n /\ top <= n /\ 4 <= get_node_size p n
        /\ n + get_node_size p n <= PAGE_SIZE)
  /\ (forall n, n ∈ before -> n + get_node_size p n <= q)
  /\ (forall n, n ∈ after -> q + size <= n)
  /\ (forall f, f ∈ fs ->
        OFS_index <= f /\ f mod 2 = 0 /\ f + 2 <= bot /\ load_u16 p f < bot).
Proof.
  intros (Hb & Hc & Hbt & Hs & Hf & Hnd) top bot size.
  fold top in Hc, Hbt. fold bot in Hbt, Hs, Hf.
  pose proof (load_u16_range p OFS_index_count Hb) as Hcnt.
  assert (Hbot : OFS_index <= bot) by (unfold bot, page_bottom; lia).
  pose proof Hc as Hc'.
  apply chain_app in Hc' as (mid & Hc1 & Hc2). simpl in Hc2.
  destruct Hc2 as (-> & Hsz & Hc2). fold size in Hsz, Hc2.
  pose proof (chain_le _ _ _ _ Hc2) as (Hle & _).
  split_and!; try done.
  - intros n Hn. pose proof (chain_in _ _ _ _ _ Hc Hn) as (? & ? & ?).
    split_and!; try done. by apply Hs.
  - intros n Hn. by pose proof (chain_in _ _ _ _ _ Hc1 Hn) as (? & ? & ?).
  - intros n Hn. by pose proof (chain_in _ _ _ _ _ Hc2 Hn) as (? & ? & ?).
  - intros f Hff. by eapply free_slots_in.
Qed.

(** What [free_node] does to a well-formed page. *)
Lemma free_node_page (fuel : nat) (p : AvPage) (before after fs : list Z)
    (q : Z) :
  page_ok p (before ++ q :: after) fs -> (length before < fuel)%nat ->
  let size := get_node_size p q in
  let idx := node_index p q in
  let last := idx =? page_bottom p - 2 in
  exists p',
    free_node fuel p q = Some (Ok (p', q + size))
    /\ page_ok p' (map (fun n => n + size) before ++ after)
               (if last then fs else idx :: fs)
    /\ load_u16 p' OFS_top = load_u16 p OFS_top + size
    /\ page_bottom p' = (if last then page_bottom p - 2 else page_bottom p)
    /\ (forall n, n ∈ before -> node_kept p p' (node_index p n) n (n + size))
    /\ (forall n, n ∈ after -> node_kept p p' (node_index p n) n n)
    /\ get_node p' idx
       = (if last || (load_u16 p OFS_index_freelist =? INVALID_INDEX)
          then Throw AVSTOR_INVOPER
          else Ok (load_u16 p OFS_index_freelist)).
Proof.
  intros Hok Hfuel size idx last.
  pose proof Hok as (_ & _ & _ & _ & Hfree & Hnd).
  destruct (page_ok_split _ _ _ _ _ Hok)
    as (Hb & Hbot & Hc1 & Hsz & Hend & Hc2 & Hall & Hbef & Haft & Hfs).
  fold size in Hsz, Hend, Hc2, Haft.
  set (top := load_u16 p OFS_top) in *. set (bot := page_bottom p) in *.
  assert (Hin : forall n, n ∈ before ++ [q] -> n ∈ before ++ q :: after).
  { intros n Hn. apply elem_of_app in Hn as [?|Hn]; apply elem_of_app; [by left|].
    apply list_elem_of_singleton in Hn as ->. right. by left. }
  assert (Hq_in : q ∈ before ++ q :: after) by (apply elem_of_app; right; by left).
  destruct (resize_node_full fuel p q 0 before Hb Hc1 Hsz Hend)
    as (p' & Hres & Hb' & Htop' & Hnt & Hhigh & Hmv & _ & _ & Hslots & Hidx & Hrel).
  { intros n Hn. by apply Hall, Hin. }
  { lia. }
  { by left. }
  { fold size. lia. }
  { left. fold size. lia. }
  { done. }
  fold size top bot idx in Hres, Htop', Hnt, Hhigh, Hmv, Hslots, Hidx, Hrel.
  replace (size - 0) with size in * by lia.
  replace (q + size - 0) with (q + size) in Hres by lia.
  specialize (Hrel eq_refl).
  destruct (Hall q Hq_in) as (Hsq & Hq5 & _).
  pose proof Hsq as (Hq1 & Hq2 & Hq3 & Hq4).
  fold idx in Hq1, Hq2, Hq3, Hq4.
  assert (Hlast : last = (idx =? OFS_index - 2 + load_u16 p OFS_index_count * 2)).
  { subst last bot. unfold page_bottom.
    destruct (Z.eqb_spec idx (OFS_index + 2 * load_u16 p OFS_index_count - 2));
      destruct (Z.eqb_spec idx (OFS_index - 2 + load_u16 p OFS_index_count * 2));
      lia. }
  rewrite <- Hlast in Hrel.
  assert (Hbot' : page_bottom p' = if last then bot - 2 else bot).
  { unfold page_bottom. subst bot. unfold page_bottom.
    destruct last; destruct Hrel as (-> & _); lia. }
  assert (Hfl' : load_u16 p' OFS_index_freelist
                 = if last then load_u16 p OFS_index_freelist else idx).
  { destruct last; by destruct Hrel as (_ & _ & ->). }
  assert (Hslot' : load_u16 p' idx
                   = if last then 0 else load_u16 p OFS_index_freelist).
  { destruct last; by destruct Hrel as (_ & -> & _). }
  (* a slot that is not the one of a moved or of the freed node *)
  assert (Hkeep : forall s, OFS_index <= s -> s + 2 <= bot -> s mod 2 = 0 ->
            (forall n, n ∈ before ++ [q] ->
               s <> node_index p n /\ s <> node_index p n + 1
               /\ node_index p n <> s + 1) ->
            load_u16 p' s = load_u16 p s).
  { intros s H1 H2 H3 Hno. apply load_u16_ext; apply Hidx; try lia;
      intros n Hn; destruct (Hno n Hn) as (? & ? & ?); lia. }
  assert (Hfree_keep : forall f, f ∈ fs ->
            load_u16 p' f = load_u16 p f /\ f <> idx
            /\ f + 2 <= (if last then bot - 2 else bot)).
  { intros f Hf. destruct (Hfs f Hf) as (Hf1 & Hf2 & Hf3 & Hf4).
    assert (Hnq : f <> idx).
    { assert (bot <= q) as Hbq by lia.
      by destruct (free_slot_not_node p bot q f Hsq Hbq Hf2 Hf4) as (? & _). }
    split_and!; [|done|].
    - apply Hkeep; try done. intros n Hn.
      destruct (Hall n (Hin n Hn)) as (Hsn & ? & _).
      assert (bot <= n) as Hbn by lia.
      exact (free_slot_not_node p bot n f Hsn Hbn Hf2 Hf4).
    - destruct last eqn:El; [|done]. subst last.
      apply Z.eqb_eq in El.
      pose proof (even_apart idx f Hq2 Hf2). subst bot. lia. }
  exists p'. split; [exact Hres|].
  assert (Hnidx_b : forall n, n ∈ before ->
            node_index p' (n + size) = node_index p n).
  { intros n Hn. specialize (Hbef n Hn).
    destruct (Hall n) as (_ & ? & ? & _); [apply elem_of_app; by left|].
    unfold node_index. apply load_u16_moved.
    - replace (n + size + 2) with (n + 2 + size) by lia. apply Hmv. lia.
    - replace (n + size + 2 + 1) with (n + 2 + 1 + size) by lia. apply Hmv. lia. }
  assert (Hnidx_a : forall n, n ∈ after -> node_index p' n = node_index p n).
  { intros n Hn. specialize (Haft n Hn). unfold node_index.
    apply load_u16_ext; apply Hhigh; lia. }
  assert (Hslot_a : forall n, n ∈ after ->
            load_u16 p' (node_index p n) = n).
  { intros n Hn. specialize (Haft n Hn).
    destruct (Hall n) as (Hsn & ? & ? & _);
      [apply elem_of_app; right; by right|].
    pose proof Hsn as (? & ? & ? & Hv).
    transitivity (load_u16 p (node_index p n)); [|done].
    apply Hkeep; try done.
    intros m Hm. destruct (Hall m (Hin m Hm)) as (Hsm & _).
    apply (slots_apart p bot n m Hsn Hsm).
    apply elem_of_app in Hm as [Hm|Hm].
    - specialize (Hbef m Hm). destruct (Hall m) as (_ & _ & ? & _); [apply elem_of_app; by left|]. lia.
    - apply list_elem_of_singleton in Hm as ->. lia. }
  split_and!.
  - (* the page is well formed *)
    unfold page_ok. rewrite Htop', Hbot', Hfl'. split_and!.
    + done.
    + apply chain_app. exists (q + size). split.
      * by apply (chain_shift p).
      * apply (chain_ext p p' (q + size)); [done | lia | done].
    + destruct last; lia.
    + intros n' Hn'. apply elem_of_app in Hn' as [Hn'|Hn'].
      * apply list_elem_of_fmap in Hn' as (n & -> & Hn).
        destruct (Hall n) as ((Hs1 & Hs2 & Hs3 & Hs4) & _);
          [apply elem_of_app; by left|].
        unfold slot_ok. rewrite Hnidx_b by done. split_and!; try done.
        -- destruct last eqn:El; [|done]. subst last. apply Z.eqb_eq in El.
           assert (n <> q) as Hnq.
           { specialize (Hbef n Hn).
             destruct (Hall n) as (_ & _ & ? & _); [apply elem_of_app; by left|]. lia. }
           destruct (slots_apart p bot n q (conj Hs1 (conj Hs2 (conj Hs3 Hs4))) Hsq Hnq)
             as (Hne & _).
           fold idx in Hne.
           pose proof (even_apart idx (node_index p n) Hq2 Hs2). subst bot. lia.
        -- by apply Hslots.
      * destruct (Hall n') as ((Hs1 & Hs2 & Hs3 & Hs4) & _);
          [apply elem_of_app; right; by right|].
        unfold slot_ok. rewrite Hnidx_a by done. split_and!; try done.
        -- destruct last eqn:El; [|done]. subst last. apply Z.eqb_eq in El.
           assert (n' <> q) as Hnq by (specialize (Haft n' Hn'); lia).
           destruct (slots_apart p bot n' q (conj Hs1 (conj Hs2 (conj Hs3 Hs4))) Hsq Hnq)
             as (Hne & _).
           fold idx in Hne.
           pose proof (even_apart idx (node_index p n') Hq2 Hs2). subst bot. lia.
        -- by apply Hslot_a.
    + destruct last eqn:El.
      * apply (free_slots_ext p p' bot); [done|].
        intros f Hf. destruct (Hfree_keep f Hf) as (? & _ & ?). done.
      * simpl. split_and!; try done. rewrite Hslot'.
        apply (free_slots_ext p p' bot); [done|].
        intros f Hf. destruct (Hfree_keep f Hf) as (? & _ & ?). done.
    + destruct last; [done|]. constructor; [|done].
      intros Hf. by destruct (Hfree_keep idx Hf) as (_ & ? & _).
  - done.
  - done.
  - intros n Hn. specialize (Hbef n Hn).
    destruct (Hall n) as (_ & ? & ? & _); [apply elem_of_app; by left|].
    split.
    + unfold get_node. rewrite Hslots by done. unfold INVALID_INDEX.
      unfold OFS_index in *. by replace (n + size =? 0) with false by lia.
    + intros j Hj. replace (n + size + j) with (n + j + size) by lia.
      apply Hmv. lia.
  - intros n Hn. specialize (Haft n Hn). split.
    + unfold get_node. rewrite Hslot_a by done. unfold INVALID_INDEX.
      unfold OFS_index in *. by replace (n =? 0) with false by lia.
    + intros j Hj. apply Hhigh. lia.
  - unfold get_node. rewrite Hslot'. destruct last; simpl; [done|].
    destruct (load_u16 p OFS_index_freelist =? INVALID_INDEX); done.
Qed.

(** X14. Freeing a node keeps the page well formed and gives its bytes
    back: the nodes allocated after it move up by its size, the others
    stay, and every remaining node keeps its handle and its bytes;
    [page->top] grows by the size. The slot leaves the slots in use when
    it is the last one and joins the free list otherwise; the freed
    handle is then refused with [AVSTOR_INVOPER] only when the slot was
    the last one or no other slot was free: otherwise the slot holds the
    next free slot, which [get_node] returns as if it were a node. *)
Theorem free_node_keeps_page (fuel : nat) (p : AvPage) (before after fs : list Z)
    (q : Z) :
  page_ok p (before ++ q :: after) fs -> (length before < fuel)%nat ->
  let size := get_node_size p q in
  let idx := node_index p q in
  let last := idx =? page_bottom p - 2 in
  exists p',
    free_node fuel p q = Some (Ok (p', q + size))
    /\ page_ok p' (map (fun n => n + size) before ++ after)
               (if last then fs else idx :: fs)
    /\ load_u16 p' OFS_top = load_u16 p OFS_top + size
    /\ page_bottom p' = (if last then page_bottom p - 2 else page_bottom p)
    /\ (forall n, n ∈ before -> node_kept p p' (node_index p n) n (n + size))
    /\ (forall n, n ∈ after -> node_kept p p' (node_index p n) n n)
    /\ get_node p' idx
       = (if last || (load_u16 p OFS_index_freelist =? INVALID_INDEX)
          then Throw AVSTOR_INVOPER
          else Ok (load_u16 p OFS_index_freelist)).
Proof. apply free_node_page. Qed.






Lemma chain_same p p' : forall ns c stop,
  (forall n, n ∈ ns -> get_node_size p' n = get_node_size p n) ->
  chain p c ns stop -> chain p' c ns stop.
Proof.
  induction ns as [|n ns IH]; simpl; intros c stop Hh Hc; [done|].
  destruct Hc as (-> & Hs & Hc). rewrite (Hh c) by left.
  split_and!; try done. apply IH; [|done]. intros m Hm. apply Hh. by right.
Qed.

(** Bytes written into the body of the node at [q], or below
    [page->top] in the header of the page, leave the page well formed and
    the other nodes as they are. *)
Lemma page_ok_write p p' before q after fs :
  page_ok p (before ++ q :: after) fs -> is_bytes p' ->
  (forall i, OFS_top <= i -> ~ (q + 4 <= i < q + get_node_size p q) ->
             p' i = p i) ->
  page_ok p' (before ++ q :: after) fs
  /\ forall n, n ∈ before ++ after -> node_kept p p' (node_index p n) n n.
Proof.
  intros Hok Hb' Hag.
  pose proof Hok as (_ & Hc & _ & _ & Hfree & Hnd).
  destruct (page_ok_split _ _ _ _ _ Hok)
    as (Hb & Hbot & Hc1 & Hsz & Hend & Hc2 & Hall & Hbef & Haft & Hfs).
  set (top := load_u16 p OFS_top) in *. set (bot := page_bottom p) in *.
  set (size := get_node_size p q) in *.
  unfold OFS_top, OFS_index in *.
  assert (Hlow : forall i, 20 <= i < q + 4 -> p' i = p i)
    by (intros i Hi; apply Hag; lia).
  assert (Hq_in : q ∈ before ++ q :: after) by (apply elem_of_app; right; by left).
  destruct (Hall q Hq_in) as (_ & Hq5 & _).
  assert (Hnode : forall n, n ∈ before ++ q :: after ->
            forall j, 0 <= j < (if decide (n = q) then 4 else get_node_size p n) ->
                      p' (n + j) = p (n + j)).
  { intros n Hn j Hj. destruct (Hall n Hn) as (_ & ? & ? & ?).
    destruct (decide (n = q)) as [->|Hnq]; [apply Hlow; lia|].
    apply Hag; [lia|].
    apply elem_of_app in Hn as [Hn|Hn].
    - specialize (Hbef n Hn). lia.
    - apply elem_of_cons in Hn as [->|Hn]; [done|]. specialize (Haft n Hn). lia. }
  assert (Hhdr : forall n, n ∈ before ++ q :: after ->
            get_node_size p' n = get_node_size p n
            /\ node_index p' n = node_index p n).
  { intros n Hn. destruct (Hall n Hn) as (_ & _ & ? & _).
    pose proof (Hnode n Hn) as Hj.
    assert (forall j, 0 <= j < 4 -> p' (n + j) = p (n + j)) as H4
      by (intros j ?; apply Hj; destruct (decide (n = q)); lia).
    split.
    - unfold get_node_size. f_equal. f_equal. apply load_u16_ext.
      + replace n with (n + 0) by lia. apply H4. lia.
      + apply H4. lia.
    - unfold node_index. apply load_u16_ext.
      + apply H4. lia.
      + replace (n + 2 + 1) with (n + 3) by lia. apply H4. lia. }
  assert (Hidx : forall s, 20 <= s -> s + 2 <= bot -> load_u16 p' s = load_u16 p s)
    by (intros s ? ?; apply load_u16_ext; apply Hlow; lia).
  assert (Htop' : load_u16 p' 20 = top) by (apply Hidx; lia).
  assert (Hbot' : page_bottom p' = bot).
  { unfold page_bottom, OFS_index_count, OFS_index.
    rewrite (Hidx 24) by lia. done. }
  split.
  - unfold page_ok, OFS_top. rewrite Htop', Hbot'. split_and!; try done.
    + apply (chain_same p); [|done]. intros n Hn. by apply Hhdr.
    + lia.
    + intros n Hn. destruct (Hall n Hn) as ((H1 & H2 & H3 & H4) & _).
      destruct (Hhdr n Hn) as [_ Hi]. unfold slot_ok. rewrite Hi.
      unfold OFS_index in *.
      split_and!; try done. rewrite Hidx; [done | lia | done].
    + unfold OFS_index_freelist. rewrite (Hidx 22) by lia.
      apply (free_slots_ext p p' bot); [done|].
      intros f Hf. destruct (Hfs f Hf) as (? & ? & ? & ?).
      unfold OFS_index in *. split; [|done]. apply Hidx; lia.
  - intros n Hn.
    assert (Hn' : n ∈ before ++ q :: after).
    { apply elem_of_app in Hn as [?|?]; apply elem_of_app; [by left|].
      right. by right. }
    assert (Hnq : n <> q).
    { apply elem_of_app in Hn as [Hn|Hn].
      - specialize (Hbef n Hn). destruct (Hall n Hn') as (_ & _ & ? & _). lia.
      - specialize (Haft n Hn). lia. }
    destruct (Hall n Hn') as ((H1 & H2 & H3 & H4) & ? & _).
    unfold OFS_index in *.
    split.
    + unfold get_node. rewrite Hidx by lia. rewrite H4. unfold INVALID_INDEX.
      by replace (n =? 0) with false by lia.
    + intros j Hj. pose proof (Hnode n Hn' j) as Hj'.
      destruct (decide (n = q)); [done|]. by apply Hj'.
Qed.

Lemma store_u8_bytes p o v : is_bytes p -> is_bytes (store_u8 o v p).
Proof.
  intros Hb i. unfold store_u8. destruct (i =? o); [|apply Hb].
  unfold u8. change (2 ^ 8) with 256. apply Z.mod_pos_bound. lia.
Qed.





(** *** Allocation *)

(** The page of [alloc_node] once the slot [index] has been taken: the
    new top, the slot, and the header of the new node. *)
Definition alloc_fill (pa : AvPage) (index top' size : Z) : AvPage :=
  set_node_size top' size
    (store_u16 (top' + 2) (u16 index)
       (store_u16 index top' (store_u16 OFS_top (u16 top') pa))).

Lemma alloc_fill_spec pa index top' size :
  is_bytes pa -> OFS_index <= index -> index + 2 <= top' ->
  4 <= size < 4096 -> size mod 4 = 0 -> top' + size <= PAGE_SIZE ->
  let pe := alloc_fill pa index top' size in
  is_bytes pe
  /\ load_u16 pe OFS_top = top'
  /\ load_u16 pe index = top'
  /\ node_index pe top' = index
  /\ get_node_size pe top' = size
  /\ (forall i, i <> OFS_top -> i <> OFS_top + 1 -> i <> index -> i <> index + 1 ->
                ~ (top' <= i < top' + 4) -> pe i = pa i).
Proof.
  intros Hb Hi1 Hi2 Hsz Hmod Hend pe. subst pe. unfold alloc_fill.
  unfold OFS_index, OFS_top, PAGE_SIZE in *.
  set (pb := store_u16 20 (u16 top') pa).
  set (pc := store_u16 index top' pb).
  set (pd := store_u16 (top' + 2) (u16 index) pc).
  assert (Hbd : is_bytes pd) by (by do 3 apply store_u16_bytes).
  destruct (set_node_size_spec pd top' size Hbd) as (Hs1 & _ & Hs3 & Hs4);
    [lia | done |].
  cbv zeta in Hs1, Hs3, Hs4.
  assert (Hu : u16 top' = top') by (apply u16_small; lia).
  assert (Hui : u16 index = index) by (apply u16_small; lia).
  split_and!.
  - done.
  - transitivity (load_u16 pb 20).
    + apply load_u16_ext; rewrite Hs3 by lia; unfold pd, pc;
        rewrite !store_u16_other by lia; done.
    + unfold pb. rewrite load_store_u16 by apply u16_range. done.
  - transitivity (load_u16 pc index).
    + apply load_u16_ext; rewrite Hs3 by lia; unfold pd;
        rewrite !store_u16_other by lia; done.
    + unfold pc. rewrite load_store_u16 by lia. done.
  - unfold node_index. transitivity (load_u16 pd (top' + 2)).
    + apply load_u16_ext; rewrite Hs3 by lia; done.
    + unfold pd. rewrite load_store_u16 by apply u16_range. done.
  - done.
  - intros i H1 H2 H3 H4 H5. rewrite Hs3 by lia. unfold pd, pc, pb.
    rewrite !store_u16_other by lia. done.
Qed.

Lemma even_slot k : (OFS_index + 2 * k) mod 2 = 0.
Proof.
  unfold OFS_index. replace (26 + 2 * k) with ((13 + k) * 2) by lia.
  apply Z.mod_mul. lia.
Qed.

Lemma alloc_page_ok p pa ns fs fs' index size :
  let top := load_u16 p OFS_top in
  let node := top - size in
  let bot' := OFS_index + 2 * load_u16 pa OFS_index_count in
  page_ok p ns fs -> is_bytes pa ->
  (forall i, i < OFS_index_freelist \/ OFS_index <= i -> pa i = p i) ->
  page_bottom p <= bot' ->
  OFS_index <= index -> index mod 2 = 0 -> index + 2 <= bot' -> bot' <= node ->
  4 <= size -> size mod 4 = 0 ->
  (forall n, n ∈ ns -> index <> node_index p n) ->
  free_slots p (page_bottom p) (load_u16 pa OFS_index_freelist) fs' ->
  NoDup fs' -> index ∉ fs' ->
  let pe := alloc_fill pa index node size in
  page_ok pe (node :: ns) fs'
  /\ get_node pe index = Ok node
  /\ node_index pe node = index
  /\ get_node_size pe node = size
  /\ forall n, n ∈ ns -> node_kept p pe (node_index p n) n n.
Proof.
  intros top node bot' Hok Hba Hpa Hbb Hi1 Hi2 Hi3 Hbn Hsz Hmod Hfresh Hfree
    Hnd' Hnotin pe.
  destruct Hok as (Hb & Hc & Hbt & Hs & _ & _). fold top in Hc, Hbt.
  pose proof (chain_le _ _ _ _ Hc) as (Htop & _).
  pose proof (load_u16_range p OFS_index_count Hb) as Hcnt.
  assert (Hbot : OFS_index <= page_bottom p) by (unfold page_bottom; lia).
  destruct (alloc_fill_spec pa index node size Hba Hi1) as
    (Hbe & Htop' & Hslot & Hidx & Hsize & Hother);
    [lia | subst node bot'; unfold page_bottom, OFS_index, PAGE_SIZE in *; lia
     | done | subst node; lia |].
  fold pe in Hbe, Htop', Hslot, Hidx, Hsize, Hother.
  unfold OFS_index, OFS_top, OFS_index_freelist, OFS_index_count, PAGE_SIZE in *.
  assert (Hhigh : forall i, top <= i -> pe i = p i).
  { intros i Hi. rewrite Hother by lia. apply Hpa. lia. }
  assert (Hcnt' : load_u16 pe 24 = load_u16 pa 24)
    by (apply load_u16_ext; apply Hother; lia).
  assert (Hfl' : load_u16 pe 22 = load_u16 pa 22)
    by (apply load_u16_ext; apply Hother; lia).
  assert (Hslots : forall s, 26 <= s -> s + 2 <= page_bottom p -> s mod 2 = 0 ->
            s <> index -> load_u16 pe s = load_u16 p s).
  { intros s H1 H2 H3 H4. pose proof (even_apart s index H3 Hi2).
    pose proof (even_apart index s Hi2 H3).
    apply load_u16_ext; (rewrite Hother by lia); apply Hpa; lia. }
  assert (Hnode : forall n, n ∈ ns ->
            top <= n /\ node_index pe n = node_index p n
            /\ load_u16 pe (node_index p n) = n
            /\ slot_ok p (page_bottom p) n).
  { intros n Hn. pose proof (chain_in _ _ _ _ _ Hc Hn) as (? & ? & ?).
    pose proof (Hs n Hn) as Hsn. pose proof Hsn as (Hn1 & Hn2 & Hn3 & Hn4).
    unfold OFS_index in Hn1.
    split_and!; try done.
    - unfold node_index. apply load_u16_ext; apply Hhigh; lia.
    - rewrite Hslots; try done. intros Heq. by apply (Hfresh n Hn). }
  split_and!.
  - unfold page_ok, page_bottom, OFS_top, OFS_index, OFS_index_count,
      OFS_index_freelist.
    rewrite Htop', Hcnt', Hfl'. fold bot'. split_and!.
    + done.
    + simpl. rewrite Hsize. split_and!; [done | done |].
      replace (node + size) with top by (subst node; lia).
      by apply (chain_ext p pe top).
    + done.
    + intros n Hn. apply elem_of_cons in Hn as [->|Hn].
      * unfold slot_ok. rewrite Hidx. done.
      * destruct (Hnode n Hn) as (? & Hi & Hv & (H1 & H2 & H3 & H4)).
        unfold slot_ok. rewrite Hi. split_and!; try done. lia.
    + apply (free_slots_ext p pe (page_bottom p)); [done|].
      intros f Hf.
      destruct (free_slots_in p (page_bottom p) fs' _ f Hbot Hfree Hf)
        as (H1 & H2 & H3 & H4).
      unfold OFS_index in H1. split; [|lia]. apply Hslots; try done.
      intros ->. done.
    + done.
  - unfold get_node. rewrite Hslot. unfold INVALID_INDEX.
    by replace (node =? 0) with false by lia.
  - done.
  - done.
  - intros n Hn. destruct (Hnode n Hn) as (? & Hi & Hv & _). split.
    + unfold get_node. rewrite Hv. unfold INVALID_INDEX.
      by replace (n =? 0) with false by lia.
    + intros j Hj. apply Hhigh. lia.
Qed.

Lemma alloc_in_page_unfold p size :
  let fl := load_u16 p OFS_index_freelist in
  let index :=
    if fl =? INVALID_INDEX
    then OFS_index + 2 * load_u16 p OFS_index_count else fl in
  let pa :=
    if fl =? INVALID_INDEX
    then store_u16 OFS_index_count (u16 (load_u16 p OFS_index_count + 1)) p
    else store_u16 OFS_index_freelist (load_u16 p fl) p in
  let node := load_u16 p OFS_top - size in
  OFS_index <= index -> index + 2 <= node -> node < 65536 ->
  OFS_index + 2 * load_u16 pa OFS_index_count <= node ->
  alloc_in_page p size = Ok (alloc_fill pa index node size, node).
Proof.
  intros fl index pa node Hi1 Hi2 Hn Hbot.
  unfold alloc_in_page. fold fl. cbv zeta. fold index pa.
  unfold OFS_index, OFS_top, OFS_index_count, OFS_index_freelist in *.
  assert (Ht : load_u16 pa 20 = load_u16 p 20).
  { subst pa. destruct (fl =? INVALID_INDEX);
      apply load_u16_ext; apply store_u16_other; lia. }
  rewrite Ht. fold node.
  assert (Hu : u16 node = node) by (apply u16_small; lia).
  set (pb := store_u16 20 (u16 node) pa).
  assert (Hpb : load_u16 pb 20 = node).
  { subst pb. rewrite load_store_u16 by apply u16_range. done. }
  rewrite Hpb.
  set (pc := store_u16 index node pb).
  assert (Hpc : load_u16 pc index = node)
    by (subst pc; apply load_store_u16; lia).
  assert (Hcnt : load_u16 pc 24 = load_u16 pa 24).
  { subst pc pb. apply load_u16_ext; rewrite !store_u16_other by lia; done. }
  unfold get_node. rewrite Hpc. unfold INVALID_INDEX at 1.
  replace (node =? 0) with false by lia. simpl mbind.
  rewrite Hcnt. replace (node <? 26 + 2 * load_u16 pa 24) with false by lia.
  reflexivity.
Qed.

(** What [alloc_node] does to a well-formed page that has the space. *)
Lemma alloc_in_page_page (p : AvPage) (ns fs : list Z) (size : Z) :
  page_ok p ns fs -> 4 <= size -> size mod 4 = 0 ->
  size <= get_page_free_space p ->
  let node := load_u16 p OFS_top - size in
  let index := match fs with [] => page_bottom p | f :: _ => f end in
  exists p',
    alloc_in_page p size = Ok (p', node)
    /\ page_ok p' (node :: ns) (tail fs)
    /\ get_node p' index = Ok node
    /\ node_index p' node = index
    /\ get_node_size p' node = size
    /\ forall n, n ∈ ns -> node_kept p p' (node_index p n) n n.
Proof.
  intros Hok Hsz Hmod Hfit node index.
  pose proof Hok as (Hb & Hc & Hbt & Hs & Hf & Hnd).
  set (top := load_u16 p OFS_top) in *.
  pose proof (chain_le _ _ _ _ Hc) as (Htop & _).
  pose proof (load_u16_range p OFS_index_count Hb) as Hcnt.
  pose proof (load_u16_range p OFS_index_freelist Hb) as Hflr.
  assert (Hbot : OFS_index <= page_bottom p) by (unfold page_bottom; lia).
  (* the free space *)
  assert (Hroom : page_bottom p
                  + (if load_u16 p OFS_index_freelist =? INVALID_INDEX
                     then 2 else 0) <= node).
  { unfold get_page_free_space in Hfit. fold top in Hfit.
    unfold page_bottom in *. unfold OFS_index, PAGE_SIZE in *.
    set (extra := if load_u16 p OFS_index_freelist =? INVALID_INDEX
                  then 2 else 0) in *.
    assert (0 <= extra <= 2)
      by (subst extra; destruct (load_u16 p OFS_index_freelist =? INVALID_INDEX);
          lia).
    destruct (align_node_spec (26 + 2 * load_u16 p OFS_index_count + extra))
      as [Ha _]; [lia|].
    destruct (Z.ltb_spec
                (align_node (26 + 2 * load_u16 p OFS_index_count + extra)) top);
      subst node; lia. }
  assert (Hnode_rng : OFS_index <= node < PAGE_SIZE)
    by (destruct (load_u16 p OFS_index_freelist =? INVALID_INDEX);
        unfold OFS_index, PAGE_SIZE in *; subst node; lia).
  assert (Hfresh_low : forall n s, n ∈ ns -> load_u16 p s < page_bottom p ->
            s <> node_index p n).
  { intros n s Hn Hv ->. destruct (Hs n Hn) as (_ & _ & _ & Hv').
    pose proof (chain_in _ _ _ _ _ Hc Hn) as (? & _). fold top in H. lia. }
  pose proof (alloc_in_page_unfold p size) as Hres. cbv zeta in Hres.
  fold top node in Hres.
  destruct fs as [|f fs'].
  - (* no free slot: a new one at the end of the slots *)
    simpl in Hf. subst index. rewrite Hf in Hres, Hroom.
    change (INVALID_INDEX =? INVALID_INDEX) with true in Hres, Hroom.
    cbv iota in Hres, Hroom. fold (page_bottom p) in Hres.
    set (pa := store_u16 OFS_index_count
                 (u16 (load_u16 p OFS_index_count + 1)) p) in *.
    assert (Hcnt' : load_u16 pa OFS_index_count = load_u16 p OFS_index_count + 1).
    { subst pa. rewrite load_store_u16 by apply u16_range.
      apply u16_small. unfold page_bottom, OFS_index, PAGE_SIZE in *. lia. }
    assert (Hfl' : load_u16 pa OFS_index_freelist = INVALID_INDEX).
    { rewrite <- Hf. subst pa. apply load_u16_ext; apply store_u16_other;
        unfold OFS_index_count, OFS_index_freelist; lia. }
    exists (alloc_fill pa (page_bottom p) node size). split.
    { apply Hres; unfold page_bottom, OFS_index, PAGE_SIZE in *; lia. }
    apply (alloc_page_ok p pa ns [] [] (page_bottom p) size Hok).
    + by apply store_u16_bytes.
    + intros i Hi. subst pa. apply store_u16_other;
        unfold OFS_index_count, OFS_index_freelist, OFS_index in *; lia.
    + rewrite Hcnt'. unfold page_bottom. lia.
    + done.
    + apply even_slot.
    + rewrite Hcnt'. unfold page_bottom. lia.
    + rewrite Hcnt'. unfold page_bottom in *. fold top. fold node. lia.
    + done.
    + done.
    + intros n Hn Heq. destruct (Hs n Hn) as (_ & _ & ? & _). lia.
    + by rewrite Hfl'.
    + constructor.
    + apply not_elem_of_nil.
  - (* the first free slot *)
    simpl in Hf. destruct Hf as (Hfl & Hf1 & Hf2 & Hf3 & Hf4).
    subst index. simpl tail.
    apply NoDup_cons in Hnd as [Hnotin Hnd'].
    assert (Hnz : (load_u16 p OFS_index_freelist =? INVALID_INDEX) = false)
      by (rewrite Hfl; unfold INVALID_INDEX, OFS_index in *; lia).
    rewrite Hnz in Hres, Hroom. rewrite Hfl in Hres.
    set (pa := store_u16 OFS_index_freelist (load_u16 p f) p) in *.
    assert (Hcnt' : load_u16 pa OFS_index_count = load_u16 p OFS_index_count).
    { subst pa. apply load_u16_ext; apply store_u16_other;
        unfold OFS_index_count, OFS_index_freelist; lia. }
    assert (Hfl' : load_u16 pa OFS_index_freelist = load_u16 p f).
    { subst pa. apply load_store_u16. by apply load_u16_range. }
    exists (alloc_fill pa f node size). split.
    { apply Hres; rewrite ?Hcnt'; unfold page_bottom, OFS_index, PAGE_SIZE in *; lia. }
    pose proof (free_slots_head _ _ _ _ Hbot Hf4) as Hnext.
    apply (alloc_page_ok p pa ns (f :: fs') fs' f size Hok).
    + by apply store_u16_bytes.
    + intros i Hi. subst pa. apply store_u16_other;
        unfold OFS_index_count, OFS_index_freelist, OFS_index in *; lia.
    + rewrite Hcnt'. unfold page_bottom. lia.
    + done.
    + done.
    + rewrite Hcnt'. by unfold page_bottom in *.
    + rewrite Hcnt'. unfold page_bottom in *. fold top. fold node. lia.
    + done.
    + done.
    + intros n Hn. apply (Hfresh_low n f Hn). lia.
    + by rewrite Hfl'.
    + done.
    + done.
Qed.

(** X17. A node of [size] bytes is allocated in a well-formed page that
    has the free space: the node is placed right below the old
    [page->top], it takes the first slot of the free list, or a new slot
    at the end of the slots when no slot is free, its handle leads to it
    and its header holds the size; the page stays well formed and every
    node that was in the page keeps its handle and its bytes. *)
Theorem alloc_in_page_ok (p : AvPage) (ns fs : list Z) (size : Z) :
  page_ok p ns fs -> 4 <= size -> size mod 4 = 0 ->
  size <= get_page_free_space p ->
  let node := load_u16 p OFS_top - size in
  let index := match fs with [] => page_bottom p | f :: _ => f end in
  exists p',
    alloc_in_page p size = Ok (p', node)
    /\ page_ok p' (node :: ns) (tail fs)
    /\ get_node p' index = Ok node
    /\ node_index p' node = index
    /\ get_node_size p' node = size
    /\ forall n, n ∈ ns -> node_kept p p' (node_index p n) n n.
Proof. apply alloc_in_page_page. Qed.

(** *** A new page *)

Definition PAGE_KEYS : Z := 1.
Definition MAX_FILE_PAGES : Z := 2147483648 / PAGE_SIZE - 1.

(** The frame that [cache_lookup(db, page_ofs, 0)] hands out when it has
    one: cleared, with the offset of the page and one lock. *)
Definition cleared_frame (page_ofs : Z) : AvPage :=
  store_u32 OFS_lock_count 1 (store_u32 OFS_page_offset page_ofs (fun _ => 0)).

(** [create_page], from [hdr->pagecount]: the new page and the new page
    count. *)
Definition create_page (pagecount type : Z) : res (AvPage * Z) :=
  if pagecount =? MAX_FILE_PAGES then Throw AVSTOR_INVOPER
  else
    let page := cleared_frame (u32 (pagecount * PAGE_SIZE)) in
    let page := store_u8 OFS_type type page in
    let page := store_u16 OFS_top PAGE_SIZE page in
    let page := store_u16 OFS_index_freelist INVALID_INDEX page in
    Ok (Cache.set_page_dirty page, u32 (pagecount + 1)).

(** [alloc_node] on the path that creates a page: the page, the place of
    the node and the new page count; the entry of the page pool that the
    header page keeps is not followed. *)
Definition alloc_node_new_page (pagecount size : Z) : res (AvPage * Z * Z) :=
  '(page, pagecount) ← create_page pagecount PAGE_KEYS;
  if get_page_free_space page <? size then Throw AVSTOR_INTERNAL
  else
    '(page, node) ← alloc_in_page page size;
    Ok (page, node, pagecount).

Lemma store_u32_bytes p o v : is_bytes p -> is_bytes (store_u32 o v p).
Proof.
  intros Hb i. unfold store_u32.
  repeat (destruct (_ =? _); [apply Z.mod_pos_bound; lia|]). apply Hb.
Qed.

Lemma create_page_ok pagecount type :
  pagecount <> MAX_FILE_PAGES ->
  exists page,
    create_page pagecount type = Ok (page, u32 (pagecount + 1))
    /\ page_ok page [] [] /\ get_page_free_space page = 4068
    /\ load_u16 page OFS_top = PAGE_SIZE /\ page_bottom page = OFS_index.
Proof.
  intros Hne. unfold create_page.
  replace (pagecount =? MAX_FILE_PAGES) with false by lia.
  eexists. split; [reflexivity|].
  set (page := Cache.set_page_dirty _).
  assert (Htop : load_u16 page OFS_top = PAGE_SIZE) by (by vm_compute).
  assert (Hcnt : load_u16 page OFS_index_count = 0) by (by vm_compute).
  assert (Hfl : load_u16 page OFS_index_freelist = 0) by (by vm_compute).
  split_and!.
  - unfold page_ok, page_bottom. rewrite Htop, Hcnt, Hfl. split_and!; try done.
    + subst page. apply store_u8_bytes. do 2 apply store_u16_bytes.
      apply store_u8_bytes. do 2 apply store_u32_bytes. intros i. lia.
    + intros n Hn. by apply elem_of_nil in Hn.
    + constructor.
  - unfold get_page_free_space. rewrite Htop, Hcnt, Hfl. by vm_compute.
  - exact Htop.
  - unfold page_bottom. rewrite Hcnt. done.
Qed.

(** X18. A new page takes any node of up to 4068 bytes: on the path of
    [alloc_node] that creates a page, a node of an aligned size of at most
    4068 bytes is placed at the end of the page, with the first slot as
    its handle, and the page is well formed; for a larger size the
    function throws [AVSTOR_INTERNAL], and [create_page] throws
    [AVSTOR_INVOPER] when the file has [MAX_FILE_PAGES] pages. *)
Theorem alloc_in_new_page (pagecount size : Z) :
  4 <= size -> size mod 4 = 0 ->
  (pagecount = MAX_FILE_PAGES ->
   alloc_node_new_page pagecount size = Throw AVSTOR_INVOPER)
  /\ (pagecount <> MAX_FILE_PAGES -> 4068 < size ->
      alloc_node_new_page pagecount size = Throw AVSTOR_INTERNAL)
  /\ (pagecount <> MAX_FILE_PAGES -> size <= 4068 ->
      exists p',
        alloc_node_new_page pagecount size
        = Ok (p', PAGE_SIZE - size, u32 (pagecount + 1))
        /\ page_ok p' [PAGE_SIZE - size] []
        /\ get_node p' OFS_index = Ok (PAGE_SIZE - size)
        /\ get_node_size p' (PAGE_SIZE - size) = size).
Proof.
  intros Hsz Hmod. split_and!.
  - intros ->. unfold alloc_node_new_page, create_page.
    by rewrite Z.eqb_refl.
  - intros Hne Hbig.
    destruct (create_page_ok pagecount PAGE_KEYS Hne) as (page & Hc & _ & Hfree & _).
    unfold alloc_node_new_page. rewrite Hc. simpl mbind. rewrite Hfree.
    by replace (4068 <? size) with true by lia.
  - intros Hne Hfit.
    destruct (create_page_ok pagecount PAGE_KEYS Hne)
      as (page & Hc & Hok & Hfree & Htop & Hbot).
    unfold alloc_node_new_page. rewrite Hc. simpl mbind. rewrite Hfree.
    replace (4068 <? size) with false by lia.
    destruct (alloc_in_page_page page [] [] size Hok Hsz Hmod)
      as (p' & Ha & Hok' & Hget & _ & Hsize & _); [lia|].
    rewrite Htop in Ha, Hok', Hget, Hsize. rewrite Hbot in Hget.
    rewrite Ha. simpl mbind. by exists p'.
Qed.

Lemma alloc_in_new_page_witness :
  exists p',
    alloc_node_new_page 1 16 = Ok (p', 4080, 2)
    /\ page_ok p' [4080] [] /\ get_node p' 26 = Ok 4080
    /\ get_node_size p' 4080 = 16.
Proof.
  destruct (alloc_in_new_page 1 16) as (_ & _ & H); [lia | done |].
  apply H; [by vm_compute | lia].
Defined.

(** *** The page of the examples *)

Lemma ex_page_ok : page_ok ex_page ([4048] ++ 4076 :: []) [].
Proof.
  unfold page_ok. split_and!.
  - apply page_of_bytes_is_bytes. by vm_compute.
  - by vm_compute.
  - by vm_compute.
  - apply Forall_forall. cbn [app]. repeat constructor; by vm_compute.
  - by vm_compute.
  - constructor.
Qed.

Lemma free_node_keeps_page_witness :
  exists p',
    free_node 2 ex_page 4076 = Some (Ok (p', 4096))
    /\ page_ok p' [4068] [26]
    /\ load_u16 p' OFS_top = 4068
    /\ get_node p' 28 = Ok 4068
    /\ get_node p' 26 = Throw AVSTOR_INVOPER.
Proof.
  destruct (free_node_keeps_page 2 ex_page [4048] [] [] 4076 ex_page_ok)
    as (p' & H1 & H2 & H3 & _ & H4 & _ & H5); [simpl; lia|].
  assert (E1 : get_node_size ex_page 4076 = 20) by (by vm_compute).
  assert (E2 : node_index ex_page 4076 = 26) by (by vm_compute).
  assert (E3 : page_bottom ex_page = 30) by (by vm_compute).
  assert (E4 : load_u16 ex_page OFS_index_freelist = 0) by (by vm_compute).
  assert (E5 : load_u16 ex_page OFS_top = 4048) by (by vm_compute).
  assert (E6 : node_index ex_page 4048 = 28) by (by vm_compute).
  rewrite ?E1, ?E2, ?E3, ?E4, ?E5 in H1. rewrite ?E1, ?E2, ?E3, ?E4, ?E5 in H2. rewrite ?E1, ?E2, ?E3, ?E4, ?E5 in H3. rewrite ?E1, ?E2, ?E3, ?E4, ?E5 in H5.
  destruct (H4 4048) as [H6 _]; [by left|]. rewrite ?E1, ?E6 in H6.
  exists p'. split_and!; done.
Defined.


Lemma alloc_in_page_ok_witness :
  exists p',
    alloc_in_page ex_page 16 = Ok (p', 4032)
    /\ page_ok p' [4032; 4048; 4076] []
    /\ get_node p' 30 = Ok 4032.
Proof.
  destruct (alloc_in_page_ok ex_page _ [] 16 ex_page_ok)
    as (p' & H1 & H2 & H3 & _); [lia | done | by vm_compute |].
  assert (E3 : page_bottom ex_page = 30) by (by vm_compute).
  assert (E5 : load_u16 ex_page OFS_top = 4048) by (by vm_compute).
  rewrite ?E3, ?E5 in H1. rewrite ?E3, ?E5 in H2. rewrite ?E3, ?E5 in H3.
  exists p'. split_and!; done.
Defined.


(** X19. The handle of a freed node is handed out again: when a node is
    freed and its slot is not the last one, or no other slot is free, the
    next node allocated in the page is placed below the new [page->top]
    and gets the same slot, so that the old handle then leads to the new
    node. *)
Theorem freed_handle_is_reused (fuel : nat) (p p1 : AvPage)
    (before after fs : list Z) (q r size : Z) :
  page_ok p (before ++ q :: after) fs -> (length before < fuel)%nat ->
  node_index p q <> page_bottom p - 2 \/ fs = [] ->
  free_node fuel p q = Some (Ok (p1, r)) ->
  4 <= size -> size mod 4 = 0 -> size <= get_page_free_space p1 ->
  exists p2,
    alloc_in_page p1 size
    = Ok (p2, load_u16 p OFS_top + get_node_size p q - size)
    /\ get_node p2 (node_index p q)
       = Ok (load_u16 p OFS_top + get_node_size p q - size).
Proof.
  intros Hok Hfuel Hcase Hfree Hsz Hmod Hfit.
  destruct (free_node_page fuel p before after fs q Hok Hfuel)
    as (p' & Hfree' & Hok' & Htop' & Hbot' & _).
  assert (p1 = p') as -> by congruence.
  destruct (alloc_in_page_page p' _ _ size Hok' Hsz Hmod Hfit)
    as (p2 & Ha & _ & Hget & _).
  rewrite Htop' in Ha, Hget. exists p2. split; [exact Ha|].
  destruct (Z.eqb_spec (node_index p q) (page_bottom p - 2)) as [Hlast|Hnl].
  - destruct Hcase as [Hc| ->]; [done|]. rewrite Hbot' in Hget.
    by rewrite Hlast.
  - exact Hget.
Qed.

Lemma freed_handle_is_reused_witness :
  exists p1 p2,
    free_node 2 ex_page 4076 = Some (Ok (p1, 4096))
    /\ alloc_in_page p1 16 = Ok (p2, 4052)
    /\ get_node p2 26 = Ok 4052.
Proof.
  destruct (free_node_page 2 ex_page [4048] [] [] 4076 ex_page_ok)
    as (p1 & H1 & H2 & H3 & H4 & _); [simpl; lia|].
  assert (E1 : get_node_size ex_page 4076 = 20) by (by vm_compute).
  assert (E2 : node_index ex_page 4076 = 26) by (by vm_compute).
  assert (E3 : page_bottom ex_page = 30) by (by vm_compute).
  assert (E5 : load_u16 ex_page OFS_top = 4048) by (by vm_compute).
  assert (Hfree : 16 <= get_page_free_space p1).
  { rewrite E2, E3 in H2. rewrite E1, E5 in H3. rewrite E2, E3 in H4.
    change (26 =? 30 - 2) with false in H2, H4. cbv iota in H2, H4.
    destruct H2 as (_ & _ & _ & _ & Hfs & _). rewrite H4 in Hfs.
    cbn [free_slots] in Hfs. destruct Hfs as (Hfl & _).
    unfold page_bottom in H4.
    unfold get_page_free_space. rewrite H3, Hfl, H4. by vm_compute. }
  destruct (freed_handle_is_reused 2 ex_page p1 [4048] [] [] 4076
              (4076 + get_node_size ex_page 4076) 16 ex_page_ok)
    as (p2 & Ha & Hg).
  - simpl. lia.
  - left. rewrite E2, E3. lia.
  - exact H1.
  - lia.
  - done.
  - exact Hfree.
  - rewrite ?E1, ?E2, ?E5 in H1. rewrite ?E1, ?E2, ?E5 in Ha. rewrite ?E1, ?E2, ?E5 in Hg. exists p1, p2. split_and!; done.
Defined.

End Slots.

(** ** Looking a page up in a row of the cache *)

Module Lookup.
Import Cache CacheIO.

(** A [CacheRow] (without the lock of the thread-safe build);
    [row_items] is the array of [row_capacity] items. *)
Record CacheRow : Type := mk_row {
  row_items : list CacheItem;
  row_capacity : nat;
  row_load_count : Z
}.

(** [lock_page]. *)
Definition lock_page (page : AvPage) : AvPage :=
  store_u32 OFS_lock_count (u32 (load_u32 page OFS_lock_count + 1)) page.

(** What [cache_lookup_scan_line] returns: the item that holds the page,
    with its column and its frame, or a null result and, in [*out_item],
    the column of an item that can take a page, if there is one. *)
Inductive scan_result : Type :=
| Found (cnt : nat) (item : CacheItem) (page : AvPage)
| NotFound (out_item : option nat).

Fixpoint scan_items (items : list CacheItem) (cnt : nat) (page_ofs : Z)
    (avail_item : option nat) : scan_result :=
  match items with
  | [] => NotFound avail_item
  | item :: rest =>
      match ci_page item with
      | None => NotFound (Some cnt)
      | Some page =>
          if ci_offset item =? 0
          then scan_items rest (S cnt) page_ofs (Some cnt)
          else if ci_offset item =? page_ofs then Found cnt item page
          else scan_items rest (S cnt) page_ofs avail_item
      end
  end.

Definition cache_lookup_scan_line (line : CacheRow) (page_ofs : Z)
    : scan_result :=
  scan_items (take (row_capacity line) (row_items line)) 0 page_ofs None.

(** The result of [cache_evict]; on success with [*out_item], as the
    column of the item and its frame. *)
Inductive evict_result : Type :=
| evict_success (col : nat) (page : AvPage)
| evict_fail
| evict_io_error
| evict_must_flush.

(** The loop of [cache_evict] that finds the oldest frame without a
    lock. *)
Fixpoint find_oldest (items : list CacheItem) (col : nat) (min_age : Z)
    (poldest : option (nat * CacheItem * AvPage))
    : option (nat * CacheItem * AvPage) :=
  match items with
  | [] => poldest
  | item :: rest =>
      match ci_page item with
      | None => poldest
      | Some page =>
          if negb (ci_offset item =? 0) && (ci_load_time item <? min_age)
             && (load_u32 page OFS_lock_count =? 0)
          then find_oldest rest (S col) (ci_load_time item)
                 (Some (col, item, page))
          else find_oldest rest (S col) min_age poldest
      end
  end.

Definition set_item (col : nat) (item : CacheItem) (line : CacheRow)
    : CacheRow :=
  mk_row (<[col := item]> (row_items line)) (row_capacity line)
         (row_load_count line).

Definition cache_evict (env : io_env) (log : list io_event) (auto_save : bool)
    (line : CacheRow) : CacheRow * list io_event * evict_result :=
  match find_oldest (take (row_capacity line) (row_items line)) 0
          (row_load_count line) None with
  | Some (col, item, page) =>
      if is_page_dirty page then
        if auto_save then
          let '(page', log', e) := write_page env log page in
          match e with
          | AVSTOR_OK =>
              (set_item col (mk_item (Some page') 0 (ci_load_time item)) line,
               log', evict_success col page')
          | _ => (set_item col (with_page page' item) line, log',
                  evict_io_error)
          end
        else (line, log, evict_must_flush)
      else
        (set_item col (mk_item (Some page) 0 (ci_load_time item)) line, log,
         evict_success col page)
  | None => (line, log, evict_fail)
  end.

(** The allocator as [cache_lookup] meets it: the result of each call of
    [bpool_alloc_page], in the order of the calls, and whether [realloc]
    succeeds. *)
Record mem_env : Type := mk_mem {
  bpool_alloc_page : nat -> option AvPage;
  realloc_ok : bool
}.

Definition null_item : CacheItem := mk_item None 0 0.

(** [item->page = page]. *)
Definition set_frame (i : nat) (page : option AvPage) (line : CacheRow)
    : CacheRow :=
  mk_row (alter (fun it => mk_item page (ci_offset it) (ci_load_time it)) i
            (row_items line))
         (row_capacity line) (row_load_count line).

(** [cache_line_realloc]; [call] counts the calls of [bpool_alloc_page]
    before this one. *)
Definition cache_line_realloc (mem : mem_env) (call : nat) (line : CacheRow)
    : CacheRow * option (nat * AvPage) :=
  let old_capacity := row_capacity line in
  if realloc_ok mem then
    let items := row_items line ++ replicate 4 null_item in
    match bpool_alloc_page mem call with
    | Some page =>
        (mk_row (<[old_capacity := mk_item (Some page) 0 0]> items)
                (old_capacity + 4) (row_load_count line),
         Some (old_capacity, page))
    | None => (mk_row items (old_capacity + 4) (row_load_count line), None)
    end
  else (mk_row (row_items line) (old_capacity + 4) (row_load_count line), None).

(** [cache_lookup] from the label [skip_evict]: the frame of the item in
    column [i] takes the page. [read] is [io_read]: the bytes read and
    the frame afterwards. *)
Definition skip_evict (read : Z -> AvPage -> Z * AvPage) (line : CacheRow)
    (i : nat) (page : AvPage) (page_ofs : Z) (is_existing : bool)
    : CacheRow * res nat :=
  if is_existing then
    let '(numread, page) := read page_ofs page in
    let '(page, e) := read_page numread page in
    match e with
    | AVSTOR_OK =>
        (mk_row (<[i := mk_item (Some (store_u32 OFS_lock_count 1 page))
                          page_ofs (row_load_count line)]> (row_items line))
                (row_capacity line) (u32 (row_load_count line + 1)),
         Ok i)
    | _ => (set_frame i (Some page) line, Throw e)
    end
  else
    (set_item i (mk_item (Some (Slots.cleared_frame page_ofs)) page_ofs 0) line,
     Ok i).

(** [cache_lookup] in the row of the page: the row and the log of the
    file afterwards, and the column of the item whose frame is returned,
    or the exception. *)
Definition cache_lookup (env : io_env) (read : Z -> AvPage -> Z * AvPage)
    (mem : mem_env) (auto_save : bool) (log : list io_event) (line : CacheRow)
    (page_ofs : Z) (is_existing : bool)
    : CacheRow * list io_event * res nat :=
  match cache_lookup_scan_line line page_ofs with
  | Found i item page =>
      (set_item i (with_page (lock_page page) item) line, log, Ok i)
  | NotFound first_empty_item =>
      let alloc :=
        match first_empty_item with
        | Some i => Some (i, bpool_alloc_page mem 0%nat)
        | None => None
        end in
      match alloc with
      | Some (i, Some page) =>
          let '(line, r) :=
            skip_evict read (set_frame i (Some page) line) i page page_ofs
              is_existing in
          (line, log, r)
      | _ =>
          let line :=
            match alloc with
            | Some (i, _) => set_frame i None line
            | None => line
            end in
          let '(line, log, result) := cache_evict env log auto_save line in
          match result with
          | evict_success col page =>
              let '(line, r) :=
                skip_evict read line col page page_ofs is_existing in
              (line, log, r)
          | evict_fail =>
              match cache_line_realloc mem
                      (match alloc with Some _ => 1 | None => 0 end)%nat line with
              | (line, Some (i, page)) =>
                  let '(line, r) :=
                    skip_evict read line i page page_ofs is_existing in
                  (line, log, r)
              | (line, None) => (line, log, Throw AVSTOR_NOMEM)
              end
          | evict_io_error => (line, log, Throw AVSTOR_IOERR)
          | evict_must_flush => (line, log, Throw AVSTOR_ABORT)
          end
      end
  end.

(** *** Eviction *)

(** The item in column [j] can be evicted: the search reaches it, as all
    items before it have a frame, its offset is not 0 and its frame has
    no lock. *)
Definition evictable (items : list CacheItem) (j : nat) (it : CacheItem)
    (page : AvPage) : Prop :=
  items !! j = Some it /\ ci_page it = Some page /\ ci_offset it <> 0
  /\ load_u32 page OFS_lock_count = 0
  /\ forall k itk, (k < j)%nat -> items !! k = Some itk -> ci_page itk <> None.

Lemma evictable_nil j it page : ~ evictable [] j it page.
Proof. by intros (H & _). Qed.

Lemma evictable_here it0 rest it page :
  evictable (it0 :: rest) 0 it page
  <-> it = it0 /\ ci_page it0 = Some page /\ ci_offset it0 <> 0
      /\ load_u32 page OFS_lock_count = 0.
Proof.
  unfold evictable. simpl. split.
  - intros ([= <-] & H2 & H3 & H4 & _). done.
  - intros (-> & H2 & H3 & H4). split_and!; try done. intros k itk Hk. lia.
Qed.

Lemma evictable_later it0 rest j it page :
  evictable (it0 :: rest) (S j) it page
  <-> ci_page it0 <> None /\ evictable rest j it page.
Proof.
  unfold evictable. simpl. split.
  - intros (H1 & H2 & H3 & H4 & H5). split_and!; try done.
    + apply (H5 0%nat it0); [lia | done].
    + intros k itk Hk Hl. apply (H5 (S k) itk); [lia | done].
  - intros (H0 & H1 & H2 & H3 & H4 & H5). split_and!; try done.
    intros [|k] itk Hk Hl; simpl in Hl.
    + by injection Hl as <-.
    + apply (H5 k itk); [lia | done].
Qed.

Lemma find_oldest_spec : forall items col min_age poldest,
  (find_oldest items col min_age poldest = poldest
   /\ forall j it page, evictable items j it page -> min_age <= ci_load_time it)
  \/ (exists j it page,
        find_oldest items col min_age poldest = Some ((col + j)%nat, it, page)
        /\ evictable items j it page /\ ci_load_time it < min_age
        /\ forall j' it' page',
             evictable items j' it' page' -> ci_load_time it <= ci_load_time it').
Proof.
  induction items as [|it0 rest IH]; intros col min_age poldest.
  - left. split; [done|]. intros j it page H. by apply evictable_nil in H.
  - cbn [find_oldest]. destruct (ci_page it0) as [page0|] eqn:Hp0.
    2: { left. split; [done|]. intros [|j] it page H.
         - apply evictable_here in H as (_ & H & _). congruence.
         - apply evictable_later in H as (H & _). done. }
    destruct (negb (ci_offset it0 =? 0) && (ci_load_time it0 <? min_age)
              && (load_u32 page0 OFS_lock_count =? 0)) eqn:Hc.
    + apply andb_prop in Hc as [Hc Hc3]. apply andb_prop in Hc as [Hc1 Hc2].
      assert (Hev : evictable (it0 :: rest) 0 it0 page0).
      { apply evictable_here. split_and!; try done; lia. }
      right.
      destruct (IH (S col) (ci_load_time it0) (Some (col, it0, page0)))
        as [[Hr Hmin]|(j & it & page & Hr & He & Hlt & Hmin)].
      * exists 0%nat, it0, page0. rewrite Hr, Nat.add_0_r.
        split_and!; [done | done | lia |].
        intros [|j'] it' page' H'.
        -- apply evictable_here in H' as (-> & _). lia.
        -- apply evictable_later in H' as (_ & H'). by eapply Hmin.
      * exists (S j), it, page. rewrite Hr.
        replace (col + S j)%nat with (S col + j)%nat by lia.
        split_and!; [done | by apply evictable_later; rewrite Hp0 | lia |].
        intros [|j'] it' page' H'.
        -- apply evictable_here in H' as (-> & _). lia.
        -- apply evictable_later in H' as (_ & H'). by eapply Hmin.
    + assert (Hhere : forall it page, evictable (it0 :: rest) 0 it page ->
                min_age <= ci_load_time it).
      { intros it page H. apply evictable_here in H as (-> & Hp & Ho & Hl).
        rewrite Hp0 in Hp. injection Hp as <-.
        destruct (Z.ltb_spec (ci_load_time it0) min_age); [|done].
        exfalso. revert Hc.
        replace (ci_offset it0 =? 0) with false by lia.
        replace (load_u32 page0 OFS_lock_count =? 0) with true by lia. done. }
      destruct (IH (S col) min_age poldest)
        as [[Hr Hmin]|(j & it & page & Hr & He & Hlt & Hmin)].
      * left. split; [done|]. intros [|j] it page H.
        -- by eapply Hhere.
        -- apply evictable_later in H as (_ & H). by eapply Hmin.
      * right. exists (S j), it, page. rewrite Hr.
        replace (col + S j)%nat with (S col + j)%nat by lia.
        split_and!; [done | by apply evictable_later; rewrite Hp0 | done |].
        intros [|j'] it' page' H'.
        -- specialize (Hhere _ _ H'). lia.
        -- apply evictable_later in H' as (_ & H'). by eapply Hmin.
Qed.

Lemma write_page_log env log p :
  (write_page env log p).1.2 = log ++ commit_events env [p].
Proof.
  destruct (is_page_dirty p) eqn:Hd.
  - destruct (Z.ltb_spec (env_write env (load_u32 p OFS_page_offset)) PAGE_SIZE).
    + rewrite write_page_fail by done. cbn [fst snd commit_events].
      by rewrite Hd.
    + rewrite write_page_ok by (intros _; done). done.
  - rewrite write_page_clean by done. cbn [fst snd commit_events].
    rewrite Hd. by rewrite app_nil_r.
Qed.

(** What [cache_evict] does to a row. *)
Lemma cache_evict_spec (env : io_env) (log log' : list io_event)
    (auto_save : bool) (line line' : CacheRow) (r : evict_result) :
  cache_evict env log auto_save line = (line', log', r) ->
  let items := take (row_capacity line) (row_items line) in
  (forall i it page,
     row_items line !! i = Some it -> ci_page it = Some page ->
     load_u32 page OFS_lock_count <> 0 -> row_items line' !! i = Some it)
  /\ match r with
     | evict_success col page' =>
         exists it page,
           evictable items col it page
           /\ ci_load_time it < row_load_count line
           /\ (forall j it' p', evictable items j it' p' ->
                 ci_load_time it <= ci_load_time it')
           /\ row_items line'
              = <[col := mk_item (Some page') 0 (ci_load_time it)]>
                  (row_items line)
           /\ is_page_dirty page' = false
           /\ (is_page_dirty page = true -> auto_save = true)
           /\ log' = log ++ commit_events env [page]
     | evict_fail =>
         line' = line /\ log' = log
         /\ forall j it page, evictable items j it page ->
              row_load_count line <= ci_load_time it
     | evict_must_flush => line' = line /\ log' = log /\ auto_save = false
     | evict_io_error => auto_save = true
     end.
Proof.
  intros Hev items. unfold cache_evict in Hev. fold items in Hev.
  destruct (find_oldest_spec items 0 (row_load_count line) None)
    as [[Hr Hmin]|(col & it & page & Hr & He & Hlt & Hmin)].
  { rewrite Hr in Hev. injection Hev as <- <- <-. done. }
  rewrite Hr in Hev. simpl in Hev.
  pose proof He as (Hl & Hp & Ho & Hlock & _).
  assert (Hl' : row_items line !! col = Some it).
  { subst items. apply lookup_take_Some in Hl as [? _]. done. }
  assert (Hother : forall it1 i it' page0,
    row_items line !! i = Some it' -> ci_page it' = Some page0 ->
    load_u32 page0 OFS_lock_count <> 0 ->
    row_items (set_item col it1 line) !! i = Some it').
  { intros it1 i it' page0 Hi Hpi Hli. cbn [set_item row_items].
    destruct (decide (i = col)) as [->|Hne].
    - rewrite Hl' in Hi. injection Hi as <-. congruence.
    - by rewrite list_lookup_insert_ne. }
  destruct (is_page_dirty page) eqn:Hd.
  - destruct auto_save.
    + pose proof (write_page_log env log page) as Hlog.
      destruct (write_page env log page) as [[page' log1] e] eqn:Hw.
      cbn [fst snd] in Hlog.
      destruct e; injection Hev as <- <- <-;
        (split; [by apply Hother|]); try done.
      exists it, page. split_and!; try done.
      by eapply write_page_result_clean.
    + injection Hev as <- <- <-. done.
  - injection Hev as <- <- <-. split; [by apply Hother|].
    exists it, page. split_and!; try done; [congruence|].
    cbn [commit_events]. rewrite Hd. by rewrite app_nil_r.
Qed.

(** X20. [cache_evict] takes the oldest frame that has no lock: the item
    it hands out is one that the search reaches, with an offset and
    without a lock, its load time is below the load count of the row and
    is the least of all such items; its frame is clean, a dirty frame
    having been written first, which only happens with [auto_save], and
    its offset is set to 0. Without [auto_save] a dirty frame gives
    [evict_must_flush] and nothing changes; when no item can be taken the
    result is [evict_fail]. Whatever the result, an item whose frame has
    a lock stays as it is. *)
Theorem cache_evict_oldest_unlocked (env : io_env) (log log' : list io_event)
    (auto_save : bool) (line line' : CacheRow) (r : evict_result) :
  cache_evict env log auto_save line = (line', log', r) ->
  let items := take (row_capacity line) (row_items line) in
  (forall i it page,
     row_items line !! i = Some it -> ci_page it = Some page ->
     load_u32 page OFS_lock_count <> 0 -> row_items line' !! i = Some it)
  /\ match r with
     | evict_success col page' =>
         exists it page,
           evictable items col it page
           /\ ci_load_time it < row_load_count line
           /\ (forall j it' p', evictable items j it' p' ->
                 ci_load_time it <= ci_load_time it')
           /\ row_items line'
              = <[col := mk_item (Some page') 0 (ci_load_time it)]>
                  (row_items line)
           /\ is_page_dirty page' = false
           /\ (is_page_dirty page = true -> auto_save = true)
           /\ log' = log ++ commit_events env [page]
     | evict_fail =>
         line' = line /\ log' = log
         /\ forall j it page, evictable items j it page ->
              row_load_count line <= ci_load_time it
     | evict_must_flush => line' = line /\ log' = log /\ auto_save = false
     | evict_io_error => auto_save = true
     end.
Proof. apply cache_evict_spec. Qed.

Definition ex_idle (ofs time : Z) : CacheItem :=
  mk_item (Some (ex_frame ofs 0)) ofs time.

Definition ex_busy (ofs time : Z) : CacheItem :=
  mk_item (Some (store_u32 OFS_lock_count 1 (ex_frame ofs 0))) ofs time.

(** A row of four items: a frame with a lock, two frames without one,
    and an item without a frame. *)
Definition ex_row : CacheRow :=
  mk_row [ex_busy 4096 1; ex_idle 8192 3; ex_idle 12288 2; null_item] 4 4.

Lemma cache_evict_oldest_unlocked_witness :
  exists line',
    cache_evict env_ok [] false ex_row
    = (line', [], evict_success 2 (ex_frame 12288 0))
    /\ row_items line' !! 0%nat = Some (ex_busy 4096 1)
    /\ row_items line' !! 2%nat
       = Some (mk_item (Some (ex_frame 12288 0)) 0 2).
Proof.
  eexists. split; [reflexivity|].
  destruct (cache_evict_oldest_unlocked env_ok [] [] false ex_row _
              (evict_success 2 (ex_frame 12288 0)) eq_refl)
    as (Hlocked & it & page & _ & _ & _ & Hitems & _).
  split.
  - apply (Hlocked 0%nat _ (store_u32 OFS_lock_count 1 (ex_frame 4096 0)));
      [done | done | by vm_compute].
  - reflexivity.
Defined.

(** *** Lookup *)

(** The row has as many items as its capacity says. *)
Definition row_wf (line : CacheRow) : Prop :=
  row_capacity line = length (row_items line).

Lemma scan_items_found page_ofs items : forall cnt avail k item page,
  scan_items items cnt page_ofs avail = Found k item page ->
  exists j, k = (cnt + j)%nat /\ items !! j = Some item
            /\ ci_page item = Some page /\ ci_offset item = page_ofs.
Proof.
  induction items as [|it0 rest IH]; intros cnt avail k item page H; [done|].
  cbn [scan_items] in H. destruct (ci_page it0) as [page0|] eqn:Hp0; [|done].
  destruct (Z.eqb_spec (ci_offset it0) 0).
  - apply IH in H as (j & -> & H1 & H2 & H3). exists (S j).
    split_and!; first [done | lia].
  - destruct (Z.eqb_spec (ci_offset it0) page_ofs).
    + injection H as <- <- <-. exists 0%nat. split_and!; first [done | lia].
    + apply IH in H as (j & -> & H1 & H2 & H3). exists (S j).
      split_and!; first [done | lia].
Qed.

Lemma scan_items_notfound page_ofs items : forall cnt avail k,
  scan_items items cnt page_ofs avail = NotFound (Some k) ->
  avail = Some k
  \/ exists j it, k = (cnt + j)%nat /\ items !! j = Some it
                  /\ (ci_page it = None \/ ci_offset it = 0).
Proof.
  induction items as [|it0 rest IH]; intros cnt avail k H.
  - injection H as ->. by left.
  - cbn [scan_items] in H. destruct (ci_page it0) as [page0|] eqn:Hp0.
    2: { injection H as <-. right. exists 0%nat, it0.
         split_and!; [lia | done | by left]. }
    destruct (Z.eqb_spec (ci_offset it0) 0).
    + apply IH in H as [H|(j & it & -> & H1 & H2)].
      * injection H as <-. right. exists 0%nat, it0.
        split_and!; [lia | done | by right].
      * right. exists (S j), it. split_and!; first [done | lia].
    + destruct (Z.eqb_spec (ci_offset it0) page_ofs); [done|].
      apply IH in H as [H|(j & it & -> & H1 & H2)]; [by left|].
      right. exists (S j), it. split_and!; first [done | lia].
Qed.

Lemma lock_count_one page : load_u32 (store_u32 OFS_lock_count 1 page) OFS_lock_count = 1.
Proof. by vm_compute. Qed.

Lemma cleared_frame_lock page_ofs :
  load_u32 (Slots.cleared_frame page_ofs) OFS_lock_count = 1.
Proof. by vm_compute. Qed.

(** The item that [cache_lookup] hands out after a miss. *)
Definition loaded (line' : CacheRow) (i : nat) (page_ofs : Z)
    (is_existing : bool) : Prop :=
  exists it page,
    row_items line' !! i = Some it /\ ci_page it = Some page
    /\ ci_offset it = page_ofs /\ load_u32 page OFS_lock_count = 1
    /\ (is_existing = false -> page = Slots.cleared_frame page_ofs).

Lemma skip_evict_spec read line i page page_ofs is_existing line' r :
  (i < length (row_items line))%nat ->
  skip_evict read line i page page_ofs is_existing = (line', r) ->
  (forall j, j <> i -> row_items line' !! j = row_items line !! j)
  /\ forall k, r = Ok k -> k = i /\ loaded line' i page_ofs is_existing.
Proof.
  intros Hi H. unfold skip_evict in H. destruct is_existing.
  - destruct (read page_ofs page) as [numread page1].
    destruct (read_page numread page1) as [page2 e].
    destruct e; injection H as <- <-; cbn [set_frame row_items];
      (split; [intros j Hj;
               first [by rewrite list_lookup_insert_ne
                     | by rewrite list_lookup_alter_ne] |]);
      intros k [= <-].
    split; [done|]. eexists _, _. split; [by apply list_lookup_insert_eq|].
    split_and!; first [done | apply lock_count_one].
  - injection H as <- <-. cbn [set_item row_items]. split.
    + intros j Hj. by rewrite list_lookup_insert_ne.
    + intros k [= <-]. split; [done|].
      eexists _, _. split; [by apply list_lookup_insert_eq|].
      split_and!; first [done | apply cleared_frame_lock].
Qed.

(** What [cache_lookup] does to a row. *)
Lemma cache_lookup_spec (env : io_env) (read : Z -> AvPage -> Z * AvPage)
    (mem : mem_env) (auto_save is_existing : bool) (log log' : list io_event)
    (line line' : CacheRow) (page_ofs : Z) (r : res nat) :
  row_wf line ->
  cache_lookup env read mem auto_save log line page_ofs is_existing
  = (line', log', r) ->
  (forall j it page,
     row_items line !! j = Some it -> ci_page it = Some page ->
     ci_offset it <> 0 -> ci_offset it <> page_ofs ->
     load_u32 page OFS_lock_count <> 0 -> row_items line' !! j = Some it)
  /\ forall i, r = Ok i ->
       match cache_lookup_scan_line line page_ofs with
       | Found k item page =>
           i = k /\ log' = log
           /\ row_items line !! i = Some item /\ ci_page item = Some page
           /\ ci_offset item = page_ofs
           /\ row_items line'
              = <[i := with_page (lock_page page) item]> (row_items line)
       | NotFound _ => loaded line' i page_ofs is_existing
       end.
Proof.
  intros Hwf H. unfold cache_lookup in H.
  assert (Htake : take (row_capacity line) (row_items line) = row_items line)
    by (apply take_ge; rewrite Hwf; lia).
  unfold cache_lookup_scan_line in *. rewrite Htake in *.
  destruct (scan_items (row_items line) 0 page_ofs None)
    as [k item page|first_empty_item] eqn:Hscan.
  { (* the page is in the row *)
    apply scan_items_found in Hscan as (j & -> & Hj & Hp & Ho).
    injection H as <- <- <-. cbn [set_item row_items]. split.
    - intros i it page0 Hi Hpi Ho1 Ho2 Hl.
      rewrite list_lookup_insert_ne; [done|]. intros <-.
      rewrite Hj in Hi. injection Hi as <-. done.
    - intros i [= <-]. done. }
  (* the item that the scan offers is free *)
  assert (Hfree : forall i, first_empty_item = Some i ->
            exists it, row_items line !! i = Some it
                       /\ (ci_page it = None \/ ci_offset it = 0)).
  { intros i ->. apply scan_items_notfound in Hscan as [?|(j & it & -> & ? & ?)];
      [done|]. by exists it. }
  assert (Hframe : forall i pg j it page,
            first_empty_item = Some i ->
            row_items line !! j = Some it -> ci_page it = Some page ->
            ci_offset it <> 0 ->
            row_items (set_frame i pg line) !! j = Some it).
  { intros i pg j it page Hi Hj Hp Ho. cbn [set_frame row_items].
    rewrite list_lookup_alter_ne; [done|]. intros <-.
    destruct (Hfree i Hi) as (it' & Hi' & Hf). rewrite Hj in Hi'.
    injection Hi' as <-. destruct Hf; congruence. }
  (* after a miss, from [cache_evict] on *)
  assert (Hevict : forall line1,
    length (row_items line1) = length (row_items line) ->
    row_capacity line1 = row_capacity line ->
    (forall j it page, row_items line !! j = Some it -> ci_page it = Some page ->
       ci_offset it <> 0 -> row_items line1 !! j = Some it) ->
    forall call,
    (let '(line, log, result) := cache_evict env log auto_save line1 in
     match result with
     | evict_success col page =>
         let '(line, r) :=
           skip_evict read line col page page_ofs is_existing in
         (line, log, r)
     | evict_fail =>
         match cache_line_realloc mem call line with
         | (line, Some (i, page)) =>
             let '(line, r) :=
               skip_evict read line i page page_ofs is_existing in
             (line, log, r)
         | (line, None) => (line, log, Throw AVSTOR_NOMEM)
         end
     | evict_io_error => (line, log, Throw AVSTOR_IOERR)
     | evict_must_flush => (line, log, Throw AVSTOR_ABORT)
     end) = (line', log', r) ->
    (forall j it page,
       row_items line !! j = Some it -> ci_page it = Some page ->
       ci_offset it <> 0 -> ci_offset it <> page_ofs ->
       load_u32 page OFS_lock_count <> 0 -> row_items line' !! j = Some it)
    /\ forall i, r = Ok i -> loaded line' i page_ofs is_existing).
  { intros line1 Hlen1 Hcap1 Hkeep1 call He.
    destruct (cache_evict env log auto_save line1) as [[line2 log2] result]
      eqn:Hev.
    pose proof (cache_evict_spec _ _ _ _ _ _ _ Hev) as [Hlocked Hres].
    assert (Htake1 : take (row_capacity line1) (row_items line1) = row_items line1)
      by (apply take_ge; rewrite Hcap1, Hlen1, Hwf; lia).
    rewrite Htake1 in Hres.
    assert (Hkeep2 : forall j it page,
              row_items line !! j = Some it -> ci_page it = Some page ->
              ci_offset it <> 0 -> load_u32 page OFS_lock_count <> 0 ->
              row_items line2 !! j = Some it).
    { intros j it page Hj Hp Ho Hl. apply (Hlocked j it page); try done.
      by apply (Hkeep1 j it page). }
    destruct result as [col page2| | |].
    - destruct Hres as (it & page & Hevb & _ & _ & Hitems & _).
      destruct Hevb as (Hcol & Hpc & _ & Hlc & _).
      destruct (skip_evict read line2 col page2 page_ofs is_existing)
        as [line3 r3] eqn:Hsk.
      injection He as <- <- <-.
      apply skip_evict_spec in Hsk as [Hoth Hok].
      2: { rewrite Hitems, length_insert. by apply lookup_lt_Some in Hcol. }
      split; [|intros i Hi; by destruct (Hok i Hi) as [-> ?]].
      intros j it' page' Hj Hp Ho1 Ho2 Hl. rewrite Hoth.
      + by apply (Hkeep2 j it' page').
      + intros ->. pose proof (Hkeep1 _ _ _ Hj Hp Ho1) as Hj1.
        rewrite Hcol in Hj1. injection Hj1 as <-. congruence.
    - destruct Hres as (-> & -> & _).
      unfold cache_line_realloc in He.
      destruct (realloc_ok mem).
      2: { injection He as <- <- <-. cbn [row_items]. split; [|done].
           intros j it page Hj Hp Ho1 Ho2 Hl. by apply (Hkeep1 j it page). }
      destruct (bpool_alloc_page mem call) as [pg|].
      2: { injection He as <- <- <-. cbn [row_items]. split; [|done].
           intros j it page Hj Hp Ho1 Ho2 Hl. rewrite lookup_app_l.
           - by apply (Hkeep1 j it page).
           - rewrite Hlen1. by apply lookup_lt_Some in Hj. }
      match type of He with
      | (let '(_, _) := skip_evict _ ?l _ _ _ _ in _) = _ => set (line3 := l) in *
      end.
      destruct (skip_evict read line3 (row_capacity line1) pg page_ofs is_existing)
        as [line4 r4] eqn:Hsk.
      injection He as <- <- <-.
      apply skip_evict_spec in Hsk as [Hoth Hok].
      2: { subst line3. cbn [row_items].
           rewrite length_insert, length_app, length_replicate.
           rewrite Hcap1, Hwf, Hlen1. lia. }
      split; [|intros i Hi; by destruct (Hok i Hi) as [-> ?]].
      intros j it page Hj Hp Ho1 Ho2 Hl.
      assert (Hjlt : (j < length (row_items line))%nat)
        by (by apply lookup_lt_Some in Hj).
      rewrite Hoth by (rewrite Hcap1, Hwf; lia).
      subst line3. cbn [row_items].
      rewrite list_lookup_insert_ne by (rewrite Hcap1, Hwf; lia).
      rewrite lookup_app_l by (rewrite Hlen1; lia).
      by apply (Hkeep1 j it page).
    - injection He as <- <- <-. split; [|done].
      intros j it page Hj Hp Ho1 Ho2 Hl. by apply (Hkeep2 j it page).
    - destruct Hres as (-> & -> & _). injection He as <- <- <-.
      split; [|done]. intros j it page Hj Hp Ho1 Ho2 Hl.
      by apply (Hkeep1 j it page). }
  destruct first_empty_item as [i|].
  - destruct (Hfree i eq_refl) as (it0 & Hi0 & Hf0).
    cbv zeta in H.
    destruct (bpool_alloc_page mem 0%nat) as [pg|].
    + destruct (skip_evict read (set_frame i (Some pg) line) i pg page_ofs
                  is_existing) as [line3 r3] eqn:Hsk.
      injection H as <- <- <-.
      apply skip_evict_spec in Hsk as [Hoth Hok].
      2: { cbn [set_frame row_items]. rewrite length_alter.
           by apply lookup_lt_Some in Hi0. }
      split; [|intros k Hk; by destruct (Hok k Hk) as [-> ?]].
      intros j it page Hj Hp Ho1 Ho2 Hl.
      assert (j <> i).
      { intros ->. rewrite Hj in Hi0. injection Hi0 as <-.
        destruct Hf0; congruence. }
      rewrite Hoth by done. by apply (Hframe i (Some pg) j it page).
    + apply (Hevict (set_frame i None line)) in H; [done | | done |].
      * cbn [set_frame row_items]. by rewrite length_alter.
      * intros j it page Hj Hp Ho. by apply (Hframe i None j it page).
  - cbv zeta in H. by apply (Hevict line) in H.
Qed.

Lemma scan_items_hit page_ofs item page : forall items k cnt avail,
  items !! k = Some item -> ci_page item = Some page ->
  ci_offset item = page_ofs -> page_ofs <> 0 ->
  (forall j itj, (j < k)%nat -> items !! j = Some itj ->
                 ci_page itj <> None /\ ci_offset itj <> page_ofs) ->
  scan_items items cnt page_ofs avail = Found (cnt + k) item page.
Proof.
  induction items as [|it0 rest IH]; intros k cnt avail Hk Hp Ho Hnz Hbefore;
    [done|].
  destruct k as [|k].
  - injection Hk as ->. cbn [scan_items]. rewrite Hp, Ho.
    replace (page_ofs =? 0) with false by lia. rewrite Z.eqb_refl.
    by rewrite Nat.add_0_r.
  - destruct (Hbefore 0%nat it0) as [Hp0 Ho0]; [lia | done |].
    cbn [scan_items]. destruct (ci_page it0) as [page0|]; [|done].
    replace (ci_offset it0 =? page_ofs) with false by lia.
    assert (Hrest : forall a, scan_items rest (S cnt) page_ofs a
                              = Found (cnt + S k) item page).
    { intros a. rewrite (IH k (S cnt) a); try done.
      - f_equal. lia.
      - intros j itj Hj Hl. apply (Hbefore (S j) itj); [lia | done]. }
    destruct (ci_offset it0 =? 0); apply Hrest.
Qed.

(** X21. A page that is in its row is handed out as it is: when the
    item in column [k] holds the page and the items before it have frames
    of other pages, [cache_lookup] returns that item; its frame has one
    lock more, nothing is read, written or evicted, and the rest of the
    row is unchanged. *)
Theorem cache_lookup_hit (env : io_env) (read : Z -> AvPage -> Z * AvPage)
    (mem : mem_env) (auto_save is_existing : bool) (log : list io_event)
    (line : CacheRow) (page_ofs : Z) (k : nat) (item : CacheItem)
    (page : AvPage) :
  row_wf line -> page_ofs <> 0 ->
  row_items line !! k = Some item -> ci_page item = Some page ->
  ci_offset item = page_ofs ->
  (forall j itj, (j < k)%nat -> row_items line !! j = Some itj ->
                 ci_page itj <> None /\ ci_offset itj <> page_ofs) ->
  cache_lookup env read mem auto_save log line page_ofs is_existing
  = (set_item k (with_page (lock_page page) item) line, log, Ok k).
Proof.
  intros Hwf Hnz Hk Hp Ho Hbefore. unfold cache_lookup, cache_lookup_scan_line.
  rewrite take_ge by (rewrite Hwf; lia).
  by rewrite (scan_items_hit page_ofs item page (row_items line) k 0 None
                Hk Hp Ho Hnz Hbefore).
Qed.

(** X22. A lookup never takes a frame that is in use: whatever
    [cache_lookup] does for a page (allocate a frame, evict one, extend
    the row, fail), every item that holds another page and whose frame
    has a lock stays as it is. When the page was not in the row and the
    lookup succeeds, the item handed out holds the page with exactly one
    lock, and for a new page its frame is cleared and carries the offset
    of the page. *)
Theorem cache_lookup_keeps_locked (env : io_env)
    (read : Z -> AvPage -> Z * AvPage) (mem : mem_env)
    (auto_save is_existing : bool) (log log' : list io_event)
    (line line' : CacheRow) (page_ofs : Z) (r : res nat) :
  row_wf line ->
  cache_lookup env read mem auto_save log line page_ofs is_existing
  = (line', log', r) ->
  (forall j it page,
     row_items line !! j = Some it -> ci_page it = Some page ->
     ci_offset it <> 0 -> ci_offset it <> page_ofs ->
     load_u32 page OFS_lock_count <> 0 -> row_items line' !! j = Some it)
  /\ ((forall j it, row_items line !! j = Some it -> ci_offset it <> page_ofs) ->
      forall i, r = Ok i -> loaded line' i page_ofs is_existing).
Proof.
  intros Hwf H.
  destruct (cache_lookup_spec _ _ _ _ _ _ _ _ _ _ _ Hwf H) as [Hlocked Hres].
  split; [exact Hlocked|]. intros Hmiss i Hi. specialize (Hres i Hi).
  unfold cache_lookup_scan_line in Hres.
  destruct (scan_items _ 0 page_ofs None) as [k item page|fe] eqn:Hscan;
    [|done].
  apply scan_items_found in Hscan as (j & _ & Hj & _ & Ho).
  apply lookup_take_Some in Hj as [Hj _]. by destruct (Hmiss j item Hj).
Qed.

Definition ex_read : Z -> AvPage -> Z * AvPage := fun _ page => (PAGE_SIZE, page).

Definition ex_mem : mem_env := mk_mem (fun _ => Some (fun _ => 0)) true.

Lemma ex_row_wf : row_wf ex_row.
Proof. reflexivity. Qed.

Lemma cache_lookup_hit_witness :
  cache_lookup env_ok ex_read ex_mem false [] ex_row 8192 true
  = (set_item 1 (with_page (lock_page (ex_frame 8192 0)) (ex_idle 8192 3)) ex_row,
     [], Ok 1%nat).
Proof.
  apply (cache_lookup_hit env_ok ex_read ex_mem false true [] ex_row 8192 1
           (ex_idle 8192 3) (ex_frame 8192 0) ex_row_wf);
    [lia | done | done | done |].
  intros [|j] itj Hj Hl; [|lia]. injection Hl as <-. split; [done|].
  simpl. lia.
Defined.

Lemma cache_lookup_keeps_locked_witness :
  exists line' log',
    cache_lookup env_ok ex_read ex_mem false [] ex_row 16384 false
    = (line', log', Ok 3%nat)
    /\ row_items line' !! 0%nat = Some (ex_busy 4096 1)
    /\ loaded line' 3 16384 false.
Proof.
  eexists _, _. split; [reflexivity|].
  destruct (cache_lookup_keeps_locked env_ok ex_read ex_mem false false [] _
              ex_row _ 16384 _ ex_row_wf eq_refl) as [Hlocked Hmiss].
  split.
  - apply (Hlocked 0%nat _ (store_u32 OFS_lock_count 1 (ex_frame 4096 0)));
      [done | done | done | done | by vm_compute].
  - apply Hmiss; [|done]. intros j it Hj.
    repeat (destruct j as [|j]; [injection Hj as <-; simpl; lia|]). done.
Defined.

(** *** A null frame pointer inside a row *)




End Lookup.

(** ** Handles and header words *)

Module Handles.
Import API Page Slots.

(** [get_ofs]: the handle of a node, from the offset of its page and its
    slot. *)
Definition get_ofs (p : AvPage) (node : Z) : Z :=
  u32 (load_u32 p OFS_page_offset + node_index p node).

(** [is_node_addr_valid], for a node of the page [p]. *)
Definition is_node_addr_valid (p : AvPage) (node : Z) : res bool :=
  n ← get_node p (node_index p node);
  Ok (n =? node).

Definition BF_MASK : Z := 3.

(** [BF(node)]. *)
Definition BF (p : AvPage) (node : Z) : Z :=
  Z.land (load_u16 p node) BF_MASK - 1.

Definition set_bf (node bf : Z) (p : AvPage) : AvPage :=
  store_u16 node
    (Z.lor (Z.land (load_u16 p node) 65532) (u16 (bf + 1))) p.

(** X23. The handle of a node leads back to the node: for a node of a
    well-formed page whose offset in the file is a multiple of the page
    size, the handle that [get_ofs] computes is not 0, its page part is
    the offset of the page, [lock_noderef] on it returns the node, and
    the node passes [is_node_addr_valid]. *)
Theorem handle_leads_to_node (p : AvPage) (ns fs : list Z) (n : Z) :
  page_ok p ns fs -> n ∈ ns ->
  load_u32 p OFS_page_offset mod PAGE_SIZE = 0 ->
  load_u32 p OFS_page_offset + PAGE_SIZE <= 2 ^ 32 ->
  let ref := get_ofs p n in
  ref <> 0
  /\ ref - ref mod PAGE_SIZE = load_u32 p OFS_page_offset
  /\ Values.lock_noderef p ref = Ok n
  /\ is_node_addr_valid p n = Ok true.
Proof.
  intros (Hb & Hc & Hbt & Hs & _) Hn Hal Hlim ref.
  pose proof (chain_in _ _ _ _ _ Hc Hn) as (Htop & Hsz & Hend).
  pose proof (chain_le _ _ _ _ Hc) as (Hle & _).
  destruct (Hs n Hn) as (H1 & H2 & H3 & H4).
  assert (Hpo : 0 <= load_u32 p OFS_page_offset).
  { unfold load_u32. pose proof (Hb OFS_page_offset).
    pose proof (Hb (OFS_page_offset + 1)). pose proof (Hb (OFS_page_offset + 2)).
    pose proof (Hb (OFS_page_offset + 3)). lia. }
  set (po := load_u32 p OFS_page_offset) in *.
  set (idx := node_index p n) in *.
  unfold OFS_index, PAGE_SIZE in *.
  assert (Hidx : 26 <= idx < 4096) by lia.
  assert (Href : ref = po + idx).
  { subst ref. unfold get_ofs. fold po idx. unfold u32.
    apply Z.mod_small. lia. }
  assert (Hmod : ref mod 4096 = idx).
  { rewrite Href. rewrite <- Z.add_mod_idemp_l, Hal by lia.
    apply Z.mod_small. lia. }
  assert (Hget : get_node p idx = Ok n).
  { unfold get_node. rewrite H4. unfold INVALID_INDEX.
    by replace (n =? 0) with false by lia. }
  split_and!.
  - lia.
  - lia.
  - unfold Values.lock_noderef. replace (ref =? 0) with false by lia.
    unfold PAGE_SIZE. by rewrite Hmod.
  - unfold is_node_addr_valid. fold idx. rewrite Hget. simpl.
    by rewrite Z.eqb_refl.
Qed.

(** The page of the examples at the offset 4096 of the file. *)
Definition ex_page_at : AvPage := store_u32 OFS_page_offset 4096 ex_page.

Lemma ex_page_at_ok : page_ok ex_page_at ([4048] ++ 4076 :: []) [].
Proof.
  apply (page_ok_write ex_page ex_page_at [4048] 4076 [] [] ex_page_ok).
  - apply store_u32_bytes, ex_page_ok.
  - intros i Hi _. apply CacheIO.store_u32_other.
    unfold OFS_top, OFS_page_offset in *. lia.
Qed.

Lemma handle_leads_to_node_witness :
  get_ofs ex_page_at 4076 = ex_ref
  /\ Values.lock_noderef ex_page_at ex_ref = Ok 4076
  /\ is_node_addr_valid ex_page_at 4076 = Ok true.
Proof.
  assert (E : get_ofs ex_page_at 4076 = ex_ref) by (by vm_compute).
  assert (E1 : load_u32 ex_page_at OFS_page_offset = 4096) by (by vm_compute).
  destruct (handle_leads_to_node ex_page_at _ [] 4076 ex_page_at_ok)
    as (_ & _ & H1 & H2).
  - apply elem_of_app. right. by left.
  - by rewrite E1.
  - rewrite E1. unfold PAGE_SIZE. lia.
  - rewrite E in H1. split_and!; [exact E | exact H1 | exact H2].
Defined.

Lemma set_bf_bits h bf :
  0 <= h < 65536 -> -1 <= bf <= 1 ->
  let h' := Z.lor (Z.land h 65532) (u16 (bf + 1)) in
  0 <= h' < 65536
  /\ Z.land h' BF_MASK - 1 = bf
  /\ Z.shiftr (Z.land h' NODE_TYPEMASK) 2 = Z.shiftr (Z.land h NODE_TYPEMASK) 2
  /\ Z.shiftr (Z.land h' NODE_SIZEMASK) 4 = Z.shiftr (Z.land h NODE_SIZEMASK) 4.
Proof.
  intros Hh Hbf.
  set (chk := fun x : Z =>
    forallb (fun b =>
      let x' := Z.lor (Z.land x 65532) (u16 (b + 1)) in
      (0 <=? x') && (x' <? 65536)
      && (Z.land x' BF_MASK - 1 =? b)
      && (Z.shiftr (Z.land x' NODE_TYPEMASK) 2 =? Z.shiftr (Z.land x NODE_TYPEMASK) 2)
      && (Z.shiftr (Z.land x' NODE_SIZEMASK) 4 =? Z.shiftr (Z.land x NODE_SIZEMASK) 4))
      [-1; 0; 1]).
  assert (H : chk h = true).
  { apply (forall_below chk 65536); [vm_compute; reflexivity | lia]. }
  unfold chk in H. rewrite forallb_forall in H.
  assert (Hin : In bf [-1; 0; 1]) by (simpl; lia).
  specialize (H bf Hin). cbv zeta in *. lia.
Qed.

Lemma size_keeps_bf a k :
  0 <= a < 64 -> 0 <= k < 1024 ->
  Z.land (Z.lor a (64 * k)) BF_MASK = Z.land a BF_MASK.
Proof.
  intros Ha Hk.
  set (chk := fun x : Z =>
    Z.land (Z.lor (x mod 64) (64 * (x / 64))) BF_MASK =? Z.land (x mod 64) BF_MASK).
  assert (H : chk (a + 64 * k) = true).
  { apply (forall_below chk 65536); [vm_compute; reflexivity | lia]. }
  unfold chk in H.
  replace ((a + 64 * k) mod 64) with a in H
    by (rewrite (Z.mul_comm 64 k), Z.mod_add by lia; symmetry; apply Z.mod_small; lia).
  replace ((a + 64 * k) / 64) with k in H
    by (rewrite (Z.mul_comm 64 k), Z.div_add by lia; rewrite (Z.div_small a) by lia; lia).
  lia.
Qed.

(** X24. The fields of the header word of a node do not disturb each
    other: [set_bf] stores the balance factor and leaves the type, the
    size and every other byte of the page as they are, and
    [set_node_size] stores an aligned size below the page size and leaves
    the balance factor and the type as they are. *)
Theorem header_fields_independent (p : AvPage) (node : Z) :
  is_bytes p ->
  (forall bf, -1 <= bf <= 1 ->
     BF (set_bf node bf p) node = bf
     /\ NODE_TYPE (set_bf node bf p) node = NODE_TYPE p node
     /\ get_node_size (set_bf node bf p) node = get_node_size p node
     /\ forall i, i <> node -> i <> node + 1 -> set_bf node bf p i = p i)
  /\ (forall sz, 0 <= sz < 4096 -> sz mod 4 = 0 ->
        get_node_size (set_node_size node sz p) node = sz
        /\ BF (set_node_size node sz p) node = BF p node
        /\ NODE_TYPE (set_node_size node sz p) node = NODE_TYPE p node).
Proof.
  intros Hb. pose proof (load_u16_range p node Hb) as Hh. split.
  - intros bf Hbf.
    destruct (set_bf_bits (load_u16 p node) bf Hh Hbf) as (Hr & H1 & H2 & H3).
    cbv zeta in Hr, H1, H2, H3.
    unfold BF, NODE_TYPE, get_node_size, set_bf.
    rewrite load_store_u16 by done. split_and!; try done.
    intros i Hi1 Hi2. by apply store_u16_other.
  - intros sz Hsz Hmod.
    destruct (set_node_size_spec p node sz Hb Hsz Hmod) as (H1 & H2 & _).
    split_and!; try done.
    unfold BF, set_node_size. f_equal.
    assert (Hland : Z.land (load_u16 p node) 63 = load_u16 p node mod 64)
      by (apply (Z.land_ones _ 6); lia).
    assert (Hsh : u16 (Z.shiftl sz 4) = 64 * (sz / 4)).
    { unfold u16. rewrite Z.shiftl_mul_pow2 by lia.
      pose proof (Z.div_mod sz 4). rewrite Z.mod_small; lia. }
    rewrite Hsh, Hland.
    assert (Hk : 0 <= sz / 4 < 1024)
      by (split; [apply Z.div_pos; lia | apply Z.div_lt_upper_bound; lia]).
    assert (Ha : 0 <= load_u16 p node mod 64 < 64) by (apply Z.mod_pos_bound; lia).
    destruct (hdr_bits (load_u16 p node mod 64) (sz / 4) Ha Hk) as (Hr & _).
    cbv zeta in Hr. rewrite load_store_u16 by done.
    rewrite size_keeps_bf by done. rewrite <- Hland.
    rewrite <- Z.land_assoc. done.
Qed.

Lemma header_fields_independent_witness :
  BF (set_bf 4076 (-1) ex_page) 4076 = -1
  /\ NODE_TYPE (set_bf 4076 (-1) ex_page) 4076 = AVSTOR_TYPE_STRING
  /\ get_node_size (set_bf 4076 (-1) ex_page) 4076 = 20.
Proof.
  assert (Hb : is_bytes ex_page) by apply ex_page_ok.
  destruct (header_fields_independent ex_page 4076 Hb) as [H _].
  destruct (H (-1)) as (H1 & H2 & H3 & _); [lia|].
  rewrite H2, H3. split_and!; [done | by vm_compute | by vm_compute].
Defined.

End Handles.
